(** * bytedocs-go: handler analysis, schema building and path normalisation

  A shallow embedding of the static-analysis core of bytedocs-go
  (the handler analyzer and the cache of package analyses of package
  [parser]; the path normalisation, the routes, the sections and the
  paths of the OpenAPI document of package [core]) together with the
  properties its specification states.

  Conventions.
  - Go strings are byte strings: [string] of the Standard Library.
  - Go maps whose contents are inspected by the analysis context are
    [gmap string _]; JSON-shaped values (schemas, examples) are trees
    whose objects are association lists with unique keys.
  - Functions of the Go standard library are modelled by definitions
    in the modules [GoStrings], [GoStrconv], [GoReflect] and [GoHTTP];
    Unicode-aware functions are modelled on the ASCII range.
  - Recursion that Go does not bound takes a bound [fuel] on its depth
    and returns [None] when the bound is reached; calls of
    [loadPackageAnalysis] are threads that move statement by
    statement. *)

From Stdlib Require Import ZArith String Ascii List Lia Bool.
From stdpp Require Import base gmap strings list.

Local Open Scope string_scope.

(** ** Go's [strings] package *)

Module GoStrings.

(** [stripPrefix pre s] is [Some rest] when [s = pre ++ rest]. *)
Fixpoint stripPrefix (pre s : string) : option string :=
  match pre, s with
  | EmptyString, _ => Some s
  | String a p, String b t => if Ascii.eqb a b then stripPrefix p t else None
  | String _ _, EmptyString => None
  end.

(** [strings.HasPrefix(s, prefix)]. *)
Definition HasPrefix (s pre : string) : bool :=
  match stripPrefix pre s with Some _ => true | None => false end.

(** [strings.HasSuffix(s, suffix)]. *)
Fixpoint HasSuffix (s suf : string) : bool :=
  if String.eqb s suf then true
  else
    match s with
    | EmptyString => false
    | String _ t => HasSuffix t suf
    end.

(** [strings.TrimPrefix(s, prefix)]. *)
Definition TrimPrefix (s pre : string) : string :=
  match stripPrefix pre s with Some rest => rest | None => s end.

(** [strings.Contains(s, substr)]. *)
Fixpoint Contains (s sub : string) : bool :=
  match stripPrefix sub s with
  | Some _ => true
  | None => match s with
            | EmptyString => false
            | String _ t => Contains t sub
            end
  end.

(** [strings.Split(s, sep)] for a one-byte separator, which is what every
    modelled call site passes. *)
Fixpoint Split (s : string) (sep : ascii) : list string :=
  match s with
  | EmptyString => [EmptyString]
  | String c t =>
      if Ascii.eqb c sep then EmptyString :: Split t sep
      else match Split t sep with
           | h :: r => String c h :: r
           | [] => [String c EmptyString]
           end
  end.

(** [strings.Join(elems, sep)]. *)
Fixpoint Join (elems : list string) (sep : string) : string :=
  match elems with
  | [] => EmptyString
  | [x] => x
  | x :: rest => x +:+ sep +:+ Join rest sep
  end.

(** Leftmost, non-overlapping replacement; [skip] counts the bytes of a
    match that are still to be dropped. *)
Fixpoint replaceFrom (old new s : string) (skip : nat) {struct s} : string :=
  match s with
  | EmptyString => EmptyString
  | String c t =>
      match skip with
      | S k => replaceFrom old new t k
      | O => if HasPrefix s old
             then new +:+ replaceFrom old new t (String.length old - 1)
             else String c (replaceFrom old new t 0)
      end
  end.

Fixpoint interleave (new s : string) : string :=
  match s with
  | EmptyString => new
  | String c t => new +:+ String c (interleave new t)
  end.

(** [strings.ReplaceAll(s, old, new)]; for an empty [old] Go inserts
    [new] around every character. *)
Definition ReplaceAll (s old new : string) : string :=
  match old with
  | EmptyString => interleave new s
  | String _ _ => replaceFrom old new s 0
  end.

(** The longest prefix of [s] whose bytes satisfy [p], and the rest. *)
Fixpoint span (p : ascii -> bool) (s : string) : string * string :=
  match s with
  | EmptyString => (EmptyString, EmptyString)
  | String c t =>
      if p c then let '(a, b) := span p t in (String c a, b)
      else (EmptyString, s)
  end.

Fixpoint allChars (p : ascii -> bool) (s : string) : bool :=
  match s with
  | EmptyString => true
  | String c t => p c && allChars p t
  end.

Definition nonEmpty (s : string) : bool :=
  match s with EmptyString => false | String _ _ => true end.

Fixpoint mapChars (f : ascii -> ascii) (s : string) : string :=
  match s with
  | EmptyString => EmptyString
  | String c t => String (f c) (mapChars f t)
  end.

Definition flatten (l : list string) : string :=
  fold_right String.append EmptyString l.

(** [strings.ToLower], modelled on the ASCII range: bytes outside
    ['A'..'Z'] are left unchanged. *)
Definition lowerByte (c : ascii) : ascii :=
  let n := N_of_ascii c in
  if (65 <=? n)%N && (n <=? 90)%N then ascii_of_N (n + 32) else c.

Definition ToLower (s : string) : string := mapChars lowerByte s.

(** [strings.EqualFold], modelled on the ASCII range. *)
Definition EqualFold (s t : string) : bool :=
  String.eqb (ToLower s) (ToLower t).

(** White space in the sense of [unicode.IsSpace], ASCII range. *)
Definition isSpace (c : ascii) : bool :=
  let n := N_of_ascii c in
  ((9 <=? n)%N && (n <=? 13)%N) || (n =? 32)%N.

Fixpoint trimLeft (p : ascii -> bool) (s : string) : string :=
  match s with
  | EmptyString => EmptyString
  | String c t => if p c then trimLeft p t else s
  end.

(** Drops the longest suffix whose bytes satisfy [p]. *)
Fixpoint trimRight (p : ascii -> bool) (s : string) : string :=
  match s with
  | EmptyString => EmptyString
  | String c t =>
      match trimRight p t with
      | EmptyString => if p c then EmptyString else String c EmptyString
      | r => String c r
      end
  end.

(** [strings.TrimSpace]. *)
Definition TrimSpace (s : string) : string :=
  trimRight isSpace (trimLeft isSpace s).

(** [strings.Trim(s, cutset)] for a one-byte cutset. *)
Definition Trim (s : string) (cut : ascii) : string :=
  trimRight (Ascii.eqb cut) (trimLeft (Ascii.eqb cut) s).

(** The double quote and the back quote. *)
Definition dquote : ascii := ascii_of_nat 34.
Definition bquote : ascii := ascii_of_nat 96.
Definition squote : ascii := ascii_of_nat 39.
Definition backslash : ascii := ascii_of_nat 92.

(** [quoted s] is [s] between double quotes. *)
Definition quoted (s : string) : string :=
  String dquote (s +:+ String dquote EmptyString).

(** [raw s] is [s] between back quotes. *)
Definition raw (s : string) : string :=
  String bquote (s +:+ String bquote EmptyString).

End GoStrings.

(** ** Go's [strconv] package *)

Module GoStrconv.
Import GoStrings.

Definition digitVal (c : ascii) : option N :=
  let n := N_of_ascii c in
  if (48 <=? n)%N && (n <=? 57)%N then Some (n - 48)%N else None.

Fixpoint parseDigits (s : string) (acc : N) : option N :=
  match s with
  | EmptyString => Some acc
  | String c t =>
      match digitVal c with
      | Some d => parseDigits t (acc * 10 + d)%N
      | None => None
      end
  end.

(** A non-empty run of decimal digits. *)
Definition parseUint (s : string) : option N :=
  match s with
  | EmptyString => None
  | String _ _ => parseDigits s 0
  end.

Definition maxInt64 : Z := 9223372036854775807.
Definition minInt64 : Z := -9223372036854775808.

(** [strconv.ParseInt(s, 10, 64)]: an optional sign, decimal digits, and a
    value in the range of [int64]; [None] stands for any error. *)
Definition ParseInt (s : string) : option Z :=
  match s with
  | EmptyString => None
  | String c t =>
      if Ascii.eqb c "-" then
        match parseUint t with
        | Some n => if (- Z.of_N n >=? minInt64)%Z then Some (- Z.of_N n)%Z else None
        | None => None
        end
      else
        match parseUint (if Ascii.eqb c "+" then t else s) with
        | Some n => if (Z.of_N n <=? maxInt64)%Z then Some (Z.of_N n) else None
        | None => None
        end
  end.

(** [strconv.Atoi] on a 64-bit platform. *)
Definition Atoi (s : string) : option Z := ParseInt s.

Definition digitChar (n : N) : ascii := ascii_of_N (48 + n).

Fixpoint itoaDigits (fuel : nat) (n : N) (acc : string) : string :=
  match fuel with
  | O => acc
  | S f =>
      let acc' := String (digitChar (n mod 10)) acc in
      if (n <? 10)%N then acc' else itoaDigits f (n / 10) acc'
  end.

(** [strconv.Itoa]. *)
Definition Itoa (z : Z) : string :=
  let digits n := itoaDigits (S (N.to_nat (N.log2 n))) n EmptyString in
  match z with
  | Z0 => "0"
  | Zpos p => digits (Npos p)
  | Zneg p => String "-" (digits (Npos p))
  end.

(** [strconv.ParseBool]. *)
Definition ParseBool (s : string) : option bool :=
  if existsb (String.eqb s) ["1"; "t"; "T"; "TRUE"; "true"; "True"] then Some true
  else if existsb (String.eqb s) ["0"; "f"; "F"; "FALSE"; "false"; "False"] then Some false
  else None.

(** *** [strconv.Unquote]

    Runes are code points in [N]; the input is taken to be valid UTF-8, as
    Go source text is, so a byte outside the ASCII range is copied as it
    stands. *)

Definition hexVal (c : ascii) : option N :=
  let n := N_of_ascii c in
  if (48 <=? n)%N && (n <=? 57)%N then Some (n - 48)%N
  else if (97 <=? n)%N && (n <=? 102)%N then Some (n - 87)%N
  else if (65 <=? n)%N && (n <=? 70)%N then Some (n - 55)%N
  else None.

Fixpoint parseHex (count : nat) (s : string) (acc : N) : option (N * string) :=
  match count with
  | O => Some (acc, s)
  | S k =>
      match s with
      | EmptyString => None
      | String c t =>
          match hexVal c with
          | Some d => parseHex k t (acc * 16 + d)%N
          | None => None
          end
      end
  end.

Definition octVal (c : ascii) : option N :=
  let n := N_of_ascii c in
  if (48 <=? n)%N && (n <=? 55)%N then Some (n - 48)%N else None.

(** [utf8.ValidRune]. *)
Definition validRune (r : N) : bool :=
  ((r <? 55296) || ((57343 <? r) && (r <=? 1114111)))%N.

(** [utf8.AppendRune] for a valid rune. *)
Definition encodeRune (r : N) : string :=
  let b n := ascii_of_N n in
  (if r <? 128 then String (b r) EmptyString
   else if r <? 2048 then
     String (b (192 + r / 64)) (String (b (128 + r mod 64)) EmptyString)
   else if r <? 65536 then
     String (b (224 + r / 4096))
       (String (b (128 + (r / 64) mod 64)) (String (b (128 + r mod 64)) EmptyString))
   else
     String (b (240 + r / 262144))
       (String (b (128 + (r / 4096) mod 64))
         (String (b (128 + (r / 64) mod 64))
           (String (b (128 + r mod 64)) EmptyString))))%N.

(** The number of continuation bytes announced by a leading byte. *)
Definition continuation (c : ascii) : nat :=
  let n := N_of_ascii c in
  if (n <? 192)%N then 0 else if (n <? 224)%N then 1
  else if (n <? 240)%N then 2 else 3.

Fixpoint takeBytes (k : nat) (s : string) : string * string :=
  match k, s with
  | S k', String c t => let '(a, b) := takeBytes k' t in (String c a, b)
  | _, _ => (EmptyString, s)
  end.

(** [strconv.UnquoteChar]: the bytes the next character contributes and the
    rest of the input. *)
Definition UnquoteChar (s : string) (quote : ascii) : option (string * string) :=
  match s with
  | EmptyString => None
  | String c t =>
      if Ascii.eqb c quote && (Ascii.eqb quote squote || Ascii.eqb quote dquote) then None
      else if (128 <=? N_of_ascii c)%N then
        let '(more, rest) := takeBytes (continuation c) t in
        Some (String c more, rest)
      else if negb (Ascii.eqb c backslash) then Some (String c EmptyString, t)
      else
        match t with
        | EmptyString => None
        | String e r =>
            let one n := Some (String (ascii_of_N n) EmptyString, r) in
            if Ascii.eqb e "a" then one 7%N
            else if Ascii.eqb e "b" then one 8%N
            else if Ascii.eqb e "f" then one 12%N
            else if Ascii.eqb e "n" then one 10%N
            else if Ascii.eqb e "r" then one 13%N
            else if Ascii.eqb e "t" then one 9%N
            else if Ascii.eqb e "v" then one 11%N
            else if Ascii.eqb e "x" then
              match parseHex 2 r 0 with
              | Some (v, r') => Some (String (ascii_of_N v) EmptyString, r')
              | None => None
              end
            else if Ascii.eqb e "u" || Ascii.eqb e "U" then
              match parseHex (if Ascii.eqb e "u" then 4 else 8) r 0 with
              | Some (v, r') =>
                  if validRune v then Some (encodeRune v, r') else None
              | None => None
              end
            else if match octVal e with Some _ => true | None => false end then
              match octVal e, r with
              | Some d0, String c1 (String c2 r') =>
                  match octVal c1, octVal c2 with
                  | Some d1, Some d2 =>
                      let v := ((d0 * 8 + d1) * 8 + d2)%N in
                      if (255 <? v)%N then None
                      else Some (String (ascii_of_N v) EmptyString, r')
                  | _, _ => None
                  end
              | _, _ => None
              end
            else if Ascii.eqb e backslash then one 92%N
            else if Ascii.eqb e squote || Ascii.eqb e dquote then
              if Ascii.eqb e quote then Some (String e EmptyString, r) else None
            else None
        end
  end.

(** The loop of [unquote] over an interpreted literal, after its opening
    quote; it ends at the closing quote, which must end the input. *)
Fixpoint unquoteLoop (fuel : nat) (s : string) (quote : ascii) (acc : string)
  : option string :=
  match fuel with
  | O => None
  | S f =>
      match s with
      | EmptyString => None
      | String c t =>
          if Ascii.eqb c quote then
            match t with EmptyString => Some acc | String _ _ => None end
          else if Ascii.eqb c (ascii_of_nat 10) then None
          else
            match UnquoteChar s quote with
            | None => None
            | Some (bytes, rest) =>
                if Ascii.eqb quote squote then
                  match rest with
                  | String q EmptyString =>
                      if Ascii.eqb q quote then Some (acc +:+ bytes) else None
                  | _ => None
                  end
                else unquoteLoop f rest quote (acc +:+ bytes)
            end
      end
  end.

Fixpoint dropCR (s : string) : string :=
  match s with
  | EmptyString => EmptyString
  | String c t => if Ascii.eqb c (ascii_of_nat 13) then dropCR t else String c (dropCR t)
  end.

(** The body of a raw literal after its opening back quote: everything up
    to the closing back quote, which must end the input. *)
Fixpoint rawBody (s : string) : option string :=
  match s with
  | EmptyString => None
  | String c t =>
      if Ascii.eqb c bquote then
        match t with EmptyString => Some EmptyString | String _ _ => None end
      else match rawBody t with
           | Some b => Some (String c b)
           | None => None
           end
  end.

(** [strconv.Unquote]; [None] stands for [ErrSyntax]. *)
Definition Unquote (s : string) : option string :=
  match s with
  | String q t =>
      if Ascii.eqb q bquote then
        match rawBody t with Some b => Some (dropCR b) | None => None end
      else if Ascii.eqb q dquote || Ascii.eqb q squote then
        unquoteLoop (String.length t) t q EmptyString
      else None
  | EmptyString => None
  end.

End GoStrconv.

(** ** Go's [reflect.StructTag] *)

Module GoReflect.
Import GoStrings GoStrconv.

(** A byte that may occur in the key of a tag pair. *)
Definition tagKeyChar (c : ascii) : bool :=
  let n := N_of_ascii c in
  (32 <? n)%N && negb (Ascii.eqb c ":") && negb (Ascii.eqb c dquote)
  && negb (n =? 127)%N.

(** Scans the quoted value of a pair after its opening quote: the bytes up
    to and including the closing quote, and the rest of the tag.  A byte
    after a backslash is taken as it stands. *)
Fixpoint scanQuoted (s : string) (escaped : bool) : option (string * string) :=
  match s with
  | EmptyString => None
  | String c t =>
      if escaped then
        match scanQuoted t false with
        | Some (b, r) => Some (String c b, r)
        | None => None
        end
      else if Ascii.eqb c dquote then Some (String c EmptyString, t)
      else
        match scanQuoted t (Ascii.eqb c backslash) with
        | Some (b, r) => Some (String c b, r)
        | None => None
        end
  end.

(** [StructTag.Lookup]: the loop over the [key:"value"] pairs. *)
Fixpoint lookupFrom (fuel : nat) (tag key : string) : option string :=
  match fuel with
  | O => None
  | S f =>
      match trimLeft (Ascii.eqb " ") tag with
      | EmptyString => None
      | String _ _ as tag1 =>
          let '(name, r) := span tagKeyChar tag1 in
          match name, r with
          | String _ _, String c1 (String c2 r2) =>
              if Ascii.eqb c1 ":" && Ascii.eqb c2 dquote then
                match scanQuoted r2 false with
                | None => None
                | Some (body, rest) =>
                    if String.eqb key name
                    then Unquote (String dquote body)
                    else lookupFrom f rest key
                end
              else None
          | _, _ => None
          end
      end
  end.

Definition Lookup (tag key : string) : option string :=
  lookupFrom (S (String.length tag)) tag key.

(** [StructTag.Get]. *)
Definition Get (tag key : string) : string :=
  match Lookup tag key with Some v => v | None => EmptyString end.

End GoReflect.

(** ** Go's [net/http] status codes *)

Module GoHTTP.

(** The table of status codes with their names ([http.StatusOK] and the
    like) and reason phrases ([http.StatusText]). *)
Definition statusTable : list (string * Z * string) :=
  [ ("StatusContinue", 100%Z, "Continue");
    ("StatusSwitchingProtocols", 101%Z, "Switching Protocols");
    ("StatusProcessing", 102%Z, "Processing");
    ("StatusEarlyHints", 103%Z, "Early Hints");
    ("StatusOK", 200%Z, "OK");
    ("StatusCreated", 201%Z, "Created");
    ("StatusAccepted", 202%Z, "Accepted");
    ("StatusNonAuthoritativeInfo", 203%Z, "Non-Authoritative Information");
    ("StatusNoContent", 204%Z, "No Content");
    ("StatusResetContent", 205%Z, "Reset Content");
    ("StatusPartialContent", 206%Z, "Partial Content");
    ("StatusMultiStatus", 207%Z, "Multi-Status");
    ("StatusAlreadyReported", 208%Z, "Already Reported");
    ("StatusIMUsed", 226%Z, "IM Used");
    ("StatusMultipleChoices", 300%Z, "Multiple Choices");
    ("StatusMovedPermanently", 301%Z, "Moved Permanently");
    ("StatusFound", 302%Z, "Found");
    ("StatusSeeOther", 303%Z, "See Other");
    ("StatusNotModified", 304%Z, "Not Modified");
    ("StatusUseProxy", 305%Z, "Use Proxy");
    ("StatusTemporaryRedirect", 307%Z, "Temporary Redirect");
    ("StatusPermanentRedirect", 308%Z, "Permanent Redirect");
    ("StatusBadRequest", 400%Z, "Bad Request");
    ("StatusUnauthorized", 401%Z, "Unauthorized");
    ("StatusPaymentRequired", 402%Z, "Payment Required");
    ("StatusForbidden", 403%Z, "Forbidden");
    ("StatusNotFound", 404%Z, "Not Found");
    ("StatusMethodNotAllowed", 405%Z, "Method Not Allowed");
    ("StatusNotAcceptable", 406%Z, "Not Acceptable");
    ("StatusProxyAuthRequired", 407%Z, "Proxy Authentication Required");
    ("StatusRequestTimeout", 408%Z, "Request Timeout");
    ("StatusConflict", 409%Z, "Conflict");
    ("StatusGone", 410%Z, "Gone");
    ("StatusLengthRequired", 411%Z, "Length Required");
    ("StatusPreconditionFailed", 412%Z, "Precondition Failed");
    ("StatusRequestEntityTooLarge", 413%Z, "Request Entity Too Large");
    ("StatusRequestURITooLong", 414%Z, "Request URI Too Long");
    ("StatusUnsupportedMediaType", 415%Z, "Unsupported Media Type");
    ("StatusRequestedRangeNotSatisfiable", 416%Z, "Requested Range Not Satisfiable");
    ("StatusExpectationFailed", 417%Z, "Expectation Failed");
    ("StatusTeapot", 418%Z, "I'm a teapot");
    ("StatusMisdirectedRequest", 421%Z, "Misdirected Request");
    ("StatusUnprocessableEntity", 422%Z, "Unprocessable Entity");
    ("StatusLocked", 423%Z, "Locked");
    ("StatusFailedDependency", 424%Z, "Failed Dependency");
    ("StatusTooEarly", 425%Z, "Too Early");
    ("StatusUpgradeRequired", 426%Z, "Upgrade Required");
    ("StatusPreconditionRequired", 428%Z, "Precondition Required");
    ("StatusTooManyRequests", 429%Z, "Too Many Requests");
    ("StatusRequestHeaderFieldsTooLarge", 431%Z, "Request Header Fields Too Large");
    ("StatusUnavailableForLegalReasons", 451%Z, "Unavailable For Legal Reasons");
    ("StatusInternalServerError", 500%Z, "Internal Server Error");
    ("StatusNotImplemented", 501%Z, "Not Implemented");
    ("StatusBadGateway", 502%Z, "Bad Gateway");
    ("StatusServiceUnavailable", 503%Z, "Service Unavailable");
    ("StatusGatewayTimeout", 504%Z, "Gateway Timeout");
    ("StatusHTTPVersionNotSupported", 505%Z, "HTTP Version Not Supported");
    ("StatusVariantAlsoNegotiates", 506%Z, "Variant Also Negotiates");
    ("StatusInsufficientStorage", 507%Z, "Insufficient Storage");
    ("StatusLoopDetected", 508%Z, "Loop Detected");
    ("StatusNotExtended", 510%Z, "Not Extended");
    ("StatusNetworkAuthenticationRequired", 511%Z, "Network Authentication Required") ].

(** [http.StatusText]: the reason phrase, empty for an unknown code. *)
Definition StatusText (code : Z) : string :=
  match find (fun e => Z.eqb (snd (fst e)) code) statusTable with
  | Some e => snd e
  | None => EmptyString
  end.

(** The value of the constant [http.<name>]. *)
Definition statusConstant (name : string) : option Z :=
  match find (fun e => String.eqb (fst (fst e)) name) statusTable with
  | Some e => Some (snd (fst e))
  | None => None
  end.

End GoHTTP.

(** ** Path normalisation ([pkg/core/types.go]) *)

Module PathNorm.
Import GoStrings.

Definition isBrace (c : ascii) : bool :=
  Ascii.eqb c "{" || Ascii.eqb c "}".

(** Character class [[^{}:]]. *)
Definition nameChar (c : ascii) : bool :=
  negb (isBrace c || Ascii.eqb c ":").

(** Character class [[^{}]]. *)
Definition patChar (c : ascii) : bool := negb (isBrace c).

(** One match of the regular expression [\{([^{}:]+):[^{}]+\}] at the
    start of [s]: the captured name and the length of the match.  Both
    repetitions are greedy; since each class excludes the character that
    must follow it, the greedy match is the only one. *)
Definition muxParamMatch (s : string) : option (string * nat) :=
  match s with
  | String c r =>
      if Ascii.eqb c "{" then
        let '(name, r1) := span nameChar r in
        match r1 with
        | String c1 r2 =>
            if nonEmpty name && Ascii.eqb c1 ":" then
              let '(pat, r3) := span patChar r2 in
              match r3 with
              | String c2 _ =>
                  if nonEmpty pat && Ascii.eqb c2 "}"
                  then Some (name, 3 + String.length name + String.length pat)
                  else None
              | EmptyString => None
              end
            else None
        | EmptyString => None
        end
      else None
  | EmptyString => None
  end.

(** [muxParamRegex.ReplaceAllString(s, "{$1}")]. *)
Fixpoint muxReplaceFrom (s : string) (skip : nat) {struct s} : string :=
  match s with
  | EmptyString => EmptyString
  | String c t =>
      match skip with
      | S k => muxReplaceFrom t k
      | O => match muxParamMatch s with
             | Some (name, len) =>
                 "{" +:+ name +:+ "}" +:+ muxReplaceFrom t (len - 1)
             | None => String c (muxReplaceFrom t 0)
             end
      end
  end.

Definition muxReplaceAll (s : string) : string := muxReplaceFrom s 0.

Definition convertPart (part : string) : string :=
  if HasPrefix part ":" then "{" +:+ TrimPrefix part ":" +:+ "}" else part.

Definition convertPathToOpenAPI (path : string) : string :=
  let path := if HasPrefix path "/" then path else "/" +:+ path in
  let parts := map convertPart (Split path "/") in
  let result := Join parts "/" in
  let result := ReplaceAll result "<" "{" in
  let result := ReplaceAll result ">" "}" in
  let result := muxReplaceAll result in
  let result := ReplaceAll result "{}/" "/" in
  if HasPrefix result "{}" then TrimPrefix result "{}" else result.


(** *** Shapes of route templates

    A route template is a list of segments separated by ["/"].  A segment is
    either a colon parameter [":name"] or a sequence of pieces: literal text,
    ["<name>"], ["{name}"] or ["{name:pattern}"]. *)

Inductive piece : Type :=
| Lit (text : string)
| Angle (name : string)
| Brace (name : string)
| BracePat (name pattern : string).

Inductive segment : Type :=
| Colon (name : string)
| Pieces (ps : list piece).

(** Characters with no meaning in any placeholder syntax. *)
Definition plainChar (c : ascii) : bool :=
  negb (Ascii.eqb c "/" || Ascii.eqb c ":" || Ascii.eqb c "<"
        || Ascii.eqb c ">" || Ascii.eqb c "{" || Ascii.eqb c "}").

(** Characters allowed in a pattern: anything but a separator, an angle
    bracket or a brace. *)
Definition patternChar (c : ascii) : bool :=
  negb (Ascii.eqb c "/" || Ascii.eqb c "<" || Ascii.eqb c ">"
        || Ascii.eqb c "{" || Ascii.eqb c "}").

Definition nameOK (n : string) : bool := nonEmpty n && allChars plainChar n.
Definition patternOK (p : string) : bool := nonEmpty p && allChars patternChar p.

Definition pieceOK (p : piece) : bool :=
  match p with
  | Lit s => allChars plainChar s
  | Angle n | Brace n => nameOK n
  | BracePat n pat => nameOK n && patternOK pat
  end.

Definition segmentOK (s : segment) : bool :=
  match s with
  | Colon n => nameOK n
  | Pieces ps => forallb pieceOK ps
  end.

Definition renderPiece (p : piece) : string :=
  match p with
  | Lit s => s
  | Angle n => "<" +:+ n +:+ ">"
  | Brace n => "{" +:+ n +:+ "}"
  | BracePat n pat => "{" +:+ n +:+ ":" +:+ pat +:+ "}"
  end.

Definition canonPiece (p : piece) : string :=
  match p with
  | Lit s => s
  | Angle n | Brace n | BracePat n _ => "{" +:+ n +:+ "}"
  end.

Definition renderSegment (s : segment) : string :=
  match s with
  | Colon n => ":" +:+ n
  | Pieces ps => flatten (map renderPiece ps)
  end.

Definition canonSegment (s : segment) : string :=
  match s with
  | Colon n => "{" +:+ n +:+ "}"
  | Pieces ps => flatten (map canonPiece ps)
  end.

(** The template as written by the framework (without the leading ["/"]),
    and its canonical OpenAPI form. *)
Definition renderPath (segs : list segment) : string :=
  Join (map renderSegment segs) "/".

Definition canonPath (segs : list segment) : string :=
  "/" +:+ Join (map canonSegment segs) "/".


(** *** Auxiliary notions for the proofs about the individual passes *)

Definition notSlash (c : ascii) : bool := negb (Ascii.eqb c "/").

Definition notOpen (c : ascii) : bool := negb (Ascii.eqb c "{").

(** The effect of the two angle-bracket replacements on one byte. *)
Definition angleToBrace (c : ascii) : ascii :=
  if Ascii.eqb ">" (if Ascii.eqb "<" c then "{" else c) then "}"
  else if Ascii.eqb "<" c then "{" else c.

(** A segment after the colon pass. *)
Definition colonFree (s : segment) : string :=
  match s with
  | Colon n => "{" +:+ n +:+ "}"
  | Pieces ps => flatten (map renderPiece ps)
  end.

(** A piece and a segment after the angle-bracket pass. *)
Definition bracedPiece (p : piece) : string :=
  match p with
  | Lit s => s
  | Angle n | Brace n => "{" +:+ n +:+ "}"
  | BracePat n pat => "{" +:+ n +:+ ":" +:+ pat +:+ "}"
  end.

Definition bracedSegment (s : segment) : string :=
  match s with
  | Colon n => "{" +:+ n +:+ "}"
  | Pieces ps => flatten (map bracedPiece ps)
  end.

End PathNorm.

(** ** Syntax trees ([go/ast])

    The fragment of Go's syntax trees that the analyzer inspects.  A
    [BasicLit] keeps its source text, quotes included, as [go/ast] does. *)

Module Ast.

(** [token.INT], [token.FLOAT], ... of a [BasicLit]. *)
Inductive litKind : Type := INT | FLOAT | IMAG | CHAR | STRING.

(** The operator of a [UnaryExpr]: [token.AND] or any other. *)
Inductive unaryOp : Type := AND | OtherOp.

(** The token of an assignment or a range clause: [token.DEFINE] ([:=]),
    [token.ASSIGN] ([=]), a compound assignment, or none (a range clause
    without variables). *)
Inductive assignTok : Type := DEFINE | ASSIGN | OtherAssign.

(** The keyword of a general declaration. *)
Inductive declTok : Type := VAR | CONST | TYPE | IMPORT.

(** The parts of an [ast.Field] other than its type: the names (none for
    an embedded field), the tag literal as written, and the texts of the
    line comment and of the doc comment. *)
Record fieldInfo : Type := mkFieldInfo {
  fieldNames : list string;
  fieldTag : option string;
  fieldComment_ : option (list string);
  fieldDoc : option (list string)
}.

#[warnings="-register-all"]
Inductive expr : Type :=
| Ident (name : string)
| BasicLit (kind : litKind) (value : string)
| CompositeLit (type : option expr) (elts : list expr)
| SelectorExpr (x : expr) (sel : string)
| StarExpr (x : expr)
| UnaryExpr (op : unaryOp) (x : expr)
| KeyValueExpr (key value : expr)
| CallExpr (fn : expr) (args : list expr)
| ArrayType (len : option expr) (elt : expr)
| MapType (key value : expr)
| InterfaceType
| StructType (fields : list (fieldInfo * expr))
| FuncType
| ChanType (value : expr)
| FuncLit (body : list stmt)
(** Any other expression ([BinaryExpr], [ParenExpr], [IndexExpr], ...),
    with its operands in the order [ast.Walk] visits them. *)
| OtherExpr (operands : list expr)

with stmt : Type :=
(** [DeclStmt] over a [GenDecl]. *)
| DeclStmt (tok : declTok) (specs : list spec)
| AssignStmt (lhs : list expr) (tok : assignTok) (rhs : list expr)
| RangeStmt (key value : option expr) (tok : assignTok) (x : expr)
    (body : list stmt)
| ExprStmt (x : expr)
| ReturnStmt (results : list expr)
| BlockStmt (body : list stmt)
| IfStmt (init : option stmt) (cond : expr) (body : list stmt)
    (els : option stmt)
| ForStmt (init : option stmt) (cond : option expr) (post : option stmt)
    (body : list stmt)
| GoStmt (call : expr)
| DeferStmt (call : expr)
(** Any other statement, with the statements and expressions below it in
    the order [ast.Walk] visits them. *)
| OtherStmt (parts : list (expr + stmt))

(** A [ValueSpec], or any other specification. *)
with spec : Type :=
| ValueSpec (names : list string) (type : option expr) (values : list expr)
| OtherSpec.

(** The field list of a struct type. *)
Abbreviation structFields := (list (fieldInfo * expr)).

(** The nodes to which the callback of [analyzeHandlerDetails] reacts. *)
Inductive node : Type :=
| NDecl (tok : declTok) (specs : list spec)
| NAssign (lhs : list expr) (tok : assignTok) (rhs : list expr)
| NRange (key value : option expr) (tok : assignTok) (x : expr)
| NCall (fn : expr) (args : list expr).

Definition optNodes {A : Type} (f : A -> list node) (o : option A) : list node :=
  match o with Some a => f a | None => [] end.

(** [ast.Inspect] with a callback that always returns [true]: the nodes of
    interest in the order of the depth-first traversal, parents before
    children. *)
Fixpoint inspectExpr (e : expr) : list node :=
  match e with
  | Ident _ | BasicLit _ _ | InterfaceType | FuncType => []
  | CompositeLit t elts =>
      optNodes inspectExpr t ++ flat_map inspectExpr elts
  | SelectorExpr x _ | StarExpr x | UnaryExpr _ x | ChanType x => inspectExpr x
  | KeyValueExpr k v | MapType k v => inspectExpr k ++ inspectExpr v
  | CallExpr f args =>
      NCall f args :: inspectExpr f ++ flat_map inspectExpr args
  | ArrayType l elt => optNodes inspectExpr l ++ inspectExpr elt
  | StructType fields => flat_map (fun f => inspectExpr (snd f)) fields
  | FuncLit body => flat_map inspectStmt body
  | OtherExpr es => flat_map inspectExpr es
  end

with inspectStmt (s : stmt) : list node :=
  match s with
  | DeclStmt tok specs => NDecl tok specs :: flat_map inspectSpec specs
  | AssignStmt lhs tok rhs =>
      NAssign lhs tok rhs :: flat_map inspectExpr lhs ++ flat_map inspectExpr rhs
  | RangeStmt k v tok x body =>
      NRange k v tok x
        :: optNodes inspectExpr k ++ optNodes inspectExpr v
           ++ inspectExpr x ++ flat_map inspectStmt body
  | ExprStmt x | GoStmt x | DeferStmt x => inspectExpr x
  | ReturnStmt rs => flat_map inspectExpr rs
  | BlockStmt body => flat_map inspectStmt body
  | IfStmt init cond body els =>
      optNodes inspectStmt init ++ inspectExpr cond
        ++ flat_map inspectStmt body ++ optNodes inspectStmt els
  | ForStmt init cond post body =>
      optNodes inspectStmt init ++ optNodes inspectExpr cond
        ++ optNodes inspectStmt post ++ flat_map inspectStmt body
  | OtherStmt parts =>
      flat_map (fun p => match p with
                         | inl e => inspectExpr e
                         | inr s => inspectStmt s
                         end) parts
  end

with inspectSpec (s : spec) : list node :=
  match s with
  | ValueSpec _ t vs => optNodes inspectExpr t ++ flat_map inspectExpr vs
  | OtherSpec => []
  end.

End Ast.

(** ** Go maps with string keys, as association lists

    Used where a map is nested in a value that is itself stored in such a
    map.  [aset] keeps the keys unique, so the list is a map; its order is
    the order of first insertion and is not observable from Go. *)

Module AList.

Section Ops.
Context {A : Type}.

Fixpoint alookup (k : string) (m : list (string * A)) : option A :=
  match m with
  | [] => None
  | (k', v) :: r => if String.eqb k' k then Some v else alookup k r
  end.

(** [m[k] = v]. *)
Fixpoint aset (k : string) (v : A) (m : list (string * A)) : list (string * A) :=
  match m with
  | [] => [(k, v)]
  | (k', v') :: r =>
      if String.eqb k' k then (k, v) :: r else (k', v') :: aset k v r
  end.

Definition akeys (m : list (string * A)) : list string := map fst m.

(** [for k, v := range src { dst[k] = v }]. *)
Definition amerge (dst src : list (string * A)) : list (string * A) :=
  fold_left (fun acc kv => aset (fst kv) (snd kv) acc) src dst.

End Ops.

End AList.

(** ** Schemas and example values

    The analyzer builds schemas as [map[string]interface{}] with the keys
    ["type"], ["format"], ["description"], ["items"], ["properties"],
    ["required"] and ["additionalProperties"] and no others; [schema] has
    one field per key.  A key that is absent, or bound to [nil], is [None];
    the key ["required"] is only ever set to a non-empty list, so the empty
    list stands for its absence.  A [nil] schema is [None : option schema]. *)

Module Json.

(** A [float64], by its IEEE 754 bit pattern. *)
Record float64 : Type := mkFloat64 { float64bits : Z }.

Definition floatZero : float64 := mkFloat64 0.

(** An example value held in an [interface{}]: [nil], a string, an [int],
    an [int64], a [float64], a [bool], a [[]interface{}] or a
    [map[string]interface{}]. *)
#[warnings="-register-all"]
Inductive value : Type :=
| VNil
| VString (s : string)
| VInt (n : Z)
| VInt64 (n : Z)
| VFloat (f : float64)
| VBool (b : bool)
| VArr (items : list value)
| VObj (entries : list (string * value)).

#[warnings="-register-all"]
Inductive schema : Type := mkSchema {
  sType : string;
  sFormat : option string;
  sDescription : option string;
  sItems : option schema;
  sProperties : option (list (string * schema));
  sRequired : list string;
  sAdditional : option schema
}.

(** [map[string]interface{}{"type": t}]. *)
Definition typeSchema (t : string) : schema :=
  mkSchema t None None None None [] None.

(** [map[string]interface{}{"type": t, "format": f}]. *)
Definition formatSchema (t f : string) : schema :=
  mkSchema t (Some f) None None None [] None.

Definition isNil (v : value) : bool :=
  match v with VNil => true | _ => false end.

(** [schemaMap["description"] = d]. *)
Definition setDescription (d : string) (s : schema) : schema :=
  mkSchema (sType s) (sFormat s) (Some d) (sItems s) (sProperties s)
    (sRequired s) (sAdditional s).

End Json.

(** ** The handler analyzer ([pkg/parser], gin variant) *)

Module Analyzer.
Import GoStrings GoStrconv Ast Json AList.

(** [core.RequestBody] and [core.Response]. *)
Record RequestBody : Type := mkRequestBody {
  rbContentType : string;
  rbSchema : option schema;
  rbExample : value;
  rbRequired : bool
}.

Record Response : Type := mkResponse {
  respDescription : string;
  respExample : value;
  respSchema : option schema;
  respContentType : string
}.

Record functionSignature : Type := mkSignature {
  receiver : string;
  results : list expr
}.

(** [analysisContext].  An entry of [values] may hold [nil]. *)
Record analysisContext : Type := mkContext {
  structs : gmap string structFields;
  functions : gmap string (list functionSignature);
  variables : gmap string expr;
  values : gmap string (option expr)
}.

Record handlerAnalysis : Type := mkAnalysis {
  haRequestBody : option RequestBody;
  haResponses : gmap string Response
}.

Fixpoint exprToString (e : expr) : string :=
  match e with
  | Ident n => n
  | StarExpr x => "*" +:+ exprToString x
  | SelectorExpr x sel => exprToString x +:+ "." +:+ sel
  | ArrayType _ elt => "[]" +:+ exprToString elt
  | MapType k v => "map[" +:+ exprToString k +:+ "]" +:+ exprToString v
  | _ => EmptyString
  end.

(** [exprToString] of an expression that may be [nil]. *)
Definition exprToStringOpt (o : option expr) : string :=
  match o with Some e => exprToString e | None => EmptyString end.

(** [httpStatusNameMap]: the table lists every status constant of
    [net/http] under its name. *)
Definition httpStatusNameMap (name : string) : option Z :=
  GoHTTP.statusConstant name.

(** [extractStatusCode].  The identifier case follows the variable
    bindings, which may be cyclic: [fuel] bounds the depth of the
    recursion and [None] means that it was exhausted. *)
Fixpoint extractStatusCode (fuel : nat) (e : expr) (ctx : analysisContext)
  : option string :=
  match fuel with
  | O => None
  | S f =>
      match e with
      | BasicLit INT v =>
          match Atoi (ReplaceAll v "_" EmptyString) with
          | Some num => Some (Itoa num)
          | None => Some EmptyString
          end
      | SelectorExpr _ sel =>
          match httpStatusNameMap sel with
          | Some code => Some (Itoa code)
          | None => Some EmptyString
          end
      | Ident name =>
          match variables ctx !! name with
          | Some typ => extractStatusCode f typ ctx
          | None => Some EmptyString
          end
      | _ => Some EmptyString
      end
  end.

Definition statusTextFromCode (code : string) : string :=
  match Atoi code with
  | Some num => GoHTTP.StatusText num
  | None => EmptyString
  end.

Definition isMarshal (full : string) : bool :=
  String.eqb full "json.Marshal" || String.eqb full "json.MarshalIndent".

(** [lookupFunctionResult]. *)
Definition firstResults (sigs : option (list functionSignature))
  : option (list expr) :=
  match sigs with
  | Some (sig :: _) => Some (results sig)
  | _ => None
  end.

Definition lookupFunctionResult (ctx : analysisContext)
    (receiver name : string) : list expr :=
  let byName :=
    match firstResults (functions ctx !! name) with
    | Some r => r
    | None => []
    end in
  match receiver with
  | EmptyString => byName
  | String _ _ =>
      match firstResults (functions ctx !! (receiver +:+ "." +:+ name)) with
      | Some r => r
      | None =>
          match firstResults
                  (functions ctx !! (TrimPrefix receiver "*" +:+ "." +:+ name)) with
          | Some r => r
          | None => byName
          end
      end
  end.

(** [resolveTypeFromArg]; the result may be [nil]. *)
Fixpoint resolveTypeFromArg (e : expr) (ctx : analysisContext) : option expr :=
  match e with
  | UnaryExpr AND (Ident name) =>
      match variables ctx !! name with
      | Some typ => Some typ
      | None => Some e
      end
  | UnaryExpr AND (CompositeLit t _) => t
  | Ident name =>
      match variables ctx !! name with
      | Some typ => Some typ
      | None => Some e
      end
  | CallExpr fn args =>
      (* inferTypeFromExpr(e, ctx), call case *)
      let viaIdent :=
        match fn with
        | Ident name =>
            match args with
            | [a] => if String.eqb name "new" then Some (StarExpr a) else None
            | _ => None
            end
        | _ => None
        end in
      let viaIdentResult :=
        match fn with
        | Ident name =>
            match lookupFunctionResult ctx EmptyString name with
            | r :: _ => Some r
            | [] => None
            end
        | _ => None
        end in
      match viaIdent with
      | Some t => Some t
      | None =>
          match viaIdentResult with
          | Some t => Some t
          | None =>
              match fn with
              | SelectorExpr x sel =>
                  if isMarshal (exprToString fn)
                  then Some (ArrayType None (Ident "byte"))
                  else
                    let receiverType := resolveTypeFromArg x ctx in
                    let receiverName := exprToStringOpt receiverType in
                    match lookupFunctionResult ctx receiverName sel with
                    | r :: _ => Some r
                    | [] => None
                    end
              | _ => None
              end
          end
      end
  | CompositeLit t _ => t
  | _ => Some e
  end.

(** [inferTypeFromExpr]; the result may be [nil].  Its call case is the
    call case of [resolveTypeFromArg], which forwards to it. *)
Definition inferTypeFromExpr (e : expr) (ctx : analysisContext) : option expr :=
  match e with
  | CompositeLit t _ => t
  | CallExpr _ _ => resolveTypeFromArg e ctx
  | UnaryExpr AND (CompositeLit t _) => t
  | UnaryExpr AND (Ident name) => variables ctx !! name
  | UnaryExpr _ _ => None
  | Ident _ | SelectorExpr _ _ | ArrayType _ _ | MapType _ _
  | StructType _ | StarExpr _ => Some e
  | BasicLit _ _ => Some e
  | _ => None
  end.

(** [resolveContentType], with [fuel] as for [extractStatusCode]. *)
Fixpoint resolveContentType (fuel : nat) (e : expr) (ctx : analysisContext)
  : option string :=
  match fuel with
  | O => None
  | S f =>
      match e with
      | BasicLit STRING v =>
          match Unquote v with
          | Some s => Some s
          | None => Some (Trim v dquote)
          end
      | Ident name =>
          let viaType :=
            match variables ctx !! name with
            | Some typExpr => resolveContentType f typExpr ctx
            | None => Some EmptyString
            end in
          match values ctx !! name with
          | Some (Some valExpr) =>
              match resolveContentType f valExpr ctx with
              | None => None
              | Some EmptyString => viaType
              | Some resolved => Some resolved
              end
          | _ => viaType
          end
      | CallExpr _ (a :: _) => resolveContentType f a ctx
      | StarExpr x => resolveContentType f x ctx
      | SelectorExpr _ _ => Some (exprToString e)
      | _ => Some EmptyString
      end
  end.

(** [responseCallInfo]: content type, status expression and payload
    expression of a response call; the outer [option] is the fuel of
    [resolveContentType]. *)
Definition responseCallInfo (fuel : nat) (fn : expr) (args : list expr)
    (ctx : analysisContext) : option (option (string * expr * expr)) :=
  match fn with
  | SelectorExpr _ method =>
      let two ct :=
        match args with
        | a0 :: a1 :: _ => Some (Some (ct, a0, a1))
        | _ => Some None
        end in
      if existsb (String.eqb method)
           ["JSON"; "IndentedJSON"; "PureJSON"; "SecureJSON"]
      then two "application/json"
      else if String.eqb method "AbortWithStatusJSON" then two "application/json"
      else if String.eqb method "Data" then
        match args with
        | a0 :: a1 :: a2 :: _ =>
            match resolveContentType fuel a1 ctx with
            | None => None
            | Some EmptyString => Some (Some ("application/octet-stream", a0, a2))
            | Some ct => Some (Some (ct, a0, a2))
            end
        | _ => Some None
        end
      else if String.eqb method "String" then two "text/plain"
      else if existsb (String.eqb method) ["XML"; "IndentedXML"]
      then two "application/xml"
      else if String.eqb method "YAML" then two "application/x-yaml"
      else if String.eqb method "ProtoBuf" then two "application/x-protobuf"
      else if String.eqb method "JSONP" then two "application/javascript"
      else Some None
  | _ => Some None
  end.

(** [resolveResponsePayloadExpr], with [fuel] as before. *)
Fixpoint resolveResponsePayloadExpr (fuel : nat) (e : expr)
    (ctx : analysisContext) : option expr :=
  match fuel with
  | O => None
  | S f =>
      match e with
      | UnaryExpr AND x => resolveResponsePayloadExpr f x ctx
      | Ident name =>
          let viaType :=
            match variables ctx !! name with
            | Some typ => Some typ
            | None => Some e
            end in
          match values ctx !! name with
          | Some (Some origin) =>
              match origin with
              | CallExpr (SelectorExpr _ _ as sel) (a :: _) =>
                  if isMarshal (exprToString sel)
                  then resolveResponsePayloadExpr f a ctx
                  else viaType
              | CompositeLit _ _ => Some origin
              | _ => viaType
              end
          | _ => viaType
          end
      | CallExpr fn args =>
          match fn with
          | SelectorExpr x sel =>
              let viaResults :=
                match lookupFunctionResult ctx
                        (exprToStringOpt (resolveTypeFromArg x ctx)) sel with
                | r :: _ => Some r
                | [] => Some e
                end in
              match args with
              | a :: _ =>
                  if isMarshal (exprToString fn)
                  then resolveResponsePayloadExpr f a ctx
                  else viaResults
              | [] => viaResults
              end
          | Ident name =>
              let viaResults :=
                match lookupFunctionResult ctx EmptyString name with
                | r :: _ => Some r
                | [] => Some e
                end in
              match args with
              | [a] => if String.eqb name "new" then Some (StarExpr a) else viaResults
              | _ => viaResults
              end
          | _ => Some e
          end
      | _ => Some e
      end
  end.

(** [bindingMethods]. *)
Definition bindingMethods : gmap string string :=
  list_to_map
    [ ("Bind", "auto"); ("MustBind", "auto"); ("ShouldBind", "auto");
      ("BindJSON", "application/json"); ("MustBindWith", "auto");
      ("ShouldBindJSON", "application/json"); ("BindXML", "application/xml");
      ("ShouldBindXML", "application/xml"); ("BindYAML", "application/x-yaml");
      ("ShouldBindYAML", "application/x-yaml");
      ("BindProto", "application/protobuf");
      ("BindProtobuf", "application/protobuf");
      ("ShouldBindProto", "application/protobuf");
      ("ShouldBindProtoBuf", "application/protobuf");
      ("BindProtoBuf", "application/protobuf"); ("BindBodyWith", "auto");
      ("ShouldBindBodyWith", "auto") ].

(** [isBindingCall], on the function position of the call. *)
Definition isBindingCall (fn : expr) : bool :=
  match fn with
  | SelectorExpr _ sel =>
      match bindingMethods !! sel with Some _ => true | None => false end
  | _ => false
  end.

(** ** Registration of local variables *)

Definition bindVariable (name : string) (inferred : expr)
    (valueExpr : option expr) (ctx : analysisContext) : analysisContext :=
  mkContext (structs ctx) (functions ctx)
    (<[name := inferred]> (variables ctx))
    (<[name := valueExpr]> (values ctx)).

Definition isBound (name : string) (ctx : analysisContext) : bool :=
  match variables ctx !! name with Some _ => true | None => false end.

(** The value a specification or assignment pairs with its [idx]-th name:
    the only value if there is exactly one, the [idx]-th otherwise. *)
Definition targetValue (vals : list expr) (idx : nat) : option expr :=
  match vals with
  | [v] => Some v
  | _ => nth_error vals idx
  end.

Definition registerSpecName (type : option expr) (vals : list expr)
    (ctx : analysisContext) (idx : nat) (name : string) : analysisContext :=
  if String.eqb name "_" then ctx
  else if isBound name ctx then ctx
  else
    match type with
    | Some t => bindVariable name t (targetValue vals idx) ctx
    | None =>
        match targetValue vals idx with
        | Some valueExpr =>
            match inferTypeFromExpr valueExpr ctx with
            | Some inferred => bindVariable name inferred (Some valueExpr) ctx
            | None => ctx
            end
        | None => ctx
        end
    end.

(** [for idx, x := range xs] over a state. *)
Fixpoint foldIndexed {S A : Type} (f : S -> nat -> A -> S) (idx : nat)
    (xs : list A) (s : S) : S :=
  match xs with
  | [] => s
  | x :: r => foldIndexed f (Datatypes.S idx) r (f s idx x)
  end.

Definition registerSpec (ctx : analysisContext) (s : spec) : analysisContext :=
  match s with
  | ValueSpec names type vals =>
      foldIndexed (registerSpecName type vals) 0 names ctx
  | OtherSpec => ctx
  end.

(** [registerDeclarationTypes]. *)
Definition registerDeclarationTypes (tok : declTok) (specs : list spec)
    (ctx : analysisContext) : analysisContext :=
  match tok with
  | VAR | CONST => fold_left registerSpec specs ctx
  | _ => ctx
  end.

Definition registerAssignedName (rhs : list expr) (ctx : analysisContext)
    (idx : nat) (lhs : expr) : analysisContext :=
  match lhs with
  | Ident name =>
      if String.eqb name "_" then ctx
      else if isBound name ctx then ctx
      else
        match nth_error rhs idx with
        | Some r =>
            match inferTypeFromExpr r ctx with
            | Some inferred => bindVariable name inferred (Some r) ctx
            | None => ctx
            end
        | None => ctx
        end
  | _ => ctx
  end.

(** [registerAssignmentTypes]. *)
Definition registerAssignmentTypes (lhs : list expr) (tok : assignTok)
    (rhs : list expr) (ctx : analysisContext) : analysisContext :=
  match tok with
  | DEFINE => foldIndexed (registerAssignedName rhs) 0 lhs ctx
  | _ => ctx
  end.

(** [registerRangeTypes]. *)
Definition registerRangeTypes (value : option expr) (tok : assignTok)
    (x : expr) (ctx : analysisContext) : analysisContext :=
  match tok with
  | DEFINE =>
      match inferTypeFromExpr x ctx with
      | None => ctx
      | Some collectionType =>
          match value with
          | Some (Ident name) =>
              if String.eqb name "_" then ctx
              else if isBound name ctx then ctx
              else
                match collectionType with
                | ArrayType _ elt => bindVariable name elt None ctx
                | MapType _ v => bindVariable name v None ctx
                | _ => ctx
                end
          | _ => ctx
          end
      end
  | _ => ctx
  end.

(** ** Tags and names of struct fields *)

(** [lowerFirst]; [unicode.ToLower] on the ASCII range. *)
Definition lowerFirst (value : string) : string :=
  match value with
  | EmptyString => EmptyString
  | String c t => String (lowerByte c) t
  end.

(** [resolveJSONFieldName]: the serialization name and the skip flag. *)
Definition resolveJSONFieldName (fieldName tag : string) : string * bool :=
  if String.eqb tag "-" then (EmptyString, true)
  else
    let fallback :=
      match fieldName with
      | EmptyString => (EmptyString, true)
      | String _ _ => (lowerFirst fieldName, false)
      end in
    match tag with
    | EmptyString => fallback
    | String _ _ =>
        match Split tag "," with
        | (String _ _ as first) :: _ => (first, false)
        | _ => fallback
        end
    end.

(** [isFieldRequired]. *)
Definition isFieldRequired (jsonTag bindingTag validateTag : string) : bool :=
  if Contains jsonTag "omitempty" then false
  else if Contains bindingTag "omitempty" then false
  else if Contains bindingTag "required" then true
  else if Contains validateTag "required" then true
  else false.

(** [getStructTag]. *)
Definition getStructTag (field : fieldInfo) (key : string) : string :=
  match fieldTag field with
  | None => EmptyString
  | Some value =>
      let unquoted :=
        match Unquote value with
        | Some u => u
        | None => Trim value bquote
        end in
      match unquoted with
      | EmptyString => EmptyString
      | String _ _ => GoReflect.Get unquoted key
      end
  end.

Definition commentText (texts : list string) : string :=
  Join (map (fun t => TrimSpace (TrimPrefix t "//")) texts) " ".

(** [fieldComment]. *)
Definition fieldComment (field : fieldInfo) : string :=
  match fieldComment_ field with
  | Some texts => commentText texts
  | None =>
      match fieldDoc field with
      | Some texts => commentText texts
      | None => EmptyString
      end
  end.

(** ** Fixed schemas *)

(** [primitiveSchemaForIdent]; [None] is the [nil, nil] result. *)
Definition primitiveSchemaForIdent (name : string) : option (schema * value) :=
  let lower := ToLower name in
  let among l := existsb (String.eqb lower) l in
  if among ["string"; "rune"] then Some (typeSchema "string", VString "string")
  else if among ["bool"] then Some (typeSchema "boolean", VBool true)
  else if among ["int"; "int8"; "int16"; "int32"; "int64"; "uint"; "uint8";
              "uint16"; "uint32"; "uint64"; "uintptr"] then
    let fmt :=
      if among ["int64"; "uint64"] then Some "int64"
      else if among ["int32"; "uint32"] then Some "int32"
      else None in
    Some (mkSchema "integer" fmt None None None [] None, VInt 0)
  else if among ["float32"; "float64"] then
    let fmt := if among ["float64"] then "double" else "float" in
    Some (formatSchema "number" fmt, VFloat floatZero)
  else if among ["byte"] then Some (formatSchema "integer" "int32", VInt 0)
  else if among ["interface{}"] then Some (typeSchema "object", VObj [])
  else None.

(** [schemaForSelector]. *)
Definition schemaForSelector (fullName : string) : option (schema * value) :=
  if String.eqb fullName "time.Time" then
    Some (formatSchema "string" "date-time", VString "2024-01-01T00:00:00Z")
  else if existsb (String.eqb fullName)
            ["uuid.UUID"; "guuid.UUID"; "github.com/google/uuid.UUID"] then
    Some (formatSchema "string" "uuid",
          VString "123e4567-e89b-12d3-a456-426614174000")
  else None.

(** [literalKeyToString]. *)
Definition literalKeyToString (e : expr) : string :=
  match e with
  | BasicLit STRING v =>
      match Unquote v with
      | Some s => s
      | None => Trim v dquote
      end
  | Ident n => n
  | _ => EmptyString
  end.

(** [defaultExampleFromSchema] on a schema that is not [nil]. *)
Fixpoint defaultExample (s : schema) : value :=
  match s with
  | mkSchema kind format _ items props _ _ =>
      if String.eqb kind "string" then
        match format with
        | Some f =>
            if String.eqb f "date-time" then VString "2024-01-01T00:00:00Z"
            else if String.eqb f "uuid"
            then VString "123e4567-e89b-12d3-a456-426614174000"
            else VString "string"
        | None => VString "string"
        end
      else if String.eqb kind "integer" then VInt 0
      else if String.eqb kind "number" then VFloat floatZero
      else if String.eqb kind "boolean" then VBool false
      else if String.eqb kind "array" then
        match items with
        | Some it =>
            match defaultExample it with
            | VNil => VArr []
            | ex => VArr [ex]
            end
        | None => VArr []
        end
      else if String.eqb kind "object" then
        match props with
        | Some ps =>
            VObj (fold_left
                    (fun acc q => aset (fst q) (defaultExample (snd q)) acc)
                    ps [])
        | None => VObj []
        end
      else VNil
  end.

(** [defaultExampleFromSchema]. *)
Definition defaultExampleFromSchema (s : option schema) : value :=
  match s with
  | Some sch => defaultExample sch
  | None => VNil
  end.

(** The map [visited] of the schema builder. *)
Abbreviation visitedMap := (gmap string bool).

(** ** Examples against schemas *)

Section Runtime.

(** Three parts of the Go runtime are taken as given: [strconv.ParseFloat]
    at 64 bits, [json.Unmarshal] into an [interface{}] (both with [None]
    for an error), and the order in which a [range] loop over a map visits
    its entries: [rangeFirst p m] names the key that the search for a
    case-insensitive match of [p] in [m] meets first.  The choice is only
    followed when it names a matching entry, so every function
    [rangeFirst] describes an iteration order Go may take. *)
Variable ParseFloat : string -> option float64.
Variable jsonUnmarshal : string -> option value.
Variable rangeFirst : string -> list (string * value) -> string.

(** [convertExampleValue], on a schema that is not [nil]. *)
Definition convertExampleValue (raw : string) (sch : schema)
    (fallback : value) : value :=
  let trimmed := TrimSpace raw in
  match trimmed with
  | EmptyString => fallback
  | String _ _ =>
      let coerced :=
        if String.eqb (sType sch) "integer" then
          match ParseInt trimmed with
          | Some num => VInt64 num
          | None => VString raw
          end
        else if String.eqb (sType sch) "number" then
          match ParseFloat trimmed with
          | Some num => VFloat num
          | None => VString raw
          end
        else if String.eqb (sType sch) "boolean" then
          match ParseBool trimmed with
          | Some b => VBool b
          | None => VString raw
          end
        else VString raw in
      if HasPrefix trimmed "{" || HasPrefix trimmed "[" then
        match jsonUnmarshal trimmed with
        | Some val => val
        | None => coerced
        end
      else coerced
  end.

(** The entry that the inner loop of [normalizeExampleWithSchema] stops
    at: some entry of [exMap] whose key equals [propName] up to case. *)
Definition foldMatch (propName : string) (exMap : list (string * value))
  : option (string * value) :=
  let candidates := List.filter (fun kv => EqualFold (fst kv) propName) exMap in
  match candidates with
  | [] => None
  | first :: _ =>
      match find (fun kv => String.eqb (fst kv) (rangeFirst propName exMap))
                 candidates with
      | Some kv => Some kv
      | None => Some first
      end
  end.

(** One round of the loop over the properties: the normalized example and
    the used keys so far. *)
Definition normalizeProp (recur : schema -> value -> value)
    (exMap : list (string * value))
    (acc : list (string * value) * list string)
    (propName : string) (propSchema : schema)
  : list (string * value) * list string :=
  let '(normalized, usedKeys) := acc in
  let found :=
    match alookup propName exMap with
    | Some v => Some (propName, v)
    | None => foldMatch propName exMap
    end in
  match found with
  | Some (k, v) =>
      (if isNil v then normalized
       else aset propName (recur propSchema v) normalized,
       k :: usedKeys)
  | None => (normalized, usedKeys)
  end.

(** The last loop: entries whose key was not used are kept as they are. *)
Definition keepUnused (usedKeys : list string)
    (normalized : list (string * value)) (kv : string * value)
  : list (string * value) :=
  if existsb (String.eqb (fst kv)) usedKeys then normalized
  else aset (fst kv) (snd kv) normalized.

(** [normalizeExampleWithSchema] on a schema that is not [nil]. *)
Fixpoint normalizeExample (s : schema) (example : value) {struct s} : value :=
  match s with
  | mkSchema kind _ _ items props _ _ =>
      match example with
      | VNil => VNil
      | VArr slice =>
          if String.eqb kind "array" then
            VArr (map (fun item =>
                         match items with
                         | Some it => normalizeExample it item
                         | None => item
                         end) slice)
          else example
      | VObj exMap =>
          if String.eqb kind "object" then
            match props with
            | None | Some [] => example
            | Some ps =>
                let '(normalized, usedKeys) :=
                  fold_left
                    (fun acc q =>
                       normalizeProp normalizeExample exMap acc (fst q) (snd q))
                    ps ([], []) in
                VObj (fold_left (keepUnused usedKeys) exMap normalized)
            end
          else example
      | _ => example
      end
  end.

(** [normalizeExampleWithSchema]. *)
Definition normalizeExampleWithSchema (s : option schema) (example : value)
  : value :=
  match s with
  | Some sch => normalizeExample sch example
  | None => example
  end.

(** ** The schema builder

    The builder threads the map [visited] through its calls: a computation
    in [M] takes the map and returns its result with the map as it left
    it, or [None] when the fuel of [buildSchemaFromExpr] ran out. *)

Definition M (A : Type) : Type := visitedMap -> option (A * visitedMap).

Definition ret {A : Type} (a : A) : M A := fun v => Some (a, v).

Definition bind {A B : Type} (m : M A) (k : A -> M B) : M B :=
  fun v => match m v with
           | Some (a, v') => k a v'
           | None => None
           end.

Definition outOfFuel {A : Type} : M A := fun _ => None.

(** [visited[name]]. *)
Definition isVisited (name : string) (v : visitedMap) : bool :=
  match v !! name with Some b => b | None => false end.

(** [visited[name] = b]. *)
Definition setVisited (name : string) (b : bool) : M unit :=
  fun v => Some (tt, <[name := b]> v).

Definition getVisited (name : string) : M bool :=
  fun v => Some (isVisited name v, v).

Fixpoint foldM {S A : Type} (f : S -> A -> M S) (xs : list A) (s : S) : M S :=
  match xs with
  | [] => ret s
  | x :: r => bind (f s x) (foldM f r)
  end.

Section Step.

(** One level of the recursion: [rec] stands for the recursive calls of
    [buildSchemaFromExpr]. *)
Variable ctx : analysisContext.
Variable rec : expr -> M (option schema * value).

(** The state of the loop of [buildStructSchema]: [properties], [example]
    and [requiredFields]. *)
Definition structAcc : Type :=
  list (string * schema) * list (string * value) * list string.

(** An embedded field: its properties, required names and example entries
    are merged into the parent's. *)
Definition structEmbedded (acc : structAcc) (type : expr) : M structAcc :=
  bind (rec type) (fun '(sch, nestedExample) =>
    let '(properties, example, requiredFields) := acc in
    let properties :=
      match sch with
      | Some s =>
          match sProperties s with
          | Some props => amerge properties props
          | None => properties
          end
      | None => properties
      end in
    let requiredFields :=
      match sch with
      | Some s => (requiredFields ++ sRequired s)%list
      | None => requiredFields
      end in
    let example :=
      match nestedExample with
      | VObj nestedMap => amerge example nestedMap
      | _ => example
      end in
    ret (properties, example, requiredFields)).

(** One name of a named field. *)
Definition structNamed (field : fieldInfo) (type : expr) (acc : structAcc)
    (name : string) : M structAcc :=
  match name with
  | EmptyString => ret acc
  | String _ _ =>
      let '(jsonName, skip) :=
        resolveJSONFieldName name (getStructTag field "json") in
      if skip then ret acc
      else
        let required :=
          isFieldRequired (getStructTag field "json")
            (getStructTag field "binding") (getStructTag field "validate") in
        bind (rec type) (fun '(sch, fieldExample) =>
          match sch with
          | None => ret acc
          | Some s =>
              let s :=
                match fieldComment field with
                | EmptyString => s
                | String _ _ as description => setDescription description s
                end in
              let fieldExample :=
                match getStructTag field "example" with
                | EmptyString => fieldExample
                | String _ _ as tagExample =>
                    convertExampleValue tagExample s fieldExample
                end in
              let fieldExample :=
                if isNil fieldExample then defaultExample s else fieldExample in
              let '(properties, example, requiredFields) := acc in
              ret (aset jsonName s properties,
                   if isNil fieldExample then example
                   else aset jsonName fieldExample example,
                   if required then (requiredFields ++ [jsonName])%list
                   else requiredFields)
          end)
  end.

Definition structField (acc : structAcc) (f : fieldInfo * expr) : M structAcc :=
  match fieldNames (fst f) with
  | [] => structEmbedded acc (snd f)
  | names => foldM (structNamed (fst f) (snd f)) names acc
  end.

(** [buildStructSchema], given the recursive calls. *)
Definition buildStructSchemaWith (fields : structFields)
  : M (schema * list (string * value)) :=
  bind (foldM structField fields ([], [], [])) (fun '(properties, example, requiredFields) =>
    ret (mkSchema "object" None None None (Some properties) requiredFields None,
         example)).

(** [fieldLookup] of [buildStructLiteralExample]. *)
Definition fieldLookupOf (fields : structFields)
  : gmap string (fieldInfo * expr) :=
  fold_left
    (fun m f =>
       fold_left
         (fun m name =>
            match name with
            | EmptyString => m
            | String _ _ => <[name := f]> m
            end)
         (fieldNames (fst f)) m)
    fields ∅.

Definition literalElt (fieldLookup : gmap string (fieldInfo * expr))
    (example : list (string * value)) (elt : expr)
  : M (list (string * value)) :=
  match elt with
  | KeyValueExpr (Ident (String _ _ as fieldName)) v =>
      match fieldLookup !! fieldName with
      | None => ret example
      | Some field =>
          let '(jsonName, skip) :=
            resolveJSONFieldName fieldName (getStructTag (fst field) "json") in
          if skip || negb (nonEmpty jsonName) then ret example
          else
            bind (rec v) (fun '(_, fieldExample) =>
              bind (if isNil fieldExample
                    then bind (rec (snd field)) (fun '(valueSchema, _) =>
                           ret (defaultExampleFromSchema valueSchema))
                    else ret fieldExample)
                   (fun fieldExample =>
                      ret (if isNil fieldExample then example
                           else aset jsonName fieldExample example)))
      end
  | _ => ret example
  end.

(** [buildStructLiteralExample], given the recursive calls; the empty
    list is the [nil] map. *)
Definition buildStructLiteralExampleWith (elts : list expr)
    (fields : structFields) : M (list (string * value)) :=
  let fieldLookup := fieldLookupOf fields in
  if decide (fieldLookup = ∅) then ret []
  else foldM (literalElt fieldLookup) elts [].

Definition mapLiteralElt
    (acc : list (string * schema) * list (string * value)) (elt : expr)
  : M (list (string * schema) * list (string * value)) :=
  match elt with
  | KeyValueExpr k v =>
      match literalKeyToString k with
      | EmptyString => ret acc
      | String _ _ as key =>
          bind (rec v) (fun '(valueSchema, valueExample) =>
            let '(properties, example) := acc in
            let properties :=
              match valueSchema with
              | Some s => aset key s properties
              | None => properties
              end in
            let valueExample :=
              if isNil valueExample
              then defaultExampleFromSchema valueSchema
              else valueExample in
            ret (properties,
                 if isNil valueExample then example
                 else aset key valueExample example))
      end
  | _ => ret acc
  end.

(** [buildMapLiteralSchema], given the recursive calls. *)
Definition buildMapLiteralSchemaWith (elts : list expr)
  : M (option schema * value) :=
  bind (foldM mapLiteralElt elts ([], [])) (fun '(properties, example) =>
    let sch :=
      match properties with
      | [] => mkSchema "object" None None None None []
                (Some (typeSchema "string"))
      | _ :: _ => mkSchema "object" None None None (Some properties) [] None
      end in
    ret (Some sch, VObj example)).

Definition arrayLiteralElt (itemSchema : option schema)
    (examples : list value) (elt : expr) : M (list value) :=
  bind (rec elt) (fun '(_, ex) =>
    let ex := if isNil ex then defaultExampleFromSchema itemSchema else ex in
    ret (if isNil ex then examples else (examples ++ [ex])%list)).

(** [buildSchemaFromCompositeLiteral], given the recursive calls. *)
Definition buildSchemaFromCompositeLiteralWith (type : option expr)
    (elts : list expr) : M (option schema * value) :=
  match type with
  | None => buildMapLiteralSchemaWith elts
  | Some (StructType fields) =>
      bind (buildStructSchemaWith fields) (fun '(sch, example) =>
        ret (Some sch, VObj example))
  | Some (Ident name as t) =>
      match structs ctx !! name with
      | Some structType =>
          bind (buildStructSchemaWith structType) (fun '(sch, example) =>
            bind (buildStructLiteralExampleWith elts structType)
              (fun literalExample =>
                 ret (Some sch, VObj (amerge example literalExample))))
      | None => rec t
      end
  | Some (MapType _ _) => buildMapLiteralSchemaWith elts
  | Some (ArrayType _ elt) =>
      bind (rec elt) (fun '(itemSchema, _) =>
        bind (foldM (arrayLiteralElt itemSchema) elts []) (fun examples =>
          let examples :=
            match examples with
            | [] =>
                match defaultExampleFromSchema itemSchema with
                | VNil => []
                | ex => [ex]
                end
            | _ :: _ => examples
            end in
          ret (Some (mkSchema "array" None None itemSchema None [] None),
               VArr examples)))
  | Some (SelectorExpr _ _ as t) =>
      if String.eqb (exprToString t) "gin.H"
      then buildMapLiteralSchemaWith elts
      else rec t
  | Some t => rec t
  end.

(** The schema and example of a basic literal. *)
Definition basicLitSchema (kind : litKind) (v : string)
  : option schema * value :=
  let fallback := (Some (typeSchema "string"), VString v) in
  match kind with
  | STRING =>
      (Some (typeSchema "string"),
       VString (match Unquote v with
                | Some s => s
                | None => Trim v dquote
                end))
  | INT =>
      match ParseInt (ReplaceAll v "_" EmptyString) with
      | Some num => (Some (typeSchema "integer"), VInt64 num)
      | None => fallback
      end
  | FLOAT =>
      match ParseFloat (ReplaceAll v "_" EmptyString) with
      | Some num => (Some (typeSchema "number"), VFloat num)
      | None => fallback
      end
  | CHAR =>
      (Some (typeSchema "string"),
       VString (match Unquote v with Some s => s | None => v end))
  | IMAG => fallback
  end.

Definition emptyObject : option schema * value :=
  (Some (typeSchema "object"), VObj []).

(** The cases of an identifier once the variable bindings have been
    tried: a primitive name, a struct name under the cycle guard, or the
    generic string schema. *)
Definition identByName (name : string) : M (option schema * value) :=
  match primitiveSchemaForIdent name with
  | Some (sch, example) => ret (Some sch, example)
  | None =>
      match structs ctx !! name with
      | Some structType =>
          bind (getVisited name) (fun seen =>
            if seen then ret emptyObject
            else
              bind (setVisited name true) (fun _ =>
                bind (buildStructSchemaWith structType) (fun '(sch, example) =>
                  bind (setVisited name false) (fun _ =>
                    ret (Some sch, VObj example)))))
      | None => ret (Some (typeSchema "string"), VString EmptyString)
      end
  end.

Definition identByType (name : string) : M (option schema * value) :=
  match variables ctx !! name with
  | Some typ => rec typ
  | None => identByName name
  end.

(** The body of [buildSchemaFromExpr], given the recursive calls. *)
Definition buildSchemaFromExprWith (e : expr) : M (option schema * value) :=
  match e with
  | CompositeLit t elts => buildSchemaFromCompositeLiteralWith t elts
  | StarExpr x => rec x
  | BasicLit kind v => ret (basicLitSchema kind v)
  | Ident name =>
      match values ctx !! name with
      | Some (Some valExpr) =>
          bind (rec valExpr) (fun '(sch, example) =>
            match sch with
            | Some _ => ret (sch, example)
            | None => identByType name
            end)
      | _ => identByType name
      end
  | ArrayType _ elt =>
      bind (rec elt) (fun '(itemSchema, itemExample) =>
        match itemSchema with
        | None => ret (None, VNil)
        | Some _ =>
            ret (Some (mkSchema "array" None None itemSchema None [] None),
                 VArr (if isNil itemExample then [] else [itemExample]))
        end)
  | MapType _ v =>
      bind (rec v) (fun '(valueSchema, valueExample) =>
        ret (Some (mkSchema "object" None None None None [] valueSchema),
             VObj (if isNil valueExample then []
                   else [("key", valueExample)])))
  | InterfaceType => ret emptyObject
  | StructType fields =>
      bind (buildStructSchemaWith fields) (fun '(sch, example) =>
        ret (Some sch, VObj example))
  | SelectorExpr _ _ =>
      let fullName := exprToString e in
      match schemaForSelector fullName with
      | Some (sch, example) => ret (Some sch, example)
      | None =>
          if String.eqb fullName "gin.H" then ret emptyObject
          else ret (Some (typeSchema "string"), VString EmptyString)
      end
  | CallExpr fn args =>
      match fn with
      | SelectorExpr x sel =>
          let viaResults :=
            match lookupFunctionResult ctx
                    (exprToStringOpt (resolveTypeFromArg x ctx)) sel with
            | r :: _ => rec r
            | [] => ret emptyObject
            end in
          match args with
          | a :: _ => if isMarshal (exprToString fn) then rec a else viaResults
          | [] => viaResults
          end
      | Ident name =>
          let viaResults :=
            match lookupFunctionResult ctx EmptyString name with
            | r :: _ => rec r
            | [] => ret emptyObject
            end in
          match args with
          | [a] => if String.eqb name "new" then rec (StarExpr a) else viaResults
          | _ => viaResults
          end
      | _ => ret emptyObject
      end
  | _ => ret (None, VNil)
  end.

End Step.

(** [buildSchemaFromExpr]: [fuel] bounds the depth of the recursion. *)
Fixpoint buildSchemaFromExpr (fuel : nat) (e : expr) (ctx : analysisContext)
  : M (option schema * value) :=
  match fuel with
  | O => outOfFuel
  | S f => buildSchemaFromExprWith ctx (fun e' => buildSchemaFromExpr f e' ctx) e
  end.

(** The other builders, called at a depth of recursion bounded by [fuel]. *)
Definition buildStructSchema (fuel : nat) (structType : structFields)
    (ctx : analysisContext) : M (schema * list (string * value)) :=
  buildStructSchemaWith (fun e => buildSchemaFromExpr fuel e ctx) structType.

Definition buildStructLiteralExample (fuel : nat) (elts : list expr)
    (structType : structFields) (ctx : analysisContext)
  : M (list (string * value)) :=
  buildStructLiteralExampleWith (fun e => buildSchemaFromExpr fuel e ctx)
    elts structType.

Definition buildMapLiteralSchema (fuel : nat) (elts : list expr)
    (ctx : analysisContext) : M (option schema * value) :=
  buildMapLiteralSchemaWith (fun e => buildSchemaFromExpr fuel e ctx) elts.

Definition buildSchemaFromCompositeLiteral (fuel : nat) (type : option expr)
    (elts : list expr) (ctx : analysisContext) : M (option schema * value) :=
  buildSchemaFromCompositeLiteralWith ctx
    (fun e => buildSchemaFromExpr fuel e ctx) type elts.

(** ** Request bodies and responses *)

(** [buildRequestBodyFromExpr]; the outer [option] is the fuel. *)
Definition buildRequestBodyFromExpr (fuel : nat) (e : option expr)
    (ctx : analysisContext) : option (option RequestBody) :=
  match e with
  | None => Some None
  | Some e =>
      match buildSchemaFromExpr fuel e ctx ∅ with
      | None => None
      | Some ((None, _), _) => Some None
      | Some ((Some sch, example), _) =>
          Some (Some (mkRequestBody EmptyString (Some sch) example true))
      end
  end.

(** [resolveRequestBody], on the function position and the first argument
    of the binding call. *)
Definition resolveRequestBody (fuel : nat) (fn arg : expr)
    (ctx : analysisContext) : option (option RequestBody) :=
  match resolveTypeFromArg arg ctx with
  | None => Some None
  | Some typeExpr =>
      match buildRequestBodyFromExpr fuel (Some typeExpr) ctx with
      | None => None
      | Some None => Some None
      | Some (Some body) =>
          let contentType :=
            match rbContentType body with
            | String _ _ as ct => ct
            | EmptyString =>
                match fn with
                | SelectorExpr _ sel =>
                    match bindingMethods !! sel with
                    | Some mime =>
                        if String.eqb mime "auto" then EmptyString else mime
                    | None => EmptyString
                    end
                | _ => EmptyString
                end
            end in
          let contentType :=
            match contentType with
            | EmptyString => "application/json"
            | String _ _ => contentType
            end in
          Some (Some (mkRequestBody contentType (rbSchema body)
                        (rbExample body) true))
      end
  end.

Definition analysisState : Type := analysisContext * handlerAnalysis.

(** The response recorded for a response call. *)
Definition recordResponse (fuel : nat) (contentType : string)
    (statusExpr dataExpr : expr) (st : analysisState) : option analysisState :=
  let '(ctx, analysis) := st in
  match extractStatusCode fuel statusExpr ctx with
  | None => None
  | Some code =>
      let statusCode :=
        match code with EmptyString => "200" | String _ _ => code end in
      match resolveResponsePayloadExpr fuel dataExpr ctx with
      | None => None
      | Some payloadExpr =>
          match buildSchemaFromExpr fuel payloadExpr ctx ∅ with
          | None => None
          | Some ((sch, example), _) =>
              let example := normalizeExampleWithSchema sch example in
              let example :=
                if isNil example then defaultExampleFromSchema sch
                else example in
              let contentType :=
                match contentType with
                | EmptyString => "application/json"
                | String _ _ => contentType
                end in
              let description :=
                match statusTextFromCode statusCode with
                | EmptyString => "Response"
                | String _ _ as text => text
                end in
              Some (ctx,
                    mkAnalysis (haRequestBody analysis)
                      (<[statusCode :=
                           mkResponse description example sch contentType]>
                         (haResponses analysis)))
          end
      end
  end.

(** The detection of a binding call. *)
Definition recordRequestBody (fuel : nat) (fn : expr) (args : list expr)
    (st : analysisState) : option analysisState :=
  let '(ctx, analysis) := st in
  match haRequestBody analysis with
  | Some _ => Some st
  | None =>
      if isBindingCall fn then
        match args with
        | [] => Some st
        | arg :: _ =>
            match resolveRequestBody fuel fn arg ctx with
            | None => None
            | Some None => Some st
            | Some (Some resolved) =>
                Some (ctx, mkAnalysis (Some resolved) (haResponses analysis))
            end
        end
      else Some st
  end.

(** The callback that [analyzeHandlerDetails] passes to [ast.Inspect]. *)
Definition analyzeNode (fuel : nat) (st : analysisState) (n : node)
  : option analysisState :=
  let '(ctx, analysis) := st in
  match n with
  | NDecl tok specs => Some (registerDeclarationTypes tok specs ctx, analysis)
  | NAssign lhs tok rhs =>
      Some (registerAssignmentTypes lhs tok rhs ctx, analysis)
  | NRange _ v tok x => Some (registerRangeTypes v tok x ctx, analysis)
  | NCall fn args =>
      match recordRequestBody fuel fn args st with
      | None => None
      | Some st1 =>
          match responseCallInfo fuel fn args (fst st1) with
          | None => None
          | Some None => Some st1
          | Some (Some (contentType, statusExpr, dataExpr)) =>
              recordResponse fuel contentType statusExpr dataExpr st1
          end
      end
  end.

Fixpoint analyzeNodes (fuel : nat) (nodes : list node) (st : analysisState)
  : option analysisState :=
  match nodes with
  | [] => Some st
  | n :: r =>
      match analyzeNode fuel st n with
      | Some st' => analyzeNodes fuel r st'
      | None => None
      end
  end.

(** [analyzeHandlerDetails], on the body of the function declaration
    ([None] for a declaration without body). *)
Definition analyzeHandlerDetails (fuel : nat) (body : option (list stmt))
    (structs : gmap string structFields)
    (functions : gmap string (list functionSignature))
  : option handlerAnalysis :=
  match body with
  | None => Some (mkAnalysis None ∅)
  | Some stmts =>
      match analyzeNodes fuel (flat_map inspectStmt stmts)
              (mkContext structs functions ∅ ∅, mkAnalysis None ∅) with
      | Some (_, analysis) => Some analysis
      | None => None
      end
  end.

End Runtime.

(** ** Notions used to state the properties *)

(** The omit-if-empty marker is looked for in the [json] and [binding]
    tags, the required marker in the [binding] and [validate] tags. *)
Definition carriesOmitEmpty (jsonTag bindingTag : string) : bool :=
  Contains jsonTag "omitempty" || Contains bindingTag "omitempty".

Definition carriesRequired (bindingTag validateTag : string) : bool :=
  Contains bindingTag "required" || Contains validateTag "required".

(** What the loop over the properties in [normalizeExampleWithSchema]
    finds for the property [p]: the entry under the exact name, or else the
    entry its search up to case stops at. *)
Definition found (rf : string -> list (string * value) -> string)
    (exMap : list (string * value)) (p : string) : option (string * value) :=
  match alookup p exMap with
  | Some v => Some (p, v)
  | None => foldMatch rf p exMap
  end.

Definition propsLoop (rf : string -> list (string * value) -> string)
    (exMap : list (string * value)) (ps : list (string * schema))
    (acc : list (string * value) * list string) :=
  fold_left (fun acc q => normalizeProp rf (normalizeExample rf) exMap acc (fst q) (snd q))
    ps acc.

(** The [properties] of the state of the loop of [buildStructSchema]. *)
Definition propsOf (acc : structAcc) : list (string * schema) := fst (fst acc).

(** Where the key of a property comes from: a name of a named field that
    is not skipped, or a property of the schema of an embedded field. *)
Definition keyOrigin (rec : expr -> M (option schema * value))
    (fields : structFields) (k : string) : Prop :=
  (exists info type name,
      In (info, type) fields /\ In name (fieldNames info) /\ name <> ""
      /\ resolveJSONFieldName name (getStructTag info "json") = (k, false))
  \/ (exists info type v1 s ex v2 ps,
         In (info, type) fields /\ fieldNames info = []
         /\ rec type v1 = Some ((Some s, ex), v2)
         /\ sProperties s = Some ps /\ In k (akeys ps)).

Definition accOK (rec : expr -> M (option schema * value))
    (fields : structFields) (acc : structAcc) : Prop :=
  NoDup (akeys (propsOf acc))
  /\ forall k, In k (akeys (propsOf acc)) -> keyOrigin rec fields k.

(** The field carries the skip marker. *)
Definition skipped (info : fieldInfo) : bool :=
  match fieldNames info with
  | [] => false
  | _ :: _ => String.eqb (getStructTag info "json") "-"
  end.

(** The field [f] is a named field none of whose names is [name] or is
    serialized under [key]: it neither stands for [name] in a struct
    literal nor writes the property [key]. *)
Definition apartFrom (name key : string) (f : fieldInfo * expr) : bool :=
  match fieldNames (fst f) with
  | [] => false
  | names =>
      forallb
        (fun n =>
           negb (String.eqb n name)
           && negb (String.eqb
                      (fst (resolveJSONFieldName n (getStructTag (fst f) "json")))
                      key))
        names
  end.

(** The expressions that denote types, as far as the builder looks into
    them: names, pointers, arrays, maps, struct types over such fields,
    and the types for which it has no schema. *)
Fixpoint isTypeExpr (e : expr) : bool :=
  match e with
  | Ident _ | SelectorExpr _ _ | InterfaceType | FuncType | ChanType _ => true
  | StarExpr x => isTypeExpr x
  | ArrayType _ elt => isTypeExpr elt
  | MapType _ v => isTypeExpr v
  | StructType fields => forallb (fun f => isTypeExpr (snd f)) fields
  | _ => false
  end.

(** The depth to which the builder descends into a type expression
    without following a name. *)
Fixpoint typeSize (e : expr) : nat :=
  match e with
  | StarExpr x => S (typeSize x)
  | ArrayType _ elt => S (typeSize elt)
  | MapType _ v => S (typeSize v)
  | StructType fields =>
      S (list_sum (map (fun f => S (typeSize (snd f))) fields))
  | _ => 1
  end.

Definition structSize (fields : structFields) : nat :=
  list_sum (map (fun f => S (typeSize (snd f))) fields).

(** What is left to descend into the structs that are not marked as
    visited. *)
Definition weightOf (table : list (string * structFields)) (v : visitedMap)
  : nat :=
  list_sum (map (fun entry => if isVisited (fst entry) v then 0
                              else S (structSize (snd entry))) table).

Definition weight (ctx : analysisContext) (v : visitedMap) : nat :=
  weightOf (map_to_list (structs ctx)) v.

(** Two maps mark the same names as visited. *)
Definition sameVisited (v v' : visitedMap) : Prop :=
  forall name, isVisited name v' = isVisited name v.

(** The description recorded with a status code. *)
Definition descriptionOf (statusCode : string) : string :=
  match statusTextFromCode statusCode with
  | EmptyString => "Response"
  | String _ _ as text => text
  end.

(** The status expression resolves to nothing: it is no integer literal,
    no selector of a known status constant and no bound identifier. *)
Definition unresolvedStatus (e : expr) (ctx : analysisContext) : Prop :=
  match e with
  | BasicLit INT _ => False
  | SelectorExpr _ name => httpStatusNameMap name = None
  | Ident name => variables ctx !! name = None
  | _ => True
  end.

(** A response recorded under a status code stays recorded under it, with
    the description of that code. *)
Definition recorded (statusCode : string) (st : analysisState) : Prop :=
  exists r, haResponses (snd st) !! statusCode = Some r
            /\ respDescription r = descriptionOf statusCode.

End Analyzer.


(** ** The cache of package analyses

    [loadPackageAnalysis] keeps the analysis of each directory in the map
    [analysisCache], guarded by the read/write lock [analysisMutex].  A
    call is a thread that moves through the statements of the function;
    the threads share the map, the lock, the objects that
    [analyzeDirectory] allocates, and a record of the directories on which
    [analyzeDirectory] ran. *)

Module PackageCache.
Import GoStrings Ast Analyzer.

(** The file filter that [analyzeDirectory] passes to [parser.ParseDir]:
    the files named [*.go] except the tests. *)
Definition sourceFilter (isDir : bool) (name : string) : bool :=
  if isDir then false
  else if negb (HasSuffix name ".go") then false
  else negb (HasSuffix name "_test.go").

(** Where a call of [loadPackageAnalysis] stands; [cached] and [result]
    are pointers to a [packageAnalysis], [None] for [nil]. *)
Inductive pc : Type :=
  | Start                               (* before [RLock] *)
  | ReadLocked                          (* before the first lookup *)
  | ReadHit (cached : option nat)       (* before [RUnlock] and [return] *)
  | ReadMiss                            (* before [RUnlock] *)
  | Unlocked                            (* before [Lock] *)
  | WriteLocked                         (* before the second lookup *)
  | WriteHit (cached : option nat)      (* before the deferred [Unlock] *)
  | Analyzing                           (* before [analyzeDirectory] *)
  | Analyzed (result : option nat)      (* before the store into the map *)
  | Stored (result : option nat)        (* before the deferred [Unlock] *)
  | Done (result : option nat).         (* returned *)

(** A call: its argument [dir] and where it stands. *)
Definition thread : Type := string * pc.

(** The call holds the read lock, or the write lock. *)
Definition inRead (t : thread) : bool :=
  match snd t with
  | ReadLocked | ReadHit _ | ReadMiss => true
  | _ => false
  end.

Definition inWrite (t : thread) : bool :=
  match snd t with
  | WriteLocked | WriteHit _ | Analyzing | Analyzed _ | Stored _ => true
  | _ => false
  end.

Definition finished (t : thread) : bool :=
  match snd t with
  | Done _ => true
  | _ => false
  end.

(** The statements that a call has left at most. *)
Definition stepsLeft (t : thread) : nat :=
  match snd t with
  | Start => 8
  | ReadLocked => 7
  | ReadMiss => 6
  | Unlocked => 5
  | WriteLocked => 4
  | Analyzing => 3
  | Analyzed _ => 2
  | ReadHit _ | WriteHit _ | Stored _ => 1
  | Done _ => 0
  end.

Section Model.

(** The file system, the packages and the error of [parser.ParseDir], and
    the handler table are taken as given, with [parser.ParseDir] (which
    returns the packages it could parse together with the first error) and
    the three collectors of [analyzeDirectory]. *)
Variables FS Packages Error Handlers : Type.
Variable ParseDir :
  FS -> string -> (bool -> string -> bool) -> Packages * option Error.
Variable collectStructDefinitions : Packages -> gmap string structFields.
Variable collectFunctionSignatures :
  Packages -> gmap string (list functionSignature).
Variable collectHandlerMetadata :
  Packages -> gmap string structFields ->
  gmap string (list functionSignature) -> Handlers.

Record packageAnalysis : Type := mkPackageAnalysis {
  paHandlers : Handlers;
  paFunctions : gmap string (list functionSignature)
}.

(** [analyzeDirectory]. *)
Definition analyzeDirectory (fs : FS) (dir : string)
  : packageAnalysis + Error :=
  let '(pkgs, err) := ParseDir fs dir sourceFilter in
  match err with
  | Some e => inr e
  | None =>
      let structs := collectStructDefinitions pkgs in
      let functions := collectFunctionSignatures pkgs in
      let handlers := collectHandlerMetadata pkgs structs functions in
      inl (mkPackageAnalysis handlers functions)
  end.

(** What the calls share: [analysisCache] (an entry may hold [nil]), the
    objects allocated so far (a pointer is an index into them), the
    holders of [analysisMutex], and the directories on which
    [analyzeDirectory] ran, in the order of the runs. *)
Record world : Type := mkWorld {
  analysisCache : gmap string (option nat);
  objects : list packageAnalysis;
  readers : nat;
  writer : bool;
  analyzed : list string
}.

Definition setCache (c : gmap string (option nat)) (w : world) : world :=
  mkWorld c (objects w) (readers w) (writer w) (analyzed w).

Definition setReaders (n : nat) (w : world) : world :=
  mkWorld (analysisCache w) (objects w) n (writer w) (analyzed w).

Definition setWriter (b : bool) (w : world) : world :=
  mkWorld (analysisCache w) (objects w) (readers w) b (analyzed w).

(** The run of [analyzeDirectory] by a call: the object it returns is
    allocated, and the run is recorded. *)
Definition runAnalysis (fs : FS) (dir : string) (w : world)
  : option nat * world :=
  match analyzeDirectory fs dir with
  | inl pkgAnalysis =>
      (Some (length (objects w)),
       mkWorld (analysisCache w) (objects w ++ [pkgAnalysis]) (readers w)
         (writer w) (analyzed w ++ [dir]))
  | inr _ =>
      (None,
       mkWorld (analysisCache w) (objects w) (readers w) (writer w)
         (analyzed w ++ [dir]))
  end.

(** One statement of a call, with the file system as it is at that
    moment; [None] when the call waits for the lock or has returned.
    [RLock] waits while the lock is held for writing, [Lock] while it is
    held at all. *)
Definition step (fs : FS) (t : thread) (w : world) : option (thread * world) :=
  let dir := fst t in
  match snd t with
  | Start =>
      if writer w then None
      else Some ((dir, ReadLocked), setReaders (S (readers w)) w)
  | ReadLocked =>
      match analysisCache w !! dir with
      | Some cached => Some ((dir, ReadHit cached), w)
      | None => Some ((dir, ReadMiss), w)
      end
  | ReadHit cached =>
      Some ((dir, Done cached), setReaders (pred (readers w)) w)
  | ReadMiss => Some ((dir, Unlocked), setReaders (pred (readers w)) w)
  | Unlocked =>
      if writer w then None
      else
        match readers w with
        | O => Some ((dir, WriteLocked), setWriter true w)
        | S _ => None
        end
  | WriteLocked =>
      match analysisCache w !! dir with
      | Some cached => Some ((dir, WriteHit cached), w)
      | None => Some ((dir, Analyzing), w)
      end
  | WriteHit cached => Some ((dir, Done cached), setWriter false w)
  | Analyzing =>
      let '(result, w') := runAnalysis fs dir w in
      Some ((dir, Analyzed result), w')
  | Analyzed result =>
      Some ((dir, Stored result),
            setCache (<[dir := result]> (analysisCache w)) w)
  | Stored result => Some ((dir, Done result), setWriter false w)
  | Done _ => None
  end.

(** A call on its own: [loadPackageAnalysis] run to its [return], when
    no other call moves in between. *)
Fixpoint runThread (fuel : nat) (fs : FS) (t : thread) (w : world)
  : option (option nat * world) :=
  match snd t with
  | Done result => Some (result, w)
  | _ =>
      match fuel with
      | O => None
      | S f =>
          match step fs t w with
          | Some (t', w') => runThread f fs t' w'
          | None => None
          end
      end
  end.

Definition loadPackageAnalysis (fs : FS) (dir : string) (w : world)
  : option (option nat * world) :=
  runThread 8 fs (dir, Start) w.

(** Calls one after the other, each with the file system of its time. *)
Fixpoint loadAll (calls : list (FS * string)) (w : world) : option world :=
  match calls with
  | [] => Some w
  | (fs, dir) :: rest =>
      match loadPackageAnalysis fs dir w with
      | Some (_, w') => loadAll rest w'
      | None => None
      end
  end.

(** Calls at the same time: the scheduler picks the call that executes
    its next statement. *)
Definition config : Type := list thread * world.

Definition stepAt (i : nat) (fs : FS) (c : config) : option config :=
  match fst c !! i with
  | Some t =>
      match step fs t (snd c) with
      | Some (t', w') => Some (<[i := t']> (fst c), w')
      | None => None
      end
  | None => None
  end.

Fixpoint run (schedule : list (nat * FS)) (c : config) : option config :=
  match schedule with
  | [] => Some c
  | (i, fs) :: rest =>
      match stepAt i fs c with
      | Some c' => run rest c'
      | None => None
      end
  end.

(** The calls [loadPackageAnalysis(dir)] for the directories [dirs],
    none of them started, over the cache [cache] and the free lock. *)
Definition initial (cache : gmap string (option nat))
    (objs : list packageAnalysis) (dirs : list string) : config :=
  (map (fun dir => (dir, Start)) dirs, mkWorld cache objs 0 false []).

(** The lock is free. *)
Definition free (w : world) : Prop := readers w = 0 /\ writer w = false.

(** The lock agrees with the calls: [readers] counts the calls between
    [RLock] and [RUnlock], [writer] says whether a call is between [Lock]
    and [Unlock], of which there is at most one, and then no call reads. *)
Definition lockOK (c : config) : Prop :=
  readers (snd c) = length (List.filter inRead (fst c))
  /\ length (List.filter inWrite (fst c)) = (if writer (snd c) then 1 else 0)
  /\ (writer (snd c) = true -> readers (snd c) = 0).

(** What a call knows about the entry of its directory. *)
Definition knows (w : world) (t : thread) : Prop :=
  match snd t with
  | Analyzing => analysisCache w !! fst t = None
  | Analyzed _ =>
      analysisCache w !! fst t = None /\ In (fst t) (analyzed w)
  | ReadHit r | WriteHit r | Stored r | Done r =>
      analysisCache w !! fst t = Some r
  | _ => True
  end.

(** The map agrees with the runs of [analyzeDirectory], for calls that
    started over the map [cache]: no directory was analyzed twice, only
    directories without entry in [cache] were analyzed, the entries of
    [cache] are still there, every other entry belongs to an analyzed
    directory, and every analyzed directory has its entry or is about to
    get it. *)
Definition cacheOK (cache : gmap string (option nat)) (c : config) : Prop :=
  List.NoDup (analyzed (snd c))
  /\ (forall d, In d (analyzed (snd c)) -> cache !! d = None)
  /\ (forall d r, cache !! d = Some r -> analysisCache (snd c) !! d = Some r)
  /\ (forall d r, analysisCache (snd c) !! d = Some r ->
                  cache !! d = Some r \/ In d (analyzed (snd c)))
  /\ (forall d, In d (analyzed (snd c)) ->
                analysisCache (snd c) !! d <> None
                \/ exists i r, fst c !! i = Some (d, Analyzed r))
  /\ (forall i t, fst c !! i = Some t -> knows (snd c) t).

End Model.

Arguments world : clear implicits.
Arguments config : clear implicits.
Arguments setCache {Handlers} c w.
Arguments setReaders {Handlers} n w.
Arguments setWriter {Handlers} b w.
Arguments mkWorld {Handlers} analysisCache objects readers writer analyzed.
Arguments free {Handlers} w.
Arguments lockOK {Handlers} c.
Arguments knows {Handlers} w t.
Arguments cacheOK {Handlers} cache c.
Arguments initial {Handlers} cache objs dirs.
Arguments analysisCache {Handlers} w.
Arguments objects {Handlers} w.
Arguments readers {Handlers} w.
Arguments writer {Handlers} w.
Arguments analyzed {Handlers} w.
Arguments step {FS Packages Error Handlers} ParseDir collectStructDefinitions
  collectFunctionSignatures collectHandlerMetadata fs t w.
Arguments runAnalysis {FS Packages Error Handlers} ParseDir
  collectStructDefinitions collectFunctionSignatures collectHandlerMetadata
  fs dir w.
Arguments analyzeDirectory {FS Packages Error Handlers} ParseDir
  collectStructDefinitions collectFunctionSignatures collectHandlerMetadata
  fs dir.
Arguments runThread {FS Packages Error Handlers} ParseDir
  collectStructDefinitions collectFunctionSignatures collectHandlerMetadata
  fuel fs t w.
Arguments loadPackageAnalysis {FS Packages Error Handlers} ParseDir
  collectStructDefinitions collectFunctionSignatures collectHandlerMetadata
  fs dir w.
Arguments loadAll {FS Packages Error Handlers} ParseDir
  collectStructDefinitions collectFunctionSignatures collectHandlerMetadata
  calls w.
Arguments stepAt {FS Packages Error Handlers} ParseDir
  collectStructDefinitions collectFunctionSignatures collectHandlerMetadata
  i fs c.
Arguments run {FS Packages Error Handlers} ParseDir
  collectStructDefinitions collectFunctionSignatures collectHandlerMetadata
  schedule c.

End PackageCache.
(** ** Sample inputs

    Declarations and handlers on which the properties are evaluated.  None
    of them contains a floating-point literal or a JSON example, so the
    stand-ins [noFloat] and [noJSON] for [strconv.ParseFloat] and
    [json.Unmarshal] are never consulted. *)

Module Samples.
Import GoStrings Ast Json AList Analyzer PackageCache.

Definition noFloat : string -> option float64 := fun _ => None.
Definition noJSON : string -> option value := fun _ => None.
Definition tagOf (pairs : list (string * string)) : option string :=
  Some (raw (Join (map (fun kv => fst kv +:+ ":" +:+ quoted (snd kv)) pairs) " ")).
Definition namedField (name : string) (type : expr)
    (pairs : list (string * string)) : fieldInfo * expr :=
  (mkFieldInfo [name] (match pairs with [] => None | _ => tagOf pairs end)
     None None, type).
Definition emptyContext : analysisContext := mkContext ∅ ∅ ∅ ∅.
Definition callbackStruct : structFields :=
  [ namedField "Name" (Ident "string") [("json", "name")];
    namedField "Cb" FuncType [] ].
Definition accountStruct : structFields :=
  [ namedField "ID" (Ident "int") [("json", "id")];
    namedField "Password" (Ident "string") [("json", "-")];
    namedField "DisplayName" (Ident "string") [] ].

Definition callOn (method : string) (args : list expr) : expr :=
  CallExpr (SelectorExpr (Ident "c") method) args.
Definition accountStructs : gmap string structFields :=
  {[ "Account" := accountStruct ]}.
(** [c.JSON(http.StatusCreated, Account{ID: 123})] *)
Definition createdHandler : list stmt :=
  [ ExprStmt (callOn "JSON"
      [ SelectorExpr (Ident "http") "StatusCreated";
        CompositeLit (Some (Ident "Account"))
          [KeyValueExpr (Ident "ID") (BasicLit INT "123")] ]) ].
(** [c.JSON(code, gin.H{})] with [code] not declared in the handler. *)
Definition unknownStatusHandler : list stmt :=
  [ ExprStmt (callOn "JSON"
      [ Ident "code";
        CompositeLit (Some (SelectorExpr (Ident "gin") "H")) [] ]) ].
(** [var req Account; if err := c.ShouldBindJSON(&req); err != nil { return };
    c.Bind(&other); c.JSON(200, req)] *)
Definition bindHandler : list stmt :=
  [ DeclStmt VAR [ValueSpec ["req"] (Some (Ident "Account")) []];
    IfStmt
      (Some (AssignStmt [Ident "err"] DEFINE
               [callOn "ShouldBindJSON" [UnaryExpr AND (Ident "req")]]))
      (OtherExpr [Ident "err"; Ident "nil"])
      [ReturnStmt []] None;
    ExprStmt (callOn "Bind" [UnaryExpr AND (Ident "other")]);
    ExprStmt (callOn "JSON" [BasicLit INT "200"; Ident "req"]) ].
(** [type Ticket struct { ID int `json:"id" example:"456"` }] *)
Definition ticketStruct : structFields :=
  [ namedField "ID" (Ident "int") [("json", "id"); ("example", "456")] ].
Definition ticketStructs : gmap string structFields :=
  {[ "Ticket" := ticketStruct ]}.
(** [c.JSON(201, T{ID: 123})] *)
Definition literalHandler (T : string) : list stmt :=
  [ ExprStmt (callOn "JSON"
      [ BasicLit INT "201";
        CompositeLit (Some (Ident T))
          [KeyValueExpr (Ident "ID") (BasicLit INT "123")] ]) ].
(** [type Node struct { Next *Node `json:"next"` }] *)
Definition nodeStruct : structFields :=
  [ namedField "Next" (StarExpr (Ident "Node")) [("json", "next")] ].
Definition nodeStructs : gmap string structFields :=
  {[ "Node" := nodeStruct ]}.
(** [c.JSON(200, Node{})] *)
Definition nodeHandler : list stmt :=
  [ ExprStmt (callOn "JSON"
      [BasicLit INT "200"; CompositeLit (Some (Ident "Node")) []]) ].
(** [Node := Node{}; c.JSON(200, Node)] *)
Definition shadowHandler : list stmt :=
  [ AssignStmt [Ident "Node"] DEFINE [CompositeLit (Some (Ident "Node")) []];
    ExprStmt (callOn "JSON" [BasicLit INT "200"; Ident "Node"]) ].
(** A file system given by the directories that parse, without
    declarations in them. *)
Definition parseListed (fs : list string) (dir : string)
    (filter : bool -> string -> bool) : unit * option string :=
  (tt, if existsb (String.eqb dir) fs then None
       else Some "open: no such file or directory").
Definition noStructs : unit -> gmap string structFields := fun _ => ∅.
Definition noFunctions : unit -> gmap string (list functionSignature) :=
  fun _ => ∅.
Definition noHandlers : unit -> gmap string structFields ->
    gmap string (list functionSignature) -> unit :=
  fun _ _ _ => tt.
Definition coldWorld : world unit := mkWorld ∅ [] 0 false [].
(** Two calls for the same directory that both miss at the first lookup:
    the first takes the lock, analyzes and stores; the second takes the
    lock after it and finds the entry. *)
Definition raceSchedule (fs : list string) : list (nat * list string) :=
  map (fun i => (i, fs)) [0; 1; 0; 1; 0; 1; 0; 0; 0; 0; 0; 1; 1; 1].
Definition firstExact : string -> list (string * value) -> string :=
  fun p _ => p.
Definition startState (structs : gmap string structFields) : analysisState :=
  (mkContext structs ∅ ∅ ∅, mkAnalysis None ∅).

End Samples.


(** ** Further notions *)

Module Notions.
Import GoStrings GoStrconv Ast Json AList Analyzer.

(** The scope [ctx'] extends the scope [ctx]: the tables of structs and
    functions are the same, and every variable of [ctx] has in [ctx'] the
    type and the value it has in [ctx]. *)
Definition extendsScope (ctx ctx' : analysisContext) : Prop :=
  structs ctx' = structs ctx
  /\ functions ctx' = functions ctx
  /\ forall name t,
       variables ctx !! name = Some t ->
       variables ctx' !! name = Some t
       /\ values ctx' !! name = values ctx !! name.

(** A schema is well formed when every name of its [required] list is a
    key of its [properties], and likewise in the schemas of its
    properties, of its items and of its additional properties. *)
Fixpoint wfSchema (s : schema) : bool :=
  match s with
  | mkSchema _ _ _ items props req add =>
      forallb
        (fun name =>
           match props with
           | Some ps => existsb (String.eqb name) (akeys ps)
           | None => false
           end) req
      && match items with Some it => wfSchema it | None => true end
      && match props with
         | Some ps => forallb (fun q => wfSchema (snd q)) ps
         | None => true
         end
      && match add with Some a => wfSchema a | None => true end
  end.

(** An example has the kind that the type of a schema names: a map for
    ["object"], a slice for ["array"], an [int] or [int64] for
    ["integer"], a [float64] for ["number"], a [bool] for ["boolean"], a
    string for ["string"]; any example goes with another type. *)
Definition conforms (s : schema) (v : value) : bool :=
  if String.eqb (sType s) "object" then
    match v with VObj _ => true | _ => false end
  else if String.eqb (sType s) "array" then
    match v with VArr _ => true | _ => false end
  else if String.eqb (sType s) "integer" then
    match v with VInt _ | VInt64 _ => true | _ => false end
  else if String.eqb (sType s) "number" then
    match v with VFloat _ => true | _ => false end
  else if String.eqb (sType s) "boolean" then
    match v with VBool _ => true | _ => false end
  else if String.eqb (sType s) "string" then
    match v with VString _ => true | _ => false end
  else true.

(** What the builder should return: no schema, or a well-formed schema
    with an example of its kind. *)
Definition soundResult (r : option schema * value) : Prop :=
  match fst r with
  | Some s => wfSchema s = true /\ conforms s (snd r) = true
  | None => True
  end.

(** The required names of the state of the loop of [buildStructSchema]. *)
Definition reqOf (acc : structAcc) : list string := snd acc.

(** The schema that [buildStructSchema] enters for a field whose type
    has the schema [s]: [s] with the comment of the field as its
    description, if the field has a comment. *)
Definition fieldSchema (info : fieldInfo) (s : schema) : schema :=
  match fieldComment info with
  | EmptyString => s
  | String _ _ as description => setDescription description s
  end.

(** Where a property comes from: a name of a named field that is not
    skipped and whose type has a schema, under its serialization name
    and with that schema; or a property of the schema of an embedded
    field. *)
Definition propertyOrigin (rec : expr -> M (option schema * value))
    (fields : structFields) (k : string) (s : schema) : Prop :=
  (exists info type name v1 s0 ex v2,
      In (info, type) fields /\ In name (fieldNames info) /\ name <> ""
      /\ resolveJSONFieldName name (getStructTag info "json") = (k, false)
      /\ rec type v1 = Some ((Some s0, ex), v2)
      /\ s = fieldSchema info s0)
  \/ (exists info type v1 s0 ex v2 ps,
         In (info, type) fields /\ fieldNames info = []
         /\ rec type v1 = Some ((Some s0, ex), v2)
         /\ sProperties s0 = Some ps /\ In (k, s) ps).

(** The tags of the field mark it as required. *)
Definition requiredByTags (info : fieldInfo) : bool :=
  isFieldRequired (getStructTag info "json") (getStructTag info "binding")
    (getStructTag info "validate").

(** Where a required name comes from: a name of a named field that is
    not skipped, whose type has a schema and whose tags mark it as
    required; or the required list of the schema of an embedded field. *)
Definition requiredOrigin (rec : expr -> M (option schema * value))
    (fields : structFields) (k : string) : Prop :=
  (exists info type name v1 s0 ex v2,
      In (info, type) fields /\ In name (fieldNames info) /\ name <> ""
      /\ resolveJSONFieldName name (getStructTag info "json") = (k, false)
      /\ rec type v1 = Some ((Some s0, ex), v2)
      /\ requiredByTags info = true)
  \/ (exists info type v1 s0 ex v2,
         In (info, type) fields /\ fieldNames info = []
         /\ rec type v1 = Some ((Some s0, ex), v2)
         /\ In k (sRequired s0)).

(** The type has a schema, or has none, whatever was visited. *)
Definition yieldsSchema (rec : expr -> M (option schema * value))
    (type : expr) : Prop :=
  forall v r ex v', rec type v = Some ((r, ex), v') -> r <> None.

Definition yieldsNoSchema (rec : expr -> M (option schema * value))
    (type : expr) : Prop :=
  forall v, exists ex, rec type v = Some ((None, ex), v).

(** The properties and the required names of the state of the loop come
    from the fields. *)
Definition propsFrom (rec : expr -> M (option schema * value))
    (fields : structFields) (acc : structAcc) : Prop :=
  forall k s, alookup k (propsOf acc) = Some s -> propertyOrigin rec fields k s.

Definition reqFrom (rec : expr -> M (option schema * value))
    (fields : structFields) (acc : structAcc) : Prop :=
  forall k, In k (reqOf acc) -> requiredOrigin rec fields k.

(** The marking of the field [info] decides whether [k] is required:
    every named field serialized under [k] is marked as [info] is, and
    no embedded field has a schema that requires [k]. *)
Definition decidesRequired (rec : expr -> M (option schema * value))
    (fields : structFields) (info : fieldInfo) (k : string) : Prop :=
  (forall info' type' name',
      In (info', type') fields -> In name' (fieldNames info') ->
      resolveJSONFieldName name' (getStructTag info' "json") = (k, false) ->
      requiredByTags info' = requiredByTags info)
  /\ (forall info' type' v1 s0 ex v2,
        In (info', type') fields -> fieldNames info' = [] ->
        rec type' v1 = Some ((Some s0, ex), v2) -> ~ In k (sRequired s0)).

End Notions.

(** ** Routes, endpoints and the OpenAPI document ([pkg/core]) *)

Module Routes.
Import GoStrings Json AList Analyzer PathNorm.

(** [strings.ToUpper], modelled on the ASCII range: bytes outside
    ['a'..'z'] are left unchanged. *)
Definition upperByte (c : ascii) : ascii :=
  let n := N_of_ascii c in
  if (97 <=? n)%N && (n <=? 122)%N then ascii_of_N (n - 32) else c.

Definition ToUpper (s : string) : string := mapChars upperByte s.

(** [strings.Trim(s, cutset)] for a cutset of ASCII bytes. *)
Definition inCutset (cutset : string) (c : ascii) : bool :=
  existsb (Ascii.eqb c) (list_ascii_of_string cutset).

Definition TrimCutset (s cutset : string) : string :=
  trimRight (inCutset cutset) (trimLeft (inCutset cutset) s).

(** [core.Parameter]; the name [Parameter] is reserved. *)
Record CoreParameter : Type := mkParameter {
  paramName : string;
  paramIn : string;
  paramType : string;
  paramRequired : bool;
  paramDescription : string;
  paramExample : value
}.

(** What the code asks of a handler held in an [interface{}]: whether it
    is [nil], and whether its kind is [reflect.Func]. *)
Inductive handlerValue : Type := HandlerNil | HandlerFunc | HandlerOther.

(** [core.RouteInfo], without the field [Middlewares], which nothing
    reads. *)
Record RouteInfo : Type := mkRouteInfo {
  routeMethod : string;
  routePath : string;
  routeHandler : handlerValue;
  routeSummary : string;
  routeDescription : string;
  routeParameters : list CoreParameter;
  routeRequestBody : option RequestBody;
  routeResponses : gmap string Response
}.

(** [core.Endpoint]. *)
Record Endpoint : Type := mkEndpoint {
  epID : string;
  epMethod : string;
  epPath : string;
  epSummary : string;
  epDescription : string;
  epParameters : list CoreParameter;
  epRequestBody : option RequestBody;
  epResponses : gmap string Response;
  epTags : list string;
  epHandler : handlerValue
}.

(** [core.EndpointSection]. *)
Record EndpointSection : Type := mkSection {
  secID : string;
  secName : string;
  secDescription : string;
  secEndpoints : list Endpoint
}.

(** [normalizeOpenAPIType]. *)
Definition normalizeOpenAPIType (goType : string) : string :=
  let lower := ToLower goType in
  let among l := existsb (String.eqb lower) l in
  if among ["int"; "int8"; "int16"; "int32"; "int64"; "uint"; "uint8";
            "uint16"; "uint32"; "uint64"] then "integer"
  else if among ["float32"; "float64"] then "number"
  else if among ["bool"; "boolean"] then "boolean"
  else if among ["string"; ""] then "string"
  else if among ["array"; "slice"; "[]string"; "[]int"] then "array"
  else if among ["object"; "map"; "interface{}"] then "object"
  else "string".

(** The body of the loop of [extractPathParams]: the parameters that one
    part of the path contributes. *)
Definition partParams (part : string) : list string :=
  (if HasPrefix part ":" then [TrimPrefix part ":"] else [])
  ++ (if HasPrefix part "{" && HasSuffix part "}" then
        let param := TrimCutset part "{}" in
        [if Contains param ":" then hd EmptyString (Split param ":") else param]
      else []).

(** [extractPathParams]. *)
Definition extractPathParams (path : string) : list string :=
  flat_map partParams (Split path "/").

(** [analyzeHandlerParameters]: every branch returns the empty slice. *)
Definition analyzeHandlerParameters (handler : handlerValue) : list CoreParameter :=
  match handler with
  | HandlerNil => []
  | HandlerOther => []
  | HandlerFunc => []
  end.

Definition pathParameter (param : string) : CoreParameter :=
  mkParameter param "path" "string" true EmptyString VNil.

(** [extractParameters]. *)
Definition extractParameters (path : string) (handler : handlerValue)
  : list CoreParameter :=
  map pathParameter (extractPathParams path)
  ++ match handler with
     | HandlerNil => []
     | _ => analyzeHandlerParameters handler
     end.

(** The key of a parameter in [mergeParameters]. *)
Definition paramKey (param : CoreParameter) : string :=
  paramName param +:+ ":" +:+ paramIn param.

(** [paramMap] after the two loops of [mergeParameters]. *)
Definition paramMap (pathParams providedParams : list CoreParameter)
  : gmap string CoreParameter :=
  fold_left (fun m param => <[paramKey param := param]> m) providedParams
    (fold_left (fun m param => <[paramKey param := param]> m) pathParams ∅).

(** [extractRequestBody]. *)
Definition extractRequestBody (handler : handlerValue) : option RequestBody :=
  None.

(** [generateResponses]. *)
Definition generateResponses (handler : handlerValue) : gmap string Response :=
  <["500" := mkResponse "Internal Server Error" VNil None EmptyString]>
    (<["404" := mkResponse "Not Found" VNil None EmptyString]>
       (<["400" := mkResponse "Bad Request" VNil None EmptyString]>
          (<["200" := mkResponse "Success"
                        (VObj [("status", VString "success")]) None EmptyString]>
             ∅))).

(** The test of the loop of [extractSection]. *)
Definition sectionCandidate (part : string) : bool :=
  negb (String.eqb part EmptyString) && negb (HasPrefix part ":")
  && negb (Contains part "{")
  && (negb (String.eqb part "api") && negb (HasPrefix part "v")).

(** [extractSection]: the loop runs from the last part to the first. *)
Definition extractSection (path : string) : string :=
  let parts := Split (Trim path "/") "/" in
  match find sectionCandidate (rev parts) with
  | Some part => part
  | None =>
      match parts with
      | p :: _ => if String.eqb p EmptyString then "default" else p
      | [] => "default"
      end
  end.

(** [generateID]. *)
Definition generateID (method path : string) : string :=
  ToLower method +:+ "-"
  +:+ ReplaceAll (ReplaceAll path "/" "-") ":" EmptyString.

(** [inferAction]. *)
Definition inferAction (method path : string) : string :=
  let upper := ToUpper method in
  if String.eqb upper "GET" then
    if Contains path ":" || Contains path "{" then "Get" else "List"
  else if String.eqb upper "POST" then "Create"
  else if String.eqb upper "PUT" || String.eqb upper "PATCH" then "Update"
  else if String.eqb upper "DELETE" then "Delete"
  else method.

(** [generateSummary]. *)
Definition generateSummary (method path : string) : string :=
  inferAction method path +:+ " " +:+ extractSection path.

Section Runtime.

(** Two parts of the Go runtime are taken as given: [strings.Title], and
    the order in which a [range] clause visits the entries of a map,
    which Go leaves unspecified. *)
Variable Title : string -> string.
Variable rangeOrder : forall A : Type, gmap string A -> list (string * A).

(** [mergeParameters]. *)
Definition mergeParameters (pathParams providedParams : list CoreParameter)
  : list CoreParameter :=
  map snd (rangeOrder CoreParameter (paramMap pathParams providedParams)).

(** [processRoute]. *)
Definition processRoute (route : RouteInfo) : Endpoint :=
  let displayPath := convertPathToOpenAPI (routePath route) in
  let summary :=
    if String.eqb (routeSummary route) EmptyString
    then generateSummary (routeMethod route) displayPath
    else routeSummary route in
  let description :=
    if String.eqb (routeDescription route) EmptyString
    then summary else routeDescription route in
  let pathParams := extractParameters (routePath route) (routeHandler route) in
  let allParams := mergeParameters pathParams (routeParameters route) in
  let requestBody :=
    match routeRequestBody route with
    | Some rb => Some rb
    | None => extractRequestBody (routeHandler route)
    end in
  let responses :=
    if Nat.eqb (size (routeResponses route)) 0
    then generateResponses (routeHandler route)
    else routeResponses route in
  mkEndpoint (generateID (routeMethod route) displayPath) (routeMethod route)
    displayPath summary description allParams requestBody responses []
    (routeHandler route).

(** [formatSectionName]. *)
Definition formatSectionName (section : string) : string := Title section.

(** One round of the first loop of [Generate]; the map holds pointers to
    sections, so appending through the pointer updates the entry. *)
Definition addEndpoint (sections : gmap string EndpointSection)
    (route : RouteInfo) : gmap string EndpointSection :=
  let endpoint := processRoute route in
  let sectionName := extractSection (epPath endpoint) in
  let section :=
    match sections !! sectionName with
    | Some s => s
    | None =>
        mkSection sectionName (formatSectionName sectionName)
          (formatSectionName sectionName +:+ " related endpoints") []
    end in
  <[sectionName :=
      mkSection (secID section) (secName section) (secDescription section)
        (secEndpoints section ++ [endpoint])]> sections.

(** [Generate]: the value it stores in [documentation.Endpoints]. *)
Definition Generate (routes : list RouteInfo) : list EndpointSection :=
  map snd (rangeOrder EndpointSection (fold_left addEndpoint routes ∅)).

End Runtime.

(** *** The OpenAPI document

    [GetOpenAPIJSON] builds nested values of type
    [map[string]interface{}] with fixed keys; a record stands for each. *)

(** An entry of ["parameters"]; [oaSchemaType] is the ["type"] of its
    ["schema"]. *)
Record OpenAPIParameter : Type := mkOpenAPIParameter {
  oaName : string;
  oaIn : string;
  oaRequired : bool;
  oaDescription : string;
  oaSchemaType : string;
  oaExample : value
}.

(** The value under a content type in ["content"]. *)
Record MediaType : Type := mkMediaType {
  mtSchema : option schema;
  mtExample : value
}.

Record OpenAPIRequestBody : Type := mkOpenAPIRequestBody {
  oaBodyRequired : bool;
  oaBodyContent : gmap string MediaType
}.

Record OpenAPIResponse : Type := mkOpenAPIResponse {
  oaRespDescription : string;
  oaRespContent : gmap string MediaType
}.

Record Operation : Type := mkOperation {
  opSummary : string;
  opDescription : string;
  opTags : list string;
  opOperationId : string;
  opParameters : list OpenAPIParameter;
  opRequestBody : option OpenAPIRequestBody;
  opResponses : gmap string OpenAPIResponse
}.

Definition openAPIParameter (param : CoreParameter) : OpenAPIParameter :=
  mkOpenAPIParameter (paramName param) (paramIn param) (paramRequired param)
    (paramDescription param) (normalizeOpenAPIType (paramType param))
    (paramExample param).

Definition orJSON (contentType : string) : string :=
  if String.eqb contentType EmptyString then "application/json" else contentType.

Definition openAPIRequestBody (rb : RequestBody) : OpenAPIRequestBody :=
  mkOpenAPIRequestBody (rbRequired rb)
    {[ orJSON (rbContentType rb) := mkMediaType (rbSchema rb) (rbExample rb) ]}.

Definition openAPIResponse (response : Response) : OpenAPIResponse :=
  mkOpenAPIResponse (respDescription response)
    {[ orJSON (respContentType response)
       := mkMediaType (respSchema response) (respExample response) ]}.

(** The operation built for an endpoint of the section named
    [sectionName]. *)
Definition operationOf (sectionName : string) (endpoint : Endpoint) : Operation :=
  mkOperation (epSummary endpoint) (epDescription endpoint) [sectionName]
    (epID endpoint) (map openAPIParameter (epParameters endpoint))
    (option_map openAPIRequestBody (epRequestBody endpoint))
    (openAPIResponse <$> epResponses endpoint).

(** One round of the inner loop over the endpoints of a section. *)
Definition addOperation (sectionName : string)
    (paths : gmap string (gmap string Operation)) (endpoint : Endpoint)
  : gmap string (gmap string Operation) :=
  let pathKey := convertPathToOpenAPI (epPath endpoint) in
  let pathItem :=
    match paths !! pathKey with
    | Some item => item
    | None => ∅
    end in
  <[pathKey :=
      <[ToLower (epMethod endpoint) := operationOf sectionName endpoint]>
        pathItem]> paths.

(** The value that [GetOpenAPIJSON] stores under ["paths"], from the
    sections of the documentation. *)
Definition openAPIPaths (sections : list EndpointSection)
  : gmap string (gmap string Operation) :=
  fold_left
    (fun paths section =>
       fold_left (addOperation (secName section)) (secEndpoints section) paths)
    sections ∅.

End Routes.

(** ** Notions used to state the properties of routes *)

Module RouteNotions.
Import GoStrings Json AList Analyzer PathNorm Routes.

(** A placeholder in the form the normalisation gives it. *)
Definition canonicalPiece (p : piece) : piece :=
  match p with
  | Lit s => Lit s
  | Angle n | Brace n | BracePat n _ => Brace n
  end.

Definition canonicalSegment (s : segment) : segment :=
  match s with
  | Colon n => Pieces [Brace n]
  | Pieces ps => Pieces (map canonicalPiece ps)
  end.

(** The path [path] is the route template [segs], written with or
    without the leading ["/"]. *)
Definition isTemplate (path : string) (segs : list segment) : Prop :=
  path = "/" +:+ renderPath segs
  \/ (path = renderPath segs /\ HasPrefix path "/" = false).

(** A segment that is one placeholder or one literal, or is empty. *)
Definition simpleSegment (s : segment) : bool :=
  match s with
  | Colon _ => true
  | Pieces [] | Pieces [_] => true
  | Pieces _ => false
  end.

(** The parameter that a simple segment names for [extractPathParams]. *)
Definition segmentParams (s : segment) : list string :=
  match s with
  | Colon n => [n]
  | Pieces [Brace n] | Pieces [BracePat n _] => [n]
  | Pieces _ => []
  end.

(** [for _, x := range l { m[key(x)] = x }]. *)
Definition insertAll {A : Type} (key : A -> string) (l : list A)
    (m : gmap string A) : gmap string A :=
  fold_left (fun m x => <[key x := x]> m) l m.

(** The order of the map iteration is the order of the entries in the
    map, whichever that is. *)
Definition anyOrder (rangeOrder : forall A : Type, gmap string A -> list (string * A))
  : Prop :=
  forall (A : Type) (m : gmap string A), rangeOrder A m ≡ₚ map_to_list m.

(** The endpoints of the sections, each with the name of its section, in
    the order in which [GetOpenAPIJSON] visits them. *)
Definition operations (sections : list EndpointSection)
  : list (string * Endpoint) :=
  flat_map (fun s => map (pair (secName s)) (secEndpoints s)) sections.

(** The keys under which [GetOpenAPIJSON] stores the operation of an
    endpoint. *)
Definition pathKeyOf (endpoint : Endpoint) : string :=
  convertPathToOpenAPI (epPath endpoint).

Definition methodKeyOf (endpoint : Endpoint) : string :=
  ToLower (epMethod endpoint).

Definition addOp (paths : gmap string (gmap string Operation))
    (ne : string * Endpoint) : gmap string (gmap string Operation) :=
  addOperation (fst ne) paths (snd ne).

(** The types of the OpenAPI data model. *)
Definition openAPITypes : list string :=
  ["integer"; "number"; "boolean"; "string"; "array"; "object"].

End RouteNotions.

(** ** Further sample inputs *)

Module MoreSamples.
Import GoStrings Ast Json AList Analyzer PackageCache Samples PathNorm Routes.

(** [var req Account; { req := Other{}; _ = req }; c.JSON(200, req)] *)
Definition redeclaringHandler : list stmt :=
  [ DeclStmt VAR [ValueSpec ["req"] (Some (Ident "Account")) []];
    BlockStmt
      [ AssignStmt [Ident "req"] DEFINE [CompositeLit (Some (Ident "Other")) []];
        AssignStmt [Ident "_"] ASSIGN [Ident "req"] ];
    ExprStmt (callOn "JSON" [BasicLit INT "200"; Ident "req"]) ].

(** [type Pair struct {
      A int `json:"x" binding:"required"`
      B int `json:"x"` }] *)
Definition sharedNameStruct : structFields :=
  [ namedField "A" (Ident "int") [("json", "x"); ("binding", "required")];
    namedField "B" (Ident "int") [("json", "x")] ].

(** [type Login struct {
      User string `json:"user" binding:"required"`
      Note string `json:"note,omitempty" binding:"required"`
      Hint string }] *)
Definition loginStruct : structFields :=
  [ namedField "User" (Ident "string")
      [("json", "user"); ("binding", "required")];
    namedField "Note" (Ident "string")
      [("json", "note,omitempty"); ("binding", "required")];
    namedField "Hint" (Ident "string") [] ].

(** [Node := Node{}; c.JSON(http.StatusCreated, Node)] *)
Definition createdShadowHandler : list stmt :=
  [ AssignStmt [Ident "Node"] DEFINE [CompositeLit (Some (Ident "Node")) []];
    ExprStmt (callOn "JSON"
                [SelectorExpr (Ident "http") "StatusCreated"; Ident "Node"]) ].

(** [var req Node; Node := Node{}; c.ShouldBindJSON(&req);
    c.JSON(200, Node)] *)
Definition bindShadowHandler : list stmt :=
  [ DeclStmt VAR [ValueSpec ["req"] (Some (Ident "Node")) []];
    AssignStmt [Ident "Node"] DEFINE [CompositeLit (Some (Ident "Node")) []];
    ExprStmt (callOn "ShouldBindJSON" [UnaryExpr AND (Ident "req")]);
    ExprStmt (callOn "JSON" [BasicLit INT "200"; Ident "Node"]) ].

(** Stand-ins for the map iteration order and for [strings.Title]. *)
Definition mapOrder : forall A : Type, gmap string A -> list (string * A) :=
  fun A m => map_to_list m.

Definition plainTitle : string -> string := fun s => s.

(** A route registered without documentation, and one with a documented
    parameter. *)
Definition listedRoute : RouteInfo :=
  mkRouteInfo "GET" "api/<tenant>/:resource/{slug:[a-z-]+}" HandlerFunc
    EmptyString EmptyString [] None ∅.

Definition documentedID : CoreParameter :=
  mkParameter "id" "path" "integer" true "The identifier" VNil.

Definition documentedRoute : RouteInfo :=
  mkRouteInfo "GET" "/users/:id" HandlerFunc EmptyString EmptyString
    [documentedID] None ∅.

End MoreSamples.
(** * Properties of path normalisation *)

#[local] Arguments String.append !_ _ / : simpl nomatch.
#[local] Arguments Ascii.eqb : simpl never.

Module PathNormFacts.
Import GoStrings PathNorm.

Lemma app_assoc_s (a b c : string) : (a +:+ b) +:+ c = a +:+ (b +:+ c).
Proof. induction a as [|x a IH]; simpl; [reflexivity | now rewrite IH]. Qed.

Lemma app_empty_r (a : string) : a +:+ "" = a.
Proof. induction a as [|x a IH]; simpl; [reflexivity | now rewrite IH]. Qed.

Lemma allChars_app p a b :
  allChars p (a +:+ b) = allChars p a && allChars p b.
Proof.
  induction a as [|x a IH]; simpl; [reflexivity |].
  rewrite IH. now rewrite andb_assoc.
Qed.

Lemma allChars_weaken (p q : ascii -> bool) s :
  (forall c, p c = true -> q c = true) ->
  allChars p s = true -> allChars q s = true.
Proof.
  intros Hpq. induction s as [|c s IH]; simpl; [reflexivity |].
  intros [Hc Hs]%andb_true_iff. rewrite (Hpq _ Hc). simpl. auto.
Qed.

(** Splitting and joining. *)

Lemma Split_nonempty s sep : Split s sep <> [].
Proof.
  destruct s as [|c t]; simpl; [discriminate |].
  destruct (Ascii.eqb c sep); [discriminate |].
  destruct (Split t sep); discriminate.
Qed.

Lemma Split_app_sep x t :
  allChars notSlash x = true ->
  Split (x +:+ String "/" t) "/" = x :: Split t "/".
Proof.
  induction x as [|c x IH]; simpl; [reflexivity |].
  intros [Hc Hx]%andb_true_iff. unfold notSlash in Hc.
  apply negb_true_iff in Hc. rewrite Hc. now rewrite (IH Hx).
Qed.

Lemma Split_no_sep x :
  allChars notSlash x = true -> Split x "/" = [x].
Proof.
  induction x as [|c x IH]; simpl; [reflexivity |].
  intros [Hc Hx]%andb_true_iff. unfold notSlash in Hc.
  apply negb_true_iff in Hc. rewrite Hc. now rewrite (IH Hx).
Qed.

Lemma Join_cons2 x y l sep :
  Join (x :: y :: l) sep = x +:+ sep +:+ Join (y :: l) sep.
Proof. reflexivity. Qed.

Lemma Split_Join l :
  l <> [] -> forallb (allChars notSlash) l = true ->
  Split (Join l "/") "/" = l.
Proof.
  induction l as [|x l IH]; [congruence |].
  intros _ [Hx Hl]%andb_true_iff.
  destruct l as [|y l].
  - simpl. now apply Split_no_sep.
  - rewrite Join_cons2. change ("/" +:+ Join (y :: l) "/") with (String "/" (Join (y :: l) "/")).
    rewrite Split_app_sep by assumption.
    f_equal. apply IH; [discriminate | assumption].
Qed.


(** Replacement of one byte by another is a map over the bytes. *)

Lemma ReplaceAll_char a b s :
  ReplaceAll s (String a "") (String b "")
  = mapChars (fun c => if Ascii.eqb a c then b else c) s.
Proof.
  unfold ReplaceAll. induction s as [|c s IH]; simpl; [reflexivity |].
  unfold HasPrefix. simpl. destruct (Ascii.eqb a c); simpl; now rewrite IH.
Qed.

Lemma mapChars_app f a b : mapChars f (a +:+ b) = mapChars f a +:+ mapChars f b.
Proof. induction a as [|c a IH]; simpl; [reflexivity | now rewrite IH]. Qed.

Lemma mapChars_id f s :
  allChars (fun c => Ascii.eqb (f c) c) s = true -> mapChars f s = s.
Proof.
  induction s as [|c s IH]; simpl; [reflexivity |].
  intros [Hc Hs]%andb_true_iff. apply Ascii.eqb_eq in Hc. now rewrite Hc, IH.
Qed.

Lemma ReplaceAll_angles s :
  ReplaceAll (ReplaceAll s "<" "{") ">" "}" = mapChars angleToBrace s.
Proof.
  rewrite !ReplaceAll_char.
  induction s as [|c s IH]; simpl; [reflexivity |].
  f_equal. exact IH.
Qed.


(** The regular expression over a string cut into chunks. *)

Lemma length_app (a b : string) :
  String.length (a +:+ b) = String.length a + String.length b.
Proof. induction a as [|c a IH]; simpl; [reflexivity | now rewrite IH]. Qed.

Lemma span_app p x c t :
  allChars p x = true -> p c = false ->
  span p (x +:+ String c t) = (x, String c t).
Proof.
  intros Hx Hc. induction x as [|d x IH]; simpl.
  - now rewrite Hc.
  - simpl in Hx. apply andb_true_iff in Hx as [Hd Hx].
    rewrite Hd, (IH Hx). reflexivity.
Qed.

Lemma mux_skip x rest :
  muxReplaceFrom (x +:+ rest) (String.length x) = muxReplaceFrom rest 0.
Proof. induction x as [|c x IH]; simpl; [reflexivity | exact IH]. Qed.

Lemma mux_lit x rest :
  allChars notOpen x = true ->
  muxReplaceFrom (x +:+ rest) 0 = x +:+ muxReplaceFrom rest 0.
Proof.
  induction x as [|c x IH]; simpl; [reflexivity |].
  intros [Hc Hx]%andb_true_iff. unfold notOpen in Hc.
  apply negb_true_iff in Hc. rewrite Hc. now rewrite (IH Hx).
Qed.

Lemma plain_name c : plainChar c = true -> nameChar c = true.
Proof.
  unfold plainChar, nameChar, isBrace.
  destruct (Ascii.eqb c "/"), (Ascii.eqb c ":"), (Ascii.eqb c "<"),
    (Ascii.eqb c ">"), (Ascii.eqb c "{"), (Ascii.eqb c "}"); simpl; congruence.
Qed.

Lemma plain_notOpen c : plainChar c = true -> notOpen c = true.
Proof.
  unfold plainChar, notOpen.
  destruct (Ascii.eqb c "/"), (Ascii.eqb c ":"), (Ascii.eqb c "<"),
    (Ascii.eqb c ">"), (Ascii.eqb c "{"), (Ascii.eqb c "}"); simpl; congruence.
Qed.

Lemma pattern_pat c : patternChar c = true -> patChar c = true.
Proof.
  unfold patternChar, patChar, isBrace.
  destruct (Ascii.eqb c "/"), (Ascii.eqb c "<"),
    (Ascii.eqb c ">"), (Ascii.eqb c "{"), (Ascii.eqb c "}"); simpl; congruence.
Qed.

Lemma mux_brace n rest :
  nameOK n = true ->
  muxReplaceFrom ("{" +:+ n +:+ "}" +:+ rest) 0
  = "{" +:+ n +:+ "}" +:+ muxReplaceFrom rest 0.
Proof.
  intros [Hne Hn]%andb_true_iff. simpl.
  rewrite (span_app nameChar n "}" rest);
    [| now apply (allChars_weaken plainChar) with (2 := Hn); apply plain_name
     | reflexivity].
  rewrite andb_false_r. f_equal.
  change (String "}" rest) with ("}" +:+ rest).
  rewrite <- app_assoc_s. rewrite mux_lit; [now rewrite app_assoc_s |].
  rewrite allChars_app. simpl. rewrite andb_true_r.
  now apply (allChars_weaken plainChar) with (2 := Hn); apply plain_notOpen.
Qed.

Lemma mux_bracepat n p rest :
  nameOK n = true -> patternOK p = true ->
  muxReplaceFrom ("{" +:+ n +:+ ":" +:+ p +:+ "}" +:+ rest) 0
  = "{" +:+ n +:+ "}" +:+ muxReplaceFrom rest 0.
Proof.
  intros [Hne Hn]%andb_true_iff [Hpe Hp]%andb_true_iff. simpl.
  rewrite (span_app nameChar n ":" (p +:+ String "}" rest));
    [| now apply (allChars_weaken plainChar) with (2 := Hn); apply plain_name
     | reflexivity].
  rewrite Hne. simpl.
  rewrite (span_app patChar p "}" rest);
    [| now apply (allChars_weaken patternChar) with (2 := Hp); apply pattern_pat
     | reflexivity].
  rewrite Hpe. simpl. do 3 f_equal.
  rewrite <- (mux_skip (n +:+ ":" +:+ p +:+ "}") rest).
  rewrite !app_assoc_s. simpl. f_equal.
  rewrite length_app. simpl. rewrite length_app. simpl. lia.
Qed.

(** Removal of empty placeholders leaves canonical text alone. *)

Lemma rep_lit x rest :
  allChars notOpen x = true ->
  replaceFrom "{}/" "/" (x +:+ rest) 0 = x +:+ replaceFrom "{}/" "/" rest 0.
Proof.
  induction x as [|c x IH]; simpl; [reflexivity |].
  intros [Hc Hx]%andb_true_iff. unfold notOpen in Hc.
  apply negb_true_iff in Hc. unfold HasPrefix. simpl.
  rewrite Ascii.eqb_sym, Hc. now rewrite (IH Hx).
Qed.

Lemma rep_brace n rest :
  nameOK n = true ->
  replaceFrom "{}/" "/" ("{" +:+ n +:+ "}" +:+ rest) 0
  = "{" +:+ n +:+ "}" +:+ replaceFrom "{}/" "/" rest 0.
Proof.
  intros [Hne Hn]%andb_true_iff.
  destruct n as [|c n]; [discriminate |].
  simpl in Hn. apply andb_true_iff in Hn as [Hc Hn].
  assert (Hc' : Ascii.eqb "}" c = false).
  { unfold plainChar in Hc. rewrite Ascii.eqb_sym.
    destruct (Ascii.eqb c "}"); [|reflexivity].
    rewrite !orb_true_r in Hc. discriminate. }
  simpl. unfold HasPrefix at 1. simpl. rewrite Hc'.
  f_equal.
  assert (H : allChars notOpen (String c n +:+ "}") = true).
  { simpl. rewrite (plain_notOpen _ Hc). simpl.
    rewrite allChars_app. simpl. rewrite andb_true_r.
    now apply (allChars_weaken plainChar) with (2 := Hn); apply plain_notOpen. }
  pose proof (rep_lit _ rest H) as E.
  rewrite !app_assoc_s in E. simpl in E. exact E.
Qed.


(** Segments through the individual passes. *)

#[local] Arguments String.append : simpl never.
#[local] Arguments muxReplaceFrom : simpl never.
#[local] Arguments replaceFrom : simpl never.

Lemma plain_notSlash c : plainChar c = true -> notSlash c = true.
Proof.
  unfold plainChar, notSlash.
  destruct (Ascii.eqb c "/"); simpl; congruence.
Qed.

Lemma pattern_notSlash c : patternChar c = true -> notSlash c = true.
Proof.
  unfold patternChar, notSlash.
  destruct (Ascii.eqb c "/"); simpl; congruence.
Qed.

Lemma plain_angle c : plainChar c = true -> Ascii.eqb (angleToBrace c) c = true.
Proof.
  unfold plainChar, angleToBrace. intros H.
  rewrite (Ascii.eqb_sym "<" c).
  destruct (Ascii.eqb c "<") eqn:E1.
  { rewrite !orb_true_r in H. discriminate. }
  rewrite (Ascii.eqb_sym ">" c).
  destruct (Ascii.eqb c ">") eqn:E2.
  { rewrite !orb_true_r in H. discriminate. }
  apply Ascii.eqb_refl.
Qed.

Lemma pattern_angle c : patternChar c = true -> Ascii.eqb (angleToBrace c) c = true.
Proof.
  unfold patternChar, angleToBrace. intros H.
  rewrite (Ascii.eqb_sym "<" c).
  destruct (Ascii.eqb c "<") eqn:E1.
  { rewrite !orb_true_r in H. discriminate. }
  rewrite (Ascii.eqb_sym ">" c).
  destruct (Ascii.eqb c ">") eqn:E2.
  { rewrite !orb_true_r in H. discriminate. }
  apply Ascii.eqb_refl.
Qed.

Lemma angle_plain s : allChars plainChar s = true -> mapChars angleToBrace s = s.
Proof.
  intros H. apply mapChars_id.
  apply (allChars_weaken plainChar); [apply plain_angle | exact H].
Qed.

Lemma angle_pattern s : allChars patternChar s = true -> mapChars angleToBrace s = s.
Proof.
  intros H. apply mapChars_id.
  apply (allChars_weaken patternChar); [apply pattern_angle | exact H].
Qed.

Lemma allChars_lit p (c : ascii) :
  allChars p (String c "") = p c.
Proof. simpl. now rewrite andb_true_r. Qed.

Lemma renderPiece_notSlash p :
  pieceOK p = true -> allChars notSlash (renderPiece p) = true.
Proof.
  destruct p as [s|n|n|n pat]; simpl.
  - apply allChars_weaken, plain_notSlash.
  - intros [_ Hn]%andb_true_iff. rewrite !allChars_app.
    now rewrite (allChars_weaken _ _ _ plain_notSlash Hn).
  - intros [_ Hn]%andb_true_iff. rewrite !allChars_app.
    now rewrite (allChars_weaken _ _ _ plain_notSlash Hn).
  - intros [[_ Hn]%andb_true_iff [_ Hp]%andb_true_iff]%andb_true_iff.
    rewrite !allChars_app.
    rewrite (allChars_weaken _ _ _ plain_notSlash Hn).
    now rewrite (allChars_weaken _ _ _ pattern_notSlash Hp).
Qed.

Lemma renderSegment_notSlash s :
  segmentOK s = true -> allChars notSlash (renderSegment s) = true.
Proof.
  destruct s as [n|ps]; simpl.
  - intros [_ Hn]%andb_true_iff. rewrite allChars_app.
    now rewrite (allChars_weaken _ _ _ plain_notSlash Hn).
  - induction ps as [|p ps IH]; simpl; [reflexivity |].
    intros [Hp Hps]%andb_true_iff. rewrite allChars_app.
    now rewrite (renderPiece_notSlash _ Hp), (IH Hps).
Qed.

Lemma HasPrefix_cons a b t :
  HasPrefix (String b t) (String a "") = Ascii.eqb a b.
Proof. unfold HasPrefix. simpl. now destruct (Ascii.eqb a b). Qed.

Lemma HasPrefix_app_cons a b s t :
  HasPrefix (String b s +:+ t) (String a "") = Ascii.eqb a b.
Proof. apply HasPrefix_cons. Qed.

Lemma pieces_no_colon ps :
  forallb pieceOK ps = true ->
  HasPrefix (flatten (map renderPiece ps)) ":" = false.
Proof.
  induction ps as [|p ps IH]; simpl; [reflexivity |].
  intros [Hp Hps]%andb_true_iff.
  destruct p as [s|n|n|n pat]; simpl;
    try (rewrite !app_assoc_s; apply HasPrefix_app_cons).
  destruct s as [|c s]; [exact (IH Hps) |].
  rewrite HasPrefix_app_cons.
  simpl in Hp. apply andb_true_iff in Hp as [Hc _].
  rewrite Ascii.eqb_sym.
  unfold plainChar in Hc. destruct (Ascii.eqb c ":"); [|reflexivity].
  rewrite !orb_true_r in Hc. discriminate.
Qed.

Lemma convertPart_colon n : convertPart (":" +:+ n) = "{" +:+ n +:+ "}".
Proof. reflexivity. Qed.

Lemma convertPart_render s :
  segmentOK s = true -> convertPart (renderSegment s) = colonFree s.
Proof.
  destruct s as [n|ps]; simpl; intros H.
  - apply convertPart_colon.
  - unfold convertPart. now rewrite pieces_no_colon.
Qed.

Lemma angle_piece p :
  pieceOK p = true -> mapChars angleToBrace (renderPiece p) = bracedPiece p.
Proof.
  destruct p as [s|n|n|n pat]; simpl.
  - apply angle_plain.
  - intros [_ Hn]%andb_true_iff. rewrite !mapChars_app, (angle_plain _ Hn). reflexivity.
  - intros [_ Hn]%andb_true_iff. rewrite !mapChars_app, (angle_plain _ Hn). reflexivity.
  - intros [[_ Hn]%andb_true_iff [_ Hp]%andb_true_iff]%andb_true_iff.
    rewrite !mapChars_app, (angle_plain _ Hn), (angle_pattern _ Hp). reflexivity.
Qed.

Lemma angle_segment s :
  segmentOK s = true -> mapChars angleToBrace (colonFree s) = bracedSegment s.
Proof.
  destruct s as [n|ps]; simpl.
  - intros [_ Hn]%andb_true_iff. rewrite !mapChars_app, (angle_plain _ Hn). reflexivity.
  - induction ps as [|p ps IH]; simpl; [reflexivity |].
    intros [Hp Hps]%andb_true_iff.
    now rewrite mapChars_app, (angle_piece _ Hp), (IH Hps).
Qed.

Lemma mux_segment s rest :
  segmentOK s = true ->
  muxReplaceFrom (bracedSegment s +:+ rest) 0
  = canonSegment s +:+ muxReplaceFrom rest 0.
Proof.
  destruct s as [n|ps]; simpl.
  - intros Hn. rewrite !app_assoc_s. now apply mux_brace.
  - induction ps as [|p ps IH]; simpl; [reflexivity |].
    intros [Hp Hps]%andb_true_iff. rewrite !app_assoc_s.
    destruct p as [s|n|n|n pat]; simpl in *.
    + rewrite mux_lit; [now rewrite (IH Hps) |].
      revert Hp. apply allChars_weaken, plain_notOpen.
    + rewrite !app_assoc_s, mux_brace, (IH Hps) by assumption. reflexivity.
    + rewrite !app_assoc_s, mux_brace, (IH Hps) by assumption. reflexivity.
    + apply andb_true_iff in Hp as [Hn Hpat].
      rewrite !app_assoc_s, mux_bracepat, (IH Hps) by assumption. reflexivity.
Qed.

Lemma rep_segment s rest :
  segmentOK s = true ->
  replaceFrom "{}/" "/" (canonSegment s +:+ rest) 0
  = canonSegment s +:+ replaceFrom "{}/" "/" rest 0.
Proof.
  destruct s as [n|ps]; simpl.
  - intros Hn. rewrite !app_assoc_s. now apply rep_brace.
  - induction ps as [|p ps IH]; simpl; [reflexivity |].
    intros [Hp Hps]%andb_true_iff. rewrite !app_assoc_s.
    destruct p as [s|n|n|n pat]; simpl in *.
    + rewrite rep_lit; [now rewrite (IH Hps) |].
      revert Hp. apply allChars_weaken, plain_notOpen.
    + rewrite !app_assoc_s, rep_brace, (IH Hps) by assumption. reflexivity.
    + rewrite !app_assoc_s, rep_brace, (IH Hps) by assumption. reflexivity.
    + apply andb_true_iff in Hp as [Hn Hpat].
      rewrite !app_assoc_s, rep_brace, (IH Hps) by assumption. reflexivity.
Qed.


Lemma slash_Join l :
  l <> [] -> "/" +:+ Join l "/" = flatten (map (String.append "/") l).
Proof.
  induction l as [|x l IH]; [congruence | intros _].
  destruct l as [|y l].
  - simpl. now rewrite app_empty_r.
  - rewrite Join_cons2. change (flatten (map (String.append "/") (x :: y :: l)))
      with (("/" +:+ x) +:+ flatten (map (String.append "/") (y :: l))).
    rewrite <- IH by discriminate. now rewrite app_assoc_s.
Qed.

Lemma mapChars_flatten f l :
  mapChars f (flatten l) = flatten (map (mapChars f) l).
Proof.
  induction l as [|x l IH]; simpl; [reflexivity |].
  now rewrite mapChars_app, IH.
Qed.

Lemma mux_path segs :
  forallb segmentOK segs = true ->
  muxReplaceFrom (flatten (map (fun s => "/" +:+ bracedSegment s) segs)) 0
  = flatten (map (fun s => "/" +:+ canonSegment s) segs).
Proof.
  induction segs as [|s segs IH]; simpl; [reflexivity |].
  intros [Hs Hsegs]%andb_true_iff. rewrite !app_assoc_s.
  rewrite (mux_lit "/") by reflexivity.
  now rewrite mux_segment, (IH Hsegs).
Qed.

Lemma rep_path segs :
  forallb segmentOK segs = true ->
  replaceFrom "{}/" "/" (flatten (map (fun s => "/" +:+ canonSegment s) segs)) 0
  = flatten (map (fun s => "/" +:+ canonSegment s) segs).
Proof.
  induction segs as [|s segs IH]; simpl; [reflexivity |].
  intros [Hs Hsegs]%andb_true_iff. rewrite !app_assoc_s.
  rewrite (rep_lit "/") by reflexivity.
  now rewrite rep_segment, (IH Hsegs).
Qed.

Lemma segments_notSlash segs :
  forallb segmentOK segs = true ->
  forallb (allChars notSlash) (map renderSegment segs) = true.
Proof.
  induction segs as [|s l IH]; simpl; [reflexivity |].
  intros [Hs Hl]%andb_true_iff.
  now rewrite (renderSegment_notSlash _ Hs), (IH Hl).
Qed.

Lemma segments_convertPart segs :
  forallb segmentOK segs = true ->
  map convertPart (map renderSegment segs) = map colonFree segs.
Proof.
  induction segs as [|s l IH]; simpl; [reflexivity |].
  intros [Hs Hl]%andb_true_iff.
  now rewrite (convertPart_render _ Hs), (IH Hl).
Qed.

Lemma segments_angle segs :
  forallb segmentOK segs = true ->
  map (fun x => mapChars angleToBrace ("/" +:+ colonFree x)) segs
  = map (fun s => "/" +:+ bracedSegment s) segs.
Proof.
  induction segs as [|s l IH]; simpl; [reflexivity |].
  intros [Hs Hl]%andb_true_iff.
  f_equal; [| exact (IH Hl)].
  rewrite mapChars_app. now rewrite (angle_segment _ Hs).
Qed.

Lemma convert_slashed segs :
  forallb segmentOK segs = true ->
  convertPathToOpenAPI ("/" +:+ renderPath segs) = canonPath segs.
Proof.
  intros Hok. destruct segs as [|s0 segs0]; [reflexivity |].
  remember (s0 :: segs0) as segs eqn:Hsegs.
  assert (Hne : forall (f : segment -> string), map f segs <> [])
    by (intros f; subst segs; discriminate).
  unfold convertPathToOpenAPI, renderPath, canonPath.
  change (HasPrefix ("/" +:+ Join (map renderSegment segs) "/") "/") with true.
  cbv iota.
  replace ("/" +:+ Join (map renderSegment segs) "/")
    with (Join ("" :: map renderSegment segs) "/") by (subst segs; reflexivity).
  rewrite Split_Join; [| discriminate |].
  2:{ simpl. now apply segments_notSlash. }
  change (map convertPart ("" :: map renderSegment segs))
    with ("" :: map convertPart (map renderSegment segs)).
  rewrite (segments_convertPart _ Hok).
  replace (Join ("" :: map colonFree segs) "/")
    with ("/" +:+ Join (map colonFree segs) "/") by (subst segs; reflexivity).
  rewrite ReplaceAll_angles.
  rewrite slash_Join by apply Hne.
  rewrite mapChars_flatten, !map_map.
  rewrite (segments_angle _ Hok).
  unfold muxReplaceAll. rewrite (mux_path _ Hok).
  unfold ReplaceAll. rewrite (rep_path _ Hok).
  rewrite slash_Join by apply Hne. rewrite map_map.
  subst segs. reflexivity.
Qed.

Lemma HasPrefix_slash_inv path :
  HasPrefix path "/" = true -> exists t, path = String "/" t.
Proof.
  destruct path as [|c t]; [discriminate |].
  rewrite HasPrefix_cons. intros H%Ascii.eqb_eq. subst c. now exists t.
Qed.

Lemma convert_cons_slash t :
  exists v, convertPathToOpenAPI (String "/" t) = String "/" v.
Proof.
  unfold convertPathToOpenAPI.
  change (HasPrefix (String "/" t) "/") with true. cbv iota.
  change (Split (String "/" t) "/") with ("" :: Split t "/").
  change (map convertPart ("" :: Split t "/"))
    with ("" :: map convertPart (Split t "/")).
  destruct (map convertPart (Split t "/")) as [|y l] eqn:E.
  { apply map_eq_nil in E. now apply Split_nonempty in E. }
  change (Join ("" :: y :: l) "/") with (String "/" (Join (y :: l) "/")).
  rewrite ReplaceAll_angles.
  change (mapChars angleToBrace (String "/" (Join (y :: l) "/")))
    with (String "/" (mapChars angleToBrace (Join (y :: l) "/"))).
  set (u := mapChars angleToBrace (Join (y :: l) "/")).
  change (muxReplaceAll (String "/" u)) with (String "/" (muxReplaceFrom u 0)).
  set (w := muxReplaceFrom u 0).
  change (ReplaceAll (String "/" w) "{}/" "/")
    with (String "/" (replaceFrom "{}/" "/" w 0)).
  set (v := replaceFrom "{}/" "/" w 0).
  change (HasPrefix (String "/" v) "{}") with false. cbv iota.
  now exists v.
Qed.

Lemma convert_starts_with_slash path :
  HasPrefix (convertPathToOpenAPI path) "/" = true.
Proof.
  assert (H : exists v, convertPathToOpenAPI path = String "/" v).
  { destruct (HasPrefix path "/") eqn:E.
    - apply HasPrefix_slash_inv in E as [t ->]. apply convert_cons_slash.
    - destruct (convert_cons_slash path) as [v Hv]. exists v.
      rewrite <- Hv. unfold convertPathToOpenAPI at 1. rewrite E.
      reflexivity. }
  destruct H as [v ->]. reflexivity.
Qed.

(** The two cases of the repository's test file. *)

Example convertPath_gorilla :
  convertPathToOpenAPI "/api/v1/users/{id:[0-9]+}" = "/api/v1/users/{id}".
Proof. reflexivity. Qed.

Example convertPath_mixed :
  convertPathToOpenAPI "api/<tenant>/:resource/{slug:[a-z-]+}"
  = "/api/{tenant}/{resource}/{slug}".
Proof. reflexivity. Qed.

(** The canonical form of the route templates whose patterns hold no
    brace. *)
Lemma convertPath_templates (segs : list segment) :
  forallb segmentOK segs = true ->
  convertPathToOpenAPI ("/" +:+ renderPath segs) = canonPath segs
  /\ (HasPrefix (renderPath segs) "/" = false ->
      convertPathToOpenAPI (renderPath segs) = canonPath segs).
Proof.
  intros Hok. split; [now apply convert_slashed |].
  intros Hno. rewrite <- (convert_slashed _ Hok).
  unfold convertPathToOpenAPI at 1. rewrite Hno. reflexivity.
Qed.

(** C7 fails on the path ["/users/{id:[0-9]{3}}"], a placeholder whose
    pattern is a bounded repetition: the regular expression that strips
    the patterns matches only patterns free of braces, so the path is
    returned as it is, with its pattern, and not as ["/users/{id}"];
    [extractPathParams] reads the name ["id"] of the same placeholder.
    Of a pattern that is itself a placeholder only the inner pattern is
    stripped.  On every route template made of well-formed segments --
    [":name"], ["<name>"], ["{name}"], ["{name:pattern}"] with a non-empty
    name free of placeholder characters and a non-empty pattern free of
    braces, angle brackets and ["/"] -- normalisation yields the canonical
    form in which every placeholder reads ["{name}"], whether or not the
    input starts with ["/"]; and for every input string whatsoever the
    result starts with ["/"]. *)
Theorem convertPath_pattern_with_braces :
  convertPathToOpenAPI "/users/{id:[0-9]{3}}" = "/users/{id:[0-9]{3}}"
  /\ convertPathToOpenAPI "/users/{id:[0-9]{3}}" <> "/users/{id}"
  /\ Routes.extractPathParams "/users/{id:[0-9]{3}}" = ["id"]
  /\ convertPathToOpenAPI "/users/{id:{x:y}}" = "/users/{id:{x}}"
  /\ (forall segs : list segment,
        forallb segmentOK segs = true ->
        convertPathToOpenAPI ("/" +:+ renderPath segs) = canonPath segs
        /\ (HasPrefix (renderPath segs) "/" = false ->
            convertPathToOpenAPI (renderPath segs) = canonPath segs))
  /\ (forall path, HasPrefix (convertPathToOpenAPI path) "/" = true).
Proof.
  split; [reflexivity |]. split; [discriminate |]. split; [reflexivity |].
  split; [reflexivity |]. split; [apply convertPath_templates |].
  apply convert_starts_with_slash.
Qed.

Lemma convertPath_pattern_with_braces_witness :
  convertPathToOpenAPI "api/<tenant>/:resource/{slug:[a-z-]+}"
  = "/api/{tenant}/{resource}/{slug}".
Proof.
  destruct convertPath_pattern_with_braces as (_ & _ & _ & _ & H & _).
  exact (proj2 (H [Pieces [Lit "api"]; Pieces [Angle "tenant"];
                   Colon "resource"; Pieces [BracePat "slug" "[a-z-]+"]]
                  eq_refl) eq_refl).
Defined.

End PathNormFacts.

(** * Association lists *)

Module AListFacts.
Import AList.

Section Facts.
Context {A : Type}.
Implicit Types (m : list (string * A)) (k : string) (v : A).

Lemma alookup_aset_eq k v m : alookup k (aset k v m) = Some v.
Proof.
  induction m as [|[k' v'] m IH]; simpl.
  - now rewrite String.eqb_refl.
  - destruct (String.eqb k' k) eqn:E; simpl.
    + now rewrite String.eqb_refl.
    + now rewrite E.
Qed.

Lemma alookup_aset_ne k k' v m :
  k <> k' -> alookup k' (aset k v m) = alookup k' m.
Proof.
  intros Hne. induction m as [|[k0 v0] m IH]; simpl.
  - apply String.eqb_neq in Hne. now rewrite Hne.
  - destruct (String.eqb k0 k) eqn:E; simpl.
    + apply String.eqb_eq in E. subst k0.
      apply String.eqb_neq in Hne. now rewrite Hne.
    + destruct (String.eqb k0 k'); [reflexivity | exact IH].
Qed.

Lemma alookup_None k m : alookup k m = None <-> ~ In k (akeys m).
Proof.
  induction m as [|[k' v'] m IH]; simpl; [tauto |].
  destruct (String.eqb_spec k' k) as [->|Hne]; [split; [discriminate | tauto] |].
  rewrite IH. tauto.
Qed.

Lemma alookup_Some_In k v m : alookup k m = Some v -> In (k, v) m.
Proof.
  induction m as [|[k' v'] m IH]; simpl; [discriminate |].
  destruct (String.eqb_spec k' k) as [->|Hne].
  - intros [= ->]. now left.
  - intros H. right. now apply IH.
Qed.

Lemma alookup_In k v m :
  NoDup (akeys m) -> In (k, v) m -> alookup k m = Some v.
Proof.
  induction m as [|[k' v'] m IH]; simpl; [tauto |].
  intros Hnd [Heq|Hin].
  - injection Heq as -> ->. now rewrite String.eqb_refl.
  - apply NoDup_cons in Hnd as [Hk Hnd].
    destruct (String.eqb_spec k' k) as [->|Hne].
    + exfalso. apply Hk. apply list_elem_of_In.
      unfold akeys. apply in_map_iff. now exists (k, v).
    + now apply IH.
Qed.

Lemma akeys_aset k k' v m :
  In k' (akeys (aset k v m)) <-> k' = k \/ In k' (akeys m).
Proof.
  induction m as [|[k0 v0] m IH]; simpl; [intuition |].
  destruct (String.eqb_spec k0 k) as [->|Hne]; simpl; [intuition |].
  rewrite IH. intuition.
Qed.

Lemma NoDup_aset k v m : NoDup (akeys m) -> NoDup (akeys (aset k v m)).
Proof.
  induction m as [|[k0 v0] m IH]; simpl; intros Hnd.
  - apply NoDup_singleton.
  - apply NoDup_cons in Hnd as [Hk Hnd].
    destruct (String.eqb_spec k0 k) as [->|Hne]; simpl.
    + apply NoDup_cons. split; assumption.
    + apply NoDup_cons. split; [| now apply IH].
      rewrite list_elem_of_In, akeys_aset.
      intros [->|Hin]; [congruence |].
      apply Hk. now apply list_elem_of_In.
Qed.

Lemma amerge_cons (m : list (string * A)) kv src :
  amerge m (kv :: src) = amerge (aset (fst kv) (snd kv) m) src.
Proof. reflexivity. Qed.

Lemma NoDup_amerge m src : NoDup (akeys m) -> NoDup (akeys (amerge m src)).
Proof.
  revert m. induction src as [|kv src IH]; intros m Hnd; [exact Hnd |].
  rewrite amerge_cons. apply IH. now apply NoDup_aset.
Qed.

Lemma akeys_amerge k m src :
  In k (akeys (amerge m src)) <-> In k (akeys m) \/ In k (akeys src).
Proof.
  revert m. induction src as [|[k0 v0] src IH]; intros m.
  - unfold amerge. simpl. tauto.
  - rewrite amerge_cons, IH, akeys_aset. simpl. intuition.
Qed.

End Facts.

End AListFacts.

(** * Required fields *)

Module RequiredFacts.
Import GoStrings GoStrconv Ast Json AList Analyzer.


Lemma isFieldRequired_spec j b v :
  isFieldRequired j b v = negb (carriesOmitEmpty j b) && carriesRequired b v.
Proof.
  unfold isFieldRequired, carriesOmitEmpty, carriesRequired.
  destruct (Contains j "omitempty"), (Contains b "omitempty"),
    (Contains b "required"), (Contains v "required"); reflexivity.
Qed.

Lemma getStructTag_no_tag names c d key :
  getStructTag (mkFieldInfo names None c d) key = "".
Proof. reflexivity. Qed.

Lemma structNamed_required pf ju rec field type props ex req name jsonName
      (v v1 : visitedMap) s fe acc' v' :
  name <> "" ->
  resolveJSONFieldName name (getStructTag field "json") = (jsonName, false) ->
  rec type v = Some ((Some s, fe), v1) ->
  structNamed pf ju rec field type (props, ex, req) name v = Some (acc', v') ->
  snd acc' =
    if isFieldRequired (getStructTag field "json") (getStructTag field "binding")
         (getStructTag field "validate")
    then (req ++ [jsonName])%list else req.
Proof.
  intros Hname Hres Hrec. unfold structNamed.
  destruct name as [|c0 n0]; [congruence |].
  rewrite Hres. unfold bind. rewrite Hrec. cbn.
  intros [= <- <-]. reflexivity.
Qed.


Lemma single_field_required pf ju rec info type name jsonName
      (v v1 : visitedMap) s fe :
  fieldNames info = [name] -> name <> "" ->
  resolveJSONFieldName name (getStructTag info "json") = (jsonName, false) ->
  rec type v = Some ((Some s, fe), v1) ->
  exists sch example,
    buildStructSchemaWith pf ju rec [(info, type)] v = Some ((sch, example), v1)
    /\ (In jsonName (sRequired sch) <->
        isFieldRequired (getStructTag info "json") (getStructTag info "binding")
          (getStructTag info "validate") = true).
Proof.
  intros Hnames Hname Hres Hrec.
  destruct (structNamed pf ju rec info type ([], [], []) name v)
    as [[acc' v']|] eqn:E.
  2:{ exfalso. revert E. unfold structNamed.
      destruct name; [congruence |]. rewrite Hres. unfold bind.
      rewrite Hrec. cbn. discriminate. }
  pose proof (structNamed_required _ _ _ _ _ _ _ _ _ _ _ _ _ _ _ _
                Hname Hres Hrec E) as Hreq.
  assert (v' = v1).
  { revert E. unfold structNamed. destruct name; [congruence |].
    rewrite Hres. unfold bind. rewrite Hrec. cbn. now intros [= _ <-]. }
  subst v'. destruct acc' as [[props' ex'] req']. cbn in Hreq.
  assert (Hfold : foldM (structField pf ju rec) [(info, type)] ([], [], []) v
                  = Some ((props', ex', req'), v1)).
  { cbn [foldM]. unfold bind, structField. cbn [fst snd]. rewrite Hnames.
    cbn [foldM]. unfold bind. rewrite E. reflexivity. }
  unfold buildStructSchemaWith, bind. rewrite Hfold.
  eexists _, _. split; [reflexivity |]. cbn. rewrite Hreq.
  destruct (isFieldRequired _ _ _); cbn; intuition congruence.
Qed.

(** A field is marked as required exactly when its tags carry no
    omit-if-empty marker (in the [json] or [binding] tag) and carry a
    required marker (in the [binding] or [validate] tag); a field without
    tags, or without a required marker, is never marked; and one round of
    the loop of the builder appends the name of the field it processes
    to the required list exactly in that case. *)
Lemma required_marking :
  (forall j b v,
      isFieldRequired j b v = true <->
      carriesOmitEmpty j b = false /\ carriesRequired b v = true)
  /\ (forall names c d,
         let f := mkFieldInfo names None c d in
         isFieldRequired (getStructTag f "json") (getStructTag f "binding")
           (getStructTag f "validate") = false)
  /\ (forall j b v, carriesRequired b v = false -> isFieldRequired j b v = false)
  /\ (forall pf ju rec field type props ex req name jsonName
             (v v1 : visitedMap) s fe acc' v',
         name <> "" ->
         resolveJSONFieldName name (getStructTag field "json") = (jsonName, false) ->
         rec type v = Some ((Some s, fe), v1) ->
         structNamed pf ju rec field type (props, ex, req) name v = Some (acc', v') ->
         snd acc' =
           if isFieldRequired (getStructTag field "json")
                (getStructTag field "binding") (getStructTag field "validate")
           then (req ++ [jsonName])%list else req)
  /\ (forall pf ju rec info type name jsonName (v v1 : visitedMap) s fe,
         fieldNames info = [name] -> name <> "" ->
         resolveJSONFieldName name (getStructTag info "json") = (jsonName, false) ->
         rec type v = Some ((Some s, fe), v1) ->
         exists sch example,
           buildStructSchemaWith pf ju rec [(info, type)] v
           = Some ((sch, example), v1)
           /\ (In jsonName (sRequired sch) <->
               isFieldRequired (getStructTag info "json")
                 (getStructTag info "binding") (getStructTag info "validate")
               = true)).
Proof.
  split; [| split; [| split; [| split]]].
  - intros j b v. rewrite isFieldRequired_spec.
    destruct (carriesOmitEmpty j b), (carriesRequired b v); cbn; intuition congruence.
  - reflexivity.
  - intros j b v H. rewrite isFieldRequired_spec, H. apply andb_false_r.
  - intros. eapply structNamed_required; eauto.
  - intros. eapply single_field_required; eauto.
Qed.

End RequiredFacts.

(** * Normalisation of examples *)

Module NormalizeFacts.
Import GoStrings Json AList Analyzer AListFacts.

Section Facts.
Variable rf : string -> list (string * value) -> string.

Lemma EqualFold_refl k : EqualFold k k = true.
Proof. apply String.eqb_refl. Qed.

Lemma foldMatch_Some p exMap k v :
  foldMatch rf p exMap = Some (k, v) ->
  In (k, v) exMap /\ EqualFold k p = true.
Proof.
  unfold foldMatch.
  destruct (List.filter _ exMap) as [|first rest] eqn:E; [discriminate |].
  assert (Hall : forall kv, In kv (first :: rest) ->
                            In kv exMap /\ EqualFold (fst kv) p = true).
  { intros kv Hin. rewrite <- E in Hin. now apply filter_In in Hin. }
  destruct (find _ (first :: rest)) as [kv|] eqn:F.
  - intros [= ->]. apply find_some in F as [Hin _]. exact (Hall _ Hin).
  - intros [= ->]. apply (Hall (k, v)). now left.
Qed.

Lemma foldMatch_None p exMap :
  foldMatch rf p exMap = None <->
  forall k v, In (k, v) exMap -> EqualFold k p = false.
Proof.
  unfold foldMatch.
  destruct (List.filter _ exMap) as [|first rest] eqn:E.
  - split; [intros _ k v Hin | reflexivity].
    destruct (EqualFold k p) eqn:F; [| reflexivity].
    assert (H : In (k, v) (List.filter (fun kv => EqualFold (fst kv) p) exMap)).
    { apply filter_In. split; [assumption | exact F]. }
    rewrite E in H. destruct H.
  - split.
    + destruct (find _ (first :: rest)); discriminate.
    + intros H. exfalso.
      assert (Hin : In first (List.filter (fun kv => EqualFold (fst kv) p) exMap)).
      { rewrite E. now left. }
      apply filter_In in Hin as [H1 H2]. destruct first as [k v].
      simpl in H2. rewrite (H _ _ H1) in H2. discriminate.
Qed.

Lemma normalizeProp_found recur exMap n u p q :
  normalizeProp rf recur exMap (n, u) p q =
  match found rf exMap p with
  | Some (k, v) => (if isNil v then n else aset p (recur q v) n, k :: u)
  | None => (n, u)
  end.
Proof. unfold normalizeProp, found. now destruct (alookup p exMap). Qed.

Lemma propsLoop_cons exMap p q ps acc :
  propsLoop rf exMap ((p, q) :: ps) acc
  = propsLoop rf exMap ps (normalizeProp rf (normalizeExample rf) exMap acc p q).
Proof. reflexivity. Qed.

Lemma loop_keys exMap ps n u n' u' k :
  propsLoop rf exMap ps (n, u) = (n', u') ->
  In k (akeys n') -> In k (akeys n) \/ In k (akeys ps).
Proof.
  revert n u. induction ps as [|[p q] ps IH]; intros n u.
  - intros [= <- <-]. tauto.
  - rewrite propsLoop_cons, normalizeProp_found.
    destruct (found rf exMap p) as [[k0 v0]|].
    + intros H Hin. destruct (IH _ _ H Hin) as [Hk|Hk]; [| simpl; tauto].
      destruct (isNil v0); [tauto |].
      apply akeys_aset in Hk as [->|Hk]; simpl; tauto.
    + intros H Hin. destruct (IH _ _ H Hin); simpl; tauto.
Qed.

Lemma loop_used exMap ps n u n' u' k :
  propsLoop rf exMap ps (n, u) = (n', u') ->
  In k u' <->
  In k u \/ exists p q v, In (p, q) ps /\ found rf exMap p = Some (k, v).
Proof.
  revert n u. induction ps as [|[p q] ps IH]; intros n u.
  - intros [= <- <-]. split; [tauto |]. intros [H|(p & q & v & [] & _)]. exact H.
  - rewrite propsLoop_cons, normalizeProp_found.
    destruct (found rf exMap p) as [[k0 v0]|] eqn:F; intros H;
      rewrite (IH _ _ H); simpl; split.
    + intros [[->|Hu]|(p' & q' & v' & Hin & Hf)]; eauto 10.
    + intros [Hu|(p' & q' & v' & [[= <- <-]|Hin] & Hf)]; eauto 10.
      rewrite F in Hf. injection Hf as -> ->. tauto.
    + intros [Hu|(p' & q' & v' & Hin & Hf)]; eauto 10.
    + intros [Hu|(p' & q' & v' & [[= <- <-]|Hin] & Hf)]; eauto 10.
      congruence.
Qed.

Lemma loop_lookup_other exMap ps n u n' u' p :
  propsLoop rf exMap ps (n, u) = (n', u') ->
  ~ In p (akeys ps) -> alookup p n' = alookup p n.
Proof.
  revert n u. induction ps as [|[p0 q0] ps IH]; intros n u.
  - now intros [= <- <-].
  - rewrite propsLoop_cons, normalizeProp_found. simpl. intros H Hnot.
    destruct (found rf exMap p0) as [[k0 v0]|].
    + rewrite (IH _ _ H) by tauto.
      destruct (isNil v0); [reflexivity |].
      apply alookup_aset_ne. tauto.
    + apply (IH _ _ H). tauto.
Qed.

Lemma loop_lookup exMap ps n u n' u' p q :
  NoDup (akeys ps) -> In (p, q) ps ->
  propsLoop rf exMap ps (n, u) = (n', u') ->
  alookup p n' =
  match found rf exMap p with
  | Some (_, v) =>
      if isNil v then alookup p n else Some (normalizeExample rf q v)
  | None => alookup p n
  end.
Proof.
  revert n u. induction ps as [|[p0 q0] ps IH]; intros n u Hnd Hin; [destruct Hin |].
  simpl in Hnd. apply NoDup_cons in Hnd as [Hp0 Hnd].
  rewrite propsLoop_cons, normalizeProp_found. intros H.
  destruct Hin as [[= -> ->]|Hin].
  - assert (Hnot : ~ In p (akeys ps)).
    { intros Hc. apply Hp0. now apply list_elem_of_In. }
    destruct (found rf exMap p) as [[k0 v0]|];
      rewrite (loop_lookup_other _ _ _ _ _ _ _ H Hnot); [| reflexivity].
    destruct (isNil v0); [reflexivity | apply alookup_aset_eq].
  - assert (Hne : p0 <> p).
    { intros ->. apply Hp0. apply list_elem_of_In.
      unfold akeys. apply in_map_iff. now exists (p, q). }
    destruct (found rf exMap p0) as [[k0 v0]|];
      rewrite (IH _ _ Hnd Hin H); [| reflexivity].
    destruct (isNil v0); [reflexivity |].
    now rewrite (alookup_aset_ne _ _ _ _ Hne).
Qed.

(** The last loop. *)

Lemma existsb_eqb_In k u : existsb (String.eqb k) u = true <-> In k u.
Proof.
  rewrite existsb_exists. split.
  - intros (x & Hin & ->%String.eqb_eq). exact Hin.
  - intros Hin. exists k. split; [exact Hin | apply String.eqb_refl].
Qed.

Lemma final_lookup u l n k :
  NoDup (akeys l) ->
  alookup k (fold_left (keepUnused u) l n) =
  match alookup k l with
  | Some v => if existsb (String.eqb k) u then alookup k n else Some v
  | None => alookup k n
  end.
Proof.
  revert n. induction l as [|[k0 v0] l IH]; intros n Hnd; [reflexivity |].
  simpl in Hnd. apply NoDup_cons in Hnd as [Hk0 Hnd].
  cbn [fold_left alookup]. rewrite (IH _ Hnd).
  assert (Hstep : forall k', k' <> k0 ->
            alookup k' (keepUnused u n (k0, v0)) = alookup k' n).
  { intros k' Hne. unfold keepUnused. cbn [fst snd].
    destruct (existsb (String.eqb k0) u); [reflexivity |].
    apply alookup_aset_ne. congruence. }
  destruct (String.eqb_spec k0 k) as [->|Hne].
  - assert (Hnone : alookup k l = None).
    { apply alookup_None. intros Hc. apply Hk0. now apply list_elem_of_In. }
    rewrite Hnone. unfold keepUnused. cbn [fst snd].
    destruct (existsb (String.eqb k) u); [reflexivity |].
    apply alookup_aset_eq.
  - rewrite (Hstep k) by congruence. reflexivity.
Qed.

Lemma normalizeExample_object f d it p ps r a exMap :
  normalizeExample rf (mkSchema "object" f d it (Some (p :: ps)) r a) (VObj exMap)
  = let '(n, u) := propsLoop rf exMap (p :: ps) ([], []) in
    VObj (fold_left (keepUnused u) exMap n).
Proof. reflexivity. Qed.

End Facts.

(** C10, as stated, fails: an entry that matches a property only up to
    case and holds [nil] is neither kept nor re-keyed, and of two entries
    that match the same property up to case only one is re-keyed. *)
Lemma normalize_rekey_not_total :
  let sch := mkSchema "object" None None None
               (Some [("id", typeSchema "integer")]) [] None in
  let first : string -> list (string * value) -> string := fun _ _ => "ID" in
  normalizeExample first sch (VObj [("ID", VNil)]) = VObj []
  /\ normalizeExample first sch (VObj [("ID", VInt64 1); ("Id", VInt64 2)])
     = VObj [("id", VInt64 1); ("Id", VInt64 2)].
Proof. split; reflexivity. Qed.

(** C10 (amended): for an object schema with at least one property and an
    object example, every entry whose key equals no property name, even up
    to case, is kept unchanged; so is every entry whose key is no property
    name and that no property selects.  A property with an entry under its
    exact name takes that entry; a property without one selects one entry
    whose key equals its name up to case, if there is any.  When the
    selected value is not [nil] the property gets it, normalized against
    the property's schema, and the entry is no longer found under its old
    key; when it is [nil] the property gets no entry.  A property without
    any matching entry gets no entry. *)
Theorem normalize_object_entries
    (rf : string -> list (string * value) -> string) f d it ps r a exMap :
  ps <> [] -> NoDup (akeys ps) -> NoDup (akeys exMap) ->
  exists res,
    normalizeExample rf (mkSchema "object" f d it (Some ps) r a) (VObj exMap)
    = VObj res
    /\ (forall k v, In (k, v) exMap ->
          (forall p, In p (akeys ps) -> EqualFold k p = false) ->
          alookup k res = Some v)
    /\ (forall k v, In (k, v) exMap -> ~ In k (akeys ps) ->
          (forall p q v', In (p, q) ps -> alookup p exMap = None ->
                          foldMatch rf p exMap <> Some (k, v')) ->
          alookup k res = Some v)
    /\ (forall p q v, In (p, q) ps -> alookup p exMap = Some v ->
          alookup p res =
          if isNil v then None else Some (normalizeExample rf q v))
    /\ (forall p q k v, In (p, q) ps -> alookup p exMap = None ->
          foldMatch rf p exMap = Some (k, v) ->
          alookup p res =
            (if isNil v then None else Some (normalizeExample rf q v))
          /\ (~ In k (akeys ps) -> alookup k res = None))
    /\ (forall p q, In (p, q) ps -> alookup p exMap = None ->
          (forall k v, In (k, v) exMap -> EqualFold k p = false) ->
          alookup p res = None).
Proof.
  intros Hne Hps Hex. destruct ps as [|p0 ps0]; [congruence |].
  rewrite normalizeExample_object.
  destruct (propsLoop rf exMap (p0 :: ps0) ([], [])) as [n u] eqn:L.
  set (ps := p0 :: ps0) in *.
  exists (fold_left (keepUnused u) exMap n). split; [reflexivity |].
  assert (Hkeys : forall k, In k (akeys n) -> In k (akeys ps)).
  { intros k Hk. destruct (loop_keys _ _ _ _ _ _ _ _ L Hk) as [[]|]; assumption. }
  assert (Hused : forall k, In k u <->
            exists p q v, In (p, q) ps /\ found rf exMap p = Some (k, v)).
  { intros k. rewrite (loop_used _ _ _ _ _ _ _ k L). simpl. tauto. }
  assert (Hn_none : forall k, ~ In k (akeys ps) -> alookup k n = None).
  { intros k Hk. apply alookup_None. intros Hc. apply Hk, Hkeys, Hc. }
  assert (Hkept : forall k v, In (k, v) exMap -> ~ In k (akeys ps) ->
            (forall p q v', In (p, q) ps -> alookup p exMap = None ->
                            foldMatch rf p exMap <> Some (k, v')) ->
            alookup k (fold_left (keepUnused u) exMap n) = Some v).
  { intros k v Hin Hnot Hsel. rewrite (final_lookup _ _ _ _ Hex).
    rewrite (alookup_In _ _ _ Hex Hin).
    destruct (existsb (String.eqb k) u) eqn:E; [exfalso | reflexivity].
    apply existsb_eqb_In, Hused in E as (p & q & v' & Hp & Hf).
    unfold found in Hf. destruct (alookup p exMap) eqn:Ep.
    - injection Hf as <- _. apply Hnot. unfold akeys. apply in_map_iff.
      now exists (p, q).
    - exact (Hsel _ _ _ Hp Ep Hf). }
  split; [| split; [exact Hkept | split; [| split]]].
  - intros k v Hin Hfold. apply Hkept; [exact Hin | |].
    + intros Hk. specialize (Hfold _ Hk). rewrite EqualFold_refl in Hfold.
      discriminate.
    + intros p q v' Hp _ Hf. apply foldMatch_Some in Hf as [_ Hf].
      rewrite Hfold in Hf; [discriminate |].
      unfold akeys. apply in_map_iff. now exists (p, q).
  - intros p q v Hp Hv. rewrite (final_lookup _ _ _ _ Hex), Hv.
    assert (Hu : existsb (String.eqb p) u = true).
    { apply existsb_eqb_In, Hused. exists p, q, v. split; [exact Hp |].
      unfold found. now rewrite Hv. }
    rewrite Hu, (loop_lookup _ _ _ _ _ _ _ _ _ Hps Hp L).
    unfold found. rewrite Hv. reflexivity.
  - intros p q k v Hp Hnone Hf. split.
    + rewrite (final_lookup _ _ _ _ Hex), Hnone.
      rewrite (loop_lookup _ _ _ _ _ _ _ _ _ Hps Hp L).
      unfold found. rewrite Hnone, Hf. reflexivity.
    + intros Hk. rewrite (final_lookup _ _ _ _ Hex).
      destruct (foldMatch_Some _ _ _ _ _ Hf) as [Hin _].
      rewrite (alookup_In _ _ _ Hex Hin).
      assert (Hu : existsb (String.eqb k) u = true).
      { apply existsb_eqb_In, Hused. exists p, q, v. split; [exact Hp |].
        unfold found. now rewrite Hnone. }
      rewrite Hu. now apply Hn_none.
  - intros p q Hp Hnone Hno. rewrite (final_lookup _ _ _ _ Hex), Hnone.
    rewrite (loop_lookup _ _ _ _ _ _ _ _ _ Hps Hp L).
    unfold found. rewrite Hnone.
    now rewrite (proj2 (foldMatch_None rf p exMap) Hno).
Qed.

Lemma normalize_object_entries_witness :
  exists res,
    normalizeExample (fun p _ => p)
      (mkSchema "object" None None None
         (Some [("id", typeSchema "integer")]) [] None)
      (VObj [("ID", VInt64 1); ("extra", VString "x")]) = VObj res
    /\ alookup "extra" res = Some (VString "x")
    /\ alookup "id" res = Some (VInt64 1)
    /\ alookup "ID" res = None.
Proof.
  destruct (normalize_object_entries (fun p _ => p) None None None
              [("id", typeSchema "integer")] [] None
              [("ID", VInt64 1); ("extra", VString "x")])
    as (res & E & Hkeep & _ & _ & Hsel & _).
  - discriminate.
  - apply (bool_decide_unpack _). vm_compute. exact I.
  - apply (bool_decide_unpack _). vm_compute. exact I.
  - exists res. split; [exact E |]. split.
    + apply Hkeep; [simpl; tauto |].
      intros p [<-|[]]. reflexivity.
    + destruct (Hsel "id" (typeSchema "integer") "ID" (VInt64 1)) as [H1 H2];
        [simpl; tauto | reflexivity | reflexivity |].
      split; [exact H1 |]. apply H2. simpl. intros [H|[]]. discriminate H.
Defined.

End NormalizeFacts.

(** * The monad of the builder *)

Module MonadFacts.
Import Analyzer.

Lemma bind_Some {A B : Type} (m : M A) (k : A -> M B) v r :
  bind m k v = Some r <->
  exists a v1, m v = Some (a, v1) /\ k a v1 = Some r.
Proof.
  unfold bind. destruct (m v) as [[a v1]|].
  - split; [intros H; now exists a, v1 | intros (a' & v1' & [= <- <-] & H); exact H].
  - split; [discriminate | intros (a' & v1' & H & _); discriminate].
Qed.

Lemma ret_Some {A : Type} (a : A) v r : ret a v = Some r <-> r = (a, v).
Proof. unfold ret. split; [intros [= <-]; reflexivity | intros ->; reflexivity]. Qed.

Lemma foldM_nil {S A : Type} (f : S -> A -> M S) s : foldM f [] s = ret s.
Proof. reflexivity. Qed.

Lemma foldM_cons {S A : Type} (f : S -> A -> M S) x xs s :
  foldM f (x :: xs) s = bind (f s x) (foldM f xs).
Proof. reflexivity. Qed.

(** An invariant of the state that every round preserves holds at the end. *)
Lemma foldM_invariant {S A : Type} (P : S -> Prop) (f : S -> A -> M S) xs :
  (forall s x v s' v', In x xs -> P s -> f s x v = Some (s', v') -> P s') ->
  forall s v s' v', P s -> foldM f xs s v = Some (s', v') -> P s'.
Proof.
  induction xs as [|x xs IH]; intros Hstep s v s' v' Hs.
  - now intros [= <- _].
  - rewrite foldM_cons. intros (s1 & v1 & H1 & H2)%bind_Some.
    apply (IH (fun s x v s' v' Hin => Hstep s x v s' v' (or_intror Hin))
              s1 v1 s' v'); [| exact H2].
    apply (Hstep s x v s1 v1); [now left | exact Hs | exact H1].
Qed.

(** The round of an element of the list, with the state before and after. *)
Lemma foldM_round {S A : Type} (f : S -> A -> M S) xs x s v s' v' :
  In x xs -> foldM f xs s v = Some (s', v') ->
  exists pre post s1 v1 s2 v2,
    xs = (pre ++ x :: post)%list
    /\ foldM f pre s v = Some (s1, v1)
    /\ f s1 x v1 = Some (s2, v2)
    /\ foldM f post s2 v2 = Some (s', v').
Proof.
  revert s v. induction xs as [|y xs IH]; intros s v Hin; [destruct Hin |].
  rewrite foldM_cons. intros (s1 & v1 & H1 & H2)%bind_Some.
  destruct Hin as [->|Hin].
  - exists [], xs, s, v, s1, v1. repeat split; assumption.
  - destruct (IH _ _ Hin H2) as (pre & post & sa & va & sb & vb & -> & Ha & Hb & Hc).
    exists (y :: pre), post, sa, va, sb, vb. repeat split; try assumption.
    rewrite foldM_cons. apply bind_Some. now exists s1, v1.
Qed.

End MonadFacts.

(** * Properties of struct schemas *)

Module StructFacts.
Import GoStrings Ast Json AList Analyzer Notions Samples MoreSamples AListFacts
  MonadFacts.

Section Facts.
Variable pf : string -> option float64.
Variable ju : string -> option value.
Variable rec : expr -> M (option schema * value).

Lemma structNamed_props field type acc name v acc' v' :
  structNamed pf ju rec field type acc name v = Some (acc', v') ->
  propsOf acc' = propsOf acc
  \/ exists jsonName s,
       name <> ""
       /\ resolveJSONFieldName name (getStructTag field "json") = (jsonName, false)
       /\ propsOf acc' = aset jsonName s (propsOf acc).
Proof.
  unfold structNamed. destruct name as [|c n]; [intros [= <- _]; now left |].
  destruct (resolveJSONFieldName _ _) as [jsonName [|]] eqn:R;
    [intros [= <- _]; now left |].
  intros (res & v1 & Hrec & H)%bind_Some. destruct res as [[s|] fe].
  - destruct acc as [[props ex] req]. cbn in H. injection H as <- _.
    right. eexists _, _. split; [discriminate |]. split; reflexivity.
  - injection H as <- _. now left.
Qed.

Lemma structNamed_adds field type acc name jsonName v acc' v' :
  name <> "" ->
  resolveJSONFieldName name (getStructTag field "json") = (jsonName, false) ->
  (forall v r ex v', rec type v = Some ((r, ex), v') -> r <> None) ->
  structNamed pf ju rec field type acc name v = Some (acc', v') ->
  In jsonName (akeys (propsOf acc')).
Proof.
  intros Hname R Hnonnil. unfold structNamed.
  destruct name as [|c n]; [congruence |]. rewrite R.
  intros (res & v1 & Hrec & H)%bind_Some. destruct res as [[s|] fe].
  - destruct acc as [[props ex] req]. cbn in H. injection H as <- _.
    cbn. apply akeys_aset. now left.
  - exfalso. exact (Hnonnil _ _ _ _ Hrec eq_refl).
Qed.

Lemma structEmbedded_props acc type v acc' v' :
  structEmbedded rec acc type v = Some (acc', v') ->
  propsOf acc' = propsOf acc
  \/ exists s ex ps,
       rec type v = Some ((Some s, ex), v')
       /\ sProperties s = Some ps
       /\ propsOf acc' = amerge (propsOf acc) ps.
Proof.
  unfold structEmbedded. intros (res & v1 & Hrec & H)%bind_Some.
  destruct res as [sch nested]. destruct acc as [[props ex] req].
  cbn in H. injection H as <- <-. cbn.
  destruct sch as [s|]; [| now left].
  destruct (sProperties s) as [ps|] eqn:E; [| now left].
  right. exists s, nested, ps. repeat split; assumption.
Qed.

Lemma structField_OK fields acc f v acc' v' :
  In f fields -> accOK rec fields acc ->
  structField pf ju rec acc f v = Some (acc', v') -> accOK rec fields acc'.
Proof.
  destruct f as [info type]. intros Hin Hacc. unfold structField. cbn [fst snd].
  destruct (fieldNames info) as [|n0 names0] eqn:Hnames.
  - intros H. destruct (structEmbedded_props _ _ _ _ _ H)
      as [E|(s & ex & ps & Hrec & Hps & E)]; unfold accOK; rewrite E.
    + exact Hacc.
    + destruct Hacc as [Hnd Hor]. split; [now apply NoDup_amerge |].
      intros k [Hk|Hk]%akeys_amerge; [now apply Hor |].
      right. exists info, type, v, s, ex, v', ps. repeat split; assumption.
  - apply foldM_invariant; [| exact Hacc].
    intros s name v0 s' v0' Hname Hs H.
    destruct (structNamed_props _ _ _ _ _ _ _ H)
      as [E|(jsonName & sch & Hne & R & E)]; unfold accOK; rewrite E.
    + exact Hs.
    + destruct Hs as [Hnd Hor]. split; [now apply NoDup_aset |].
      intros k [->|Hk]%akeys_aset; [| now apply Hor].
      left. exists info, type, name. rewrite Hnames. repeat split; assumption.
Qed.

Lemma structField_mono acc f v acc' v' k :
  In k (akeys (propsOf acc)) ->
  structField pf ju rec acc f v = Some (acc', v') ->
  In k (akeys (propsOf acc')).
Proof.
  destruct f as [info type]. intros Hk. unfold structField. cbn [fst snd].
  destruct (fieldNames info) as [|n0 names0].
  - intros H. destruct (structEmbedded_props _ _ _ _ _ H)
      as [E|(s & ex & ps & _ & _ & E)]; rewrite E; [exact Hk |].
    apply akeys_amerge. now left.
  - apply (foldM_invariant (fun acc => In k (akeys (propsOf acc)))); [| exact Hk].
    intros s name v0 s' v0' _ Hs H.
    destruct (structNamed_props _ _ _ _ _ _ _ H)
      as [E|(jsonName & sch & _ & _ & E)]; rewrite E; [exact Hs |].
    apply akeys_aset. now right.
Qed.

Lemma structField_adds acc info type name jsonName v acc' v' :
  In name (fieldNames info) -> name <> "" ->
  resolveJSONFieldName name (getStructTag info "json") = (jsonName, false) ->
  (forall v r ex v', rec type v = Some ((r, ex), v') -> r <> None) ->
  structField pf ju rec acc (info, type) v = Some (acc', v') ->
  In jsonName (akeys (propsOf acc')).
Proof.
  intros Hin Hne R Hnonnil. unfold structField. cbn [fst snd].
  destruct (fieldNames info) as [|n0 names0] eqn:Hnames; [destruct Hin |].
  intros H.
  destruct (foldM_round _ _ _ _ _ _ _ Hin H)
    as (pre & post & s1 & v1 & s2 & v2 & _ & _ & Hstep & Hpost).
  pose proof (structNamed_adds _ _ _ _ _ _ _ _ Hne R Hnonnil Hstep) as Hk.
  revert Hpost.
  apply (foldM_invariant (fun acc => In jsonName (akeys (propsOf acc))));
    [| exact Hk].
  intros s name' v0 s' v0' _ Hs H'.
  destruct (structNamed_props _ _ _ _ _ _ _ H')
    as [E|(jn & sch & _ & _ & E)]; rewrite E; [exact Hs |].
  apply akeys_aset. now right.
Qed.

(** A field whose [json] tag is the skip marker leaves the state alone. *)
Lemma structField_skipped acc info type :
  fieldNames info <> [] -> getStructTag info "json" = "-" ->
  forall v, structField pf ju rec acc (info, type) v = Some (acc, v).
Proof.
  intros Hnames Htag. unfold structField. cbn [fst snd].
  destruct (fieldNames info) as [|n0 names0]; [congruence |].
  generalize (n0 :: names0). intros names.
  induction names as [|name names IH]; intros v; [reflexivity |].
  rewrite foldM_cons. apply bind_Some. exists acc, v. split; [| apply IH].
  unfold structNamed. destruct name; [reflexivity |]. now rewrite Htag.
Qed.

Lemma structField_total acc info type v :
  (forall v, exists r, rec type v = Some r) ->
  exists res, structField pf ju rec acc (info, type) v = Some res.
Proof.
  intros Htot. unfold structField. cbn [fst snd].
  destruct (fieldNames info) as [|n0 names0].
  - unfold structEmbedded, bind. destruct (Htot v) as [[[sch ex] v1] ->].
    destruct acc as [[props e] req]. cbn. eauto.
  - generalize (n0 :: names0). intros names. revert acc v.
    induction names as [|name names IH]; intros acc v; [cbn; eauto |].
    rewrite foldM_cons.
    assert (Hstep : exists res, structNamed pf ju rec info type acc name v = Some res).
    { unfold structNamed. destruct name; [cbn; eauto |].
      destruct (resolveJSONFieldName _ _) as [jn [|]]; [cbn; eauto |].
      unfold bind. destruct (Htot v) as [[[sch ex] v1] ->].
      destruct sch; [| cbn; eauto].
      destruct acc as [[props e] req]. cbn. eauto. }
    destruct Hstep as [[acc1 v1] Hstep]. destruct (IH acc1 v1) as [res Hres].
    exists res. apply bind_Some. now exists acc1, v1.
Qed.

Lemma buildStructSchemaWith_total fields :
  (forall info type, In (info, type) fields ->
                     forall v, exists r, rec type v = Some r) ->
  forall v, exists res, buildStructSchemaWith pf ju rec fields v = Some res.
Proof.
  intros Htot v. unfold buildStructSchemaWith.
  assert (H : forall acc v, exists res,
               foldM (structField pf ju rec) fields acc v = Some res).
  { clear v. induction fields as [|[info type] fs IH]; intros acc v; [cbn; eauto |].
    rewrite foldM_cons.
    destruct (structField_total acc info type v) as [[acc1 v1] H1].
    { apply (Htot info type). now left. }
    destruct (IH (fun i t Hin => Htot i t (or_intror Hin)) acc1 v1) as [res Hres].
    exists res. apply bind_Some. now exists acc1, v1. }
  destruct (H ([], [], []) v) as [[[[props ex] req] v1] Hfold].
  unfold bind. rewrite Hfold. cbn. eauto.
Qed.

Lemma buildStructSchemaWith_props fields v sch example v' :
  buildStructSchemaWith pf ju rec fields v = Some ((sch, example), v') ->
  exists props,
    sProperties sch = Some props
    /\ foldM (structField pf ju rec) fields ([], [], []) v
       = Some ((props, example, sRequired sch), v').
Proof.
  unfold buildStructSchemaWith. intros (acc & v1 & Hfold & H)%bind_Some.
  destruct acc as [[props ex] req]. cbn in H. injection H as <- <- <-.
  exists props. split; [reflexivity | exact Hfold].
Qed.

Lemma foldM_skipped fields acc v :
  foldM (structField pf ju rec)
    (List.filter (fun f => negb (skipped (fst f))) fields) acc v
  = foldM (structField pf ju rec) fields acc v.
Proof.
  revert acc v. induction fields as [|[info type] fs IH]; intros acc v;
    [reflexivity |].
  cbn [List.filter fst]. destruct (skipped info) eqn:E; cbn [negb].
  - rewrite foldM_cons. unfold bind.
    unfold skipped in E. destruct (fieldNames info) eqn:Hn; [discriminate |].
    rewrite structField_skipped;
      [apply IH | now rewrite Hn | now apply String.eqb_eq].
  - rewrite !foldM_cons. unfold bind.
    destruct (structField pf ju rec acc (info, type) v) as [[a1 v1]|];
      [apply IH | reflexivity].
Qed.

(** ** The schemas of the properties *)

Lemma alookup_aset (k j : string) (s : schema) m :
  alookup k (aset j s m) = if String.eqb j k then Some s else alookup k m.
Proof.
  destruct (String.eqb_spec j k) as [->|Hne].
  - apply alookup_aset_eq.
  - now apply alookup_aset_ne.
Qed.

Lemma alookup_amerge (k : string) (s : schema) dst src :
  alookup k (amerge dst src) = Some s ->
  In (k, s) src \/ alookup k dst = Some s.
Proof.
  revert dst. induction src as [|[j s'] src IH]; intros dst; [now right |].
  rewrite amerge_cons. cbn [fst snd]. intros [H|H]%IH; [left; now right |].
  rewrite alookup_aset in H. destruct (String.eqb_spec j k) as [->|Hne].
  - injection H as <-. left. now left.
  - now right.
Qed.

Lemma structNamed_step field type acc name v acc' v' :
  structNamed pf ju rec field type acc name v = Some (acc', v') ->
  acc' = acc
  \/ exists jsonName s0 ex v1 example,
       name <> ""
       /\ resolveJSONFieldName name (getStructTag field "json") = (jsonName, false)
       /\ rec type v = Some ((Some s0, ex), v1)
       /\ acc' = (aset jsonName (fieldSchema field s0) (propsOf acc), example,
                  if requiredByTags field
                  then (reqOf acc ++ [jsonName])%list else reqOf acc).
Proof.
  unfold structNamed. destruct name as [|c n]; [intros [= <- _]; now left |].
  destruct (resolveJSONFieldName _ _) as [jsonName [|]] eqn:R;
    [intros [= <- _]; now left |].
  intros (res & v1 & Hrec & H)%bind_Some. destruct res as [[s|] fe].
  - destruct acc as [[props ex] req]. cbn in H. injection H as <- _.
    right. exists jsonName, s, fe, v1. eexists. split; [discriminate |].
    split; [reflexivity |]. split; [exact Hrec |]. reflexivity.
  - injection H as <- _. now left.
Qed.

Lemma structEmbedded_step acc type v acc' v' :
  structEmbedded rec acc type v = Some (acc', v') ->
  (exists example, acc' = (propsOf acc, example, reqOf acc))
  \/ exists s ex example,
       rec type v = Some ((Some s, ex), v')
       /\ acc' = (match sProperties s with
                  | Some ps => amerge (propsOf acc) ps
                  | None => propsOf acc
                  end, example, (reqOf acc ++ sRequired s)%list).
Proof.
  unfold structEmbedded. intros (res & v1 & Hrec & H)%bind_Some.
  destruct res as [sch nested]. destruct acc as [[props ex] req].
  cbn in H. injection H as <- <-. cbn.
  destruct sch as [s|]; [right | left; eauto].
  exists s, nested. eexists. split; [exact Hrec | reflexivity].
Qed.

Lemma structField_from fields acc f v acc' v' :
  In f fields -> propsFrom rec fields acc /\ reqFrom rec fields acc ->
  structField pf ju rec acc f v = Some (acc', v') ->
  propsFrom rec fields acc' /\ reqFrom rec fields acc'.
Proof.
  destruct f as [info type]. intros Hin Hacc. unfold structField. cbn [fst snd].
  destruct (fieldNames info) as [|n0 names0] eqn:Hnames.
  - intros [[example ->]|(s & ex & example & Hrec & ->)]%structEmbedded_step;
      [exact Hacc |].
    destruct Hacc as [Hp Hr]. split.
    + intros k s'. unfold propsOf. cbn [fst].
      destruct (sProperties s) as [ps|] eqn:Hps; [| apply Hp].
      intros [H|H]%alookup_amerge; [| now apply Hp].
      right. exists info, type, v, s, ex, v', ps. repeat split; assumption.
    + intros k. unfold reqOf. cbn [snd]. intros [H|H]%in_app_or; [now apply Hr |].
      right. exists info, type, v, s, ex, v'. repeat split; assumption.
  - apply (foldM_invariant
             (fun acc => propsFrom rec fields acc /\ reqFrom rec fields acc));
      [| exact Hacc].
    intros a name v0 a' v0' Hname [Hp Hr]
           [->|(jn & s0 & ex & v1 & example & Hne & R & Hrec & ->)]%structNamed_step;
      [now split |].
    split.
    + intros k s'. unfold propsOf at 1. cbn [fst]. rewrite alookup_aset.
      destruct (String.eqb_spec jn k) as [->|Hnk]; [| apply Hp].
      intros [= <-]. left. exists info, type, name, v0, s0, ex, v1.
      rewrite Hnames. repeat split; assumption.
    + intros k. unfold reqOf at 1. cbn [snd].
      destruct (requiredByTags info) eqn:Hreq; [| apply Hr].
      intros [H|[<-|[]]]%in_app_or; [now apply Hr |].
      left. exists info, type, name, v0, s0, ex, v1.
      rewrite Hnames. repeat split; assumption.
Qed.

Lemma fold_from fields v props example req v' :
  foldM (structField pf ju rec) fields ([], [], []) v
  = Some ((props, example, req), v') ->
  (forall k s, alookup k props = Some s -> propertyOrigin rec fields k s)
  /\ (forall k, In k req -> requiredOrigin rec fields k).
Proof.
  intros H.
  apply (foldM_invariant
           (fun acc => propsFrom rec fields acc /\ reqFrom rec fields acc)
           (structField pf ju rec) fields) in H; [exact H | |].
  - intros s x v0 s' v0' Hin Hs Hx. eapply structField_from; eauto.
  - split; [intros k s [=] | intros k []].
Qed.

(** ** Fields without schema *)

Lemma structField_schemaless acc info type :
  fieldNames info <> [] -> yieldsNoSchema rec type ->
  forall v, structField pf ju rec acc (info, type) v = Some (acc, v).
Proof.
  intros Hnames Hno. unfold structField. cbn [fst snd].
  destruct (fieldNames info) as [|n0 names0]; [congruence |].
  generalize (n0 :: names0). intros names.
  induction names as [|name names IH]; intros v; [reflexivity |].
  rewrite foldM_cons. apply bind_Some. exists acc, v. split; [| apply IH].
  unfold structNamed. destruct name; [reflexivity |].
  destruct (resolveJSONFieldName _ _) as [jn [|]]; [reflexivity |].
  unfold bind. destruct (Hno v) as [ex ->]. reflexivity.
Qed.

Lemma foldM_without {S A : Type} (f : S -> A -> M S) pre x post :
  (forall s v, f s x v = Some (s, v)) ->
  forall s v, foldM f (pre ++ x :: post)%list s v = foldM f (pre ++ post)%list s v.
Proof.
  intros Hx. induction pre as [|y pre IH]; intros s v.
  - cbn [app]. rewrite foldM_cons. unfold bind. now rewrite Hx.
  - cbn [app]. rewrite !foldM_cons. unfold bind.
    destruct (f s y v) as [[s1 v1]|]; [apply IH | reflexivity].
Qed.

(** ** The required list *)

Lemma structField_req_mono acc f v acc' v' k :
  In k (reqOf acc) ->
  structField pf ju rec acc f v = Some (acc', v') -> In k (reqOf acc').
Proof.
  destruct f as [info type]. intros Hk. unfold structField. cbn [fst snd].
  destruct (fieldNames info) as [|n0 names0].
  - intros [[example ->]|(s & ex & example & _ & ->)]%structEmbedded_step;
      [exact Hk |].
    unfold reqOf. cbn [snd]. apply in_or_app. now left.
  - apply (foldM_invariant (fun acc => In k (reqOf acc))); [| exact Hk].
    intros a name v0 a' v0' _ Ha
           [->|(jn & s0 & ex & v1 & example & _ & _ & _ & ->)]%structNamed_step;
      [exact Ha |].
    unfold reqOf at 1. cbn [snd]. destruct (requiredByTags info); [| exact Ha].
    apply in_or_app. now left.
Qed.

Lemma structField_req_adds acc info type name jsonName v acc' v' :
  In name (fieldNames info) -> name <> "" ->
  resolveJSONFieldName name (getStructTag info "json") = (jsonName, false) ->
  yieldsSchema rec type -> requiredByTags info = true ->
  structField pf ju rec acc (info, type) v = Some (acc', v') ->
  In jsonName (reqOf acc').
Proof.
  intros Hin Hne R Hyes Hreq. unfold structField. cbn [fst snd].
  destruct (fieldNames info) as [|n0 names0] eqn:Hnames; [destruct Hin |].
  intros H.
  destruct (foldM_round _ _ _ _ _ _ _ Hin H)
    as (pre & post & s1 & v1 & s2 & v2 & _ & _ & Hstep & Hpost).
  assert (Hk : In jsonName (reqOf s2)).
  { revert Hstep. unfold structNamed.
    destruct name as [|c n]; [congruence |]. rewrite R.
    intros (res & v3 & Hrec & Hret)%bind_Some.
    destruct res as [[s|] fe]; [| exfalso; exact (Hyes _ _ _ _ Hrec eq_refl)].
    destruct s1 as [[p e] r]. cbn in Hret. unfold requiredByTags in Hreq.
    rewrite Hreq in Hret. injection Hret as <- _.
    unfold reqOf. cbn [snd]. apply in_or_app. right. now left. }
  revert Hpost.
  apply (foldM_invariant (fun acc => In jsonName (reqOf acc))); [| exact Hk].
  intros a name' v0 a' v0' _ Ha
         [->|(jn & s0 & ex & v3 & example & _ & _ & _ & ->)]%structNamed_step;
    [exact Ha |].
  unfold reqOf at 1. cbn [snd]. destruct (requiredByTags info); [| exact Ha].
  apply in_or_app. now left.
Qed.

Lemma structField_req_embedded acc info type v acc' v' k :
  fieldNames info = [] ->
  (forall v r ex v', rec type v = Some ((r, ex), v') ->
                     exists s, r = Some s /\ In k (sRequired s)) ->
  structField pf ju rec acc (info, type) v = Some (acc', v') ->
  In k (reqOf acc').
Proof.
  intros Hnames Hreq. unfold structField. cbn [fst snd]. rewrite Hnames.
  unfold structEmbedded. intros (res & v1 & Hrec & H)%bind_Some.
  destruct res as [sch nested]. destruct (Hreq _ _ _ _ Hrec) as (s & -> & Hk).
  destruct acc as [[props ex] req]. cbn in H. injection H as <- _.
  unfold reqOf. cbn [snd]. apply in_or_app. now right.
Qed.

End Facts.

Lemma resolveJSONFieldName_spec name tag :
  resolveJSONFieldName name "-" = ("", true)
  /\ (tag <> "-" -> name <> "" ->
      resolveJSONFieldName name tag =
      (match hd "" (Split tag ",") with
       | EmptyString => lowerFirst name
       | String _ _ as first => first
       end, false)).
Proof.
  split; [reflexivity |]. intros Htag Hname. unfold resolveJSONFieldName.
  apply String.eqb_neq in Htag. rewrite Htag.
  destruct name as [|c n]; [congruence |].
  destruct tag as [|t0 t]; [reflexivity |].
  destruct (Split (String t0 t) ",") as [|[|f0 f] rest]; reflexivity.
Qed.





(** ** The required list *)

Lemma buildStructSchemaWith_fold pf ju rec fields v sch example v' :
  buildStructSchemaWith pf ju rec fields v = Some ((sch, example), v') ->
  exists props,
    foldM (structField pf ju rec) fields ([], [], []) v
    = Some ((props, example, sRequired sch), v').
Proof.
  intros H. destruct (buildStructSchemaWith_props _ _ _ _ _ _ _ _ H)
    as (props & _ & Hfold). now exists props.
Qed.




End StructFacts.
(** * The traversal of a handler body *)

Module HandlerFacts.
Import GoStrings GoStrconv Ast Json AList Analyzer Samples.

Lemma extractStatusCode_constant fuel x name code ctx :
  httpStatusNameMap name = Some code ->
  extractStatusCode (S fuel) (SelectorExpr x name) ctx = Some (Itoa code).
Proof. intros H. cbn. now rewrite H. Qed.

Lemma extractStatusCode_unresolved fuel e ctx :
  unresolvedStatus e ctx -> extractStatusCode (S fuel) e ctx = Some "".
Proof.
  destruct e; cbn; try reflexivity.
  - now intros ->.
  - destruct kind; [tauto | reflexivity..].
  - now intros ->.
Qed.

(** A response call is no binding call. *)
Lemma response_not_binding fuel fn args ctx info :
  responseCallInfo fuel fn args ctx = Some (Some info) ->
  isBindingCall fn = false.
Proof.
  unfold responseCallInfo, isBindingCall.
  destruct fn as [| | |x method| | | | | | | | | | | |]; try discriminate.
  cbn [existsb].
  repeat match goal with
         | |- context [String.eqb method ?s] =>
             destruct (String.eqb_spec method s) as [->|?];
             [intros _; reflexivity |]
         end.
  cbn. discriminate.
Qed.

Section Facts.
Variable pf : string -> option float64.
Variable ju : string -> option value.
Variable rf : string -> list (string * value) -> string.

Lemma analyzeNodes_app fuel pre post st stF :
  analyzeNodes pf ju rf fuel (pre ++ post)%list st = Some stF <->
  exists st1, analyzeNodes pf ju rf fuel pre st = Some st1
              /\ analyzeNodes pf ju rf fuel post st1 = Some stF.
Proof.
  revert st. induction pre as [|n pre IH]; intros st; simpl.
  - split; [intros H; now exists st | intros (st1 & [= <-] & H); exact H].
  - destruct (analyzeNode pf ju rf fuel st n) as [st'|]; [apply IH |].
    split; [discriminate | intros (st1 & H & _); discriminate].
Qed.

Lemma analyzeNodes_cons fuel n post st stF :
  analyzeNodes pf ju rf fuel (n :: post) st = Some stF <->
  exists st1, analyzeNode pf ju rf fuel st n = Some st1
              /\ analyzeNodes pf ju rf fuel post st1 = Some stF.
Proof.
  simpl. destruct (analyzeNode pf ju rf fuel st n) as [st'|].
  - split; [intros H; now exists st' | intros (st1 & [= <-] & H); exact H].
  - split; [discriminate | intros (st1 & H & _); discriminate].
Qed.

(** An invariant of the state that every node preserves. *)
Lemma analyzeNodes_invariant (P : analysisState -> Prop) fuel nodes :
  (forall st n st', P st -> analyzeNode pf ju rf fuel st n = Some st' -> P st') ->
  forall st stF, P st -> analyzeNodes pf ju rf fuel nodes st = Some stF -> P stF.
Proof.
  intros Hstep. induction nodes as [|n nodes IH]; intros st stF Hst.
  - now intros [= <-].
  - intros (st1 & H1 & H2)%analyzeNodes_cons.
    apply (IH st1); [exact (Hstep _ _ _ Hst H1) | exact H2].
Qed.

Lemma recordRequestBody_inv fuel fn args ctx a st' :
  recordRequestBody pf ju fuel fn args (ctx, a) = Some st' ->
  fst st' = ctx /\ haResponses (snd st') = haResponses a
  /\ (haRequestBody (snd st') = haRequestBody a
      \/ exists arg rest resolved,
           haRequestBody a = None /\ isBindingCall fn = true
           /\ args = arg :: rest
           /\ resolveRequestBody pf ju fuel fn arg ctx = Some (Some resolved)
           /\ haRequestBody (snd st') = Some resolved).
Proof.
  unfold recordRequestBody.
  destruct (haRequestBody a) as [rb|] eqn:Hrb.
  { intros [= <-]. cbn. rewrite Hrb. tauto. }
  destruct (isBindingCall fn) eqn:Hb.
  2:{ intros [= <-]. cbn. rewrite Hrb. tauto. }
  destruct args as [|arg rest].
  { intros [= <-]. cbn. rewrite Hrb. tauto. }
  destruct (resolveRequestBody pf ju fuel fn arg ctx) as [[resolved|]|] eqn:Hr.
  - intros [= <-]. cbn. split; [reflexivity |]. split; [reflexivity |].
    right. exists arg, rest, resolved. tauto.
  - intros [= <-]. cbn. rewrite Hrb. tauto.
  - discriminate.
Qed.

Lemma recordResponse_inv fuel ct se de ctx a st' :
  recordResponse pf ju rf fuel ct se de (ctx, a) = Some st' ->
  exists code r,
    extractStatusCode fuel se ctx = Some code
    /\ let statusCode :=
         match code with EmptyString => "200" | String _ _ => code end in
       fst st' = ctx
       /\ haRequestBody (snd st') = haRequestBody a
       /\ haResponses (snd st') = <[statusCode := r]> (haResponses a)
       /\ respDescription r = descriptionOf statusCode.
Proof.
  unfold recordResponse.
  destruct (extractStatusCode fuel se ctx) as [code|]; [| discriminate].
  destruct (resolveResponsePayloadExpr fuel de ctx) as [p|]; [| discriminate].
  destruct (buildSchemaFromExpr pf ju fuel p ctx ∅) as [[[sch ex] v]|];
    [| discriminate].
  intros [= <-]. eexists code, _. split; [reflexivity |]. cbn.
  repeat split; reflexivity.
Qed.

Lemma analyzeNode_call_inv fuel fn args ctx a st' :
  analyzeNode pf ju rf fuel (ctx, a) (NCall fn args) = Some st' ->
  exists a1,
    recordRequestBody pf ju fuel fn args (ctx, a) = Some (ctx, a1)
    /\ ((responseCallInfo fuel fn args ctx = Some None /\ st' = (ctx, a1))
        \/ exists ct se de,
             responseCallInfo fuel fn args ctx = Some (Some (ct, se, de))
             /\ recordResponse pf ju rf fuel ct se de (ctx, a1) = Some st').
Proof.
  cbn [analyzeNode]. intros H.
  destruct (recordRequestBody pf ju fuel fn args (ctx, a)) as [[c1 a1]|] eqn:E;
    [| discriminate].
  destruct (recordRequestBody_inv _ _ _ _ _ _ E) as [Hc _]. cbn in Hc. subst c1.
  cbn [fst] in H. exists a1. split; [reflexivity |].
  destruct (responseCallInfo fuel fn args ctx) as [[[[ct se] de]|]|];
    [| | discriminate].
  - right. now exists ct, se, de.
  - injection H as <-. now left.
Qed.

Lemma recorded_step fuel statusCode st n st' :
  recorded statusCode st -> analyzeNode pf ju rf fuel st n = Some st' ->
  recorded statusCode st'.
Proof.
  destruct st as [ctx a]. intros (r & Hr & Hd).
  destruct n as [tok specs|lhs tok rhs|k v tok x|fn args];
    try (intros [= <-]; now exists r).
  intros (a1 & Hrb & Hresp)%analyzeNode_call_inv.
  destruct (recordRequestBody_inv _ _ _ _ _ _ Hrb) as (_ & Hsame & _).
  cbn in Hsame.
  destruct Hresp as [[_ ->]|(ct & se & de & _ & Hrec)].
  - exists r. cbn. now rewrite Hsame.
  - destruct (recordResponse_inv _ _ _ _ _ _ _ Hrec)
      as (code & r' & _ & _ & _ & Hresp & Hd').
    unfold recorded. rewrite Hresp, Hsame.
    destruct (decide (match code with "" => "200" | String _ _ => code end
                      = statusCode)) as [<-|Hne].
    + exists r'. now rewrite lookup_insert_eq.
    + exists r. now rewrite lookup_insert_ne.
Qed.

Lemma recorded_call fuel fn args ctx a st' ct se de code :
  analyzeNode pf ju rf fuel (ctx, a) (NCall fn args) = Some st' ->
  responseCallInfo fuel fn args ctx = Some (Some (ct, se, de)) ->
  extractStatusCode fuel se ctx = Some code ->
  recorded (match code with "" => "200" | String _ _ => code end) st'.
Proof.
  intros (a1 & Hrb & Hresp)%analyzeNode_call_inv Hinfo Hcode.
  destruct Hresp as [[Hnone _]|(ct' & se' & de' & Hinfo' & Hrec)];
    [congruence |].
  rewrite Hinfo in Hinfo'. injection Hinfo' as <- <- <-.
  destruct (recordResponse_inv _ _ _ _ _ _ _ Hrec)
    as (code' & r' & Hcode' & _ & _ & Hresp & Hd').
  rewrite Hcode in Hcode'. injection Hcode' as <-.
  exists r'. rewrite Hresp. now rewrite lookup_insert_eq.
Qed.

Lemma analyzeNode_response_total fuel fn args ctx a ct se de code p res :
  responseCallInfo fuel fn args ctx = Some (Some (ct, se, de)) ->
  extractStatusCode fuel se ctx = Some code ->
  resolveResponsePayloadExpr fuel de ctx = Some p ->
  buildSchemaFromExpr pf ju fuel p ctx ∅ = Some res ->
  exists a', analyzeNode pf ju rf fuel (ctx, a) (NCall fn args) = Some (ctx, a').
Proof.
  intros Hinfo Hcode Hp Hres. cbn [analyzeNode].
  assert (Hrb : recordRequestBody pf ju fuel fn args (ctx, a) = Some (ctx, a)).
  { unfold recordRequestBody. rewrite (response_not_binding _ _ _ _ _ Hinfo).
    now destruct (haRequestBody a). }
  rewrite Hrb. cbn [fst]. rewrite Hinfo.
  unfold recordResponse. rewrite Hcode, Hp, Hres.
  destruct res as [[sch ex] v]. eauto.
Qed.

Lemma resolveRequestBody_required fuel fn arg ctx rb :
  resolveRequestBody pf ju fuel fn arg ctx = Some (Some rb) ->
  rbRequired rb = true.
Proof.
  unfold resolveRequestBody.
  destruct (resolveTypeFromArg arg ctx) as [t|]; [| discriminate].
  destruct (buildRequestBodyFromExpr pf ju fuel (Some t) ctx) as [[body|]|];
    [| discriminate..].
  intros [= <-]. reflexivity.
Qed.

Lemma requestBody_sticky fuel st n st' rb :
  haRequestBody (snd st) = Some rb ->
  analyzeNode pf ju rf fuel st n = Some st' ->
  haRequestBody (snd st') = Some rb.
Proof.
  destruct st as [ctx a]. cbn [snd]. intros Hrb.
  destruct n as [tok specs|lhs tok rhs|k v tok x|fn args];
    try (intros [= <-]; exact Hrb).
  intros (a1 & Hreq & Hresp)%analyzeNode_call_inv.
  assert (Ha1 : haRequestBody a1 = Some rb).
  { destruct (recordRequestBody_inv _ _ _ _ _ _ Hreq)
      as (_ & _ & [H|(arg & rest & r & Hnone & _)]); cbn in *; congruence. }
  destruct Hresp as [[_ ->]|(ct & se & de & _ & Hrec)]; [exact Ha1 |].
  destruct (recordResponse_inv _ _ _ _ _ _ _ Hrec)
    as (code & r' & _ & _ & Hsame & _).
  congruence.
Qed.

Lemma requestBody_sticky_nodes fuel nodes st stF rb :
  haRequestBody (snd st) = Some rb ->
  analyzeNodes pf ju rf fuel nodes st = Some stF ->
  haRequestBody (snd stF) = Some rb.
Proof.
  intros Hrb. apply (analyzeNodes_invariant
                       (fun st => haRequestBody (snd st) = Some rb));
    [| exact Hrb].
  intros st0 n st' H Hn. eapply requestBody_sticky; eauto.
Qed.

(** A node sets the request body only if it is a binding call whose first
    argument resolves. *)
Lemma requestBody_set fuel ctx a n st' rb :
  haRequestBody a = None ->
  analyzeNode pf ju rf fuel (ctx, a) n = Some st' ->
  haRequestBody (snd st') = Some rb ->
  exists fn arg rest,
    n = NCall fn (arg :: rest) /\ isBindingCall fn = true
    /\ resolveRequestBody pf ju fuel fn arg ctx = Some (Some rb).
Proof.
  intros Hnone.
  destruct n as [tok specs|lhs tok rhs|k v tok x|fn args];
    try (intros [= <-]; cbn; congruence).
  intros (a1 & Hreq & Hresp)%analyzeNode_call_inv Hset.
  assert (Ha1 : haRequestBody a1 = Some rb).
  { destruct Hresp as [[_ ->]|(ct & se & de & _ & Hrec)]; [exact Hset |].
    destruct (recordResponse_inv _ _ _ _ _ _ _ Hrec)
      as (code & r' & _ & _ & Hsame & _).
    congruence. }
  destruct (recordRequestBody_inv _ _ _ _ _ _ Hreq)
    as (_ & _ & [H|(arg & rest & r & _ & Hb & -> & Hres & Hr)]);
    cbn in *; [congruence |].
  exists fn, arg, rest. repeat split; [exact Hb |]. congruence.
Qed.

(** The binding call that determined a recorded request body. *)
Lemma requestBody_origin fuel nodes st0 stF rb :
  haRequestBody (snd st0) = None ->
  analyzeNodes pf ju rf fuel nodes st0 = Some stF ->
  haRequestBody (snd stF) = Some rb ->
  exists pre fn arg rest post ctx1 a1,
    nodes = (pre ++ NCall fn (arg :: rest) :: post)%list
    /\ analyzeNodes pf ju rf fuel pre st0 = Some (ctx1, a1)
    /\ haRequestBody a1 = None
    /\ isBindingCall fn = true
    /\ resolveRequestBody pf ju fuel fn arg ctx1 = Some (Some rb).
Proof.
  revert st0. induction nodes as [|n nodes IH]; intros [ctx a] Hnone.
  - intros [= <-] Hrb. cbn in *. congruence.
  - intros (st1 & Hn & Hrest)%analyzeNodes_cons Hrb. cbn [snd] in Hnone.
    destruct (haRequestBody (snd st1)) as [rb1|] eqn:E1.
    + pose proof (requestBody_sticky_nodes _ _ _ _ _ E1 Hrest) as HF.
      assert (rb1 = rb) by congruence. subst rb1.
      destruct (requestBody_set _ _ _ _ _ _ Hnone Hn E1)
        as (fn & arg & rest & -> & Hb & Hres).
      exists [], fn, arg, rest, nodes, ctx, a. repeat split; assumption.
    + destruct (IH st1 E1 Hrest Hrb)
        as (pre & fn & arg & rest & post & ctx1 & a1 & -> & Hpre & Ha1 & Hb & Hres).
      exists (n :: pre), fn, arg, rest, post, ctx1, a1.
      repeat split; try assumption.
      apply analyzeNodes_cons. now exists st1.
Qed.

Lemma requestBody_first fuel pre fn arg rest post st0 ctx1 a1 stF resolved :
  analyzeNodes pf ju rf fuel pre st0 = Some (ctx1, a1) ->
  haRequestBody a1 = None -> isBindingCall fn = true ->
  resolveRequestBody pf ju fuel fn arg ctx1 = Some (Some resolved) ->
  analyzeNodes pf ju rf fuel (pre ++ NCall fn (arg :: rest) :: post)%list st0
  = Some stF ->
  haRequestBody (snd stF) = Some resolved.
Proof.
  intros Hpre Hnone Hb Hres Hall.
  apply analyzeNodes_app in Hall as (st1 & Hpre' & Hrest).
  rewrite Hpre in Hpre'. injection Hpre' as <-.
  apply analyzeNodes_cons in Hrest as (st2 & Hnode & Hpost).
  refine (requestBody_sticky_nodes _ _ _ _ resolved _ Hpost).
  apply analyzeNode_call_inv in Hnode as (a2 & Hreq & Hresp).
  assert (Ha2 : haRequestBody a2 = Some resolved).
  { revert Hreq. unfold recordRequestBody. rewrite Hnone, Hb, Hres.
    now intros [= <-]. }
  destruct Hresp as [[_ ->]|(ct & se & de & _ & Hrec)]; [exact Ha2 |].
  destruct (recordResponse_inv _ _ _ _ _ _ _ Hrec)
    as (code & r' & _ & _ & Hsame & _).
  congruence.
Qed.

End Facts.

(** Where the analysis of a handler body returns: a response call whose
    status argument selects a status constant equal to 201 has left a
    response under ["201"] whose description is the reason phrase of that
    code, "Created"; a response call whose status argument is no integer
    literal, no selector of a known status constant and no bound
    identifier has left a response under ["200"]; and the call is
    analyzed to the end whenever the analysis of its payload is. *)
Lemma status_resolution_returned pf ju rf fuel pre fn args post st0 ctx1 a1 stF
    ct statusExpr dataExpr :
  analyzeNodes pf ju rf fuel pre st0 = Some (ctx1, a1) ->
  analyzeNodes pf ju rf fuel (pre ++ NCall fn args :: post)%list st0 = Some stF ->
  responseCallInfo fuel fn args ctx1 = Some (Some (ct, statusExpr, dataExpr)) ->
  (forall x name,
      statusExpr = SelectorExpr x name -> httpStatusNameMap name = Some 201%Z ->
      exists r, haResponses (snd stF) !! "201" = Some r
                /\ respDescription r = GoHTTP.StatusText 201
                /\ respDescription r = "Created")
  /\ (unresolvedStatus statusExpr ctx1 ->
      exists r, haResponses (snd stF) !! "200" = Some r
                /\ respDescription r = "OK")
  /\ (forall a code p res,
        extractStatusCode fuel statusExpr ctx1 = Some code ->
        resolveResponsePayloadExpr fuel dataExpr ctx1 = Some p ->
        buildSchemaFromExpr pf ju fuel p ctx1 ∅ = Some res ->
        exists a', analyzeNode pf ju rf fuel (ctx1, a) (NCall fn args)
                   = Some (ctx1, a')).
Proof.
  intros Hpre Hall Hinfo.
  apply analyzeNodes_app in Hall as (st1 & Hpre' & Hrest).
  rewrite Hpre in Hpre'. injection Hpre' as <-.
  apply analyzeNodes_cons in Hrest as (st2 & Hnode & Hpost).
  assert (Hfuel : exists f, fuel = S f).
  { destruct fuel as [|f]; [| now exists f]. exfalso.
    apply analyzeNode_call_inv in Hnode as (a2 & _ & [[Hn _]|(c & s & d & Hi & Hr)]);
      [congruence |].
    unfold recordResponse in Hr. rewrite Hinfo in Hi. injection Hi as <- <- <-.
    discriminate. }
  destruct Hfuel as [f ->].
  assert (Hkeep : forall code, recorded code st2 -> recorded code stF).
  { intros code H. revert Hpost. apply analyzeNodes_invariant; [| exact H].
    intros st n st' Hst Hn. eapply recorded_step; eauto. }
  split; [| split].
  - intros x name -> Hname.
    pose proof (recorded_call pf ju rf _ _ _ _ _ _ _ _ _ _ Hnode Hinfo
                  (extractStatusCode_constant f x name _ ctx1 Hname)) as Hrec.
    apply Hkeep in Hrec as (r & Hr & Hd). exists r. split; [exact Hr |].
    rewrite Hd. split; reflexivity.
  - intros Hun.
    pose proof (recorded_call pf ju rf _ _ _ _ _ _ _ _ _ _ Hnode Hinfo
                  (extractStatusCode_unresolved f _ _ Hun)) as Hrec.
    apply Hkeep in Hrec as (r & Hr & Hd). exists r. split; [exact Hr |].
    rewrite Hd. reflexivity.
  - intros a code p res. now apply (analyzeNode_response_total pf ju rf _ _ _ _ _ ct statusExpr dataExpr).
Qed.


(** Where the analysis of a handler body that starts without request
    body returns: a recorded request body is required and is the one
    resolved by a binding call before which none was recorded; the first
    binding call whose argument resolves determines the request body
    whatever follows it; and if no binding call resolves, none is
    recorded. *)
Lemma request_body_first_returned pf ju rf fuel nodes st0 stF :
  haRequestBody (snd st0) = None ->
  analyzeNodes pf ju rf fuel nodes st0 = Some stF ->
  (forall rb, haRequestBody (snd stF) = Some rb ->
      rbRequired rb = true
      /\ exists pre fn arg rest post ctx1 a1,
           nodes = (pre ++ NCall fn (arg :: rest) :: post)%list
           /\ analyzeNodes pf ju rf fuel pre st0 = Some (ctx1, a1)
           /\ haRequestBody a1 = None
           /\ isBindingCall fn = true
           /\ resolveRequestBody pf ju fuel fn arg ctx1 = Some (Some rb))
  /\ (forall pre fn arg rest post ctx1 a1 resolved,
        nodes = (pre ++ NCall fn (arg :: rest) :: post)%list ->
        analyzeNodes pf ju rf fuel pre st0 = Some (ctx1, a1) ->
        haRequestBody a1 = None -> isBindingCall fn = true ->
        resolveRequestBody pf ju fuel fn arg ctx1 = Some (Some resolved) ->
        haRequestBody (snd stF) = Some resolved)
  /\ ((forall pre fn arg rest post ctx1 a1,
          nodes = (pre ++ NCall fn (arg :: rest) :: post)%list ->
          analyzeNodes pf ju rf fuel pre st0 = Some (ctx1, a1) ->
          isBindingCall fn = true ->
          resolveRequestBody pf ju fuel fn arg ctx1 = Some None) ->
      haRequestBody (snd stF) = None).
Proof.
  intros Hnone Hall. split; [| split].
  - intros rb Hrb.
    destruct (requestBody_origin pf ju rf _ _ _ _ _ Hnone Hall Hrb)
      as (pre & fn & arg & rest & post & ctx1 & a1 & E & Hpre & Ha1 & Hb & Hres).
    split; [exact (resolveRequestBody_required _ _ _ _ _ _ _ Hres) |].
    exists pre, fn, arg, rest, post, ctx1, a1. repeat split; assumption.
  - intros pre fn arg rest post ctx1 a1 resolved -> Hpre Ha1 Hb Hres.
    exact (requestBody_first pf ju rf _ _ _ _ _ _ _ _ _ _ _ Hpre Ha1 Hb Hres Hall).
  - intros Hno. destruct (haRequestBody (snd stF)) as [rb|] eqn:Hrb; [| reflexivity].
    destruct (requestBody_origin pf ju rf _ _ _ _ _ Hnone Hall Hrb)
      as (pre & fn & arg & rest & post & ctx1 & a1 & E & Hpre & Ha1 & Hb & Hres).
    rewrite (Hno _ _ _ _ _ _ _ E Hpre Hb) in Hres. discriminate.
Qed.

End HandlerFacts.

(** * Examples taken from struct literals *)

Module LiteralFacts.
Import GoStrings GoStrconv Ast Json AList Analyzer Samples AListFacts MonadFacts
  NormalizeFacts StructFacts HandlerFacts.

Lemma foldM_app {S A : Type} (f : S -> A -> M S) xs ys s v :
  foldM f (xs ++ ys)%list s v
  = match foldM f xs s v with
    | Some (s1, v1) => foldM f ys s1 v1
    | None => None
    end.
Proof.
  revert s v. induction xs as [|x xs IH]; intros s v; [reflexivity |].
  cbn [app]. rewrite !foldM_cons. unfold bind.
  destruct (f s x v) as [[s1 v1]|]; [apply IH | reflexivity].
Qed.

(** ** The field table of a struct literal *)

Lemma names_lookup (f : fieldInfo * expr) names (m : gmap string (fieldInfo * expr))
    name :
  name <> "" ->
  fold_left (fun m n => match n with
                        | EmptyString => m
                        | String _ _ => <[n := f]> m
                        end) names m !! name
  = if existsb (String.eqb name) names then Some f else m !! name.
Proof.
  intros Hne. revert m. induction names as [|n names IH]; intros m; [reflexivity |].
  cbn [fold_left existsb]. rewrite IH.
  destruct (existsb (String.eqb name) names); [now rewrite orb_true_r |].
  rewrite orb_false_r. destruct (String.eqb_spec name n) as [<-|Hn].
  - destruct name; [congruence |]. apply lookup_insert_eq.
  - destruct n; [reflexivity |]. apply lookup_insert_ne. congruence.
Qed.

Lemma apartFrom_names name key f :
  apartFrom name key f = true ->
  fieldNames (fst f) <> []
  /\ existsb (String.eqb name) (fieldNames (fst f)) = false
  /\ forall n, In n (fieldNames (fst f)) ->
       fst (resolveJSONFieldName n (getStructTag (fst f) "json")) <> key.
Proof.
  unfold apartFrom. destruct (fieldNames (fst f)) as [|n0 names0];
    [discriminate |].
  intros H. split; [discriminate |]. revert H.
  generalize (n0 :: names0). intros names H.
  rewrite forallb_forall in H. split.
  - destruct (existsb (String.eqb name) names) eqn:E; [| reflexivity].
    apply existsb_exists in E as (n & Hin & ->%String.eqb_eq).
    apply H in Hin. rewrite String.eqb_refl in Hin. discriminate.
  - intros n Hin <-. apply H in Hin. rewrite String.eqb_refl in Hin.
    now rewrite andb_false_r in Hin.
Qed.

Lemma fieldLookupOf_field pre f post name :
  name <> "" -> In name (fieldNames (fst f)) ->
  forall key, Forall (fun g => apartFrom name key g = true) post ->
  fieldLookupOf (pre ++ f :: post)%list !! name = Some f.
Proof.
  intros Hne Hin key Hpost. unfold fieldLookupOf.
  rewrite fold_left_app. cbn [fold_left].
  set (m := fold_left _ (fieldNames (fst f)) _).
  assert (Hm : m !! name = Some f).
  { subst m. rewrite names_lookup by exact Hne.
    assert (E : existsb (String.eqb name) (fieldNames (fst f)) = true).
    { apply existsb_exists. exists name. split; [exact Hin | apply String.eqb_refl]. }
    now rewrite E. }
  clearbody m. revert m Hm.
  induction post as [|g post IH]; intros m Hm; [exact Hm |].
  apply Forall_cons in Hpost as [Hg Hpost]. cbn [fold_left].
  apply (IH Hpost). rewrite names_lookup by exact Hne.
  destruct (apartFrom_names _ _ _ Hg) as (_ & -> & _). exact Hm.
Qed.

(** ** The property written by a field of type [int] *)

Section Struct.
Variable pf : string -> option float64.
Variable ju : string -> option value.
Variable rec : expr -> M (option schema * value).
Hypothesis rec_int :
  forall v, rec (Ident "int") v = Some ((Some (typeSchema "integer"), VInt 0), v).

Lemma ParseInt_not_json t m :
  ParseInt t = Some m -> HasPrefix t "{" || HasPrefix t "[" = false.
Proof.
  destruct t as [|c r]; [discriminate |]. intros H.
  unfold HasPrefix. cbn [stripPrefix].
  destruct (Ascii.eqb_spec "{" c) as [<-|_]; [vm_compute in H; discriminate |].
  destruct (Ascii.eqb_spec "[" c) as [<-|_]; [vm_compute in H; discriminate |].
  reflexivity.
Qed.

(** The example of a field of integer type: the [example] tag when it
    parses, coerced to an integer. *)
Lemma int_field_example info s m :
  sType s = "integer" ->
  ParseInt (TrimSpace (getStructTag info "example")) = Some m ->
  (let fe := match getStructTag info "example" with
             | EmptyString => VInt 0
             | String _ _ as t => convertExampleValue pf ju t s (VInt 0)
             end in
   if isNil fe then defaultExample s else fe) = VInt64 m.
Proof.
  intros Hs Hm. cbv zeta.
  destruct (getStructTag info "example") as [|c t] eqn:E; [discriminate |].
  unfold convertExampleValue.
  destruct (TrimSpace (String c t)) as [|c' t'] eqn:Et; [discriminate |].
  rewrite Hs, Hm, (ParseInt_not_json _ _ Hm). reflexivity.
Qed.

Lemma int_field_example_set info s :
  sType s = "integer" ->
  isNil (let fe := match getStructTag info "example" with
                   | EmptyString => VInt 0
                   | String _ _ as t => convertExampleValue pf ju t s (VInt 0)
                   end in
         if isNil fe then defaultExample s else fe) = false.
Proof.
  intros Hs. cbv zeta.
  destruct (isNil (match getStructTag info "example" with
                   | EmptyString => VInt 0
                   | String _ _ as t => convertExampleValue pf ju t s (VInt 0)
                   end)) eqn:E; [| exact E].
  destruct s as [k f d i p r a]. cbn in Hs. subst k. reflexivity.
Qed.

Lemma structNamed_int_set info acc name jsonName v acc' v' :
  name <> "" ->
  resolveJSONFieldName name (getStructTag info "json") = (jsonName, false) ->
  structNamed pf ju rec info (Ident "int") acc name v = Some (acc', v') ->
  exists s fe,
    sType s = "integer"
    /\ (forall m, ParseInt (TrimSpace (getStructTag info "example")) = Some m ->
                  fe = VInt64 m)
    /\ fst acc' = (aset jsonName s (propsOf acc), aset jsonName fe (snd (fst acc))).
Proof.
  intros Hne R. unfold structNamed. destruct name as [|c n]; [congruence |].
  rewrite R. unfold bind. rewrite rec_int. destruct acc as [[props ex] req].
  set (s := match fieldComment info with
            | "" => typeSchema "integer"
            | String _ _ as d => setDescription d (typeSchema "integer")
            end).
  assert (Hs : sType s = "integer") by (subst s; now destruct (fieldComment info)).
  pose proof (int_field_example_set info s Hs) as Hset.
  pose proof (int_field_example info s) as Hfe. cbv zeta in Hset, Hfe.
  rewrite Hset. intros [= <- _]. eexists s, _.
  split; [exact Hs |]. split; [| reflexivity]. intros m Hm. now apply Hfe.
Qed.

Lemma structNamed_int info acc name v acc' v' :
  structNamed pf ju rec info (Ident "int") acc name v = Some (acc', v') ->
  fst acc' = fst acc
  \/ exists jsonName s fe,
       sType s = "integer"
       /\ (forall m, ParseInt (TrimSpace (getStructTag info "example")) = Some m ->
                     fe = VInt64 m)
       /\ fst acc' = (aset jsonName s (propsOf acc), aset jsonName fe (snd (fst acc))).
Proof.
  intros H. destruct name as [|c n]; [injection H as <- _; now left |].
  destruct (resolveJSONFieldName (String c n) (getStructTag info "json"))
    as [jsonName [|]] eqn:R.
  - left. revert H. unfold structNamed. rewrite R. now intros [= <- _].
  - right. exists jsonName.
    apply (structNamed_int_set info acc (String c n) jsonName v acc' v');
      [discriminate | exact R | exact H].
Qed.

Lemma structField_int info acc v acc' v' key :
  In "ID" (fieldNames info) ->
  resolveJSONFieldName "ID" (getStructTag info "json") = (key, false) ->
  structField pf ju rec acc (info, Ident "int") v = Some (acc', v') ->
  (exists s, alookup key (propsOf acc') = Some s /\ sType s = "integer")
  /\ (forall m, ParseInt (TrimSpace (getStructTag info "example")) = Some m ->
                alookup key (snd (fst acc')) = Some (VInt64 m)).
Proof.
  intros Hin R. unfold structField. cbn [fst snd].
  destruct (fieldNames info) as [|n0 names0] eqn:Hnames; [destruct Hin |].
  intros H.
  destruct (foldM_round _ _ _ _ _ _ _ Hin H)
    as (pre & post & s1 & v1 & s2 & v2 & _ & _ & Hstep & Hpost).
  revert Hpost.
  apply (foldM_invariant
           (fun acc =>
              (exists s, alookup key (propsOf acc) = Some s /\ sType s = "integer")
              /\ (forall m,
                    ParseInt (TrimSpace (getStructTag info "example")) = Some m ->
                    alookup key (snd (fst acc)) = Some (VInt64 m)))).
  - intros a name v0 a' v0' _ [(s & Hs & Ht) Hex] Hn. unfold propsOf in *.
    destruct (structNamed_int _ _ _ _ _ _ Hn)
      as [E|(jsonName & s' & fe & Ht' & Hfe & E)]; rewrite E;
      [split; [now exists s | exact Hex] |].
    cbn [fst snd]. destruct (String.eqb_spec jsonName key) as [->|Hk].
    + split; [exists s'; now rewrite alookup_aset_eq |].
      intros m Hm. rewrite alookup_aset_eq. f_equal. now apply Hfe.
    + split; [exists s; now rewrite alookup_aset_ne |].
      intros m Hm. rewrite alookup_aset_ne by exact Hk. now apply Hex.
  - unfold propsOf.
    destruct (structNamed_int_set info s1 "ID" key v1 s2 v2
                ltac:(discriminate) R Hstep) as (s' & fe & Ht' & Hfe & E).
    rewrite E. cbn [fst snd].
    split; [exists s'; now rewrite alookup_aset_eq |].
    intros m Hm. rewrite alookup_aset_eq. f_equal. now apply Hfe.
Qed.

Lemma structNamed_example info type acc name v acc' v' :
  structNamed pf ju rec info type acc name v = Some (acc', v') ->
  fst acc' = fst acc
  \/ exists jsonName s fe,
       resolveJSONFieldName name (getStructTag info "json") = (jsonName, false)
       /\ (fst acc' = (aset jsonName s (propsOf acc), aset jsonName fe (snd (fst acc)))
           \/ fst acc' = (aset jsonName s (propsOf acc), snd (fst acc))).
Proof.
  unfold structNamed. destruct name as [|c n]; [intros [= <- _]; now left |].
  destruct (resolveJSONFieldName _ _) as [jsonName [|]] eqn:R;
    [intros [= <- _]; now left |].
  intros (res & v1 & Hrec & H)%bind_Some. destruct res as [[s|] fe].
  - destruct acc as [[props ex] req]. cbn in H. right.
    eexists jsonName, _, _. split; [reflexivity |].
    match type of H with
    | context [if isNil ?x then _ else _] => destruct (isNil x)
    end; injection H as <- _; [right | left]; reflexivity.
  - injection H as <- _. now left.
Qed.

Lemma structField_apart acc f v acc' v' name key :
  apartFrom name key f = true ->
  structField pf ju rec acc f v = Some (acc', v') ->
  alookup key (propsOf acc') = alookup key (propsOf acc)
  /\ alookup key (snd (fst acc')) = alookup key (snd (fst acc)).
Proof.
  intros (Hnames & _ & Hkey)%apartFrom_names. destruct f as [info type].
  unfold structField. cbn [fst snd] in *.
  destruct (fieldNames info) as [|n0 names0]; [congruence |].
  revert Hkey. generalize (n0 :: names0). intros names Hkey.
  revert acc v. induction names as [|n names IH]; intros acc v.
  - now intros [= <- _].
  - rewrite foldM_cons. intros (a1 & v1 & H1 & H2)%bind_Some.
    destruct (IH (fun n Hin => Hkey n (or_intror Hin)) _ _ H2) as [-> ->].
    unfold propsOf.
    destruct (structNamed_example _ _ _ _ _ _ _ H1)
      as [E|(jsonName & s & fe & R & [E|E])]; rewrite E; [tauto | |];
      assert (Hne : jsonName <> key)
        by (intros ->; apply (Hkey n (or_introl eq_refl)); now rewrite R);
      cbn [fst snd]; rewrite ?alookup_aset_ne by exact Hne; tauto.
Qed.

(** The struct loop over a declaration in which the field [ID] of type
    [int] is followed by fields apart from it. *)
Lemma struct_loop_int pre info post key v acc v' :
  In "ID" (fieldNames info) ->
  resolveJSONFieldName "ID" (getStructTag info "json") = (key, false) ->
  Forall (fun g => apartFrom "ID" key g = true) post ->
  foldM (structField pf ju rec) (pre ++ (info, Ident "int") :: post)%list
    ([], [], []) v = Some (acc, v') ->
  NoDup (akeys (propsOf acc))
  /\ (exists s, alookup key (propsOf acc) = Some s /\ sType s = "integer")
  /\ (forall m, ParseInt (TrimSpace (getStructTag info "example")) = Some m ->
                alookup key (snd (fst acc)) = Some (VInt64 m)).
Proof.
  intros Hin R Hpost Hfold. split.
  - assert (Hok : accOK rec (pre ++ (info, Ident "int") :: post)%list acc).
    { revert Hfold. apply foldM_invariant.
      - intros s x v0 s' v0' Hx Hs Hstep. eapply structField_OK; eauto.
      - split; [constructor | intros k []]. }
    apply Hok.
  - rewrite foldM_app in Hfold.
    destruct (foldM _ pre _ v) as [[a0 v0]|]; [| discriminate].
    rewrite foldM_cons in Hfold.
    apply bind_Some in Hfold as (a1 & v1 & Hstep & Hrest).
    pose proof (structField_int _ _ _ _ _ _ Hin R Hstep) as Hint.
    clear Hstep. revert a1 v1 Hint Hrest.
    induction post as [|g post IH]; intros a1 v1 Hint.
    + now intros [= <- _].
    + apply Forall_cons in Hpost as [Hg Hpost]. rewrite foldM_cons.
      intros (a2 & v2 & H1 & H2)%bind_Some.
      apply (IH Hpost a2 v2); [| exact H2].
      destruct (structField_apart _ _ _ _ _ _ _ Hg H1) as [-> ->]. exact Hint.
Qed.

Lemma buildStructSchemaWith_shape fields v sch example v' :
  buildStructSchemaWith pf ju rec fields v = Some ((sch, example), v') ->
  exists props req,
    sch = mkSchema "object" None None None (Some props) req None
    /\ foldM (structField pf ju rec) fields ([], [], []) v
       = Some ((props, example, req), v').
Proof.
  unfold buildStructSchemaWith. intros (acc & v1 & Hfold & H)%bind_Some.
  destruct acc as [[props ex] req]. cbn in H. injection H as <- <- <-.
  now exists props, req.
Qed.

Lemma literal_example fields info lit n key v :
  fieldLookupOf fields !! "ID" = Some (info, Ident "int") ->
  resolveJSONFieldName "ID" (getStructTag info "json") = (key, false) ->
  key <> "" ->
  rec (BasicLit INT lit) v = Some ((Some (typeSchema "integer"), VInt64 n), v) ->
  buildStructLiteralExampleWith rec
    [KeyValueExpr (Ident "ID") (BasicLit INT lit)] fields v
  = Some ([(key, VInt64 n)], v).
Proof.
  intros Hlookup R Hkey Hlit. unfold buildStructLiteralExampleWith.
  destruct (decide (fieldLookupOf fields = ∅)) as [E|_].
  { rewrite E in Hlookup. now rewrite lookup_empty in Hlookup. }
  cbn [foldM]. unfold literalElt. rewrite Hlookup. cbn [fst snd]. rewrite R.
  destruct key as [|c k]; [congruence |]. cbn [orb negb nonEmpty].
  unfold bind. rewrite Hlit. reflexivity.
Qed.

End Struct.

(** ** The example after normalization *)

Lemma keepUnused_used u l n k :
  In k u -> alookup k (fold_left (keepUnused u) l n) = alookup k n.
Proof.
  intros Hk. revert n. induction l as [|[k0 v0] l IH]; intros n; [reflexivity |].
  cbn [fold_left]. rewrite IH. unfold keepUnused. cbn [fst snd].
  destruct (existsb (String.eqb k0) u) eqn:E; [reflexivity |].
  apply alookup_aset_ne. intros ->.
  apply existsb_eqb_In in Hk. congruence.
Qed.

Lemma normalize_keeps_integer rf props req exMap key s n :
  NoDup (akeys props) ->
  alookup key props = Some s -> sType s = "integer" ->
  alookup key exMap = Some (VInt64 n) ->
  exists ex,
    normalizeExampleWithSchema rf
      (Some (mkSchema "object" None None None (Some props) req None))
      (VObj exMap) = VObj ex
    /\ alookup key ex = Some (VInt64 n).
Proof.
  intros Hnd Hs Ht Hex. cbn [normalizeExampleWithSchema].
  destruct props as [|p ps]; [discriminate |].
  rewrite normalizeExample_object.
  destruct (propsLoop rf exMap (p :: ps) ([], [])) as [n' u'] eqn:Hloop.
  eexists. split; [reflexivity |].
  assert (Hfound : found rf exMap key = Some (key, VInt64 n)).
  { unfold found. now rewrite Hex. }
  rewrite keepUnused_used.
  - rewrite (loop_lookup rf _ _ _ _ _ _ key s Hnd (alookup_Some_In _ _ _ Hs) Hloop).
    rewrite Hfound. cbn [isNil]. destruct s as [k f d i pr r a].
    cbn in Ht. subst k. reflexivity.
  - apply (loop_used rf _ _ _ _ _ _ key Hloop). right.
    exists key, s, (VInt64 n). split; [now apply alookup_Some_In | exact Hfound].
Qed.

Lemma alookup_amerge_last {A : Type} (m : list (string * A)) k v :
  alookup k (amerge m [(k, v)]) = Some v.
Proof. unfold amerge. cbn [fold_left fst snd]. apply alookup_aset_eq. Qed.

Section Facts.
Variable pf : string -> option float64.
Variable ju : string -> option value.
Variable rf : string -> list (string * value) -> string.

Lemma build_int fuel ctx v :
  variables ctx !! "int" = None -> values ctx !! "int" = None ->
  buildSchemaFromExpr pf ju (S fuel) (Ident "int") ctx v
  = Some ((Some (typeSchema "integer"), VInt 0), v).
Proof.
  intros Hvar Hval. cbn [buildSchemaFromExpr buildSchemaFromExprWith].
  rewrite Hval. unfold identByType. rewrite Hvar. reflexivity.
Qed.

Lemma build_int_literal fuel ctx v lit n :
  ParseInt (ReplaceAll lit "_" "") = Some n ->
  buildSchemaFromExpr pf ju (S fuel) (BasicLit INT lit) ctx v
  = Some ((Some (typeSchema "integer"), VInt64 n), v).
Proof.
  intros Hn. cbn [buildSchemaFromExpr buildSchemaFromExprWith].
  unfold basicLitSchema. now rewrite Hn.
Qed.

(** The payload [T{...}] for a struct [T] with a field [ID] of type [int]:
    [literalExample] stands for what [buildStructLiteralExample] returns
    on the elements of the literal. *)
Lemma literal_payload f ctx T pre info post key elts literalExample v :
  structs ctx !! T = Some (pre ++ (info, Ident "int") :: post)%list ->
  variables ctx !! "int" = None -> values ctx !! "int" = None ->
  In "ID" (fieldNames info) ->
  resolveJSONFieldName "ID" (getStructTag info "json") = (key, false) ->
  Forall (fun g => apartFrom "ID" key g = true) post ->
  (forall g, In g (pre ++ post)%list ->
     forall v, exists r, buildSchemaFromExpr pf ju (S f) (snd g) ctx v = Some r) ->
  (forall v, buildStructLiteralExampleWith
               (fun e => buildSchemaFromExpr pf ju (S f) e ctx) elts
               (pre ++ (info, Ident "int") :: post)%list v
             = Some (literalExample, v)) ->
  exists props req s example v',
    buildSchemaFromExpr pf ju (S (S f)) (CompositeLit (Some (Ident T)) elts) ctx v
    = Some ((Some (mkSchema "object" None None None (Some props) req None),
             VObj (amerge example literalExample)), v')
    /\ NoDup (akeys props)
    /\ alookup key props = Some s /\ sType s = "integer"
    /\ (forall m, ParseInt (TrimSpace (getStructTag info "example")) = Some m ->
                  alookup key example = Some (VInt64 m)).
Proof.
  intros HT Hvar Hval Hin R Hpost Htot Hlit.
  set (rec := fun e => buildSchemaFromExpr pf ju (S f) e ctx) in *.
  assert (Hint : forall v, rec (Ident "int") v
                           = Some ((Some (typeSchema "integer"), VInt 0), v)).
  { intros v0. now apply build_int. }
  destruct (buildStructSchemaWith_total pf ju rec
              (pre ++ (info, Ident "int") :: post)%list) with (v := v)
    as [[[sch example] v1] Hstruct].
  { intros info' type' Hin' v0.
    apply in_app_or in Hin' as [Hin'|[[= <- <-]|Hin']].
    - apply (Htot (info', type')). apply in_or_app. now left.
    - rewrite Hint. eauto.
    - apply (Htot (info', type')). apply in_or_app. now right. }
  destruct (buildStructSchemaWith_shape pf ju rec _ _ _ _ _ Hstruct)
    as (props & req & -> & Hfold).
  destruct (struct_loop_int pf ju rec Hint _ _ _ _ _ _ _ Hin R Hpost Hfold)
    as (Hnd & (s & Hs & Ht) & Hex).
  exists props, req, s, example, v1.
  split; [| repeat split; assumption].
  change (buildSchemaFromExpr pf ju (S (S f))
            (CompositeLit (Some (Ident T)) elts) ctx v)
    with (buildSchemaFromCompositeLiteralWith pf ju ctx rec
            (Some (Ident T)) elts v).
  unfold buildSchemaFromCompositeLiteralWith. rewrite HT.
  unfold bind at 1. rewrite Hstruct.
  unfold bind. rewrite Hlit. reflexivity.
Qed.

(** What a response call records for a payload whose schema has an
    integer property [key] and whose example has an integer under [key]. *)
Lemma response_recorded fuel fn args ctx a ct statusExpr payload code
    props req exMap v' key s n :
  responseCallInfo fuel fn args ctx = Some (Some (ct, statusExpr, payload)) ->
  extractStatusCode fuel statusExpr ctx = Some code -> code <> "" ->
  resolveResponsePayloadExpr fuel payload ctx = Some payload ->
  buildSchemaFromExpr pf ju fuel payload ctx ∅
  = Some ((Some (mkSchema "object" None None None (Some props) req None),
           VObj exMap), v') ->
  NoDup (akeys props) ->
  alookup key props = Some s -> sType s = "integer" ->
  alookup key exMap = Some (VInt64 n) ->
  exists a' r sch ps ex,
    analyzeNode pf ju rf fuel (ctx, a) (NCall fn args) = Some (ctx, a')
    /\ haResponses a' !! code = Some r
    /\ respSchema r = Some sch /\ sProperties sch = Some ps
    /\ alookup key ps = Some s
    /\ respExample r = VObj ex /\ alookup key ex = Some (VInt64 n).
Proof.
  intros Hinfo Hcode Hne Hp Hres Hnd Hs Ht Hex. cbn [analyzeNode].
  assert (Hrb : recordRequestBody pf ju fuel fn args (ctx, a) = Some (ctx, a)).
  { unfold recordRequestBody. rewrite (response_not_binding _ _ _ _ _ Hinfo).
    now destruct (haRequestBody a). }
  rewrite Hrb. cbn [fst]. rewrite Hinfo.
  unfold recordResponse. rewrite Hcode, Hp, Hres.
  destruct (normalize_keeps_integer rf props req exMap key s n Hnd Hs Ht Hex)
    as (ex & Hnorm & Hid).
  rewrite Hnorm. cbn [isNil]. destruct code as [|c0 code0]; [congruence |].
  eexists _, _, _, props, ex. split; [reflexivity |]. cbn [haResponses].
  rewrite lookup_insert_eq. split; [reflexivity |]. cbn.
  repeat split; assumption.
Qed.

End Facts.




End LiteralFacts.
(** * The cycle guard of the schema builder *)

Module CycleFacts.
Import GoStrings GoStrconv Ast Json AList Analyzer Samples AListFacts MonadFacts
  HandlerFacts.

Section Facts.
Variable pf : string -> option float64.
Variable ju : string -> option value.
Variable rf : string -> list (string * value) -> string.

(** A struct name that was visited yields the degenerate object schema and
    leaves the map alone. *)
Lemma revisit_degenerate fuel ctx name structType v :
  values ctx !! name = None -> variables ctx !! name = None ->
  primitiveSchemaForIdent name = None ->
  structs ctx !! name = Some structType ->
  isVisited name v = true ->
  buildSchemaFromExpr pf ju (S fuel) (Ident name) ctx v = Some (emptyObject, v).
Proof.
  intros Hval Hvar Hprim Hs Hv. cbn [buildSchemaFromExpr buildSchemaFromExprWith].
  rewrite Hval. unfold identByType. rewrite Hvar. unfold identByName.
  rewrite Hprim, Hs. unfold bind, getVisited. now rewrite Hv.
Qed.

(** A struct name that was not visited is marked for the time its fields
    are built, and unmarked afterwards. *)
Lemma first_visit fuel ctx name structType v :
  values ctx !! name = None -> variables ctx !! name = None ->
  primitiveSchemaForIdent name = None ->
  structs ctx !! name = Some structType ->
  isVisited name v = false ->
  buildSchemaFromExpr pf ju (S fuel) (Ident name) ctx v
  = match buildStructSchema pf ju fuel structType ctx (<[name := true]> v) with
    | Some ((sch, example), v') =>
        Some ((Some sch, VObj example), <[name := false]> v')
    | None => None
    end.
Proof.
  intros Hval Hvar Hprim Hs Hv. cbn [buildSchemaFromExpr buildSchemaFromExprWith].
  rewrite Hval. unfold identByType. rewrite Hvar. unfold identByName.
  rewrite Hprim, Hs. unfold bind, getVisited, setVisited. rewrite Hv.
  unfold buildStructSchema.
  destruct (buildStructSchemaWith _ _ _ _ _) as [[[sch example] v']|]; reflexivity.
Qed.

(** The recursion through a variable that has the name of its struct. *)
Lemma shadow_loop ctx :
  structs ctx !! "Node" = Some nodeStruct ->
  values ctx !! "Node" = Some (Some (CompositeLit (Some (Ident "Node")) [])) ->
  forall fuel v,
    buildSchemaFromExpr pf ju fuel (Ident "Node") ctx v = None
    /\ buildSchemaFromExpr pf ju fuel (StarExpr (Ident "Node")) ctx v = None
    /\ buildSchemaFromExpr pf ju fuel (CompositeLit (Some (Ident "Node")) []) ctx v
       = None.
Proof.
  intros Hs Hval. induction fuel as [|f IH]; intros v; [repeat split; reflexivity |].
  cbn [buildSchemaFromExpr buildSchemaFromExprWith]. split; [| split].
  - rewrite Hval. unfold bind. now rewrite (proj2 (proj2 (IH v))).
  - apply IH.
  - unfold buildSchemaFromCompositeLiteralWith. rewrite Hs.
    unfold bind at 1. unfold buildStructSchemaWith, nodeStruct.
    cbn [foldM]. unfold structField. cbn [fst snd namedField fieldNames foldM].
    unfold structNamed at 1.
    destruct (resolveJSONFieldName "Next" _) as [jsonName [|]] eqn:R;
      [vm_compute in R; discriminate |].
    unfold bind. now rewrite (proj1 (proj2 (IH v))).
Qed.

(** The response call on that variable. *)
Lemma shadow_call ctx a fuel :
  structs ctx !! "Node" = Some nodeStruct ->
  values ctx !! "Node" = Some (Some (CompositeLit (Some (Ident "Node")) [])) ->
  analyzeNode pf ju rf fuel (ctx, a)
    (NCall (SelectorExpr (Ident "c") "JSON") [BasicLit INT "200"; Ident "Node"])
  = None.
Proof.
  intros Hs Hval. cbn [analyzeNode].
  assert (Hinfo : responseCallInfo fuel (SelectorExpr (Ident "c") "JSON")
                    [BasicLit INT "200"; Ident "Node"] ctx
                  = Some (Some ("application/json", BasicLit INT "200",
                                Ident "Node"))) by reflexivity.
  assert (Hrb : recordRequestBody pf ju fuel (SelectorExpr (Ident "c") "JSON")
                  [BasicLit INT "200"; Ident "Node"] (ctx, a) = Some (ctx, a)).
  { unfold recordRequestBody. rewrite (response_not_binding _ _ _ _ _ Hinfo).
    now destruct (haRequestBody a). }
  rewrite Hrb. cbn [fst]. rewrite Hinfo. unfold recordResponse.
  destruct fuel as [|f]; [reflexivity |].
  destruct (extractStatusCode (S f) (BasicLit INT "200") ctx); [| reflexivity].
  cbn [resolveResponsePayloadExpr]. rewrite Hval.
  now rewrite (proj2 (proj2 (shadow_loop ctx Hs Hval (S f) ∅))).
Qed.

End Facts.

(** ** Termination under the guard *)

Lemma sameVisited_refl v : sameVisited v v.
Proof. intros name. reflexivity. Qed.

Lemma sameVisited_trans v1 v2 v3 :
  sameVisited v1 v2 -> sameVisited v2 v3 -> sameVisited v1 v3.
Proof. intros H12 H23 name. now rewrite H23, H12. Qed.

Lemma isVisited_insert name b n (v : visitedMap) :
  isVisited n (<[name := b]> v) = if String.eqb name n then b else isVisited n v.
Proof.
  unfold isVisited. destruct (String.eqb_spec name n) as [<-|Hne].
  - now rewrite lookup_insert_eq.
  - now rewrite lookup_insert_ne.
Qed.

Lemma list_sum_cons a l : list_sum (a :: l) = a + list_sum l.
Proof. reflexivity. Qed.

Lemma weightOf_same table v v' :
  sameVisited v v' -> weightOf table v' = weightOf table v.
Proof.
  intros H. unfold weightOf. f_equal. apply map_ext. intros entry. now rewrite H.
Qed.

Lemma weightOf_mark table name (v : visitedMap) :
  weightOf table (<[name := true]> v) <= weightOf table v.
Proof.
  unfold weightOf. induction table as [|[n st] table IH]; [reflexivity |].
  cbn [map fst snd]. rewrite !list_sum_cons, isVisited_insert.
  destruct (String.eqb name n), (isVisited n v); cbv iota; lia.
Qed.

Lemma weightOf_visit table name st (v : visitedMap) :
  In (name, st) table -> isVisited name v = false ->
  weightOf table (<[name := true]> v) + S (structSize st) <= weightOf table v.
Proof.
  intros Hin Hv. induction table as [|[n st'] table IH]; [destruct Hin |].
  unfold weightOf in *. cbn [map fst snd]. rewrite !list_sum_cons.
  destruct Hin as [[= -> ->]|Hin].
  - rewrite isVisited_insert, String.eqb_refl, Hv. cbv iota.
    pose proof (weightOf_mark table name v) as Hm. unfold weightOf in Hm. lia.
  - specialize (IH Hin). rewrite isVisited_insert.
    destruct (String.eqb name n), (isVisited n v); cbv iota; lia.
Qed.

Lemma typeSize_field (fields : structFields) info type :
  In (info, type) fields -> typeSize type < structSize fields.
Proof.
  unfold structSize. induction fields as [|f fields IH]; [intros [] |].
  cbn [map]. rewrite list_sum_cons. intros [->|Hin]; [cbn [snd]; lia |].
  specialize (IH Hin). lia.
Qed.

Lemma restore name (v v1 : visitedMap) :
  isVisited name v = false -> sameVisited (<[name := true]> v) v1 ->
  sameVisited v (<[name := false]> v1).
Proof.
  intros Hv H n. rewrite isVisited_insert. specialize (H n).
  rewrite isVisited_insert in H.
  destruct (String.eqb_spec name n) as [E|_]; [| exact H].
  subst n. now rewrite Hv.
Qed.

Section Loop.
Variable pf : string -> option float64.
Variable ju : string -> option value.
Variable rec : expr -> M (option schema * value).

(** The struct loop returns when the calls on the field types do, and
    marks as visited what they do. *)
Lemma struct_loop_returns (fields : structFields) v0 :
  (forall info type, In (info, type) fields ->
     forall v, sameVisited v0 v ->
       exists r v', rec type v = Some (r, v') /\ sameVisited v v') ->
  forall v, sameVisited v0 v ->
    exists sch ex v',
      buildStructSchemaWith pf ju rec fields v = Some ((sch, ex), v')
      /\ sameVisited v v'.
Proof.
  intros Hrec v Hv. unfold buildStructSchemaWith.
  assert (H : forall acc v, sameVisited v0 v ->
            exists acc' v', foldM (structField pf ju rec) fields acc v
                            = Some (acc', v') /\ sameVisited v v').
  { clear v Hv. induction fields as [|[info type] fs IH]; intros acc v Hv.
    - exists acc, v. split; [reflexivity | apply sameVisited_refl].
    - rewrite foldM_cons.
      assert (Hstep : exists acc1 v1,
                structField pf ju rec acc (info, type) v = Some (acc1, v1)
                /\ sameVisited v v1).
      { unfold structField. cbn [fst snd].
        assert (Hcall : forall v, sameVisited v0 v ->
                  exists r v', rec type v = Some (r, v') /\ sameVisited v v').
        { apply (Hrec info type). now left. }
        destruct (fieldNames info) as [|n0 names0].
        - unfold structEmbedded, bind.
          destruct (Hcall v Hv) as ([sch nested] & v1 & -> & Hs).
          destruct acc as [[props e] req]. cbn. eauto.
        - generalize (n0 :: names0). intros names. revert acc v Hv.
          induction names as [|name names IHn]; intros acc v Hv.
          + exists acc, v. split; [reflexivity | apply sameVisited_refl].
          + rewrite foldM_cons.
            assert (Hname : exists acc1 v1,
                      structNamed pf ju rec info type acc name v = Some (acc1, v1)
                      /\ sameVisited v v1).
            { unfold structNamed.
              destruct name; [exists acc, v; split; [reflexivity | apply sameVisited_refl] |].
              destruct (resolveJSONFieldName _ _) as [jn [|]];
                [exists acc, v; split; [reflexivity | apply sameVisited_refl] |].
              unfold bind. destruct (Hcall v Hv) as ([sch fe] & v1 & -> & Hs).
              destruct sch; [| cbn; eauto].
              destruct acc as [[props e] req]. cbn. eauto. }
            destruct Hname as (acc1 & v1 & Hn & Hs1).
            destruct (IHn acc1 v1 (sameVisited_trans _ _ _ Hv Hs1))
              as (acc2 & v2 & Hrest & Hs2).
            exists acc2, v2. split.
            * apply bind_Some. now exists acc1, v1.
            * now apply (sameVisited_trans _ _ _ Hs1). }
      destruct Hstep as (acc1 & v1 & H1 & Hs1).
      destruct (IH (fun i t Hin => Hrec i t (or_intror Hin)) acc1 v1
                  (sameVisited_trans _ _ _ Hv Hs1)) as (acc2 & v2 & H2 & Hs2).
      exists acc2, v2. split.
      + apply bind_Some. now exists acc1, v1.
      + now apply (sameVisited_trans _ _ _ Hs1). }
  destruct (H ([], [], []) v Hv) as ([[props ex] req] & v1 & Hfold & Hs).
  unfold bind. rewrite Hfold. cbn. eauto.
Qed.

End Loop.

Section Guard.
Variable pf : string -> option float64.
Variable ju : string -> option value.
Variable ctx : analysisContext.
Hypothesis no_variables : forall name, variables ctx !! name = None.
Hypothesis no_values : forall name, values ctx !! name = None.
Hypothesis struct_types :
  forall name st info type,
    structs ctx !! name = Some st -> In (info, type) st -> isTypeExpr type = true.

Lemma weight_visit name st v :
  structs ctx !! name = Some st -> isVisited name v = false ->
  weight ctx (<[name := true]> v) + S (structSize st) <= weight ctx v.
Proof.
  intros Hs Hv. apply weightOf_visit; [| exact Hv].
  apply list_elem_of_In. now apply elem_of_map_to_list.
Qed.

(** With enough fuel the builder returns on every type expression, and
    the names it marked are unmarked again. *)
Lemma guarded_returns fuel :
  forall e v,
    isTypeExpr e = true -> typeSize e + weight ctx v < fuel ->
    exists r v',
      buildSchemaFromExpr pf ju fuel e ctx v = Some (r, v') /\ sameVisited v v'.
Proof.
  induction fuel as [|f IH]; intros e v He Hfuel; [lia |].
  assert (Hsub : forall x, isTypeExpr x = true -> typeSize x < typeSize e ->
            exists r v', buildSchemaFromExpr pf ju f x ctx v = Some (r, v')
                         /\ sameVisited v v').
  { intros x Hx Hlt. apply IH; [exact Hx | lia]. }
  assert (Hfields : forall fields bound v1,
            (forall info type, In (info, type) fields ->
                               isTypeExpr type = true /\ typeSize type < bound) ->
            bound + weight ctx v1 <= f ->
            exists sch ex v',
              buildStructSchemaWith pf ju
                (fun e' => buildSchemaFromExpr pf ju f e' ctx) fields v1
              = Some ((sch, ex), v')
              /\ sameVisited v1 v').
  { intros fields bound v1 Hall Hb.
    apply (struct_loop_returns pf ju _ fields v1); [| apply sameVisited_refl].
    intros info type Hin v2 Hs. destruct (Hall info type Hin) as [Ht Hlt].
    apply IH; [exact Ht |]. unfold weight in *.
    rewrite (weightOf_same _ _ _ Hs). lia. }
  cbn [buildSchemaFromExpr]. destruct e; try discriminate He;
    cbn [buildSchemaFromExprWith isTypeExpr typeSize] in *.
  - (* Ident *)
    rewrite no_values. unfold identByType. rewrite no_variables.
    unfold identByName.
    destruct (primitiveSchemaForIdent name) as [[sch ex]|];
      [eexists _, v; split; [reflexivity | apply sameVisited_refl] |].
    destruct (structs ctx !! name) as [st|] eqn:Hs;
      [| eexists _, v; split; [reflexivity | apply sameVisited_refl]].
    unfold bind at 1. unfold getVisited.
    destruct (isVisited name v) eqn:Hv;
      [eexists _, v; split; [reflexivity | apply sameVisited_refl] |].
    unfold bind at 1. unfold setVisited at 1.
    pose proof (weight_visit name st v Hs Hv) as Hw.
    destruct (Hfields st (structSize st) (<[name := true]> v))
      as (sch & ex & v1 & Hbuild & Hsame).
    { intros info type Hin. split; [now apply (struct_types name st info) |].
      now apply (typeSize_field st info). }
    { lia. }
    unfold bind. rewrite Hbuild. unfold setVisited, ret.
    eexists _, _. split; [reflexivity |]. now apply restore.
  - (* SelectorExpr *)
    destruct (schemaForSelector _) as [[sch ex]|];
      [| destruct (String.eqb _ _)];
      eexists _, v; (split; [reflexivity | apply sameVisited_refl]).
  - (* StarExpr *)
    apply Hsub; [exact He | lia].
  - (* ArrayType *)
    unfold bind. destruct (Hsub e He ltac:(lia)) as ([sch ex] & v1 & -> & Hs).
    destruct sch; eexists _, v1; (split; [reflexivity | exact Hs]).
  - (* MapType *)
    unfold bind. destruct (Hsub e2 He ltac:(lia)) as ([sch ex] & v1 & -> & Hs).
    eexists _, v1. split; [reflexivity | exact Hs].
  - (* InterfaceType *)
    eexists _, v. split; [reflexivity | apply sameVisited_refl].
  - (* StructType *)
    destruct (Hfields fields (list_sum (map (fun f => S (typeSize (snd f))) fields)) v)
      as (sch & ex & v1 & Hbuild & Hsame).
    { intros info type Hin. split.
      - rewrite forallb_forall in He. apply (He (info, type) Hin).
      - now apply (typeSize_field fields info). }
    { lia. }
    unfold bind. rewrite Hbuild. eexists _, v1. split; [reflexivity | exact Hsame].
  - (* FuncType *)
    eexists _, v. split; [reflexivity | apply sameVisited_refl].
  - (* ChanType *)
    eexists _, v. split; [reflexivity | apply sameVisited_refl].
Qed.

End Guard.

(** C5 fails on the handler [Node := Node{}; c.JSON(200, Node)] over
    [type Node struct { Next *Node `json:"next"` }]: whatever the bound on
    the depth of the recursion, the analysis of the handler does not
    return within it.  The value recorded for the variable [Node] is
    looked up before the struct table, and the struct of a composite
    literal is built without marking its name as visited, so the field
    [Next] leads back to the literal.  With the payload [Node{}] itself
    the guard is reached and the analysis returns the schema in which the
    second [next] is the degenerate object.  And where no variable is
    bound, the builder returns on every type expression over every table
    of structs, self-referential or not, within a depth given by the
    expression and the structs not yet visited, and leaves the visited
    names as they were. *)
Theorem shadowed_self_reference_diverges pf ju rf :
  (forall fuel,
      analyzeHandlerDetails pf ju rf fuel (Some shadowHandler) nodeStructs ∅ = None)
  /\ (exists analysis r,
        analyzeHandlerDetails pf ju rf 5 (Some nodeHandler) nodeStructs ∅
        = Some analysis
        /\ haResponses analysis !! "200" = Some r
        /\ respSchema r
           = Some (mkSchema "object" None None None
                     (Some [("next",
                             mkSchema "object" None None None
                               (Some [("next", typeSchema "object")]) [] None)])
                     [] None))
  /\ (forall ctx,
        (forall name, variables ctx !! name = None) ->
        (forall name, values ctx !! name = None) ->
        (forall name st info type,
            structs ctx !! name = Some st -> In (info, type) st ->
            isTypeExpr type = true) ->
        forall e v,
          isTypeExpr e = true ->
          exists r v',
            buildSchemaFromExpr pf ju (S (typeSize e + weight ctx v)) e ctx v
            = Some (r, v')
            /\ sameVisited v v').
Proof.
  split; [| split].
  - intros fuel. unfold analyzeHandlerDetails.
    change (flat_map inspectStmt shadowHandler)
      with [ NAssign [Ident "Node"] DEFINE [CompositeLit (Some (Ident "Node")) []];
             NCall (SelectorExpr (Ident "c") "JSON")
               [BasicLit INT "200"; Ident "Node"] ].
    cbn [analyzeNodes].
    destruct (analyzeNode pf ju rf fuel _ (NAssign _ _ _)) as [[ctx a]|] eqn:E;
      [| reflexivity].
    cbn [analyzeNode startState] in E. injection E as <- <-.
    now rewrite shadow_call.
  - eexists _, _. split; [vm_compute; reflexivity |]. split; reflexivity.
  - intros ctx Hvar Hval Htypes e v He.
    apply (guarded_returns pf ju ctx Hvar Hval Htypes); [exact He | lia].
Qed.

Lemma shadowed_self_reference_diverges_witness :
  exists r v',
    buildSchemaFromExpr noFloat noJSON
      (S (typeSize (Ident "Node") + weight (mkContext nodeStructs ∅ ∅ ∅) ∅))
      (Ident "Node") (mkContext nodeStructs ∅ ∅ ∅) ∅
    = Some (r, v')
    /\ sameVisited ∅ v'.
Proof.
  destruct (shadowed_self_reference_diverges noFloat noJSON firstExact)
    as (_ & _ & Hguard).
  apply (Hguard (mkContext nodeStructs ∅ ∅ ∅)).
  - intros name. apply lookup_empty.
  - intros name. apply lookup_empty.
  - intros name st info type Hs Hin. cbn [structs] in Hs.
    unfold nodeStructs in Hs. apply lookup_singleton_Some in Hs as [_ <-].
    destruct Hin as [[= _ <-]|[]]. reflexivity.
  - reflexivity.
Defined.

End CycleFacts.
(** * The cache of package analyses, one call after the other *)

Module CacheFacts.
Import GoStrings Ast Analyzer PackageCache Samples.

Section Facts.
Variables FS Packages Error Handlers : Type.
Variable P : FS -> string -> (bool -> string -> bool) -> Packages * option Error.
Variable cs : Packages -> gmap string structFields.
Variable cf : Packages -> gmap string (list functionSignature).
Variable ch : Packages -> gmap string structFields ->
              gmap string (list functionSignature) -> Handlers.

Lemma analyzeDirectory_failure fs dir err :
  snd (P fs dir sourceFilter) = Some err ->
  analyzeDirectory P cs cf ch fs dir = inr err.
Proof.
  unfold analyzeDirectory. destruct (P fs dir sourceFilter) as [pkgs e].
  cbn. now intros ->.
Qed.

(** A call on its own, statement by statement. *)
Lemma runThread_next fuel fs t (w : world Handlers) t' w' :
  finished t = false -> step P cs cf ch fs t w = Some (t', w') ->
  runThread P cs cf ch (S fuel) fs t w = runThread P cs cf ch fuel fs t' w'.
Proof.
  destruct t as [d p]. intros Hfin Hs.
  destruct p; try discriminate Hfin; cbn [runThread snd]; now rewrite Hs.
Qed.

Lemma runThread_done fuel fs d r (w : world Handlers) :
  runThread P cs cf ch fuel fs (d, Done r) w = Some (r, w).
Proof. destruct fuel; reflexivity. Qed.

(** A call that finds the entry returns it and changes nothing. *)
Lemma load_hit fs dir (w : world Handlers) r :
  free w -> analysisCache w !! dir = Some r ->
  loadPackageAnalysis P cs cf ch fs dir w = Some (r, w).
Proof.
  destruct w as [c o rd wr an]. intros [Hr Hw] Hc. cbn in Hr, Hw, Hc. subst.
  unfold loadPackageAnalysis.
  rewrite (runThread_next 7 fs (dir, Start) (mkWorld c o 0 false an) (dir, ReadLocked)
             (mkWorld c o 1 false an) eq_refl eq_refl).
  rewrite (runThread_next 6 fs (dir, ReadLocked) (mkWorld c o 1 false an) (dir, ReadHit r)
             (mkWorld c o 1 false an) eq_refl).
  2: { unfold step. cbn [fst snd analysisCache]. now rewrite Hc. }
  rewrite (runThread_next 5 fs (dir, ReadHit r) (mkWorld c o 1 false an) (dir, Done r)
             (mkWorld c o 0 false an) eq_refl eq_refl).
  apply runThread_done.
Qed.

(** A call that finds no entry runs [analyzeDirectory] and stores what it
    returns. *)
Lemma load_miss fs dir (w : world Handlers) :
  free w -> analysisCache w !! dir = None ->
  exists r w',
    loadPackageAnalysis P cs cf ch fs dir w = Some (r, w')
    /\ free w'
    /\ analysisCache w' = <[dir := r]> (analysisCache w)
    /\ analyzed w' = (analyzed w ++ [dir])%list
    /\ match analyzeDirectory P cs cf ch fs dir with
       | inl a => r = Some (length (objects w))
                  /\ objects w' = (objects w ++ [a])%list
       | inr _ => r = None /\ objects w' = objects w
       end.
Proof.
  destruct w as [c o rd wr an]. intros [Hr Hw] Hc. cbn in Hr, Hw, Hc. subst.
  unfold loadPackageAnalysis.
  rewrite (runThread_next 7 fs (dir, Start) (mkWorld c o 0 false an) (dir, ReadLocked)
             (mkWorld c o 1 false an) eq_refl eq_refl).
  rewrite (runThread_next 6 fs (dir, ReadLocked) (mkWorld c o 1 false an) (dir, ReadMiss)
             (mkWorld c o 1 false an) eq_refl).
  2: { unfold step. cbn [fst snd analysisCache]. now rewrite Hc. }
  rewrite (runThread_next 5 fs (dir, ReadMiss) (mkWorld c o 1 false an) (dir, Unlocked)
             (mkWorld c o 0 false an) eq_refl eq_refl).
  rewrite (runThread_next 4 fs (dir, Unlocked) (mkWorld c o 0 false an) (dir, WriteLocked)
             (mkWorld c o 0 true an) eq_refl eq_refl).
  rewrite (runThread_next 3 fs (dir, WriteLocked) (mkWorld c o 0 true an) (dir, Analyzing)
             (mkWorld c o 0 true an) eq_refl).
  2: { unfold step. cbn [fst snd analysisCache]. now rewrite Hc. }
  destruct (runAnalysis P cs cf ch fs dir (mkWorld c o 0 true an))
    as [r w1] eqn:Hrun.
  rewrite (runThread_next 2 fs (dir, Analyzing) (mkWorld c o 0 true an) (dir, Analyzed r) w1 eq_refl).
  2: { unfold step. cbn [fst snd]. now rewrite Hrun. }
  rewrite (runThread_next 1 fs (dir, Analyzed r) w1 (dir, Stored r)
             (setCache (<[dir := r]> (analysisCache w1)) w1) eq_refl eq_refl).
  rewrite (runThread_next 0 fs (dir, Stored r)
             (setCache (<[dir := r]> (analysisCache w1)) w1) (dir, Done r)
             (setWriter false (setCache (<[dir := r]> (analysisCache w1)) w1))
             eq_refl eq_refl).
  rewrite runThread_done. eexists _, _. split; [reflexivity |].
  unfold runAnalysis in Hrun. cbn [objects analysisCache readers writer analyzed] in Hrun.
  destruct (analyzeDirectory P cs cf ch fs dir) as [a|e];
    injection Hrun as <- <-; repeat split.
Qed.

(** A call returns, and keeps the entries there are and the number of
    runs on their directories. *)
Lemma load_keeps fs dir (w : world Handlers) :
  free w ->
  exists r w',
    loadPackageAnalysis P cs cf ch fs dir w = Some (r, w')
    /\ free w'
    /\ forall d x, analysisCache w !! d = Some x ->
         analysisCache w' !! d = Some x
         /\ count_occ string_dec (analyzed w') d
            = count_occ string_dec (analyzed w) d.
Proof.
  intros Hfree. destruct (analysisCache w !! dir) as [r|] eqn:Hc.
  - exists r, w. split; [now apply load_hit |]. split; [exact Hfree |]. tauto.
  - destruct (load_miss fs dir w Hfree Hc) as (r & w' & Hl & Hf & Hc' & Ha & _).
    exists r, w'. split; [exact Hl |]. split; [exact Hf |].
    intros d x Hd. assert (Hne : dir <> d) by congruence.
    rewrite Hc', Ha. split; [now rewrite lookup_insert_ne |].
    rewrite count_occ_app. cbn. destruct (string_dec dir d); [congruence | lia].
Qed.

Lemma loadAll_keeps calls (w : world Handlers) :
  free w ->
  exists w',
    loadAll P cs cf ch calls w = Some w'
    /\ free w'
    /\ forall d x, analysisCache w !! d = Some x ->
         analysisCache w' !! d = Some x
         /\ count_occ string_dec (analyzed w') d
            = count_occ string_dec (analyzed w) d.
Proof.
  revert w. induction calls as [|[fs dir] calls IH]; intros w Hfree.
  - exists w. split; [reflexivity |]. split; [exact Hfree |].
    intros d x Hd. split; [exact Hd | reflexivity].
  - destruct (load_keeps fs dir w Hfree) as (r & w1 & Hl & Hf & Hk).
    destruct (IH w1 Hf) as (w' & Hall & Hf' & Hk').
    exists w'. cbn [loadAll]. rewrite Hl. split; [exact Hall |].
    split; [exact Hf' |]. intros d x Hd.
    destruct (Hk d x Hd) as [H1 H2]. destruct (Hk' d x H1) as [H3 H4].
    split; [exact H3 | congruence].
Qed.

End Facts.

(** C8: when [parser.ParseDir] reports an error for a directory,
    [analyzeDirectory] returns the error and no analysis, whatever
    packages came with the error; a call of [loadPackageAnalysis] for a
    directory without entry then returns [nil], allocates nothing, stores
    [nil] under the directory and has run [analyzeDirectory] once; and
    after any further calls, a call for that directory returns [nil]
    again and leaves everything as it is, so that [analyzeDirectory] has
    run on the directory as often as after the first call, whatever the
    file system has become. *)
Theorem parse_failure_cached (FS Packages Error Handlers : Type)
    (P : FS -> string -> (bool -> string -> bool) -> Packages * option Error)
    (cs : Packages -> gmap string structFields)
    (cf : Packages -> gmap string (list functionSignature))
    (ch : Packages -> gmap string structFields ->
          gmap string (list functionSignature) -> Handlers)
    (fs : FS) (dir : string) (err : Error) (w : world Handlers) :
  free w -> analysisCache w !! dir = None ->
  snd (P fs dir sourceFilter) = Some err ->
  analyzeDirectory P cs cf ch fs dir = inr err
  /\ exists w',
       loadPackageAnalysis P cs cf ch fs dir w = Some (None, w')
       /\ analysisCache w' !! dir = Some None
       /\ objects w' = objects w
       /\ analyzed w' = (analyzed w ++ [dir])%list
       /\ forall calls, exists w'',
            loadAll P cs cf ch calls w' = Some w''
            /\ analysisCache w'' !! dir = Some None
            /\ count_occ string_dec (analyzed w'') dir
               = S (count_occ string_dec (analyzed w) dir)
            /\ forall fs',
                 loadPackageAnalysis P cs cf ch fs' dir w'' = Some (None, w'').
Proof.
  intros Hfree Hc Herr.
  pose proof (analyzeDirectory_failure _ _ _ _ P cs cf ch fs dir err Herr) as Hfail.
  split; [exact Hfail |].
  destruct (load_miss _ _ _ _ P cs cf ch fs dir w Hfree Hc)
    as (r & w' & Hl & Hf & Hc' & Ha & Hres).
  rewrite Hfail in Hres. destruct Hres as [-> Ho].
  exists w'. split; [exact Hl |].
  assert (Hnil : analysisCache w' !! dir = Some None).
  { rewrite Hc'. apply lookup_insert_eq. }
  split; [exact Hnil |]. split; [exact Ho |]. split; [exact Ha |].
  intros calls.
  destruct (loadAll_keeps _ _ _ _ P cs cf ch calls w' Hf) as (w'' & Hall & Hf' & Hk).
  destruct (Hk dir None Hnil) as [H1 H2].
  exists w''. split; [exact Hall |]. split; [exact H1 |]. split.
  - rewrite H2, Ha, count_occ_app. cbn.
    destruct (string_dec dir dir); [lia | congruence].
  - intros fs'. now apply load_hit.
Qed.

Lemma parse_failure_cached_witness :
  exists w' w'',
    loadPackageAnalysis parseListed noStructs noFunctions noHandlers
      [] "handlers" coldWorld = Some (None, w')
    /\ loadAll parseListed noStructs noFunctions noHandlers
         [(["handlers"; "other"], "other")] w' = Some w''
    /\ loadPackageAnalysis parseListed noStructs noFunctions noHandlers
         ["handlers"; "other"] "handlers" w'' = Some (None, w'')
    /\ count_occ string_dec (analyzed w'') "handlers" = 1.
Proof.
  destruct (parse_failure_cached _ _ _ _ parseListed noStructs noFunctions
              noHandlers [] "handlers" "open: no such file or directory"
              coldWorld)
    as (_ & w' & Hl & _ & _ & _ & Hlater);
    [split; reflexivity | reflexivity | reflexivity |].
  destruct (Hlater [(["handlers"; "other"], "other")])
    as (w'' & Hall & _ & Hn & Hagain).
  exists w', w''. split; [exact Hl |]. split; [exact Hall |].
  split; [apply Hagain | exact Hn].
Defined.

End CacheFacts.
(** * The cache of package analyses, calls at the same time *)

Module RaceFacts.
Import GoStrings Ast Analyzer PackageCache Samples.

(** ** Counting the calls in a section *)

Lemma count_insert {A : Type} (p : A -> bool) (l : list A) i x y :
  l !! i = Some x ->
  length (List.filter p (<[i := y]> l)) + Nat.b2n (p x)
  = length (List.filter p l) + Nat.b2n (p y).
Proof.
  revert i. induction l as [|a l IH]; intros i Hi; [discriminate |].
  destruct i as [|i]; simpl in Hi |- *.
  - injection Hi as ->. destruct (p x), (p y); simpl; lia.
  - specialize (IH i Hi). destruct (p a); simpl; lia.
Qed.

Lemma count_pos {A : Type} (p : A -> bool) (l : list A) i x :
  l !! i = Some x -> p x = true -> 1 <= length (List.filter p l).
Proof.
  revert i. induction l as [|a l IH]; intros i Hi Hp; [discriminate |].
  destruct i as [|i]; cbn in Hi |- *.
  - injection Hi as ->. rewrite Hp. cbn. lia.
  - specialize (IH i Hi Hp). destruct (p a); cbn; lia.
Qed.

Lemma count_two {A : Type} (p : A -> bool) (l : list A) i j x y :
  i <> j -> l !! i = Some x -> l !! j = Some y ->
  p x = true -> p y = true -> 2 <= length (List.filter p l).
Proof.
  revert i j. induction l as [|a l IH]; intros i j Hne Hi Hj Hx Hy;
    [discriminate |].
  destruct i as [|i], j as [|j]; cbn in Hi, Hj |- *; [congruence | | |].
  - injection Hi as ->. rewrite Hx. pose proof (count_pos p l j y Hj Hy). cbn. lia.
  - injection Hj as ->. rewrite Hy. pose proof (count_pos p l i x Hi Hx). cbn. lia.
  - assert (i <> j) by congruence. specialize (IH i j H Hi Hj Hx Hy).
    destruct (p a); cbn; lia.
Qed.

Lemma count_witness {A : Type} (p : A -> bool) (l : list A) :
  1 <= length (List.filter p l) -> exists i x, l !! i = Some x /\ p x = true.
Proof.
  induction l as [|a l IH]; cbn; [lia |].
  destruct (p a) eqn:E.
  - intros _. now exists 0, a.
  - intros H. destruct (IH H) as (i & x & Hi & Hx). now exists (S i), x.
Qed.

Lemma NoDup_snoc {A : Type} (l : list A) x :
  List.NoDup l -> ~ In x l -> List.NoDup (l ++ [x]).
Proof.
  induction l as [|a l IH]; intros Hnd Hx; cbn.
  - constructor; [intros [] | constructor].
  - apply List.NoDup_cons_iff in Hnd as [Ha Hnd].
    apply List.NoDup_cons_iff. split.
    + intros [H|[->|[]]]%in_app_or; [tauto |]. apply Hx. now left.
    + apply IH; [exact Hnd |]. intros H. apply Hx. now right.
Qed.

Lemma sum_insert (f : thread -> nat) (l : list thread) i x y :
  l !! i = Some x ->
  list_sum (map f (<[i := y]> l)) + f x = list_sum (map f l) + f y.
Proof.
  revert i. induction l as [|a l IH]; intros i Hi; [discriminate |].
  destruct i as [|i]; simpl in Hi |- *.
  - injection Hi as ->. lia.
  - specialize (IH i Hi). lia.
Qed.

Section Facts.
Variables FS Packages Error Handlers : Type.
Variable P : FS -> string -> (bool -> string -> bool) -> Packages * option Error.
Variable cs : Packages -> gmap string structFields.
Variable cf : Packages -> gmap string (list functionSignature).
Variable ch : Packages -> gmap string structFields ->
              gmap string (list functionSignature) -> Handlers.

Lemma stepAt_inv i fs (ts : list thread) (w : world Handlers) c' :
  stepAt P cs cf ch i fs (ts, w) = Some c' ->
  exists t t' w',
    ts !! i = Some t /\ step P cs cf ch fs t w = Some (t', w')
    /\ c' = (<[i := t']> ts, w').
Proof.
  unfold stepAt. cbn [fst snd].
  destruct (ts !! i) as [t|] eqn:Hi; [| discriminate].
  destruct (step P cs cf ch fs t w) as [[t' w']|] eqn:Hs; [| discriminate].
  intros [= <-]. now exists t, t', w'.
Qed.

(** ** The lock *)

Lemma lockOK_step i fs c c' :
  lockOK c -> stepAt P cs cf ch i fs c = Some c' -> lockOK c'.
Proof.
  destruct c as [ts w]. intros (Hr & Hw & Hrw) Hstep. cbn [fst snd] in *.
  apply stepAt_inv in Hstep as (t & t' & w' & Hi & Hs & ->).
  unfold lockOK. cbn [fst snd].
  pose proof (count_insert inRead ts i t t' Hi) as Cr.
  pose proof (count_insert inWrite ts i t t' Hi) as Cw.
  destruct w as [c o rd wr an]. cbn [readers writer] in *.
  destruct t as [d p]. unfold step in Hs. cbn [fst snd] in Hs.
  destruct p; cbn [writer readers analysisCache] in Hs.
  all: repeat match type of Hs with
         | (if ?b then _ else _) = _ => destruct b eqn:?
         | match ?x with _ => _ end = _ => destruct x eqn:?
         end; try discriminate.
  all: injection Hs as <- <-.
  all: cbn in Cr, Cw |- *.
  all: try (unfold runAnalysis in *;
            repeat match goal with
              | H : context [match ?x with _ => _ end] |- _ => destruct x
              end;
            simplify_eq; cbn in * ).
  all: try (repeat split; try intros; try congruence; lia).
Qed.

(** ** The map *)

Lemma knows_ext (w w' : world Handlers) t :
  analysisCache w' = analysisCache w -> analyzed w' = analyzed w ->
  knows w t -> knows w' t.
Proof. unfold knows. intros -> ->. tauto. Qed.

(** A statement that leaves the map and the record of the runs alone. *)
Lemma cacheOK_quiet cache ts (w w' : world Handlers) i t t' :
  ts !! i = Some t ->
  analysisCache w' = analysisCache w -> analyzed w' = analyzed w ->
  (forall r, snd t <> Analyzed r) -> fst t' = fst t ->
  knows w' t' ->
  cacheOK cache (ts, w) -> cacheOK cache (<[i := t']> ts, w').
Proof.
  intros Hi Hc Ha Hpc Hdir Hk (H1 & H2 & H3 & H4 & H5 & H6).
  unfold cacheOK in *. cbn [fst snd] in *. rewrite Hc, Ha.
  split; [exact H1 |]. split; [exact H2 |]. split; [exact H3 |].
  split; [exact H4 |]. split.
  - intros d Hd. destruct (H5 d Hd) as [H|(j & r & Hj)]; [now left |].
    right. exists j, r. rewrite list_lookup_insert_ne; [exact Hj |].
    intros <-. rewrite Hi in Hj. injection Hj as ->. now apply (Hpc r).
  - intros j t0 [(<- & <- & _)|(Hne & Hj)]%list_lookup_insert_Some;
      [exact Hk |].
    apply (knows_ext w); [exact Hc | exact Ha | now apply (H6 j)].
Qed.

(** The run of [analyzeDirectory]. *)
Lemma cacheOK_analysis cache ts (w : world Handlers) i dir fs r w' :
  lockOK (ts, w) ->
  ts !! i = Some (dir, Analyzing) ->
  runAnalysis P cs cf ch fs dir w = (r, w') ->
  cacheOK cache (ts, w) -> cacheOK cache (<[i := (dir, Analyzed r)]> ts, w').
Proof.
  intros (_ & Hw & _) Hi Hrun (H1 & H2 & H3 & H4 & H5 & H6).
  cbn [fst snd] in *.
  assert (Hc : analysisCache w' = analysisCache w).
  { unfold runAnalysis in Hrun.
    destruct (analyzeDirectory P cs cf ch fs dir); injection Hrun as <- <-;
      reflexivity. }
  assert (Ha : analyzed w' = (analyzed w ++ [dir])%list).
  { unfold runAnalysis in Hrun.
    destruct (analyzeDirectory P cs cf ch fs dir); injection Hrun as <- <-;
      reflexivity. }
  pose proof (H6 i _ Hi) as Hmiss. unfold knows in Hmiss. cbn [fst snd] in Hmiss.
  assert (Hnew : ~ In dir (analyzed w)).
  { intros Hin. destruct (H5 dir Hin) as [H|(j & x & Hj)]; [congruence |].
    assert (Hne : i <> j).
    { intros <-. rewrite Hi in Hj. discriminate. }
    pose proof (count_two inWrite ts i j _ _ Hne Hi Hj eq_refl eq_refl).
    destruct (writer w); lia. }
  unfold cacheOK. cbn [fst snd]. rewrite Hc, Ha.
  split; [| split; [| split; [| split; [| split]]]].
  - now apply NoDup_snoc.
  - intros d [Hd|[<-|[]]]%in_app_or; [now apply H2 |].
    destruct (cache !! dir) as [x|] eqn:E; [| reflexivity].
    apply H3 in E. congruence.
  - exact H3.
  - intros d x Hd. destruct (H4 d x Hd); [now left |].
    right. apply in_or_app. now left.
  - intros d [Hd|[<-|[]]]%in_app_or.
    + destruct (H5 d Hd) as [H|(j & x & Hj)]; [now left |].
      right. exists j, x. rewrite list_lookup_insert_ne; [exact Hj |].
      intros <-. rewrite Hi in Hj. discriminate.
    + right. exists i, r. apply list_lookup_insert_eq.
      now apply lookup_lt_Some in Hi.
  - intros j t0 [(<- & <- & _)|(Hne & Hj)]%list_lookup_insert_Some.
    + unfold knows. cbn [fst snd]. rewrite Hc, Ha. split; [exact Hmiss |].
      apply in_or_app. right. now left.
    + specialize (H6 j t0 Hj). unfold knows in *. rewrite Hc, Ha.
      destruct (snd t0); try exact H6.
      destruct H6 as [Hn Hin]. split; [exact Hn |]. apply in_or_app. now left.
Qed.

(** The store into the map. *)
Lemma cacheOK_store cache ts (w : world Handlers) i dir r :
  lockOK (ts, w) ->
  ts !! i = Some (dir, Analyzed r) ->
  cacheOK cache (ts, w) ->
  cacheOK cache (<[i := (dir, Stored r)]> ts,
                 setCache (<[dir := r]> (analysisCache w)) w).
Proof.
  intros (_ & Hw & _) Hi (H1 & H2 & H3 & H4 & H5 & H6). cbn [fst snd] in *.
  pose proof (H6 i _ Hi) as [Hmiss Hin]. cbn [fst snd] in Hmiss, Hin.
  unfold cacheOK. cbn [fst snd setCache analysisCache analyzed].
  split; [exact H1 |]. split; [exact H2 |].
  split; [| split; [| split]].
  - intros d x Hd. destruct (String.eqb_spec dir d) as [<-|Hne].
    + apply H3 in Hd. congruence.
    + rewrite lookup_insert_ne by exact Hne. now apply H3.
  - intros d x. destruct (String.eqb_spec dir d) as [<-|Hne].
    + intros _. now right.
    + rewrite lookup_insert_ne by exact Hne. apply H4.
  - intros d Hd. destruct (String.eqb_spec dir d) as [<-|Hne].
    + left. now rewrite lookup_insert_eq.
    + rewrite lookup_insert_ne by exact Hne.
      destruct (H5 d Hd) as [H|(j & x & Hj)]; [now left |].
      right. exists j, x. rewrite list_lookup_insert_ne; [exact Hj |].
      intros <-. rewrite Hi in Hj. congruence.
  - intros j t0 [(<- & <- & _)|(Hne & Hj)]%list_lookup_insert_Some.
    + unfold knows. cbn [fst snd analysisCache]. apply lookup_insert_eq.
    + specialize (H6 j t0 Hj). destruct t0 as [d p].
      unfold knows in *. cbn [fst snd analysisCache analyzed] in *.
      destruct (String.eqb_spec dir d) as [<-|Hd].
      * assert (Hex : inWrite (dir, p) = true -> False).
        { intros Hp.
          pose proof (count_two inWrite ts i j _ _ Hne Hi Hj eq_refl Hp).
          destruct (writer w); lia. }
        destruct p; try exact I; try congruence;
          exfalso; apply Hex; reflexivity.
      * destruct p; cbn [setCache analysisCache analyzed];
          rewrite ?lookup_insert_ne by exact Hd; exact H6.
Qed.

Lemma cacheOK_step cache i fs c c' :
  lockOK c -> cacheOK cache c ->
  stepAt P cs cf ch i fs c = Some c' -> cacheOK cache c'.
Proof.
  destruct c as [ts w]. intros Hlock Hok Hstep.
  apply stepAt_inv in Hstep as (t & t' & w' & Hi & Hs & ->).
  destruct t as [d p]. unfold step in Hs. cbn [fst snd] in Hs.
  pose proof (proj2 (proj2 (proj2 (proj2 (proj2 Hok)))) i _ Hi) as Hk.
  unfold knows in Hk. cbn [fst snd] in Hk.
  destruct p.
  - destruct (writer w); [discriminate |]. injection Hs as <- <-.
    apply (cacheOK_quiet cache ts w _ i (d, Start)); try easy.
  - destruct (analysisCache w !! d) as [x|] eqn:E; injection Hs as <- <-;
      apply (cacheOK_quiet cache ts w _ i (d, ReadLocked)); try easy.
  - injection Hs as <- <-.
    apply (cacheOK_quiet cache ts w _ i (d, ReadHit cached)); try easy.
  - injection Hs as <- <-.
    apply (cacheOK_quiet cache ts w _ i (d, ReadMiss)); try easy.
  - destruct (writer w); [discriminate |].
    destruct (readers w); [| discriminate]. injection Hs as <- <-.
    apply (cacheOK_quiet cache ts w _ i (d, Unlocked)); try easy.
  - destruct (analysisCache w !! d) as [x|] eqn:E; injection Hs as <- <-;
      apply (cacheOK_quiet cache ts w _ i (d, WriteLocked)); try easy.
  - injection Hs as <- <-.
    apply (cacheOK_quiet cache ts w _ i (d, WriteHit cached)); try easy.
  - destruct (runAnalysis P cs cf ch fs d w) as [r w1] eqn:Hrun.
    injection Hs as <- <-. now apply (cacheOK_analysis cache ts w i d fs).
  - injection Hs as <- <-. now apply cacheOK_store.
  - injection Hs as <- <-.
    apply (cacheOK_quiet cache ts w _ i (d, Stored result)); try easy.
  - discriminate.
Qed.

(** ** Runs *)

Lemma run_invariant (I : config Handlers -> Prop) :
  (forall i fs c c', I c -> stepAt P cs cf ch i fs c = Some c' -> I c') ->
  forall schedule c c', I c -> run P cs cf ch schedule c = Some c' -> I c'.
Proof.
  intros Hstep. induction schedule as [|[i fs] rest IH]; intros c c' Hc.
  - now intros [= <-].
  - cbn [run]. destruct (stepAt P cs cf ch i fs c) as [c1|] eqn:E; [| discriminate].
    apply IH. now apply (Hstep i fs c).
Qed.

Lemma initial_count (p : thread -> bool) dirs :
  (forall d, p (d, Start) = false) ->
  length (List.filter p (map (fun dir => (dir, Start)) dirs)) = 0.
Proof.
  intros Hp. induction dirs as [|d dirs IH]; [reflexivity |].
  cbn. now rewrite Hp.
Qed.

Lemma initial_OK cache objs dirs :
  lockOK (initial (Handlers := Handlers) cache objs dirs)
  /\ cacheOK cache (initial (Handlers := Handlers) cache objs dirs).
Proof.
  unfold lockOK, cacheOK, initial. cbn [fst snd readers writer analyzed analysisCache].
  rewrite !initial_count by reflexivity.
  repeat split; try easy.
  - constructor.
  - tauto.
  - intros i t Hi. apply list_lookup_fmap_Some in Hi as (d & -> & _). exact I.
Qed.

Lemma reachable_OK cache objs dirs schedule c :
  run P cs cf ch schedule (initial cache objs dirs) = Some c ->
  lockOK c /\ cacheOK cache c.
Proof.
  apply (run_invariant (fun c => lockOK c /\ cacheOK cache c)).
  - intros i fs c0 c1 [Hl Hc] Hstep. split.
    + now apply (lockOK_step i fs c0).
    + now apply (cacheOK_step cache i fs c0).
  - apply initial_OK.
Qed.

(** ** Every call returns *)

Lemma step_write fs t (w : world Handlers) :
  inWrite t = true -> exists r, step P cs cf ch fs t w = Some r.
Proof.
  destruct t as [d p]. unfold inWrite, step. cbn [fst snd].
  destruct p; try discriminate; intros _; eauto.
  - destruct (analysisCache w !! d); eauto.
  - destruct (runAnalysis P cs cf ch fs d w). eauto.
Qed.

Lemma step_read fs t (w : world Handlers) :
  inRead t = true -> exists r, step P cs cf ch fs t w = Some r.
Proof.
  destruct t as [d p]. unfold inRead, step. cbn [fst snd].
  destruct p; try discriminate; intros _; eauto.
  destruct (analysisCache w !! d); eauto.
Qed.

Lemma step_enabled i fs ts (w : world Handlers) t :
  ts !! i = Some t -> (exists r, step P cs cf ch fs t w = Some r) ->
  exists c', stepAt P cs cf ch i fs (ts, w) = Some c'.
Proof.
  intros Hi [[t' w'] Hs]. unfold stepAt. cbn [fst snd]. rewrite Hi, Hs. eauto.
Qed.

(** No deadlock: while a call has not returned, some call can move. *)
Lemma progress c k t fs :
  lockOK c -> fst c !! k = Some t -> finished t = false ->
  exists i c', stepAt P cs cf ch i fs c = Some c'.
Proof.
  destruct c as [ts w]. intros (Hr & Hw & _) Hk Hfin. cbn [fst snd] in *.
  destruct (writer w) eqn:Ew.
  - destruct (count_witness inWrite ts) as (j & tj & Hj & Hp); [lia |].
    exists j. apply (step_enabled j fs ts w tj Hj). now apply step_write.
  - destruct (readers w) as [|n] eqn:Er.
    + exists k. apply (step_enabled k fs ts w t Hk).
      destruct (inRead t) eqn:Eread.
      { pose proof (count_pos inRead ts k t Hk Eread). lia. }
      destruct (inWrite t) eqn:Ewrite.
      { pose proof (count_pos inWrite ts k t Hk Ewrite). lia. }
      destruct t as [d p]. unfold step. cbn [fst snd]. rewrite Ew, Er.
      destruct p; try discriminate; eauto.
    + destruct (count_witness inRead ts) as (j & tj & Hj & Hp); [lia |].
      exists j. apply (step_enabled j fs ts w tj Hj). now apply step_read.
Qed.

Lemma step_decreases fs t (w : world Handlers) t' w' :
  step P cs cf ch fs t w = Some (t', w') ->
  fst t' = fst t /\ stepsLeft t' < stepsLeft t.
Proof.
  destruct t as [d p]. unfold step. cbn [fst snd].
  destruct p;
    repeat match goal with
      | |- context [if ?b then _ else _] => destruct b
      | |- context [match ?x with _ => _ end] => destruct x
      end;
    try discriminate; intros [= <- _]; cbn; split; (reflexivity || lia).
Qed.

Lemma stepAt_decreases i fs (c c' : config Handlers) :
  stepAt P cs cf ch i fs c = Some c' ->
  list_sum (map stepsLeft (fst c')) < list_sum (map stepsLeft (fst c)).
Proof.
  destruct c as [ts w]. intros (t & t' & w' & Hi & Hs & ->)%stepAt_inv.
  cbn [fst]. pose proof (sum_insert stepsLeft ts i t t' Hi).
  apply step_decreases in Hs as [_ Hs]. lia.
Qed.

Lemma stepAt_dirs i fs (c c' : config Handlers) :
  stepAt P cs cf ch i fs c = Some c' ->
  map fst (fst c') = map fst (fst c).
Proof.
  destruct c as [ts w]. intros (t & t' & w' & Hi & Hs & ->)%stepAt_inv.
  cbn [fst]. apply step_decreases in Hs as [Hd _].
  clear w w' fs. revert i Hi. induction ts as [|a ts IH]; intros i Hi;
    [discriminate |].
  destruct i as [|i]; simpl in Hi |- *.
  - injection Hi as ->. now rewrite Hd.
  - f_equal. now apply IH.
Qed.

Lemma run_bounded schedule (c c' : config Handlers) :
  run P cs cf ch schedule c = Some c' ->
  length schedule + list_sum (map stepsLeft (fst c'))
  <= list_sum (map stepsLeft (fst c)).
Proof.
  revert c. induction schedule as [|[i fs] rest IH]; intros c.
  - intros [= <-]. cbn. lia.
  - cbn [run]. destruct (stepAt P cs cf ch i fs c) as [c1|] eqn:E; [| discriminate].
    intros H. apply IH in H. apply stepAt_decreases in E. cbn [length]. lia.
Qed.

Lemma initial_steps cache (objs : list (packageAnalysis Handlers)) dirs :
  list_sum (map stepsLeft (fst (initial cache objs dirs))) = 8 * length dirs.
Proof.
  unfold initial. cbn [fst]. induction dirs as [|d dirs IH]; [reflexivity |].
  simpl map. simpl list_sum. simpl length. lia.
Qed.

Lemma unfinished (ts : list thread) :
  forallb finished ts = false ->
  exists k t, ts !! k = Some t /\ finished t = false.
Proof.
  induction ts as [|a ts IH]; [discriminate |]. cbn [forallb].
  destruct (finished a) eqn:E.
  - intros H. destruct (IH H) as (k & t & Hk & Ht). now exists (S k), t.
  - intros _. now exists 0, a.
Qed.

(** Every configuration with a consistent lock can be run until all calls
    have returned. *)
Lemma completion (fs : FS) (c : config Handlers) :
  lockOK c ->
  exists rest c',
    run P cs cf ch rest c = Some c' /\ forallb finished (fst c') = true.
Proof.
  remember (list_sum (map stepsLeft (fst c))) as n eqn:Hn.
  revert c Hn. induction n as [n IH] using lt_wf_ind. intros c Hn Hlock.
  destruct (forallb finished (fst c)) eqn:E.
  - exists [], c. now split.
  - destruct (unfinished _ E) as (k & t & Hk & Ht).
    destruct (progress c k t fs Hlock Hk Ht) as (i & c1 & Hstep).
    pose proof (stepAt_decreases _ _ _ _ Hstep) as Hlt.
    destruct (IH _ ltac:(subst n; exact Hlt) c1 eq_refl
                (lockOK_step i fs c c1 Hlock Hstep)) as (rest & c' & Hrun & Hall).
    exists ((i, fs) :: rest), c'. cbn [run]. rewrite Hstep. now split.
Qed.

Lemma run_app s1 s2 (c c1 : config Handlers) :
  run P cs cf ch s1 c = Some c1 ->
  run P cs cf ch (s1 ++ s2)%list c = run P cs cf ch s2 c1.
Proof.
  revert c. induction s1 as [|[i fs] s1 IH]; intros c.
  - now intros [= <-].
  - cbn [run app]. destruct (stepAt P cs cf ch i fs c) as [c0|]; [| discriminate].
    apply IH.
Qed.

Lemma reachable_dirs cache objs dirs schedule c :
  run P cs cf ch schedule (initial cache objs dirs) = Some c ->
  map fst (fst c) = dirs.
Proof.
  apply (run_invariant (fun c => map fst (fst c) = dirs)).
  - intros i fs c0 c1 H Hstep. now rewrite (stepAt_dirs _ _ _ _ Hstep).
  - unfold initial. cbn [fst]. rewrite map_map. cbn [fst]. apply map_id.
Qed.

(** While a call holds the lock for writing, no other call holds it. *)
Lemma exclusion (ts : list thread) (w : world Handlers) i j ti tj :
  lockOK (ts, w) -> i <> j -> ts !! i = Some ti -> ts !! j = Some tj ->
  inWrite ti = true -> inWrite tj = false /\ inRead tj = false.
Proof.
  intros (Hr & Hw & Hrw) Hne Hi Hj Hti. cbn [fst snd] in *.
  pose proof (count_pos inWrite ts i ti Hi Hti) as Hpos. split.
  - destruct (inWrite tj) eqn:E; [| reflexivity].
    pose proof (count_two inWrite ts i j ti tj Hne Hi Hj Hti E).
    destruct (writer w); lia.
  - destruct (inRead tj) eqn:E; [| reflexivity].
    pose proof (count_pos inRead ts j tj Hj E).
    destruct (writer w); [| lia]. specialize (Hrw eq_refl). lia.
Qed.

End Facts.



End RaceFacts.
(** * The scope of a handler body *)

Module ScopeFacts.
Import GoStrings GoStrconv Ast Json AList Analyzer Notions Samples MoreSamples
  MonadFacts HandlerFacts.

Lemma extendsScope_refl ctx : extendsScope ctx ctx.
Proof. repeat split; tauto. Qed.

Lemma extendsScope_trans c1 c2 c3 :
  extendsScope c1 c2 -> extendsScope c2 c3 -> extendsScope c1 c3.
Proof.
  intros (S12 & F12 & V12) (S23 & F23 & V23).
  split; [congruence |]. split; [congruence |].
  intros name t H. destruct (V12 name t H) as [H1 H2].
  destruct (V23 name t H1) as [H3 H4]. split; [exact H3 | congruence].
Qed.

Lemma bindVariable_extends name t v ctx :
  isBound name ctx = false -> extendsScope ctx (bindVariable name t v ctx).
Proof.
  unfold isBound. intros Hb. split; [reflexivity |]. split; [reflexivity |].
  intros name' t' H. cbn [bindVariable variables values].
  assert (Hne : name <> name').
  { intros ->. now rewrite H in Hb. }
  rewrite !lookup_insert_ne by exact Hne. tauto.
Qed.

Lemma foldIndexed_extends {A : Type}
    (f : analysisContext -> nat -> A -> analysisContext) :
  (forall ctx idx x, extendsScope ctx (f ctx idx x)) ->
  forall xs idx ctx, extendsScope ctx (foldIndexed f idx xs ctx).
Proof.
  intros Hf. induction xs as [|x xs IH]; intros idx ctx; cbn [foldIndexed].
  - apply extendsScope_refl.
  - eapply extendsScope_trans; [apply Hf | apply IH].
Qed.

Lemma registerSpecName_extends type vals ctx idx name :
  extendsScope ctx (registerSpecName type vals ctx idx name).
Proof.
  unfold registerSpecName.
  destruct (String.eqb name "_"); [apply extendsScope_refl |].
  destruct (isBound name ctx) eqn:Hb; [apply extendsScope_refl |].
  destruct type as [t|]; [now apply bindVariable_extends |].
  destruct (targetValue vals idx) as [valueExpr|]; [| apply extendsScope_refl].
  destruct (inferTypeFromExpr valueExpr ctx);
    [now apply bindVariable_extends | apply extendsScope_refl].
Qed.

Lemma registerDeclarationTypes_extends tok specs ctx :
  extendsScope ctx (registerDeclarationTypes tok specs ctx).
Proof.
  unfold registerDeclarationTypes.
  assert (H : forall ctx, extendsScope ctx (fold_left registerSpec specs ctx)).
  { clear ctx. induction specs as [|s specs IH]; intros ctx; cbn [fold_left].
    - apply extendsScope_refl.
    - eapply extendsScope_trans; [| apply IH].
      destruct s as [names type vals|]; [| apply extendsScope_refl].
      apply foldIndexed_extends. intros c idx x.
      apply registerSpecName_extends. }
  destruct tok; try apply extendsScope_refl; apply H.
Qed.

Lemma registerAssignmentTypes_extends lhs tok rhs ctx :
  extendsScope ctx (registerAssignmentTypes lhs tok rhs ctx).
Proof.
  unfold registerAssignmentTypes. destruct tok; try apply extendsScope_refl.
  apply foldIndexed_extends. intros c idx x. unfold registerAssignedName.
  destruct x; try apply extendsScope_refl.
  destruct (String.eqb name "_"); [apply extendsScope_refl |].
  destruct (isBound name c) eqn:Hb; [apply extendsScope_refl |].
  destruct (nth_error rhs idx) as [r|]; [| apply extendsScope_refl].
  destruct (inferTypeFromExpr r c);
    [now apply bindVariable_extends | apply extendsScope_refl].
Qed.

Lemma registerRangeTypes_extends v tok x ctx :
  extendsScope ctx (registerRangeTypes v tok x ctx).
Proof.
  unfold registerRangeTypes. destruct tok; try apply extendsScope_refl.
  destruct (inferTypeFromExpr x ctx) as [collectionType|];
    [| apply extendsScope_refl].
  destruct v as [[]|]; try apply extendsScope_refl.
  destruct (String.eqb name "_"); [apply extendsScope_refl |].
  destruct (isBound name ctx) eqn:Hb; [apply extendsScope_refl |].
  destruct collectionType; try apply extendsScope_refl;
    now apply bindVariable_extends.
Qed.

Section Facts.
Variable pf : string -> option float64.
Variable ju : string -> option value.
Variable rf : string -> list (string * value) -> string.

Lemma analyzeNode_extends fuel st n st' :
  analyzeNode pf ju rf fuel st n = Some st' -> extendsScope (fst st) (fst st').
Proof.
  destruct st as [ctx a]. cbn [fst].
  destruct n as [tok specs|lhs tok rhs|k v tok x|fn args].
  - intros [= <-]. apply registerDeclarationTypes_extends.
  - intros [= <-]. apply registerAssignmentTypes_extends.
  - intros [= <-]. apply registerRangeTypes_extends.
  - intros (a1 & _ & [[_ ->]|(ct & se & de & _ & Hrec)])%analyzeNode_call_inv.
    + apply extendsScope_refl.
    + destruct (recordResponse_inv _ _ _ _ _ _ _ _ _ _ Hrec)
        as (code & r & _ & -> & _).
      apply extendsScope_refl.
Qed.

End Facts.

(** X1: through the analysis of a handler body the tables of structs and
    functions stay as they are, and the first type and value recorded for
    a variable name are kept: no later declaration, assignment or range
    clause with that name changes them.  A declaration of a name that is
    recorded is skipped, also when it stands in an inner block. *)
Theorem first_binding_kept pf ju rf fuel nodes st stF :
  analyzeNodes pf ju rf fuel nodes st = Some stF ->
  structs (fst stF) = structs (fst st)
  /\ functions (fst stF) = functions (fst st)
  /\ (forall name t,
        variables (fst st) !! name = Some t ->
        variables (fst stF) !! name = Some t
        /\ values (fst stF) !! name = values (fst st) !! name)
  /\ (forall pre n post st1 st2,
        nodes = (pre ++ n :: post)%list ->
        analyzeNodes pf ju rf fuel pre st = Some st1 ->
        analyzeNode pf ju rf fuel st1 n = Some st2 ->
        forall name t,
          variables (fst st1) !! name = Some t ->
          variables (fst stF) !! name = Some t).
Proof.
  intros Hrun.
  assert (Hext : forall nodes st stF,
            analyzeNodes pf ju rf fuel nodes st = Some stF ->
            extendsScope (fst st) (fst stF)).
  { clear. intros nodes0 st0 stF0 H0.
    apply (analyzeNodes_invariant pf ju rf
             (fun s => extendsScope (fst st0) (fst s)) fuel nodes0)
      with (st := st0); [| apply extendsScope_refl | exact H0].
    intros s n s' Hs Hn. eapply extendsScope_trans; [exact Hs |].
    now apply (analyzeNode_extends pf ju rf fuel s n). }
  destruct (Hext _ _ _ Hrun) as (Hs & Hf & Hv).
  split; [exact Hs |]. split; [exact Hf |]. split; [exact Hv |].
  intros pre n post st1 st2 -> Hpre Hn name t Hname.
  apply analyzeNodes_app in Hrun as (st1' & Hpre' & Hrest).
  rewrite Hpre in Hpre'. injection Hpre' as <-.
  destruct (Hext _ _ _ Hrest) as (_ & _ & Hv'). now apply Hv'.
Qed.

Lemma first_binding_kept_witness :
  exists stF,
    analyzeNodes noFloat noJSON firstExact 4
      (flat_map inspectStmt redeclaringHandler) (startState accountStructs)
    = Some stF
    /\ structs (fst stF) = accountStructs
    /\ variables (fst stF) !! "req" = Some (Ident "Account").
Proof.
  destruct (analyzeNodes noFloat noJSON firstExact 4
              (flat_map inspectStmt redeclaringHandler)
              (startState accountStructs)) as [stF|] eqn:E;
    [| vm_compute in E; discriminate].
  destruct (first_binding_kept noFloat noJSON firstExact 4 _ _ _ E)
    as (Hs & _ & _ & Hlater).
  exists stF. split; [reflexivity |]. split; [exact Hs |].
  apply (Hlater
           [NDecl VAR [ValueSpec ["req"] (Some (Ident "Account")) []]]
           (NAssign [Ident "req"] DEFINE [CompositeLit (Some (Ident "Other")) []])
           [ NAssign [Ident "_"] ASSIGN [Ident "req"];
             NCall (SelectorExpr (Ident "c") "JSON") [BasicLit INT "200"; Ident "req"] ]
           (mkContext accountStructs ∅ (<["req" := Ident "Account"]> ∅)
              (<["req" := None]> ∅), mkAnalysis None ∅)
           (mkContext accountStructs ∅ (<["req" := Ident "Account"]> ∅)
              (<["req" := None]> ∅), mkAnalysis None ∅)
           eq_refl eq_refl eq_refl "req" (Ident "Account") eq_refl).
Defined.

End ScopeFacts.
(** * The responses of a handler *)

Module ResponseFacts.
Import GoStrings GoStrconv Ast Json AList Analyzer Notions Samples MoreSamples
  MonadFacts HandlerFacts.

(** A status code is resolved to nothing or to a decimal numeral. *)
Lemma extractStatusCode_numeral fuel e ctx code :
  extractStatusCode fuel e ctx = Some code ->
  code = "" \/ exists n, code = Itoa n.
Proof.
  revert e. induction fuel as [|f IH]; intros e; [discriminate |].
  cbn [extractStatusCode]. destruct e; try (intros [= <-]; now left).
  - destruct (variables ctx !! name) as [typ|]; [apply IH |].
    intros [= <-]. now left.
  - destruct kind; try (intros [= <-]; now left).
    destruct (Atoi _) as [num|]; intros [= <-]; [right; now exists num | now left].
  - destruct (httpStatusNameMap sel) as [c|]; intros [= <-];
      [right; now exists c | now left].
Qed.

Lemma itoaDigits_nonempty fuel n acc :
  acc <> "" -> itoaDigits fuel n acc <> "".
Proof.
  revert n acc. induction fuel as [|f IH]; intros n acc Hacc; [exact Hacc |].
  cbn [itoaDigits]. destruct (n <? 10)%N; [discriminate |].
  apply IH. discriminate.
Qed.

Lemma Itoa_nonempty n : Itoa n <> "".
Proof.
  assert (H : forall m, itoaDigits (S (N.to_nat (N.log2 m))) m "" <> "").
  { intros m. cbn [itoaDigits]. destruct (m <? 10)%N; [discriminate |].
    apply itoaDigits_nonempty. discriminate. }
  unfold Itoa. destruct n; [discriminate | apply H |discriminate].
Qed.

Lemma descriptionOf_nonempty code : descriptionOf code <> "".
Proof. unfold descriptionOf. now destruct (statusTextFromCode code). Qed.

Section Facts.
Variable pf : string -> option float64.
Variable ju : string -> option value.
Variable rf : string -> list (string * value) -> string.

Lemma recordResponse_shape fuel ct se de ctx a st' :
  recordResponse pf ju rf fuel ct se de (ctx, a) = Some st' ->
  exists code r,
    haResponses (snd st') = <[code := r]> (haResponses a)
    /\ (exists n, code = Itoa n)
    /\ respDescription r = descriptionOf code
    /\ respContentType r = match ct with
                           | EmptyString => "application/json"
                           | String _ _ => ct
                           end.
Proof.
  unfold recordResponse.
  destruct (extractStatusCode fuel se ctx) as [code|] eqn:Hcode; [| discriminate].
  destruct (resolveResponsePayloadExpr fuel de ctx) as [p|]; [| discriminate].
  destruct (buildSchemaFromExpr pf ju fuel p ctx ∅) as [[[sch ex] v]|];
    [| discriminate].
  intros [= <-]. eexists _, _. cbn [snd haResponses]. split; [reflexivity |].
  split; [| split; reflexivity].
  destruct (extractStatusCode_numeral _ _ _ _ Hcode) as [->|[n ->]].
  - now exists 200%Z.
  - exists n. destruct (Itoa n) eqn:E; [| reflexivity].
    now apply Itoa_nonempty in E.
Qed.

Lemma responses_step fuel st n st'
    (P : string -> Response -> Prop) :
  (forall code r ct,
      (exists n, code = Itoa n) -> respDescription r = descriptionOf code ->
      respContentType r = match ct with
                          | EmptyString => "application/json"
                          | String _ _ => ct
                          end ->
      P code r) ->
  (forall code r, haResponses (snd st) !! code = Some r -> P code r) ->
  analyzeNode pf ju rf fuel st n = Some st' ->
  forall code r, haResponses (snd st') !! code = Some r -> P code r.
Proof.
  destruct st as [ctx a]. intros HP Hinv.
  destruct n as [tok specs|lhs tok rhs|k v tok x|fn args];
    try (intros [= <-]; exact Hinv).
  intros (a1 & Hrb & Hresp)%analyzeNode_call_inv.
  destruct (recordRequestBody_inv _ _ _ _ _ _ _ _ Hrb) as (_ & Hsame & _).
  cbn [snd] in Hsame, Hinv.
  destruct Hresp as [[_ ->]|(ct & se & de & _ & Hrec)].
  - cbn [snd]. now rewrite Hsame.
  - destruct (recordResponse_shape _ _ _ _ _ _ _ Hrec)
      as (code' & r' & -> & Hn & Hd & Hc).
    intros code r. rewrite Hsame.
    intros [[<- <-]|[_ H]]%lookup_insert_Some; [| now apply Hinv].
    now apply (HP code' r' ct).
Qed.

End Facts.

(** X2: every response that the analysis of a handler records stands
    under the decimal numeral of a status code, has the description of
    that code (its reason phrase, or "Response" when the code has none),
    which is never empty, and has a content type, which is never
    empty. *)
Theorem recorded_responses_well_formed pf ju rf fuel body structs functions
    analysis :
  analyzeHandlerDetails pf ju rf fuel body structs functions = Some analysis ->
  forall code r,
    haResponses analysis !! code = Some r ->
    (exists n, code = Itoa n)
    /\ respDescription r = descriptionOf code
    /\ respDescription r <> ""
    /\ respContentType r <> "".
Proof.
  unfold analyzeHandlerDetails. destruct body as [stmts|].
  2:{ intros [= <-] code r H. cbn in H. now rewrite lookup_empty in H. }
  destruct (analyzeNodes pf ju rf fuel _ _) as [[ctx a]|] eqn:E; [| discriminate].
  intros [= <-].
  pose proof (analyzeNodes_invariant pf ju rf
           (fun st => forall code r, haResponses (snd st) !! code = Some r ->
                        (exists n, code = Itoa n)
                        /\ respDescription r = descriptionOf code
                        /\ respDescription r <> ""
                        /\ respContentType r <> "")
           fuel (flat_map inspectStmt stmts)) as Hinv.
  refine (Hinv _ _ (ctx, a) _ E).
  - intros st n st' Hst Hn. revert Hn. apply responses_step; [| exact Hst].
    intros code r ct Hcode Hd Hc. split; [exact Hcode |]. split; [exact Hd |].
    split; [rewrite Hd; apply descriptionOf_nonempty |].
    rewrite Hc. now destruct ct.
  - intros code r H. cbn in H. now rewrite lookup_empty in H.
Qed.

Lemma recorded_responses_well_formed_witness :
  exists analysis r,
    analyzeHandlerDetails noFloat noJSON firstExact 4 (Some createdHandler)
      accountStructs ∅ = Some analysis
    /\ haResponses analysis !! "201" = Some r
    /\ respDescription r = "Created"
    /\ respContentType r <> "".
Proof.
  destruct (analyzeHandlerDetails noFloat noJSON firstExact 4
              (Some createdHandler) accountStructs ∅) as [analysis|] eqn:E;
    [| vm_compute in E; discriminate].
  destruct (haResponses analysis !! "201") as [r|] eqn:Hr.
  2:{ vm_compute in E. injection E as <-. vm_compute in Hr. discriminate. }
  destruct (recorded_responses_well_formed _ _ _ _ _ _ _ _ E "201" r Hr)
    as (_ & Hd & _ & Hc).
  exists analysis, r. repeat split; assumption.
Defined.

End ResponseFacts.
(** * The request body of a handler *)

Module RequestFacts.
Import GoStrings GoStrconv Ast Json AList Analyzer Notions Samples MoreSamples
  MonadFacts HandlerFacts.

Lemma bindingMethods_mime sel mime :
  bindingMethods !! sel = Some mime ->
  In mime ["auto"; "application/json"; "application/xml"; "application/x-yaml";
           "application/protobuf"].
Proof.
  unfold bindingMethods. intros H%elem_of_list_to_map_2.
  apply list_elem_of_In in H.
  repeat (destruct H as [[= _ <-]|H]; [simpl; tauto |]). destruct H.
Qed.

Section Facts.
Variable pf : string -> option float64.
Variable ju : string -> option value.
Variable rf : string -> list (string * value) -> string.

Lemma resolveRequestBody_contentType fuel fn arg ctx rb :
  isBindingCall fn = true ->
  resolveRequestBody pf ju fuel fn arg ctx = Some (Some rb) ->
  exists x sel mime,
    fn = SelectorExpr x sel
    /\ bindingMethods !! sel = Some mime
    /\ rbContentType rb
       = (if String.eqb mime "auto" then "application/json" else mime)
    /\ rbSchema rb <> None
    /\ rbRequired rb = true.
Proof.
  unfold isBindingCall, resolveRequestBody. destruct fn; try discriminate.
  destruct (bindingMethods !! sel) as [mime|] eqn:Hm; [| discriminate].
  intros _.
  destruct (resolveTypeFromArg arg ctx) as [t|]; [| discriminate].
  unfold buildRequestBodyFromExpr.
  destruct (buildSchemaFromExpr pf ju fuel t ctx ∅) as [[[[sch|] ex] v]|];
    [| discriminate..].
  intros [= <-]. exists fn, sel, mime. split; [reflexivity |].
  split; [exact Hm |]. cbn [rbContentType rbSchema rbRequired].
  split; [| split; [discriminate | reflexivity]].
  destruct (String.eqb mime "auto") eqn:E; [reflexivity |].
  destruct mime; [| reflexivity].
  apply bindingMethods_mime in Hm. simpl in Hm.
  repeat (destruct Hm as [Hm|Hm]; [discriminate |]). destruct Hm.
Qed.

End Facts.

(** X3: the request body that the analysis of a handler records comes
    from a call of one of the binding methods in the body; its content
    type is the one of that method ("application/json" for the methods
    that detect the type), so one of JSON, XML, YAML and protobuf and
    never empty; it has a schema and is required. *)
Theorem request_body_content_type pf ju rf fuel stmts structs functions
    analysis rb :
  analyzeHandlerDetails pf ju rf fuel (Some stmts) structs functions
  = Some analysis ->
  haRequestBody analysis = Some rb ->
  exists x sel args mime,
    In (NCall (SelectorExpr x sel) args) (flat_map inspectStmt stmts)
    /\ bindingMethods !! sel = Some mime
    /\ rbContentType rb
       = (if String.eqb mime "auto" then "application/json" else mime)
    /\ In (rbContentType rb)
         ["application/json"; "application/xml"; "application/x-yaml";
          "application/protobuf"]
    /\ rbSchema rb <> None
    /\ rbRequired rb = true.
Proof.
  unfold analyzeHandlerDetails.
  destruct (analyzeNodes pf ju rf fuel _ _) as [[ctx a]|] eqn:E; [| discriminate].
  intros [= <-] Hrb.
  destruct (requestBody_origin pf ju rf fuel _
              (mkContext structs functions ∅ ∅, mkAnalysis None ∅) (ctx, a) rb
              eq_refl E Hrb)
    as (pre & fn & arg & rest & post & ctx1 & a1 & Hnodes & _ & _ & Hb & Hres).
  destruct (resolveRequestBody_contentType _ _ _ _ _ _ _ Hb Hres)
    as (x & sel & mime & -> & Hm & Hct & Hs & Hr).
  exists x, sel, (arg :: rest), mime.
  split; [rewrite Hnodes; apply in_or_app; right; now left |].
  split; [exact Hm |]. split; [exact Hct |].
  split; [| split; assumption].
  rewrite Hct. apply bindingMethods_mime in Hm. simpl in Hm.
  destruct Hm as [<-|[<-|[<-|[<-|[<-|[]]]]]]; simpl; tauto.
Qed.

Lemma request_body_content_type_witness :
  exists analysis rb,
    analyzeHandlerDetails noFloat noJSON firstExact 4 (Some bindHandler)
      accountStructs ∅ = Some analysis
    /\ haRequestBody analysis = Some rb
    /\ rbContentType rb = "application/json".
Proof.
  destruct (analyzeHandlerDetails noFloat noJSON firstExact 4 (Some bindHandler)
              accountStructs ∅) as [analysis|] eqn:E;
    [| vm_compute in E; discriminate].
  destruct (haRequestBody analysis) as [rb|] eqn:Hrb.
  2:{ vm_compute in E. injection E as <-. discriminate. }
  destruct (request_body_content_type _ _ _ _ _ _ _ _ _ E Hrb)
    as (x & sel & args & mime & Hin & Hm & Hct & _).
  exists analysis, rb. split; [reflexivity |]. split; [exact Hrb |].
  rewrite Hct. simpl in Hin.
  repeat (destruct Hin as [Hin|Hin];
          [try discriminate Hin; injection Hin as _ Hsel _; subst sel;
           vm_compute in Hm; try discriminate Hm; injection Hm as <-;
           reflexivity |]).
  destruct Hin.
Defined.

End RequestFacts.
(** * The cache of package analyses: analyses that succeed *)

Module CachedFacts.
Import GoStrings Ast Analyzer PackageCache Samples CacheFacts.

Section Facts.
Variables FS Packages Error Handlers : Type.
Variable P : FS -> string -> (bool -> string -> bool) -> Packages * option Error.
Variable cs : Packages -> gmap string structFields.
Variable cf : Packages -> gmap string (list functionSignature).
Variable ch : Packages -> gmap string structFields ->
              gmap string (list functionSignature) -> Handlers.

Lemma analyzeDirectory_success fs dir :
  snd (P fs dir sourceFilter) = None ->
  analyzeDirectory P cs cf ch fs dir
  = inl (mkPackageAnalysis Handlers
           (ch (fst (P fs dir sourceFilter))
               (cs (fst (P fs dir sourceFilter)))
               (cf (fst (P fs dir sourceFilter))))
           (cf (fst (P fs dir sourceFilter)))).
Proof.
  unfold analyzeDirectory. destruct (P fs dir sourceFilter) as [pkgs e].
  cbn. now intros ->.
Qed.

(** Objects are only added. *)
Lemma load_objects fs dir (w : world Handlers) :
  free w ->
  exists r w' more,
    loadPackageAnalysis P cs cf ch fs dir w = Some (r, w')
    /\ free w' /\ objects w' = (objects w ++ more)%list.
Proof.
  intros Hfree. destruct (analysisCache w !! dir) as [r|] eqn:Hc.
  - exists r, w, []. split; [now apply load_hit |]. split; [exact Hfree |].
    now rewrite app_nil_r.
  - destruct (load_miss _ _ _ _ P cs cf ch fs dir w Hfree Hc)
      as (r & w' & Hl & Hf & _ & _ & Hres).
    destruct (analyzeDirectory P cs cf ch fs dir) as [a|e].
    + exists r, w', [a]. destruct Hres as [_ Ho]. tauto.
    + exists r, w', []. destruct Hres as [_ Ho]. rewrite app_nil_r. tauto.
Qed.

Lemma loadAll_objects calls (w : world Handlers) :
  free w ->
  exists w' more,
    loadAll P cs cf ch calls w = Some w' /\ objects w' = (objects w ++ more)%list.
Proof.
  revert w. induction calls as [|[fs dir] calls IH]; intros w Hfree.
  - exists w, []. split; [reflexivity | now rewrite app_nil_r].
  - destruct (load_objects fs dir w Hfree) as (r & w1 & m1 & Hl & Hf & Ho).
    destruct (IH w1 Hf) as (w' & m2 & Hall & Ho').
    exists w', (m1 ++ m2)%list. cbn [loadAll]. rewrite Hl. split; [exact Hall |].
    now rewrite Ho', Ho, app_assoc.
Qed.

End Facts.



End CachedFacts.
(** * What the builder returns *)

Module BuilderFacts.
Import GoStrings GoStrconv Ast Json AList Analyzer Notions Samples MoreSamples
  AListFacts MonadFacts HandlerFacts.

Lemma In_aset {A : Type} k (v : A) m q :
  In q (aset k v m) -> q = (k, v) \/ In q m.
Proof.
  induction m as [|[k' v'] m IH]; simpl.
  - intros [<-|[]]. now left.
  - destruct (String.eqb k' k); simpl.
    + intros [<-|H]; [now left | right; now right].
    + intros [<-|H]; [right; now left |].
      destruct (IH H); [now left | right; now right].
Qed.

Lemma In_amerge {A : Type} (m src : list (string * A)) q :
  In q (amerge m src) -> In q m \/ In q src.
Proof.
  revert m. induction src as [|[k v] src IH]; intros m; [now left |].
  rewrite amerge_cons. intros [H|H]%IH; [| right; now right].
  apply In_aset in H as [->|H]; [right; now left | now left].
Qed.

Lemma existsb_eqb name (l : list string) :
  existsb (String.eqb name) l = true <-> In name l.
Proof.
  rewrite existsb_exists. split.
  - intros (x & Hin & ->%String.eqb_eq). exact Hin.
  - intros Hin. exists name. split; [exact Hin | apply String.eqb_refl].
Qed.

(** The parts of a well-formed schema. *)
Lemma wfSchema_parts k f d items props req add :
  wfSchema (mkSchema k f d items props req add) = true <->
  (forall name, In name req ->
     exists ps, props = Some ps /\ In name (akeys ps))
  /\ (forall it, items = Some it -> wfSchema it = true)
  /\ (forall ps q, props = Some ps -> In q ps -> wfSchema (snd q) = true)
  /\ (forall a, add = Some a -> wfSchema a = true).
Proof.
  cbn [wfSchema]. rewrite !andb_true_iff, forallb_forall. split.
  - intros [[[Hreq Hit] Hps] Hadd]. repeat split.
    + intros name Hin. specialize (Hreq name Hin). destruct props as [ps|];
        [| discriminate]. exists ps. split; [reflexivity |].
      now apply existsb_eqb.
    + now intros it ->.
    + intros ps q -> Hin. rewrite forallb_forall in Hps. now apply Hps.
    + now intros a ->.
  - intros (Hreq & Hit & Hps & Hadd). repeat split.
    + intros name Hin. destruct (Hreq name Hin) as (ps & -> & Hk).
      now apply existsb_eqb.
    + destruct items; [now apply Hit | reflexivity].
    + destruct props as [ps|]; [| reflexivity]. apply forallb_forall.
      intros q Hin. now apply (Hps ps).
    + destruct add; [now apply Hadd | reflexivity].
Qed.

Lemma wfSchema_typeSchema t : wfSchema (typeSchema t) = true.
Proof. reflexivity. Qed.

Lemma wfSchema_setDescription d s :
  wfSchema (setDescription d s) = wfSchema s.
Proof. now destruct s. Qed.

Section Step.
Variable pf : string -> option float64.
Variable ju : string -> option value.
Variable ctx : analysisContext.
Variable rec : expr -> M (option schema * value).
Hypothesis rec_sound :
  forall e v r v', rec e v = Some (r, v') -> soundResult r.

Lemma rec_wf e v s ex v' :
  rec e v = Some ((Some s, ex), v') -> wfSchema s = true.
Proof. intros H. now destruct (rec_sound _ _ _ _ H). Qed.

(** The state of the struct loop: the schemas of the properties are well
    formed and the required names are keys of the properties. *)
Lemma structNamed_sound field type acc name v acc' v' :
  (forall q, In q (propsOf acc) -> wfSchema (snd q) = true) ->
  (forall n, In n (snd acc) -> In n (akeys (propsOf acc))) ->
  structNamed pf ju rec field type acc name v = Some (acc', v') ->
  (forall q, In q (propsOf acc') -> wfSchema (snd q) = true)
  /\ (forall n, In n (snd acc') -> In n (akeys (propsOf acc'))).
Proof.
  intros Hwf Hreq. unfold structNamed.
  destruct name as [|c n0]; [intros [= <- _]; now split |].
  destruct (resolveJSONFieldName _ _) as [jsonName [|]];
    [intros [= <- _]; now split |].
  intros (res & v1 & Hrec & H)%bind_Some. destruct res as [[s|] fe];
    [| injection H as <- _; now split].
  apply rec_wf in Hrec. destruct acc as [[props ex] req].
  cbn in H. injection H as <- _. unfold propsOf in *. cbn [fst snd] in *. split.
  - intros q [->|Hq]%In_aset; [| now apply Hwf]. cbn [snd].
    destruct (fieldComment field); [exact Hrec |].
    now rewrite wfSchema_setDescription.
  - intros n Hn. apply akeys_aset.
    destruct (isFieldRequired _ _ _); [| right; now apply Hreq].
    apply in_app_or in Hn as [Hn|[<-|[]]]; [right; now apply Hreq | now left].
Qed.

Lemma structEmbedded_sound acc type v acc' v' :
  (forall q, In q (propsOf acc) -> wfSchema (snd q) = true) ->
  (forall n, In n (snd acc) -> In n (akeys (propsOf acc))) ->
  structEmbedded rec acc type v = Some (acc', v') ->
  (forall q, In q (propsOf acc') -> wfSchema (snd q) = true)
  /\ (forall n, In n (snd acc') -> In n (akeys (propsOf acc'))).
Proof.
  intros Hwf Hreq. unfold structEmbedded.
  intros (res & v1 & Hrec & H)%bind_Some. destruct res as [sch nested].
  destruct acc as [[props ex] req]. cbn in H. injection H as <- _.
  unfold propsOf in *. cbn [fst snd] in *.
  destruct sch as [s|]; [| now split].
  apply rec_wf in Hrec. destruct s as [k f d items ps rq add].
  apply wfSchema_parts in Hrec as (Hrq & _ & Hps & _). cbn [sProperties sRequired].
  destruct ps as [ps|].
  - split.
    + intros q [Hq|Hq]%In_amerge; [now apply Hwf | now apply (Hps ps)].
    + intros n [Hn|Hn]%in_app_or; apply akeys_amerge.
      * left. now apply Hreq.
      * right. destruct (Hrq n Hn) as (ps' & [= <-] & Hk). exact Hk.
  - split; [exact Hwf |].
    intros n [Hn|Hn]%in_app_or; [now apply Hreq |].
    destruct (Hrq n Hn) as (ps' & [=] & _).
Qed.

Lemma buildStructSchemaWith_sound fields v sch example v' :
  buildStructSchemaWith pf ju rec fields v = Some ((sch, example), v') ->
  soundResult (Some sch, VObj example).
Proof.
  unfold buildStructSchemaWith. intros (acc & v1 & Hfold & H)%bind_Some.
  assert (Hinv : (forall q, In q (propsOf acc) -> wfSchema (snd q) = true)
                 /\ (forall n, In n (snd acc) -> In n (akeys (propsOf acc)))).
  { revert Hfold.
    apply (foldM_invariant
             (fun acc => (forall q, In q (propsOf acc) -> wfSchema (snd q) = true)
                         /\ (forall n, In n (snd acc) -> In n (akeys (propsOf acc))))).
    - intros a [info type] v0 a' v0' _ [Hwf Hreq]. unfold structField.
      cbn [fst snd]. destruct (fieldNames info) as [|n0 names0].
      + now apply structEmbedded_sound.
      + apply (foldM_invariant
                 (fun acc => (forall q, In q (propsOf acc) -> wfSchema (snd q) = true)
                             /\ (forall n, In n (snd acc) -> In n (akeys (propsOf acc)))));
          [| now split].
        intros a1 name v1' a2 v2' _ [Hwf1 Hreq1]. now apply structNamed_sound.
    - split; intros ? []. }
  destruct acc as [[props ex] req]. cbn in H. injection H as <- <- _.
  unfold propsOf in Hinv. cbn [fst snd] in Hinv. destruct Hinv as [Hwf Hreq].
  split; [| reflexivity]. cbn [fst]. apply wfSchema_parts. repeat split.
  - intros name Hn. exists props. split; [reflexivity | now apply Hreq].
  - discriminate.
  - intros ps q [= <-]. apply Hwf.
  - discriminate.
Qed.

Lemma buildMapLiteralSchemaWith_sound elts v r v' :
  buildMapLiteralSchemaWith rec elts v = Some (r, v') -> soundResult r.
Proof.
  unfold buildMapLiteralSchemaWith. intros (acc & v1 & Hfold & H)%bind_Some.
  assert (Hinv : forall q, In q (fst acc) -> wfSchema (snd q) = true).
  { revert Hfold.
    apply (foldM_invariant
             (fun acc : list (string * schema) * list (string * value) =>
                forall q, In q (fst acc) -> wfSchema (snd q) = true)).
    - intros a elt v0 a' v0' _ Hwf. unfold mapLiteralElt.
      destruct elt; try (intros [= <- _]; exact Hwf).
      destruct (literalKeyToString elt1) as [|kc ks]; [intros [= <- _]; exact Hwf |].
      intros (res & v2 & Hrec & H')%bind_Some. destruct res as [[sv|] fe];
        destruct a as [props ex]; cbn in H'; injection H' as <- _;
        cbn [fst]; [| exact Hwf].
      apply rec_wf in Hrec. intros q [->|Hq]%In_aset; [exact Hrec | now apply Hwf].
    - intros ? []. }
  destruct acc as [props ex]. cbn in H. cbn [fst] in Hinv.
  destruct props as [|p props]; injection H as <- _; split; try reflexivity.
  cbn [fst]. apply wfSchema_parts. repeat split; try discriminate.
  - intros name [].
  - intros ps q [= <-]. apply Hinv.
Qed.

Lemma array_sound itemSchema examples :
  (forall s, itemSchema = Some s -> wfSchema s = true) ->
  soundResult (Some (mkSchema "array" None None itemSchema None [] None),
               VArr examples).
Proof.
  intros Hit. split; [| reflexivity]. cbn [fst]. apply wfSchema_parts.
  repeat split; try discriminate; [intros name [] | exact Hit].
Qed.

Lemma buildSchemaFromCompositeLiteralWith_sound type elts v r v' :
  buildSchemaFromCompositeLiteralWith pf ju ctx rec type elts v = Some (r, v') ->
  soundResult r.
Proof.
  unfold buildSchemaFromCompositeLiteralWith.
  assert (Hstruct : forall fields v r v',
            bind (buildStructSchemaWith pf ju rec fields)
              (fun '(sch, example) => ret (Some sch, VObj example)) v
            = Some (r, v') -> soundResult r).
  { intros fields v0 r0 v0' ([sch ex] & v1 & Hb & H)%bind_Some.
    injection H as <- _. now apply (buildStructSchemaWith_sound fields v0 _ _ v1). }
  destruct type as [t|]; [| apply buildMapLiteralSchemaWith_sound].
  destruct t; try apply rec_sound.
  - (* Ident *)
    destruct (structs ctx !! name) as [structType|]; [| apply rec_sound].
    intros ([sch ex] & v1 & Hb & H)%bind_Some.
    apply bind_Some in H as (lit & v2 & _ & H). injection H as <- _.
    destruct (buildStructSchemaWith_sound _ _ _ _ _ Hb) as [Hwf Hc].
    split; [exact Hwf | exact Hc].
  - (* SelectorExpr *)
    destruct (String.eqb _ _); [apply buildMapLiteralSchemaWith_sound | apply rec_sound].
  - (* ArrayType *)
    intros ([itemSchema ix] & v1 & Hrec & H)%bind_Some.
    apply bind_Some in H as (examples & v2 & _ & H). injection H as <- _.
    apply array_sound. intros s ->. now apply rec_wf in Hrec.
  - (* MapType *)
    apply buildMapLiteralSchemaWith_sound.
  - (* StructType *)
    apply Hstruct.
Qed.

Lemma primitive_sound name sch example :
  primitiveSchemaForIdent name = Some (sch, example) ->
  soundResult (Some sch, example).
Proof.
  unfold primitiveSchemaForIdent.
  repeat match goal with
    | |- context [if ?b then _ else _] => destruct b
    end; intros [= <- <-]; split; reflexivity.
Qed.

Lemma selector_sound fullName sch example :
  schemaForSelector fullName = Some (sch, example) ->
  soundResult (Some sch, example).
Proof.
  unfold schemaForSelector.
  repeat match goal with
    | |- context [if ?b then _ else _] => destruct b
    end; intros [= <- <-]; split; reflexivity.
Qed.

Lemma basicLit_sound kind v : soundResult (basicLitSchema pf kind v).
Proof.
  unfold basicLitSchema. destruct kind;
    repeat match goal with
      | |- context [match ?x with _ => _ end] => destruct x
      end; split; reflexivity.
Qed.

Lemma emptyObject_sound : soundResult emptyObject.
Proof. split; reflexivity. Qed.

Lemma string_sound v : soundResult (Some (typeSchema "string"), VString v).
Proof. split; reflexivity. Qed.

Lemma identByName_sound name v r v' :
  identByName pf ju ctx rec name v = Some (r, v') -> soundResult r.
Proof.
  unfold identByName.
  destruct (primitiveSchemaForIdent name) as [[sch ex]|] eqn:Hp.
  { intros [= <- _]. now apply (primitive_sound name). }
  destruct (structs ctx !! name) as [structType|];
    [| intros [= <- _]; apply string_sound].
  intros (seen & v1 & _ & H)%bind_Some.
  destruct seen; [injection H as <- _; apply emptyObject_sound |].
  apply bind_Some in H as (u & v2 & _ & H).
  apply bind_Some in H as ([sch ex] & v3 & Hb & H).
  apply bind_Some in H as (u' & v4 & _ & H). injection H as <- _.
  now apply (buildStructSchemaWith_sound _ _ _ _ _ Hb).
Qed.

Lemma identByType_sound name v r v' :
  identByType pf ju ctx rec name v = Some (r, v') -> soundResult r.
Proof.
  unfold identByType. destruct (variables ctx !! name);
    [apply rec_sound | apply identByName_sound].
Qed.

Lemma buildSchemaFromExprWith_sound e v r v' :
  buildSchemaFromExprWith pf ju ctx rec e v = Some (r, v') -> soundResult r.
Proof.
  destruct e; cbn [buildSchemaFromExprWith];
    try (intros [= <- _]; exact I).
  - (* Ident *)
    destruct (values ctx !! name) as [[valExpr|]|]; try apply identByType_sound.
    intros ([sch ex] & v1 & Hrec & H)%bind_Some.
    destruct sch; [| now apply identByType_sound in H].
    injection H as <- _. now apply rec_sound in Hrec.
  - (* BasicLit *)
    intros [= <- _]. apply basicLit_sound.
  - (* CompositeLit *)
    apply buildSchemaFromCompositeLiteralWith_sound.
  - (* SelectorExpr *)
    destruct (schemaForSelector _) as [[sch ex]|] eqn:Hs.
    { intros [= <- _]. now apply (selector_sound _ _ _ Hs). }
    destruct (String.eqb _ _); intros [= <- _];
      [apply emptyObject_sound | apply string_sound].
  - (* StarExpr *)
    apply rec_sound.
  - (* CallExpr *)
    destruct e; try (intros [= <- _]; apply emptyObject_sound).
    + destruct args as [|a [|b rest]].
      * destruct (lookupFunctionResult _ _ _);
          [intros [= <- _]; apply emptyObject_sound | apply rec_sound].
      * destruct (String.eqb name "new"); [apply rec_sound |].
        destruct (lookupFunctionResult _ _ _);
          [intros [= <- _]; apply emptyObject_sound | apply rec_sound].
      * destruct (lookupFunctionResult _ _ _);
          [intros [= <- _]; apply emptyObject_sound | apply rec_sound].
    + destruct args as [|a rest].
      * destruct (lookupFunctionResult _ _ _);
          [intros [= <- _]; apply emptyObject_sound | apply rec_sound].
      * destruct (isMarshal _); [apply rec_sound |].
        destruct (lookupFunctionResult _ _ _);
          [intros [= <- _]; apply emptyObject_sound | apply rec_sound].
  - (* ArrayType *)
    intros ([itemSchema itemExample] & v1 & Hrec & H)%bind_Some.
    destruct itemSchema as [s|]; injection H as <- _; [| exact I].
    apply array_sound. intros s' [= <-]. now apply rec_wf in Hrec.
  - (* MapType *)
    intros ([valueSchema valueExample] & v1 & Hrec & H)%bind_Some.
    injection H as <- _. split; [| reflexivity]. cbn [fst].
    apply wfSchema_parts. repeat split; try discriminate; [intros name [] |].
    intros a ->. now apply rec_wf in Hrec.
  - (* InterfaceType *)
    intros [= <- _]. apply emptyObject_sound.
  - (* StructType *)
    intros ([sch ex] & v1 & Hb & H)%bind_Some. injection H as <- _.
    now apply (buildStructSchemaWith_sound _ _ _ _ _ Hb).
Qed.

End Step.

Lemma buildSchemaFromExpr_sound pf ju fuel e ctx v r v' :
  buildSchemaFromExpr pf ju fuel e ctx v = Some (r, v') -> soundResult r.
Proof.
  revert e v r v'. induction fuel as [|f IH]; intros e v r v'; [discriminate |].
  cbn [buildSchemaFromExpr]. apply buildSchemaFromExprWith_sound.
  intros e0 v0 r0 v0'. apply IH.
Qed.


(** ** Examples after normalization *)

Lemma conforms_default s : conforms s (defaultExample s) = true.
Proof.
  destruct s as [k f d items props req add]. unfold conforms. cbn [sType defaultExample].
  destruct (String.eqb k "object") eqn:Eo.
  { apply String.eqb_eq in Eo. subst k. cbn. now destruct props. }
  destruct (String.eqb k "array") eqn:Ea.
  { apply String.eqb_eq in Ea. subst k. cbn. destruct items as [it|]; [| reflexivity].
    now destruct (defaultExample it). }
  destruct (String.eqb k "integer") eqn:Ei.
  { apply String.eqb_eq in Ei. subst k. reflexivity. }
  destruct (String.eqb k "number") eqn:En.
  { apply String.eqb_eq in En. subst k. reflexivity. }
  destruct (String.eqb k "boolean") eqn:Eb.
  { apply String.eqb_eq in Eb. subst k. reflexivity. }
  destruct (String.eqb k "string") eqn:Es; [| reflexivity].
  destruct f as [f|]; [| reflexivity].
  destruct (String.eqb f "date-time"); [reflexivity |].
  now destruct (String.eqb f "uuid").
Qed.

Lemma conforms_normalize rf s ex :
  conforms s ex = true -> conforms s (normalizeExample rf s ex) = true.
Proof.
  destruct s as [k f d items props req add]. unfold conforms. cbn [sType].
  destruct ex; cbn [normalizeExample]; try (intros H; exact H).
  - destruct (String.eqb k "array") eqn:Ea; [| intros H; exact H].
    apply String.eqb_eq in Ea. subst k. reflexivity.
  - destruct (String.eqb k "object") eqn:Eo; [| intros H; exact H].
    intros _. destruct props as [[|p ps]|]; try reflexivity.
    now destruct (fold_left _ _ _).
Qed.

Section Handler.
Variable pf : string -> option float64.
Variable ju : string -> option value.
Variable rf : string -> list (string * value) -> string.

Lemma recordResponse_sound fuel ct se de ctx a st' :
  recordResponse pf ju rf fuel ct se de (ctx, a) = Some st' ->
  exists code r,
    haResponses (snd st') = <[code := r]> (haResponses a)
    /\ haRequestBody (snd st') = haRequestBody a
    /\ soundResult (respSchema r, respExample r).
Proof.
  unfold recordResponse.
  destruct (extractStatusCode fuel se ctx) as [code|]; [| discriminate].
  destruct (resolveResponsePayloadExpr fuel de ctx) as [p|]; [| discriminate].
  destruct (buildSchemaFromExpr pf ju fuel p ctx ∅) as [[[sch ex] v]|] eqn:Hb;
    [| discriminate].
  intros [= <-]. eexists _, _. cbn [snd haResponses haRequestBody].
  split; [reflexivity |]. split; [reflexivity |].
  apply buildSchemaFromExpr_sound in Hb. unfold soundResult in *.
  cbn [fst snd respSchema respExample] in *. destruct sch as [s|]; [| exact I].
  destruct Hb as [Hwf Hc]. split; [exact Hwf |].
  cbn [normalizeExampleWithSchema defaultExampleFromSchema].
  destruct (isNil (normalizeExample rf s ex));
    [apply conforms_default | now apply conforms_normalize].
Qed.

Lemma resolveRequestBody_sound fuel fn arg ctx rb :
  resolveRequestBody pf ju fuel fn arg ctx = Some (Some rb) ->
  soundResult (rbSchema rb, rbExample rb).
Proof.
  unfold resolveRequestBody.
  destruct (resolveTypeFromArg arg ctx) as [t|]; [| discriminate].
  unfold buildRequestBodyFromExpr.
  destruct (buildSchemaFromExpr pf ju fuel t ctx ∅) as [[[[sch|] ex] v]|] eqn:Hb;
    [| discriminate..].
  intros [= <-]. now apply buildSchemaFromExpr_sound in Hb.
Qed.

(** What is recorded is sound. *)
Lemma analysis_sound fuel nodes st stF :
  (forall code r, haResponses (snd st) !! code = Some r ->
                  soundResult (respSchema r, respExample r)) ->
  (forall rb, haRequestBody (snd st) = Some rb ->
              soundResult (rbSchema rb, rbExample rb)) ->
  analyzeNodes pf ju rf fuel nodes st = Some stF ->
  (forall code r, haResponses (snd stF) !! code = Some r ->
                  soundResult (respSchema r, respExample r))
  /\ (forall rb, haRequestBody (snd stF) = Some rb ->
                 soundResult (rbSchema rb, rbExample rb)).
Proof.
  intros Hresp Hbody Hrun.
  refine (analyzeNodes_invariant pf ju rf
            (fun s => (forall code r, haResponses (snd s) !! code = Some r ->
                         soundResult (respSchema r, respExample r))
                      /\ (forall rb, haRequestBody (snd s) = Some rb ->
                            soundResult (rbSchema rb, rbExample rb)))
            fuel nodes _ st stF (conj Hresp Hbody) Hrun).
  clear. intros [ctx a] n st' [Hr Hb].
  destruct n as [tok specs|lhs tok rhs|k v tok x|fn args];
    try (intros [= <-]; now split).
  intros (a1 & Hreq & Hcall)%analyzeNode_call_inv.
  destruct (recordRequestBody_inv _ _ _ _ _ _ _ _ Hreq) as (_ & Hsame & Hrb).
  cbn [snd] in *.
  assert (Hb1 : forall rb, haRequestBody a1 = Some rb ->
                           soundResult (rbSchema rb, rbExample rb)).
  { intros rb Hrb1. destruct Hrb as [E|(arg & rest & res & _ & _ & _ & Hres & E)].
    - apply Hb. congruence.
    - rewrite E in Hrb1. injection Hrb1 as <-.
      now apply (resolveRequestBody_sound fuel fn arg ctx). }
  assert (Hr1 : forall code r, haResponses a1 !! code = Some r ->
                               soundResult (respSchema r, respExample r)).
  { intros code r. rewrite Hsame. apply Hr. }
  destruct Hcall as [[_ ->]|(ct & se & de & _ & Hrec)]; [now split |].
  destruct (recordResponse_sound _ _ _ _ _ _ _ Hrec) as (code' & r' & -> & -> & Hs).
  split; [| exact Hb1].
  intros code r [[<- <-]|[_ H]]%lookup_insert_Some; [exact Hs | now apply (Hr1 code)].
Qed.

Lemma details_sound fuel body structs functions analysis :
  analyzeHandlerDetails pf ju rf fuel body structs functions = Some analysis ->
  (forall code r, haResponses analysis !! code = Some r ->
                  soundResult (respSchema r, respExample r))
  /\ (forall rb, haRequestBody analysis = Some rb ->
                 soundResult (rbSchema rb, rbExample rb)).
Proof.
  unfold analyzeHandlerDetails. destruct body as [stmts|].
  2:{ intros [= <-]. split.
      - intros code r H. cbn in H. now rewrite lookup_empty in H.
      - discriminate. }
  destruct (analyzeNodes pf ju rf fuel _ _) as [[ctx a]|] eqn:E; [| discriminate].
  intros [= <-].
  apply (analysis_sound fuel _ _ (ctx, a)) in E; [exact E | |].
  - intros code r H. cbn in H. now rewrite lookup_empty in H.
  - discriminate.
Qed.

End Handler.

(** X5: a schema that the builder returns is well formed: every name in
    its [required] list is a key of its [properties], and so for the
    schemas of its properties, items and additional properties; hence so
    is every schema recorded for a response or a request body of a
    handler. *)
Theorem schemas_well_formed pf ju rf :
  (forall fuel e ctx v sch example v',
      buildSchemaFromExpr pf ju fuel e ctx v = Some ((Some sch, example), v') ->
      wfSchema sch = true)
  /\ (forall fuel body structs functions analysis,
        analyzeHandlerDetails pf ju rf fuel body structs functions
        = Some analysis ->
        (forall code r sch,
            haResponses analysis !! code = Some r -> respSchema r = Some sch ->
            wfSchema sch = true)
        /\ (forall rb sch,
              haRequestBody analysis = Some rb -> rbSchema rb = Some sch ->
              wfSchema sch = true)).
Proof.
  split.
  - intros fuel e ctx v sch example v' H.
    now destruct (buildSchemaFromExpr_sound _ _ _ _ _ _ _ _ H).
  - intros fuel body structs functions analysis H.
    destruct (details_sound pf ju rf _ _ _ _ _ H) as [Hr Hb]. split.
    + intros code r sch Hc Hs. specialize (Hr code r Hc).
      unfold soundResult in Hr. cbn [fst snd] in Hr. rewrite Hs in Hr. apply Hr.
    + intros rb sch Hrb Hs. specialize (Hb rb Hrb).
      unfold soundResult in Hb. cbn [fst snd] in Hb. rewrite Hs in Hb. apply Hb.
Qed.

Lemma schemas_well_formed_witness :
  exists analysis rb sch,
    analyzeHandlerDetails noFloat noJSON firstExact 4 (Some bindHandler)
      accountStructs ∅ = Some analysis
    /\ haRequestBody analysis = Some rb
    /\ rbSchema rb = Some sch
    /\ wfSchema sch = true.
Proof.
  destruct (analyzeHandlerDetails noFloat noJSON firstExact 4 (Some bindHandler)
              accountStructs ∅) as [analysis|] eqn:E;
    [| vm_compute in E; discriminate].
  destruct (haRequestBody analysis) as [rb|] eqn:Hrb.
  2:{ vm_compute in E. injection E as <-. discriminate. }
  destruct (rbSchema rb) as [sch|] eqn:Hs.
  2:{ vm_compute in E. injection E as <-. injection Hrb as <-. discriminate. }
  destruct (schemas_well_formed noFloat noJSON firstExact) as [_ H].
  destruct (H 4 (Some bindHandler) accountStructs ∅ analysis E) as [_ Hb].
  exists analysis, rb, sch. split; [reflexivity |]. split; [exact Hrb |].
  split; [exact Hs |]. now apply (Hb rb).
Defined.

(** X6: the example that the builder returns with a schema has the kind
    that the type of the schema names (a map for an object, a slice for
    an array, an integer for an integer, ...); and so has the example
    recorded with every response, after its normalization against the
    schema, and with the request body of a handler. *)
Theorem examples_conform pf ju rf :
  (forall fuel e ctx v sch example v',
      buildSchemaFromExpr pf ju fuel e ctx v = Some ((Some sch, example), v') ->
      conforms sch example = true)
  /\ (forall fuel body structs functions analysis,
        analyzeHandlerDetails pf ju rf fuel body structs functions
        = Some analysis ->
        (forall code r sch,
            haResponses analysis !! code = Some r -> respSchema r = Some sch ->
            conforms sch (respExample r) = true)
        /\ (forall rb sch,
              haRequestBody analysis = Some rb -> rbSchema rb = Some sch ->
              conforms sch (rbExample rb) = true)).
Proof.
  split.
  - intros fuel e ctx v sch example v' H.
    now destruct (buildSchemaFromExpr_sound _ _ _ _ _ _ _ _ H).
  - intros fuel body structs functions analysis H.
    destruct (details_sound pf ju rf _ _ _ _ _ H) as [Hr Hb]. split.
    + intros code r sch Hc Hs. specialize (Hr code r Hc).
      unfold soundResult in Hr. cbn [fst snd] in Hr. rewrite Hs in Hr. apply Hr.
    + intros rb sch Hrb Hs. specialize (Hb rb Hrb).
      unfold soundResult in Hb. cbn [fst snd] in Hb. rewrite Hs in Hb. apply Hb.
Qed.

Lemma examples_conform_witness :
  exists analysis r sch,
    analyzeHandlerDetails noFloat noJSON firstExact 4 (Some createdHandler)
      accountStructs ∅ = Some analysis
    /\ haResponses analysis !! "201" = Some r
    /\ respSchema r = Some sch
    /\ conforms sch (respExample r) = true.
Proof.
  destruct (analyzeHandlerDetails noFloat noJSON firstExact 4
              (Some createdHandler) accountStructs ∅) as [analysis|] eqn:E;
    [| vm_compute in E; discriminate].
  destruct (haResponses analysis !! "201") as [r|] eqn:Hr.
  2:{ vm_compute in E. injection E as <-. vm_compute in Hr. discriminate. }
  destruct (respSchema r) as [sch|] eqn:Hs.
  2:{ vm_compute in E. injection E as <-. vm_compute in Hr.
      injection Hr as <-. discriminate. }
  destruct (examples_conform noFloat noJSON firstExact) as [_ H].
  destruct (H 4 (Some createdHandler) accountStructs ∅ analysis E) as [Hresp _].
  exists analysis, r, sch. split; [reflexivity |]. split; [exact Hr |].
  split; [exact Hs |]. now apply (Hresp "201" r).
Defined.

End BuilderFacts.

(** * Route templates *)

Module TemplateFacts.
Import GoStrings Json AList Analyzer PathNorm Routes RouteNotions MoreSamples
  PathNormFacts.

Lemma canonicalPiece_OK p : pieceOK p = true -> pieceOK (canonicalPiece p) = true.
Proof.
  destruct p as [s|n|n|n pat]; simpl; try (intros H; exact H).
  now intros [H _]%andb_true_iff.
Qed.

Lemma canonicalSegment_OK s :
  segmentOK s = true -> segmentOK (canonicalSegment s) = true.
Proof.
  destruct s as [n|ps]; simpl.
  - intros ->. reflexivity.
  - induction ps as [|p ps IH]; simpl; [reflexivity |].
    intros [Hp Hps]%andb_true_iff. now rewrite (canonicalPiece_OK _ Hp), (IH Hps).
Qed.

Lemma render_canonicalPiece p : renderPiece (canonicalPiece p) = canonPiece p.
Proof. now destruct p. Qed.

Lemma canon_canonicalPiece p : canonPiece (canonicalPiece p) = canonPiece p.
Proof. now destruct p. Qed.

Lemma render_canonicalSegment s :
  renderSegment (canonicalSegment s) = canonSegment s.
Proof.
  destruct s as [n|ps]; simpl.
  - unfold flatten. simpl. now rewrite !app_assoc_s, app_empty_r.
  - rewrite map_map. f_equal. apply map_ext. intros p. apply render_canonicalPiece.
Qed.

Lemma canon_canonicalSegment s :
  canonSegment (canonicalSegment s) = canonSegment s.
Proof.
  destruct s as [n|ps]; simpl.
  - unfold flatten. simpl. now rewrite !app_assoc_s, app_empty_r.
  - rewrite map_map. f_equal. apply map_ext. intros p. apply canon_canonicalPiece.
Qed.

Lemma canonPath_render segs :
  canonPath segs = "/" +:+ renderPath (map canonicalSegment segs).
Proof.
  unfold canonPath, renderPath. rewrite map_map. do 2 f_equal.
  apply map_ext. intros s. symmetry. apply render_canonicalSegment.
Qed.

Lemma canonPath_canonical segs :
  canonPath (map canonicalSegment segs) = canonPath segs.
Proof.
  unfold canonPath. rewrite map_map. do 2 f_equal.
  apply map_ext. intros s. apply canon_canonicalSegment.
Qed.

Lemma canonical_OK segs :
  forallb segmentOK segs = true ->
  forallb segmentOK (map canonicalSegment segs) = true.
Proof.
  induction segs as [|s l IH]; simpl; [reflexivity |].
  intros [Hs Hl]%andb_true_iff. now rewrite (canonicalSegment_OK _ Hs), (IH Hl).
Qed.

Lemma convert_template path segs :
  forallb segmentOK segs = true -> isTemplate path segs ->
  convertPathToOpenAPI path = canonPath segs.
Proof.
  intros Hok [->|[-> Hno]]; [now apply convert_slashed |].
  rewrite <- (convert_slashed _ Hok).
  unfold convertPathToOpenAPI at 1. now rewrite Hno.
Qed.

Lemma convert_canonPath segs :
  forallb segmentOK segs = true ->
  convertPathToOpenAPI (canonPath segs) = canonPath segs.
Proof.
  intros Hok. rewrite canonPath_render at 1.
  rewrite (convert_slashed _ (canonical_OK _ Hok)). apply canonPath_canonical.
Qed.

(** Without the shape of a template the second pass may still change the
    path. *)
Example convert_twice_differs :
  convertPathToOpenAPI "/{}{}/x" = "/{}/x"
  /\ convertPathToOpenAPI "/{}/x" = "//x".
Proof. split; reflexivity. Qed.

(** X7: for a route whose path is a well-formed template, the path of
    the endpoint that [processRoute] builds is the canonical form of the
    template, and the normalisation that [GetOpenAPIJSON] applies to it
    once more leaves it as it is: the key of the route under ["paths"] is
    the path shown for the endpoint. *)
Theorem endpoint_path_stable rangeOrder route segs :
  forallb segmentOK segs = true ->
  isTemplate (routePath route) segs ->
  epPath (processRoute rangeOrder route) = canonPath segs
  /\ convertPathToOpenAPI (epPath (processRoute rangeOrder route))
     = epPath (processRoute rangeOrder route).
Proof.
  intros Hok Ht. unfold processRoute. cbn [epPath].
  rewrite (convert_template _ _ Hok Ht). split; [reflexivity |].
  now apply convert_canonPath.
Qed.

Lemma endpoint_path_stable_witness :
  epPath (processRoute mapOrder listedRoute) = "/api/{tenant}/{resource}/{slug}".
Proof.
  exact (proj1 (endpoint_path_stable mapOrder listedRoute
           [Pieces [Lit "api"]; Pieces [Angle "tenant"]; Colon "resource";
            Pieces [BracePat "slug" "[a-z-]+"]]
           eq_refl (or_intror (conj eq_refl eq_refl)))).
Defined.

(** ** The parameters of a template *)

Lemma Split_app x sep t :
  allChars (fun c => negb (Ascii.eqb c sep)) x = true ->
  Split (x +:+ String sep t) sep = x :: Split t sep.
Proof.
  induction x as [|c x IH]; simpl.
  - intros _. now rewrite Ascii.eqb_refl.
  - intros [Hc Hx]%andb_true_iff. apply negb_true_iff in Hc.
    rewrite Hc. now rewrite (IH Hx).
Qed.

Lemma trimRight_all p s : allChars p s = true -> trimRight p s = "".
Proof.
  induction s as [|c s IH]; simpl; [reflexivity |].
  intros [Hc Hs]%andb_true_iff. now rewrite (IH Hs), Hc.
Qed.

Lemma trimRight_app p n s :
  allChars (fun c => negb (p c)) n = true -> allChars p s = true ->
  trimRight p (n +:+ s) = n.
Proof.
  intros Hn Hs. induction n as [|c n IH]; simpl; [now apply trimRight_all |].
  simpl in Hn. apply andb_true_iff in Hn as [Hc Hn]. apply negb_true_iff in Hc.
  rewrite (IH Hn). destruct n; [now rewrite Hc | reflexivity].
Qed.

Lemma HasSuffix_eq s suf :
  HasSuffix s suf
  = if String.eqb s suf then true
    else match s with
         | EmptyString => false
         | String _ t => HasSuffix t suf
         end.
Proof. now destruct s. Qed.

Lemma HasSuffix_app a suf : HasSuffix (a +:+ suf) suf = true.
Proof.
  induction a as [|c a IH].
  - rewrite HasSuffix_eq. simpl. now rewrite String.eqb_refl.
  - rewrite HasSuffix_eq. change (String c a +:+ suf) with (String c (a +:+ suf)).
    cbv iota. rewrite IH. now destruct (String.eqb _ _).
Qed.

Lemma Contains_none sub c s :
  allChars (fun x => negb (Ascii.eqb c x)) s = true ->
  Contains s (String c sub) = false.
Proof.
  induction s as [|x s IH]; simpl; [reflexivity |].
  intros [Hx Hs]%andb_true_iff. apply negb_true_iff in Hx.
  rewrite Hx. now apply IH.
Qed.

Lemma Contains_app c n t :
  Contains (n +:+ String c t) (String c "") = true.
Proof.
  induction n as [|x n IH]; simpl.
  - now rewrite Ascii.eqb_refl.
  - destruct (Ascii.eqb c x); [reflexivity | exact IH].
Qed.

Lemma plain_not c (x : ascii) :
  (x = ":" \/ x = "{" \/ x = "}" \/ x = "/")%char ->
  plainChar c = true -> Ascii.eqb c x = false.
Proof.
  unfold plainChar. intros Hx H. apply negb_true_iff in H.
  rewrite !orb_false_iff in H. destruct H as (((((? & ?) & ?) & ?) & ?) & ?).
  destruct Hx as [->|[->|[->| ->]]]; assumption.
Qed.

Lemma pattern_not c (x : ascii) :
  (x = "{" \/ x = "}" \/ x = "/")%char ->
  patternChar c = true -> Ascii.eqb c x = false.
Proof.
  unfold patternChar. intros Hx H. apply negb_true_iff in H.
  rewrite !orb_false_iff in H. destruct H as ((((? & ?) & ?) & ?) & ?).
  destruct Hx as [->|[->| ->]]; assumption.
Qed.

Lemma plain_noBrace s :
  allChars plainChar s = true ->
  allChars (fun c => negb (inCutset "{}" c)) s = true.
Proof.
  apply allChars_weaken. intros c Hc. unfold inCutset. simpl.
  rewrite (plain_not c "{"), (plain_not c "}") by (auto || exact Hc).
  reflexivity.
Qed.

Lemma pattern_noBrace s :
  allChars patternChar s = true ->
  allChars (fun c => negb (inCutset "{}" c)) s = true.
Proof.
  apply allChars_weaken. intros c Hc. unfold inCutset. simpl.
  rewrite (pattern_not c "{"), (pattern_not c "}") by (auto || exact Hc).
  reflexivity.
Qed.

Lemma plain_noColon s :
  allChars plainChar s = true ->
  allChars (fun c => negb (Ascii.eqb c ":")) s = true.
Proof.
  apply allChars_weaken. intros c Hc. now rewrite (plain_not c ":") by (auto || exact Hc).
Qed.

Lemma plain_noColon' s :
  allChars plainChar s = true ->
  allChars (fun c => negb (Ascii.eqb ":" c)) s = true.
Proof.
  apply allChars_weaken. intros c Hc. rewrite Ascii.eqb_sym.
  now rewrite (plain_not c ":") by (auto || exact Hc).
Qed.

Lemma HasPrefix_plain s (x : ascii) :
  (x = ":" \/ x = "{" \/ x = "}" \/ x = "/")%char ->
  allChars plainChar s = true -> HasPrefix s (String x "") = false.
Proof.
  intros Hx. destruct s as [|c s]; [reflexivity |]. simpl.
  intros [Hc _]%andb_true_iff. rewrite HasPrefix_cons. rewrite Ascii.eqb_sym.
  now apply plain_not.
Qed.

(** Trimming the braces off a placeholder whose inside has none. *)
Lemma TrimCutset_braces inner :
  nonEmpty inner = true ->
  allChars (fun c => negb (inCutset "{}" c)) inner = true ->
  TrimCutset ("{" +:+ inner +:+ "}") "{}" = inner.
Proof.
  intros Hne Hin. unfold TrimCutset.
  change ("{" +:+ inner +:+ "}") with (String "{" (inner +:+ "}")).
  change (trimLeft (inCutset "{}") (String "{" (inner +:+ "}")))
    with (trimLeft (inCutset "{}") (inner +:+ "}")).
  destruct inner as [|c t]; [discriminate |].
  simpl in Hin. apply andb_true_iff in Hin as [Hc Ht].
  change (String c t +:+ "}") with (String c (t +:+ "}")).
  cbn [trimLeft]. apply negb_true_iff in Hc. rewrite Hc.
  change (String c (t +:+ "}")) with (String c t +:+ "}").
  apply trimRight_app; [| reflexivity].
  simpl. now rewrite Hc, Ht.
Qed.

Lemma partParams_empty : partParams "" = [].
Proof. reflexivity. Qed.

Lemma partParams_braces inner :
  nonEmpty inner = true ->
  allChars (fun c => negb (inCutset "{}" c)) inner = true ->
  partParams ("{" +:+ inner +:+ "}")
  = [if Contains inner ":" then hd "" (Split inner ":") else inner].
Proof.
  intros Hne Hin. unfold partParams.
  rewrite (TrimCutset_braces inner Hne Hin).
  change (HasPrefix ("{" +:+ inner +:+ "}") ":") with false.
  change (HasPrefix ("{" +:+ inner +:+ "}") "{") with true.
  replace (HasSuffix ("{" +:+ inner +:+ "}") "}") with true
    by (symmetry; apply (HasSuffix_app (String "{" inner) "}")).
  reflexivity.
Qed.

Lemma partParams_segment s :
  segmentOK s = true -> simpleSegment s = true ->
  partParams (renderSegment s) = segmentParams s.
Proof.
  destruct s as [n|[|p [|q ps]]]; try discriminate; intros Hok _.
  - (* :name *)
    unfold partParams. simpl renderSegment.
    change (":" +:+ n) with (String ":" n). reflexivity.
  - reflexivity.
  - simpl in Hok. rewrite andb_true_r in Hok.
    unfold renderSegment, flatten. cbn [map fold_right].
    rewrite app_empty_r.
    destruct p as [t|n|n|n pat]; cbn [pieceOK] in Hok;
      cbn [renderPiece segmentParams].
    + (* literal text *)
      unfold partParams.
      rewrite (HasPrefix_plain t ":"), (HasPrefix_plain t "{") by (auto || exact Hok).
      reflexivity.
    + reflexivity.
    + (* {name} *)
      apply andb_true_iff in Hok as [Hne Hn].
      rewrite (partParams_braces n Hne (plain_noBrace _ Hn)).
      now rewrite (Contains_none "" ":" n (plain_noColon' _ Hn)).
    + (* {name:pattern} *)
      apply andb_true_iff in Hok as [[Hne Hn]%andb_true_iff [Hpe Hp]%andb_true_iff].
      replace ("{" +:+ n +:+ ":" +:+ pat +:+ "}")
        with ("{" +:+ (n +:+ ":" +:+ pat) +:+ "}")
        by (simpl; now rewrite !app_assoc_s).
      rewrite partParams_braces.
      * change (n +:+ ":" +:+ pat) with (n +:+ String ":" pat).
        rewrite Contains_app. rewrite Split_app by now apply plain_noColon.
        reflexivity.
      * destruct n; [discriminate | reflexivity].
      * rewrite allChars_app. rewrite (plain_noBrace _ Hn).
        change (":" +:+ pat) with (String ":" pat). simpl.
        apply (pattern_noBrace _ Hp).
Qed.

Lemma flat_map_partParams segs :
  forallb segmentOK segs = true -> forallb simpleSegment segs = true ->
  flat_map partParams (map renderSegment segs) = flat_map segmentParams segs.
Proof.
  induction segs as [|s l IH]; simpl; [reflexivity |].
  intros [Hs Hl]%andb_true_iff [Hs' Hl']%andb_true_iff.
  now rewrite (partParams_segment _ Hs Hs'), (IH Hl Hl').
Qed.

Lemma extractPathParams_slashed segs :
  forallb segmentOK segs = true -> forallb simpleSegment segs = true ->
  extractPathParams ("/" +:+ renderPath segs) = flat_map segmentParams segs.
Proof.
  intros Hok Hs. unfold extractPathParams.
  destruct segs as [|s0 segs0]; [reflexivity |].
  unfold renderPath.
  replace ("/" +:+ Join (map renderSegment (s0 :: segs0)) "/")
    with (Join ("" :: map renderSegment (s0 :: segs0)) "/") by reflexivity.
  rewrite Split_Join; [| discriminate |].
  2:{ change (forallb (allChars notSlash) (map renderSegment (s0 :: segs0)) = true).
      now apply segments_notSlash. }
  change (flat_map partParams ("" :: map renderSegment (s0 :: segs0)))
    with (flat_map partParams (map renderSegment (s0 :: segs0))).
  now apply flat_map_partParams.
Qed.

Lemma extractPathParams_bare segs :
  forallb segmentOK segs = true -> forallb simpleSegment segs = true ->
  extractPathParams (renderPath segs) = flat_map segmentParams segs.
Proof.
  intros Hok Hs. unfold extractPathParams.
  destruct segs as [|s0 segs0]; [reflexivity |].
  unfold renderPath.
  rewrite Split_Join; [| discriminate | now apply segments_notSlash].
  now apply flat_map_partParams.
Qed.

(** X8: for a route template whose segments are each one literal, one
    placeholder or empty, [extractPathParams] returns, in the order of
    the segments, the names of the placeholders [":name"], ["{name}"]
    and ["{name:pattern}"], and no name for a placeholder ["<name>"];
    [extractParameters] makes of each a required path parameter of type
    string, whatever the handler. *)
Theorem template_parameters path segs handler :
  forallb segmentOK segs = true ->
  forallb simpleSegment segs = true ->
  isTemplate path segs ->
  extractPathParams path = flat_map segmentParams segs
  /\ extractParameters path handler
     = map pathParameter (flat_map segmentParams segs).
Proof.
  intros Hok Hs Ht.
  assert (H : extractPathParams path = flat_map segmentParams segs).
  { destruct Ht as [->|[-> _]];
      [now apply extractPathParams_slashed | now apply extractPathParams_bare]. }
  split; [exact H |].
  unfold extractParameters. rewrite H.
  destruct handler; simpl; now rewrite app_nil_r.
Qed.

Lemma template_parameters_witness :
  extractPathParams "/api/<tenant>/:resource/{slug:[a-z-]+}/{id}"
  = ["resource"; "slug"; "id"].
Proof.
  exact (proj1 (template_parameters
           "/api/<tenant>/:resource/{slug:[a-z-]+}/{id}"
           [Pieces [Lit "api"]; Pieces [Angle "tenant"]; Colon "resource";
            Pieces [BracePat "slug" "[a-z-]+"]; Pieces [Brace "id"]]
           HandlerNil eq_refl eq_refl (or_introl eq_refl))).
Defined.

End TemplateFacts.

(** * Merging parameters *)

Module MergeFacts.
Import GoStrings Json AList Analyzer PathNorm Routes RouteNotions MoreSamples.

Section Keyed.
Context {A : Type} (key : A -> string).


Lemma insertAll_snoc l x m :
  insertAll key (l ++ [x])%list m = <[key x := x]> (insertAll key l m).
Proof. unfold insertAll. now rewrite fold_left_app. Qed.

(** Where an entry of the map comes from. *)
Lemma insertAll_lookup l m k x :
  insertAll key l m !! k = Some x ->
  (x ∈ l /\ key x = k)
  \/ (m !! k = Some x /\ forall y, y ∈ l -> key y <> k).
Proof.
  revert x. induction l as [|y l IH] using rev_ind; intros x.
  - intros H. right. split; [exact H |]. intros y Hy. inversion Hy.
  - rewrite insertAll_snoc.
    intros [[<- <-]|[Hne H]]%lookup_insert_Some.
    + left. split; [| reflexivity]. apply elem_of_app. right. now left.
    + destruct (IH _ H) as [[Hin Hk]|[Hm Hl]].
      * left. split; [| exact Hk]. apply elem_of_app. now left.
      * right. split; [exact Hm |].
        intros z [Hz|Hz%list_elem_of_singleton]%elem_of_app;
          [now apply Hl | now subst z].
Qed.

(** The last element with a key is the entry under that key. *)
Lemma insertAll_last l1 x l2 m :
  (forall y, y ∈ l2 -> key y <> key x) ->
  insertAll key (l1 ++ x :: l2)%list m !! key x = Some x.
Proof.
  induction l2 as [|y l2 IH] using rev_ind; intros Hl2.
  - rewrite insertAll_snoc.
    apply lookup_insert_eq.
  - replace (l1 ++ x :: l2 ++ [y])%list with ((l1 ++ x :: l2) ++ [y])%list
      by now rewrite <- app_assoc.
    rewrite insertAll_snoc. rewrite lookup_insert_ne.
    + apply IH. intros z Hz. apply Hl2. apply elem_of_app. now left.
    + apply Hl2. apply elem_of_app. right. now left.
Qed.

Lemma insertAll_keep l m k :
  (forall y, y ∈ l -> key y <> k) -> insertAll key l m !! k = m !! k.
Proof.
  induction l as [|y l IH] using rev_ind; intros Hl; [reflexivity |].
  rewrite insertAll_snoc, lookup_insert_ne.
  - apply IH. intros z Hz. apply Hl. apply elem_of_app. now left.
  - apply Hl. apply elem_of_app. right. now left.
Qed.

(** Every key of the list is a key of the map. *)
Lemma insertAll_covers l m x :
  x ∈ l -> exists y, insertAll key l m !! key x = Some y /\ y ∈ l /\ key y = key x.
Proof.
  induction l as [|z l IH] using rev_ind; intros Hx; [inversion Hx |].
  rewrite insertAll_snoc.
  destruct (decide (key z = key x)) as [E|E].
  - exists z. rewrite <- E, lookup_insert_eq. split; [reflexivity |].
    split; [| reflexivity]. apply elem_of_app. right. now left.
  - apply elem_of_app in Hx as [Hx|Hx%list_elem_of_singleton]; [| now subst z].
    destruct (IH Hx) as (y & Hy & Hin & Hk). exists y.
    rewrite lookup_insert_ne by exact E. split; [exact Hy |].
    split; [| exact Hk]. apply elem_of_app. now left.
Qed.

Lemma insertAll_mono l m k x :
  m !! k = Some x -> exists y, insertAll key l m !! k = Some y.
Proof.
  revert x. induction l as [|z l IH] using rev_ind; intros x Hm; [now exists x |].
  rewrite insertAll_snoc. destruct (decide (key z = k)) as [<-|E].
  - exists z. apply lookup_insert_eq.
  - rewrite lookup_insert_ne by exact E. now apply (IH x).
Qed.

End Keyed.

Lemma paramMap_insertAll pathParams provided :
  paramMap pathParams provided
  = insertAll paramKey provided (insertAll paramKey pathParams ∅).
Proof. reflexivity. Qed.

(** Every entry of the map sits under its own key. *)
Lemma paramMap_keyed pathParams provided k p :
  paramMap pathParams provided !! k = Some p -> paramKey p = k.
Proof.
  rewrite paramMap_insertAll.
  intros [[_ H]|[[[_ H]|[H _]]%insertAll_lookup _]]%insertAll_lookup;
    [exact H | exact H |].
  now rewrite lookup_empty in H.
Qed.

Section Merge.
Variable rangeOrder : forall A : Type, gmap string A -> list (string * A).
Hypothesis rangeOrder_perm : anyOrder rangeOrder.

Lemma elem_of_rangeOrder {A} (m : gmap string A) k x :
  (k, x) ∈ rangeOrder A m <-> m !! k = Some x.
Proof. rewrite (rangeOrder_perm _ _). apply elem_of_map_to_list. Qed.

Lemma elem_of_merge pathParams provided p :
  p ∈ mergeParameters rangeOrder pathParams provided
  <-> paramMap pathParams provided !! paramKey p = Some p.
Proof.
  unfold mergeParameters. rewrite list_elem_of_fmap. split.
  - intros ([k q] & -> & H%elem_of_rangeOrder). cbn [snd].
    now rewrite (paramMap_keyed _ _ _ _ H).
  - intros H. exists (paramKey p, p). split; [reflexivity |].
    now apply elem_of_rangeOrder.
Qed.

Lemma merge_keys pathParams provided :
  NoDup (map paramKey (mergeParameters rangeOrder pathParams provided)).
Proof.
  unfold mergeParameters. rewrite map_map.
  assert (E : map (fun x => paramKey (snd x))
                (rangeOrder _ (paramMap pathParams provided))
              = map fst (rangeOrder _ (paramMap pathParams provided))).
  { apply map_ext_in. intros [k q] Hin. cbn [fst snd].
    apply list_elem_of_In, elem_of_rangeOrder in Hin.
    now apply paramMap_keyed in Hin. }
  rewrite E. change (NoDup ((rangeOrder _ (paramMap pathParams provided)).*1)).
  rewrite (rangeOrder_perm _ _). apply NoDup_fst_map_to_list.
Qed.

End Merge.

(** X9: [mergeParameters] returns, in the order in which Go visits the
    map, one parameter for each key [Name + ":" + In] that occurs in its
    arguments and no two with the same key; a provided parameter with no
    later provided parameter of the same key is in the result, and a
    detected path parameter is in the result only if no provided
    parameter has its key. *)
Theorem provided_parameters_win rangeOrder pathParams provided :
  anyOrder rangeOrder ->
  let result := mergeParameters rangeOrder pathParams provided in
  NoDup (map paramKey result)
  /\ (forall p, p ∈ (pathParams ++ provided)%list ->
                exists q, q ∈ result /\ paramKey q = paramKey p)
  /\ (forall p, p ∈ result ->
        p ∈ provided
        \/ (p ∈ pathParams /\ forall q, q ∈ provided -> paramKey q <> paramKey p))
  /\ (forall l1 p l2,
        provided = (l1 ++ p :: l2)%list ->
        (forall q, q ∈ l2 -> paramKey q <> paramKey p) -> p ∈ result).
Proof.
  intros Hperm result. subst result. split; [now apply merge_keys |].
  split; [| split].
  - intros p [Hp|Hp]%elem_of_app.
    + destruct (insertAll_covers paramKey pathParams ∅ p Hp) as (y & Hy & _ & _).
      destruct (insertAll_mono paramKey provided _ _ _ Hy) as [q Hq].
      exists q. rewrite <- paramMap_insertAll in Hq.
      pose proof (paramMap_keyed _ _ _ _ Hq) as Hk. split; [| exact Hk].
      apply (elem_of_merge _ Hperm). now rewrite Hk.
    + destruct (insertAll_covers paramKey provided
                  (insertAll paramKey pathParams ∅) p Hp) as (y & Hy & _ & Hk).
      exists y. split; [| exact Hk].
      apply (elem_of_merge _ Hperm). rewrite Hk, paramMap_insertAll. exact Hy.
  - intros p Hp%(elem_of_merge _ Hperm). rewrite paramMap_insertAll in Hp.
    apply insertAll_lookup in Hp as [[Hin _]|[Hm Hno]]; [now left | right].
    apply insertAll_lookup in Hm as [[Hin _]|[Hm _]].
    + split; [exact Hin | exact Hno].
    + now rewrite lookup_empty in Hm.
  - intros l1 p l2 -> Hl2. apply (elem_of_merge _ Hperm).
    rewrite paramMap_insertAll. now apply insertAll_last.
Qed.

Lemma provided_parameters_win_witness :
  documentedID ∈ mergeParameters mapOrder [pathParameter "id"] [documentedID].
Proof.
  refine (proj2 (proj2 (proj2
            (provided_parameters_win mapOrder [pathParameter "id"]
               [documentedID] _))) [] documentedID [] eq_refl _).
  - intros A m. reflexivity.
  - intros q Hq. inversion Hq.
Defined.

End MergeFacts.

(** * The section of a path *)

Module SectionFacts.
Import GoStrings Json AList Analyzer PathNorm Routes PathNormFacts.

Lemma Split_cons c t sep :
  Split (String c t) sep
  = if Ascii.eqb c sep then "" :: Split t sep
    else match Split t sep with
         | h :: r => String c h :: r
         | [] => [String c ""]
         end.
Proof. reflexivity. Qed.

(** Splitting distributes over a separator. *)
Lemma Split_sep a b sep :
  Split (a +:+ String sep b) sep = (Split a sep ++ Split b sep)%list.
Proof.
  induction a as [|c a IH].
  - simpl String.append. rewrite Split_cons, Ascii.eqb_refl. reflexivity.
  - change (String c a +:+ String sep b) with (String c (a +:+ String sep b)).
    rewrite !Split_cons, IH. destruct (Ascii.eqb c sep); [reflexivity |].
    destruct (Split a sep) as [|h r] eqn:E; [now apply Split_nonempty in E |].
    reflexivity.
Qed.

Lemma Split_trimLeft s x :
  In x (Split (trimLeft (Ascii.eqb "/") s) "/") -> In x (Split s "/").
Proof.
  induction s as [|c t IH]; [intros H; exact H |].
  cbn [trimLeft]. destruct (Ascii.eqb "/" c) eqn:E; [| intros H; exact H].
  rewrite Split_cons, Ascii.eqb_sym, E. intros H. right. now apply IH.
Qed.

Lemma trimRight_rest p s :
  exists t, s = trimRight p s +:+ t /\ allChars p t = true.
Proof.
  induction s as [|c s (t & Hs & Ht)]; [now exists "" |].
  cbn [trimRight]. destruct (trimRight p s) as [|d r] eqn:E.
  - simpl in Hs. destruct (p c) eqn:Hc.
    + exists (String c s). split; [reflexivity |].
      simpl. rewrite Hc. simpl. rewrite Hs. exact Ht.
    + exists t. split; [| exact Ht]. simpl. now f_equal.
  - exists t. split; [| exact Ht]. simpl. now f_equal.
Qed.

Lemma Split_slashes a t x :
  allChars (Ascii.eqb "/") t = true ->
  In x (Split a "/") -> In x (Split (a +:+ t) "/").
Proof.
  revert a. induction t as [|c t IH]; intros a Ht Hx.
  - now rewrite app_empty_r.
  - simpl in Ht. apply andb_true_iff in Ht as [Hc Ht].
    apply Ascii.eqb_eq in Hc. subst c.
    replace (a +:+ String "/" t) with ((a +:+ "/") +:+ t)
      by (rewrite app_assoc_s; reflexivity).
    apply IH; [exact Ht |].
    change (a +:+ "/") with (a +:+ String "/" "").
    rewrite Split_sep. apply in_or_app. now left.
Qed.

Lemma Split_Trim s x : In x (Split (Trim s "/") "/") -> In x (Split s "/").
Proof.
  unfold Trim. intros H. apply Split_trimLeft.
  destruct (trimRight_rest (Ascii.eqb "/") (trimLeft (Ascii.eqb "/") s))
    as (t & Hs & Ht).
  rewrite Hs. now apply Split_slashes.
Qed.

Lemma Split_notSlash s x : In x (Split s "/") -> allChars notSlash x = true.
Proof.
  revert x. induction s as [|c t IH]; intros x.
  - intros [<-|[]]. reflexivity.
  - rewrite Split_cons. destruct (Ascii.eqb c "/") eqn:E.
    + intros [<-|H]; [reflexivity | now apply IH].
    + destruct (Split t "/") as [|h r] eqn:Et; [now apply Split_nonempty in Et |].
      intros [<-|H].
      * simpl. unfold notSlash at 1. rewrite E. simpl. apply IH. now left.
      * apply IH. now right.
Qed.

(** X10: the section of a path is never empty and holds no ["/"]; it is
    ["default"] or one of the parts into which the ["/"] split the
    path. *)
Theorem section_of_path path :
  extractSection path <> ""
  /\ allChars notSlash (extractSection path) = true
  /\ (extractSection path = "default"
      \/ In (extractSection path) (Split path "/")).
Proof.
  assert (H : extractSection path = "default"
              \/ (extractSection path <> ""
                  /\ In (extractSection path) (Split (Trim path "/") "/"))).
  { unfold extractSection.
    destruct (find sectionCandidate (rev (Split (Trim path "/") "/")))
      as [part|] eqn:E.
    - right. apply find_some in E as [Hin Hc]. split.
      + intros ->. discriminate Hc.
      + now apply in_rev.
    - destruct (Split (Trim path "/") "/") as [|p r]; [now left |].
      destruct (String.eqb_spec p ""); [now left | right].
      split; [assumption | now left]. }
  destruct H as [->|[Hne Hin]].
  - split; [discriminate |]. split; [reflexivity | now left].
  - apply Split_Trim in Hin. split; [exact Hne |].
    split; [now apply (Split_notSlash path) | now right].
Qed.

End SectionFacts.

(** * Endpoints and sections *)

Module EndpointFacts.
Import GoStrings Json AList Analyzer PathNorm Routes PathNormFacts.

Lemma app_nonempty a c b : a +:+ String c b <> "".
Proof. now destruct a. Qed.

Lemma generateSummary_nonempty method path : generateSummary method path <> "".
Proof. unfold generateSummary. apply app_nonempty. Qed.

Lemma generateResponses_nonempty handler : generateResponses handler <> ∅.
Proof. unfold generateResponses. apply insert_non_empty. Qed.

(** X11: the endpoint that [processRoute] builds for a route has a path
    that starts with ["/"], a summary and a description that are not
    empty, and at least one response; it has a request body exactly when
    the route provides one. *)
Theorem endpoint_complete rangeOrder route :
  HasPrefix (epPath (processRoute rangeOrder route)) "/" = true
  /\ epSummary (processRoute rangeOrder route) <> ""
  /\ epDescription (processRoute rangeOrder route) <> ""
  /\ epResponses (processRoute rangeOrder route) <> ∅
  /\ epRequestBody (processRoute rangeOrder route) = routeRequestBody route.
Proof.
  unfold processRoute.
  cbn [epPath epSummary epDescription epResponses epRequestBody].
  assert (Hs : (if String.eqb (routeSummary route) ""
                then generateSummary (routeMethod route)
                       (convertPathToOpenAPI (routePath route))
                else routeSummary route) <> "").
  { destruct (String.eqb_spec (routeSummary route) "");
      [apply generateSummary_nonempty | assumption]. }
  split; [apply convert_starts_with_slash |].
  split; [exact Hs |]. split.
  - destruct (String.eqb_spec (routeDescription route) ""); assumption.
  - split; [| now destruct (routeRequestBody route)].
    destruct (Nat.eqb_spec (size (routeResponses route)) 0) as [E|E].
    + apply generateResponses_nonempty.
    + intros H. apply E. rewrite H. apply map_size_empty.
Qed.

End EndpointFacts.

Module SectionsFacts.
Import GoStrings Json AList Analyzer PathNorm Routes RouteNotions MoreSamples.

Section Sections.
Variable Title : string -> string.
Variable rangeOrder : forall A : Type, gmap string A -> list (string * A).

Abbreviation sectionOf e := (extractSection (epPath e)).
Abbreviation inSection k :=
  (fun e : Endpoint => String.eqb (extractSection (epPath e)) k).

Lemma filter_snoc {A} (f : A -> bool) l x :
  List.filter f (l ++ [x])%list
  = (List.filter f l ++ if f x then [x] else [])%list.
Proof.
  induction l as [|y l IH]; simpl; [now destruct (f x) |].
  rewrite IH. now destruct (f y).
Qed.

(** The sections after the first loop of [Generate]. *)
Lemma sections_invariant routes :
  let sections := fold_left (addEndpoint Title rangeOrder) routes ∅ in
  let endpoints := map (processRoute rangeOrder) routes in
  forall k,
    match sections !! k with
    | Some s =>
        secID s = k /\ secName s = Title k
        /\ secDescription s = Title k +:+ " related endpoints"
        /\ secEndpoints s = List.filter (inSection k) endpoints
        /\ secEndpoints s <> []
    | None => List.filter (inSection k) endpoints = []
    end.
Proof.
  induction routes as [|r routes IH] using rev_ind; intros sections endpoints k.
  - subst sections. cbn. now rewrite lookup_empty.
  - subst sections endpoints. rewrite fold_left_app, map_app. cbn [fold_left map].
    rewrite filter_snoc. unfold addEndpoint at 1.
    set (M := fold_left (addEndpoint Title rangeOrder) routes ∅) in *.
    set (e := processRoute rangeOrder r).
    destruct (String.eqb_spec (sectionOf e) k) as [E|E].
    + rewrite E, lookup_insert_eq. specialize (IH k). cbv zeta in IH.
      fold M in IH. destruct (M !! k) as [s|].
      * destruct IH as (H1 & H2 & H3 & H4 & H5). cbn.
        repeat split; try assumption; [now rewrite H4 | now destruct (secEndpoints s)].
      * cbn. unfold formatSectionName. rewrite IH. repeat split. discriminate.
    + rewrite lookup_insert_ne by exact E. rewrite app_nil_r. apply IH.
Qed.

End Sections.

(** What [Generate] stores, whatever the order of the map iteration. *)
Lemma Generate_sections Title rangeOrder routes :
  anyOrder rangeOrder ->
  let sections := Generate Title rangeOrder routes in
  let endpoints := map (processRoute rangeOrder) routes in
  NoDup (map secID sections)
  /\ (forall s, s ∈ sections ->
        secEndpoints s <> []
        /\ secName s = Title (secID s)
        /\ secEndpoints s
           = List.filter
               (fun e => String.eqb (extractSection (epPath e)) (secID s))
               endpoints)
  /\ (forall e, e ∈ endpoints ->
        exists s, s ∈ sections /\ secID s = extractSection (epPath e)
                  /\ e ∈ secEndpoints s).
Proof.
  intros Hperm sections endpoints.
  pose proof (sections_invariant Title rangeOrder routes) as Hinv.
  cbv zeta in Hinv. fold endpoints in Hinv.
  set (M := fold_left (addEndpoint Title rangeOrder) routes ∅) in *.
  assert (Hin : forall s, s ∈ sections <-> M !! secID s = Some s).
  { intros s. subst sections. unfold Generate. fold M.
    rewrite list_elem_of_fmap. split.
    - intros ([k s'] & -> & H). rewrite (Hperm _ _) in H.
      apply elem_of_map_to_list in H. cbn [snd].
      specialize (Hinv k). rewrite H in Hinv. destruct Hinv as [-> _]. exact H.
    - intros H. exists (secID s, s). split; [reflexivity |].
      rewrite (Hperm _ _). now apply elem_of_map_to_list. }
  split; [| split].
  - subst sections. unfold Generate. fold M. rewrite map_map.
    assert (E : map (fun x => secID (snd x)) (rangeOrder _ M)
                = map fst (rangeOrder _ M)).
    { apply map_ext_in. intros [k s] H. cbn [fst snd].
      apply list_elem_of_In in H. rewrite (Hperm _ _) in H.
      apply elem_of_map_to_list in H.
      specialize (Hinv k). rewrite H in Hinv. apply Hinv. }
    rewrite E. change (NoDup ((rangeOrder _ M).*1)).
    rewrite (Hperm _ _). apply NoDup_fst_map_to_list.
  - intros s Hs%Hin. specialize (Hinv (secID s)). rewrite Hs in Hinv.
    destruct Hinv as (_ & H2 & _ & H4 & H5). repeat split; assumption.
  - intros e He. specialize (Hinv (extractSection (epPath e))).
    assert (Hf : In e (List.filter
                         (fun e' => String.eqb (extractSection (epPath e'))
                                      (extractSection (epPath e))) endpoints)).
    { apply filter_In. split; [now apply list_elem_of_In | apply String.eqb_refl]. }
    destruct (M !! extractSection (epPath e)) as [s|] eqn:Hs.
    + destruct Hinv as (H1 & _ & _ & H4 & _). exists s.
      split; [apply Hin; now rewrite H1 |]. split; [exact H1 |].
      rewrite H4. now apply list_elem_of_In.
    + rewrite Hinv in Hf. destruct Hf.
Qed.

(** X12: [Generate] puts the endpoint of every route into the section
    named by [extractSection] of its path, and into no other: the
    sections have distinct names, none is without endpoints, and each
    holds, in the order of the routes, the endpoints of its name. *)
Theorem sections_partition Title rangeOrder routes :
  anyOrder rangeOrder ->
  let sections := Generate Title rangeOrder routes in
  let endpoints := map (processRoute rangeOrder) routes in
  NoDup (map secID sections)
  /\ (forall s, s ∈ sections ->
        secEndpoints s <> []
        /\ secName s = Title (secID s)
        /\ secEndpoints s
           = List.filter
               (fun e => String.eqb (extractSection (epPath e)) (secID s))
               endpoints)
  /\ (forall e, e ∈ endpoints ->
        exists s, s ∈ sections /\ secID s = extractSection (epPath e)
                  /\ e ∈ secEndpoints s).
Proof. exact (Generate_sections Title rangeOrder routes). Qed.

Lemma sections_partition_witness :
  NoDup (map secID (Generate plainTitle mapOrder [listedRoute; documentedRoute])).
Proof.
  refine (proj1 (sections_partition plainTitle mapOrder
                   [listedRoute; documentedRoute] _)).
  intros A m. reflexivity.
Defined.

End SectionsFacts.

(** * The paths of the OpenAPI document *)

Module PathsFacts.
Import GoStrings Json AList Analyzer PathNorm Routes RouteNotions MoreSamples
  PathNormFacts EndpointFacts SectionsFacts.

Lemma fold_operations sections paths :
  fold_left
    (fun paths section =>
       fold_left (addOperation (secName section)) (secEndpoints section) paths)
    sections paths
  = fold_left addOp (operations sections) paths.
Proof.
  revert paths. induction sections as [|s l IH]; intros paths; [reflexivity |].
  cbn [fold_left]. rewrite IH. unfold operations. cbn [flat_map].
  rewrite fold_left_app. f_equal.
  generalize (secEndpoints s). clear. intros es. revert paths.
  induction es as [|e es IH]; intros paths; [reflexivity |]. cbn. apply IH.
Qed.

Lemma addOp_lookup paths ne k m op item :
  addOp paths ne !! k = Some item -> item !! m = Some op ->
  (k = pathKeyOf (snd ne) /\ m = methodKeyOf (snd ne)
   /\ op = operationOf (fst ne) (snd ne))
  \/ (exists item', paths !! k = Some item' /\ item' !! m = Some op).
Proof.
  unfold addOp, addOperation. fold (pathKeyOf (snd ne)).
  fold (methodKeyOf (snd ne)).
  intros [[<- <-]|[Hne H]]%lookup_insert_Some Hm.
  - apply lookup_insert_Some in Hm as [[<- <-]|[Hne Hm]]; [now left | right].
    destruct (paths !! pathKeyOf (snd ne)) as [item'|] eqn:E.
    + now exists item'.
    + now rewrite lookup_empty in Hm.
  - right. now exists item.
Qed.

Lemma addOp_keeps paths ne k m item op :
  paths !! k = Some item -> item !! m = Some op ->
  exists item' op', addOp paths ne !! k = Some item' /\ item' !! m = Some op'.
Proof.
  intros Hk Hm. unfold addOp, addOperation. fold (pathKeyOf (snd ne)).
  fold (methodKeyOf (snd ne)).
  destruct (decide (pathKeyOf (snd ne) = k)) as [->|E].
  - rewrite Hk, lookup_insert_eq.
    destruct (decide (methodKeyOf (snd ne) = m)) as [->|E'].
    + eexists _, _. split; [reflexivity |]. apply lookup_insert_eq.
    + eexists _, op. split; [reflexivity |]. now rewrite lookup_insert_ne.
  - rewrite lookup_insert_ne by exact E. now exists item, op.
Qed.

Lemma addOp_sets paths ne :
  exists item,
    addOp paths ne !! pathKeyOf (snd ne) = Some item
    /\ item !! methodKeyOf (snd ne) = Some (operationOf (fst ne) (snd ne)).
Proof.
  unfold addOp, addOperation. fold (pathKeyOf (snd ne)).
  fold (methodKeyOf (snd ne)). rewrite lookup_insert_eq. eexists.
  split; [reflexivity |]. apply lookup_insert_eq.
Qed.

Lemma paths_present ops paths ne :
  In ne ops ->
  exists item op,
    fold_left addOp ops paths !! pathKeyOf (snd ne) = Some item
    /\ item !! methodKeyOf (snd ne) = Some op.
Proof.
  induction ops as [|x ops IH] using rev_ind; [intros [] |].
  rewrite fold_left_app. cbn [fold_left].
  intros [H|[<-|[]]]%in_app_or.
  - destruct (IH H) as (item & op & Hk & Hm). now apply (addOp_keeps _ _ _ _ item op).
  - destruct (addOp_sets (fold_left addOp ops paths) x) as (item & Hk & Hm).
    now exists item, (operationOf (fst x) (snd x)).
Qed.

Lemma paths_origin ops k m item op :
  fold_left addOp ops ∅ !! k = Some item -> item !! m = Some op ->
  exists ne, In ne ops /\ k = pathKeyOf (snd ne) /\ m = methodKeyOf (snd ne)
             /\ op = operationOf (fst ne) (snd ne).
Proof.
  revert item op. induction ops as [|x ops IH] using rev_ind; intros item op.
  - cbn. now rewrite lookup_empty.
  - rewrite fold_left_app. cbn [fold_left]. intros Hk Hm.
    destruct (addOp_lookup _ _ _ _ _ _ Hk Hm) as [(-> & -> & ->)|(item' & Hk' & Hm')].
    + exists x. split; [apply in_or_app; right; now left | now repeat split].
    + destruct (IH _ _ Hk' Hm') as (ne & Hin & H). exists ne.
      split; [apply in_or_app; now left | exact H].
Qed.

Lemma In_operations sections n e :
  In (n, e) (operations sections)
  <-> exists s, In s sections /\ n = secName s /\ In e (secEndpoints s).
Proof.
  unfold operations. rewrite in_flat_map. split.
  - intros (s & Hs & (e' & [= <- <-] & He)%in_map_iff). now exists s.
  - intros (s & Hs & -> & He). exists s. split; [exact Hs |].
    apply in_map_iff. now exists e.
Qed.

Lemma openAPIPaths_operations sections :
  openAPIPaths sections = fold_left addOp (operations sections) ∅.
Proof. apply fold_operations. Qed.

(** The operations that [GetOpenAPIJSON] visits are the endpoints of the
    routes, each under the title of its section. *)
Lemma operations_Generate Title rangeOrder routes n e :
  anyOrder rangeOrder ->
  In (n, e) (operations (Generate Title rangeOrder routes))
  <-> exists r, r ∈ routes /\ e = processRoute rangeOrder r
                /\ n = Title (extractSection (epPath e)).
Proof.
  intros Hperm.
  destruct (Generate_sections Title rangeOrder routes Hperm) as (_ & Hsec & Hall).
  rewrite In_operations. split.
  - intros (s & Hs%list_elem_of_In & -> & He).
    destruct (Hsec s Hs) as (_ & Hname & Hfilter).
    rewrite Hfilter in He. apply filter_In in He as [He Hk].
    apply String.eqb_eq in Hk.
    apply in_map_iff in He as (r & <- & Hr). exists r.
    split; [now apply list_elem_of_In |]. split; [reflexivity |].
    now rewrite Hname, Hk.
  - intros (r & Hr & -> & ->).
    destruct (Hall (processRoute rangeOrder r)) as (s & Hs & Hid & He).
    { apply list_elem_of_In, in_map, list_elem_of_In, Hr. }
    exists s. split; [now apply list_elem_of_In |].
    destruct (Hsec s Hs) as (_ & Hname & _).
    split; [now rewrite Hname, Hid | now apply list_elem_of_In].
Qed.

(** X13: in the ["paths"] of the OpenAPI document there is, for every
    route, an operation under the normalised path of its endpoint and
    its method in lower case; and every operation there is the one built
    for some route, under these keys, tagged with the title of the
    section of its endpoint. *)
Theorem routes_in_paths Title rangeOrder routes :
  anyOrder rangeOrder ->
  let paths := openAPIPaths (Generate Title rangeOrder routes) in
  (forall r, r ∈ routes ->
     exists item op,
       paths !! convertPathToOpenAPI (epPath (processRoute rangeOrder r))
       = Some item
       /\ item !! ToLower (routeMethod r) = Some op)
  /\ (forall k item m op,
        paths !! k = Some item -> item !! m = Some op ->
        exists r,
          r ∈ routes
          /\ k = convertPathToOpenAPI (epPath (processRoute rangeOrder r))
          /\ m = ToLower (routeMethod r)
          /\ op = operationOf
                    (Title (extractSection (epPath (processRoute rangeOrder r))))
                    (processRoute rangeOrder r)).
Proof.
  intros Hperm paths. subst paths. rewrite openAPIPaths_operations. split.
  - intros r Hr.
    apply (paths_present _ ∅
             (Title (extractSection (epPath (processRoute rangeOrder r))),
              processRoute rangeOrder r)).
    apply (operations_Generate _ _ _ _ _ Hperm). now exists r.
  - intros k item m op Hk Hm.
    destruct (paths_origin _ _ _ _ _ Hk Hm) as ([n e] & Hin & -> & -> & ->).
    apply (operations_Generate _ _ _ _ _ Hperm) in Hin as (r & Hr & -> & ->).
    exists r. now repeat split.
Qed.

Lemma routes_in_paths_witness :
  exists item op,
    openAPIPaths (Generate plainTitle mapOrder [listedRoute; documentedRoute])
    !! "/users/{id}" = Some item
    /\ item !! "get" = Some op.
Proof.
  refine (proj1 (routes_in_paths plainTitle mapOrder
                   [listedRoute; documentedRoute] _) documentedRoute _).
  - intros A m. reflexivity.
  - apply list_elem_of_In. right. now left.
Defined.

(** ** The shape of an operation *)

Lemma normalizeOpenAPIType_range goType :
  In (normalizeOpenAPIType goType) openAPITypes.
Proof.
  unfold normalizeOpenAPIType, openAPITypes.
  repeat match goal with
         | |- context [if ?b then _ else _] => destruct b
         end; simpl; tauto.
Qed.

Lemma orJSON_nonempty contentType : orJSON contentType <> "".
Proof.
  unfold orJSON. destruct (String.eqb_spec contentType ""); [discriminate | assumption].
Qed.

Lemma operationOf_shape rangeOrder sectionName route :
  let op := operationOf sectionName (processRoute rangeOrder route) in
  opResponses op <> ∅
  /\ (forall p, In p (opParameters op) -> In (oaSchemaType p) openAPITypes)
  /\ (forall code resp,
        opResponses op !! code = Some resp ->
        exists ct mt, ct <> "" /\ oaRespContent resp = {[ ct := mt ]})
  /\ (forall body,
        opRequestBody op = Some body ->
        exists ct mt, ct <> "" /\ oaBodyContent body = {[ ct := mt ]}).
Proof.
  intros op. subst op. unfold operationOf.
  cbn [opResponses opParameters opRequestBody]. split; [| split; [| split]].
  - rewrite fmap_empty_iff.
    apply (endpoint_complete rangeOrder route).
  - intros p (q & <- & _)%in_map_iff. apply normalizeOpenAPIType_range.
  - intros code resp (r & <- & _)%lookup_fmap_Some.
    eexists _, _. split; [apply orJSON_nonempty | reflexivity].
  - destruct (epRequestBody _) as [rb|]; [| discriminate].
    intros body [= <-].
    eexists _, _. split; [apply orJSON_nonempty | reflexivity].
Qed.

(** X14: every operation in the ["paths"] of the OpenAPI document sits
    under a path that starts with ["/"] and has at least one response;
    each of its responses, and its request body if it has one, has
    exactly one media type, under a content type that is not empty; and
    the schema type of each of its parameters is one of [integer],
    [number], [boolean], [string], [array] and [object]. *)
Theorem operations_well_formed Title rangeOrder routes :
  anyOrder rangeOrder ->
  forall k item m op,
    openAPIPaths (Generate Title rangeOrder routes) !! k = Some item ->
    item !! m = Some op ->
    HasPrefix k "/" = true
    /\ opResponses op <> ∅
    /\ (forall p, In p (opParameters op) -> In (oaSchemaType p) openAPITypes)
    /\ (forall code resp,
          opResponses op !! code = Some resp ->
          exists ct mt, ct <> "" /\ oaRespContent resp = {[ ct := mt ]})
    /\ (forall body,
          opRequestBody op = Some body ->
          exists ct mt, ct <> "" /\ oaBodyContent body = {[ ct := mt ]}).
Proof.
  intros Hperm k item m op Hk Hm.
  rewrite openAPIPaths_operations in Hk.
  destruct (paths_origin _ _ _ _ _ Hk Hm) as ([n e] & Hin & -> & -> & ->).
  apply (operations_Generate _ _ _ _ _ Hperm) in Hin as (r & Hr & -> & ->).
  split; [apply convert_starts_with_slash |].
  apply (operationOf_shape rangeOrder).
Qed.

Lemma operations_well_formed_witness :
  exists item op,
    openAPIPaths (Generate plainTitle mapOrder [documentedRoute])
    !! "/users/{id}" = Some item
    /\ item !! "get" = Some op
    /\ opResponses op <> ∅.
Proof.
  destruct (openAPIPaths (Generate plainTitle mapOrder [documentedRoute])
            !! "/users/{id}") as [item|] eqn:Hk;
    [| vm_compute in Hk; discriminate Hk].
  destruct (item !! "get") as [op|] eqn:Hm.
  2:{ vm_compute in Hk. injection Hk as <-. vm_compute in Hm. discriminate Hm. }
  exists item, op. split; [reflexivity |]. split; [exact Hm |].
  refine (proj1 (proj2 (operations_well_formed plainTitle mapOrder
                          [documentedRoute] _ _ item "get" op Hk Hm))).
  intros A m. reflexivity.
Defined.

End PathsFacts.

(** * Handlers on which the analysis does not return *)

Module DivergenceFacts.
Import GoStrings GoStrconv Ast Json AList Analyzer Notions Samples MoreSamples
  AListFacts MonadFacts HandlerFacts CycleFacts.

Section Facts.
Variable pf : string -> option float64.
Variable ju : string -> option value.
Variable rf : string -> list (string * value) -> string.

(** A response call whose payload is the variable that has the name of
    its struct, whatever its status argument. *)
Lemma shadow_response ctx a fuel statusExpr :
  structs ctx !! "Node" = Some nodeStruct ->
  values ctx !! "Node" = Some (Some (CompositeLit (Some (Ident "Node")) [])) ->
  analyzeNode pf ju rf fuel (ctx, a)
    (NCall (SelectorExpr (Ident "c") "JSON") [statusExpr; Ident "Node"])
  = None.
Proof.
  intros Hs Hval. cbn [analyzeNode].
  assert (Hinfo : responseCallInfo fuel (SelectorExpr (Ident "c") "JSON")
                    [statusExpr; Ident "Node"] ctx
                  = Some (Some ("application/json", statusExpr, Ident "Node")))
    by reflexivity.
  assert (Hrb : recordRequestBody pf ju fuel (SelectorExpr (Ident "c") "JSON")
                  [statusExpr; Ident "Node"] (ctx, a) = Some (ctx, a)).
  { unfold recordRequestBody. rewrite (response_not_binding _ _ _ _ _ Hinfo).
    now destruct (haRequestBody a). }
  rewrite Hrb. cbn [fst]. rewrite Hinfo. unfold recordResponse.
  destruct fuel as [|f];
    [now destruct (extractStatusCode 0 statusExpr ctx) |].
  destruct (extractStatusCode (S f) statusExpr ctx); [| reflexivity].
  cbn [resolveResponsePayloadExpr]. rewrite Hval.
  now rewrite (proj2 (proj2 (shadow_loop pf ju ctx Hs Hval (S f) ∅))).
Qed.

(** A binding call on a variable of that struct type. *)
Lemma shadow_binding ctx a fuel :
  structs ctx !! "Node" = Some nodeStruct ->
  values ctx !! "Node" = Some (Some (CompositeLit (Some (Ident "Node")) [])) ->
  variables ctx !! "req" = Some (Ident "Node") ->
  haRequestBody a = None ->
  analyzeNode pf ju rf fuel (ctx, a)
    (NCall (SelectorExpr (Ident "c") "ShouldBindJSON")
       [UnaryExpr AND (Ident "req")])
  = None.
Proof.
  intros Hs Hval Hreq Ha. cbn [analyzeNode]. unfold recordRequestBody.
  rewrite Ha. change (isBindingCall (SelectorExpr (Ident "c") "ShouldBindJSON"))
    with true. cbv iota.
  unfold resolveRequestBody. cbn [resolveTypeFromArg]. rewrite Hreq.
  unfold buildRequestBodyFromExpr.
  now rewrite (proj1 (shadow_loop pf ju ctx Hs Hval fuel ∅)).
Qed.

End Facts.

(** C2 fails on the handler [Node := Node{}; c.JSON(http.StatusCreated,
    Node)] over [type Node struct { Next *Node `json:"next"` }]: the
    status argument is a constant equal to 201 and resolves to ["201"],
    but whatever the bound on the depth of the recursion the analysis of
    the handler does not return within it, so no response is recorded
    under ["201"]; this is the recursion without end of the schema
    builder through a variable that has the name of its struct.  Where
    the analysis of a handler returns, a response call with a status
    constant equal to 201 has left a response under ["201"] with the
    description "Created", and one whose status resolves to nothing has
    left a response under ["200"]. *)
Theorem status_constant_unrecorded pf ju rf :
  (forall fuel ctx,
      extractStatusCode (S fuel) (SelectorExpr (Ident "http") "StatusCreated") ctx
      = Some "201")
  /\ (forall fuel,
        analyzeHandlerDetails pf ju rf fuel (Some createdShadowHandler)
          nodeStructs ∅ = None)
  /\ (forall fuel pre fn args post st0 ctx1 a1 stF ct statusExpr dataExpr,
        analyzeNodes pf ju rf fuel pre st0 = Some (ctx1, a1) ->
        analyzeNodes pf ju rf fuel (pre ++ NCall fn args :: post)%list st0
        = Some stF ->
        responseCallInfo fuel fn args ctx1
        = Some (Some (ct, statusExpr, dataExpr)) ->
        (forall x name,
            statusExpr = SelectorExpr x name ->
            httpStatusNameMap name = Some 201%Z ->
            exists r, haResponses (snd stF) !! "201" = Some r
                      /\ respDescription r = GoHTTP.StatusText 201
                      /\ respDescription r = "Created")
        /\ (unresolvedStatus statusExpr ctx1 ->
            exists r, haResponses (snd stF) !! "200" = Some r
                      /\ respDescription r = "OK")).
Proof.
  split; [| split].
  - intros fuel ctx. reflexivity.
  - intros fuel. unfold analyzeHandlerDetails.
    change (flat_map inspectStmt createdShadowHandler)
      with [ NAssign [Ident "Node"] DEFINE [CompositeLit (Some (Ident "Node")) []];
             NCall (SelectorExpr (Ident "c") "JSON")
               [SelectorExpr (Ident "http") "StatusCreated"; Ident "Node"] ].
    cbn [analyzeNodes].
    destruct (analyzeNode pf ju rf fuel _ (NAssign _ _ _)) as [[ctx a]|] eqn:E;
      [| reflexivity].
    cbn [analyzeNode] in E. injection E as <- <-.
    now rewrite shadow_response.
  - intros fuel pre fn args post st0 ctx1 a1 stF ct statusExpr dataExpr
           Hpre Hall Hinfo.
    destruct (status_resolution_returned pf ju rf fuel pre fn args post st0
                ctx1 a1 stF ct statusExpr dataExpr Hpre Hall Hinfo)
      as (H201 & H200 & _).
    split; assumption.
Qed.

Lemma status_constant_unrecorded_witness :
  exists stF r,
    analyzeNodes noFloat noJSON firstExact 4
      (flat_map inspectStmt createdHandler) (startState accountStructs)
    = Some stF
    /\ haResponses (snd stF) !! "201" = Some r
    /\ respDescription r = "Created".
Proof.
  destruct (analyzeNodes noFloat noJSON firstExact 4
              (flat_map inspectStmt createdHandler) (startState accountStructs))
    as [stF|] eqn:E; [| vm_compute in E; discriminate].
  destruct (status_constant_unrecorded noFloat noJSON firstExact) as (_ & _ & H).
  destruct (H 4 []
              (SelectorExpr (Ident "c") "JSON")
              [ SelectorExpr (Ident "http") "StatusCreated";
                CompositeLit (Some (Ident "Account"))
                  [KeyValueExpr (Ident "ID") (BasicLit INT "123")] ]
              [] (startState accountStructs)
              (mkContext accountStructs ∅ ∅ ∅) (mkAnalysis None ∅) stF
              "application/json"
              (SelectorExpr (Ident "http") "StatusCreated")
              (CompositeLit (Some (Ident "Account"))
                 [KeyValueExpr (Ident "ID") (BasicLit INT "123")])
              eq_refl E eq_refl) as (H201 & _).
  destruct (H201 (Ident "http") "StatusCreated" eq_refl eq_refl)
    as (r & Hr & _ & Hd).
  exists stF, r. repeat split; assumption.
Defined.

(** C6 fails on the handler [var req Node; Node := Node{};
    c.ShouldBindJSON(&req); c.JSON(200, Node)] over the same struct: the
    call is a binding call and the type of its argument resolves to
    [Node], but whatever the bound on the depth of the recursion the
    analysis of the handler does not return within it, so no request
    body is recorded; the recursion is the same.  Where the analysis of
    a handler returns, a recorded request body is required and is the
    one of the first binding call whose argument resolves, whatever
    follows it, and none is recorded if no binding call resolves. *)
Theorem binding_call_unrecorded pf ju rf :
  isBindingCall (SelectorExpr (Ident "c") "ShouldBindJSON") = true
  /\ (forall fuel,
        exists ctx1 a1,
          analyzeNodes pf ju rf fuel
            [ NDecl VAR [ValueSpec ["req"] (Some (Ident "Node")) []];
              NAssign [Ident "Node"] DEFINE
                [CompositeLit (Some (Ident "Node")) []] ]
            (startState nodeStructs)
          = Some (ctx1, a1)
          /\ haRequestBody a1 = None
          /\ resolveTypeFromArg (UnaryExpr AND (Ident "req")) ctx1
             = Some (Ident "Node"))
  /\ (forall fuel,
        analyzeHandlerDetails pf ju rf fuel (Some bindShadowHandler)
          nodeStructs ∅ = None)
  /\ (forall fuel nodes st0 stF,
        haRequestBody (snd st0) = None ->
        analyzeNodes pf ju rf fuel nodes st0 = Some stF ->
        (forall rb, haRequestBody (snd stF) = Some rb ->
            rbRequired rb = true
            /\ exists pre fn arg rest post ctx1 a1,
                 nodes = (pre ++ NCall fn (arg :: rest) :: post)%list
                 /\ analyzeNodes pf ju rf fuel pre st0 = Some (ctx1, a1)
                 /\ haRequestBody a1 = None
                 /\ isBindingCall fn = true
                 /\ resolveRequestBody pf ju fuel fn arg ctx1 = Some (Some rb))
        /\ (forall pre fn arg rest post ctx1 a1 resolved,
              nodes = (pre ++ NCall fn (arg :: rest) :: post)%list ->
              analyzeNodes pf ju rf fuel pre st0 = Some (ctx1, a1) ->
              haRequestBody a1 = None -> isBindingCall fn = true ->
              resolveRequestBody pf ju fuel fn arg ctx1 = Some (Some resolved) ->
              haRequestBody (snd stF) = Some resolved)
        /\ ((forall pre fn arg rest post ctx1 a1,
                nodes = (pre ++ NCall fn (arg :: rest) :: post)%list ->
                analyzeNodes pf ju rf fuel pre st0 = Some (ctx1, a1) ->
                isBindingCall fn = true ->
                resolveRequestBody pf ju fuel fn arg ctx1 = Some None) ->
            haRequestBody (snd stF) = None)).
Proof.
  split; [reflexivity |]. split; [| split].
  - intros fuel. eexists _, _. split; [reflexivity |]. split; reflexivity.
  - intros fuel. unfold analyzeHandlerDetails.
    change (flat_map inspectStmt bindShadowHandler)
      with [ NDecl VAR [ValueSpec ["req"] (Some (Ident "Node")) []];
             NAssign [Ident "Node"] DEFINE [CompositeLit (Some (Ident "Node")) []];
             NCall (SelectorExpr (Ident "c") "ShouldBindJSON")
               [UnaryExpr AND (Ident "req")];
             NCall (SelectorExpr (Ident "c") "JSON")
               [BasicLit INT "200"; Ident "Node"] ].
    cbn [analyzeNodes].
    destruct (analyzeNode pf ju rf fuel _ (NDecl _ _)) as [[ctx0 a0]|] eqn:E0;
      [| reflexivity].
    cbn [analyzeNode] in E0. injection E0 as <- <-.
    destruct (analyzeNode pf ju rf fuel _ (NAssign _ _ _)) as [[ctx1 a1]|] eqn:E1;
      [| reflexivity].
    cbn [analyzeNode] in E1. injection E1 as <- <-.
    rewrite shadow_binding; reflexivity.
  - intros fuel nodes st0 stF.
    apply (request_body_first_returned pf ju rf fuel nodes st0 stF).
Qed.

Lemma binding_call_unrecorded_witness :
  exists stF rb,
    analyzeNodes noFloat noJSON firstExact 4
      (flat_map inspectStmt bindHandler) (startState accountStructs)
    = Some stF
    /\ haRequestBody (snd stF) = Some rb
    /\ rbRequired rb = true
    /\ rbContentType rb = "application/json".
Proof.
  destruct (analyzeNodes noFloat noJSON firstExact 4
              (flat_map inspectStmt bindHandler) (startState accountStructs))
    as [stF|] eqn:E; [| vm_compute in E; discriminate].
  destruct (binding_call_unrecorded noFloat noJSON firstExact) as (_ & _ & _ & H).
  destruct (H 4 _ (startState accountStructs) stF eq_refl E) as (Hreq & _ & _).
  destruct (haRequestBody (snd stF)) as [rb|] eqn:Hrb.
  - exists stF, rb. split; [reflexivity |]. split; [exact Hrb |].
    split; [exact (proj1 (Hreq rb eq_refl)) |].
    vm_compute in E. injection E as <-. vm_compute in Hrb.
    injection Hrb as <-. reflexivity.
  - exfalso. vm_compute in E. injection E as <-. vm_compute in Hrb.
    discriminate.
Defined.

End DivergenceFacts.
